(** * Chatsave: the extractor, the renderer, the sanitizer and the store

    A shallow embedding of the conversion pipeline of the Chatsave browser
    extension and of the merge performed by its storage layer:

    - [extractTextContent], [processListElement], [processListItem],
      [cleanMarkdown] (common content-script utilities);
    - [renderMarkdown], [isListLine], [parseList], [buildListHTML],
      [getIndent], [inlineFormat] (viewer);
    - [sanitizeHTML] / [cleanNode] (ChatGPT content script);
    - [saveConversation] (IndexedDB layer of the background worker);
    - further on: [getConversation], [deleteConversation],
      [handleSaveConversation] and the handling of messages (background
      worker), [generateId] (common utilities), [getMessageContent] and
      the loop of [scrapeConversation] (ChatGPT content script), the
      same two of the Claude content script (module [Claude]), and the
      file name of [exportConversation] (viewer).

    JavaScript strings are modelled as [string]: sequences of code units
    below 256.  Regular expressions are modelled by hand-written matchers,
    one per pattern, driven by one scanner that implements the leftmost,
    non-overlapping search of [String.prototype.replace] with the [g] flag. *)

From Stdlib Require Import String Ascii List ZArith Lia Bool Arith Sorted.
From stdpp Require Import gmap strings.
Import ListNotations.
Open Scope string_scope.

(* ===================================================================== *)
(** ** Characters and character classes                                   *)
(* ===================================================================== *)

Definition LF  : ascii := "010"%char.
Definition CR  : ascii := "013"%char.
Definition NUL : ascii := "000"%char.
Definition DQ  : ascii := "034"%char.
Definition BT  : ascii := "`"%char.

Definition chr (c : ascii) : string := String c "".
Definition nl : string := chr LF.

(** [\s] (and the characters removed by [trim]) among code units < 256. *)
Definition isSpace (c : ascii) : bool :=
  let n := nat_of_ascii c in
  (((9 <=? n) && (n <=? 13)) || (n =? 32) || (n =? 160))%nat.

(** [\d] *)
Definition isDigit (c : ascii) : bool :=
  let n := nat_of_ascii c in ((48 <=? n) && (n <=? 57))%nat.

(** [\w] *)
Definition isWord (c : ascii) : bool :=
  let n := nat_of_ascii c in
  (((48 <=? n) && (n <=? 57)) || ((65 <=? n) && (n <=? 90))
   || ((97 <=? n) && (n <=? 122)) || (n =? 95))%nat.

(** Line terminators: [.] matches every character but these. *)
Definition isLineTerminator (c : ascii) : bool :=
  Ascii.eqb c LF || Ascii.eqb c CR.

(* ===================================================================== *)
(** ** String primitives                                                  *)
(* ===================================================================== *)

Fixpoint startsWith (p s : string) : bool :=
  match p, s with
  | "", _ => true
  | String a p', String b s' => Ascii.eqb a b && startsWith p' s'
  | String _ _, "" => false
  end.

Fixpoint dropStr (n : nat) (s : string) : string :=
  match n, s with
  | S k, String _ r => dropStr k r
  | _, _ => s
  end.

Fixpoint takeStr (n : nat) (s : string) : string :=
  match n, s with
  | S k, String c r => String c (takeStr k r)
  | _, _ => ""
  end.

Fixpoint revStr (acc s : string) : string :=
  match s with
  | "" => acc
  | String c r => revStr (String c acc) r
  end.

Definition endsWith (p s : string) : bool :=
  startsWith (revStr "" p) (revStr "" s).

(** Length of the longest prefix whose characters satisfy [p]. *)
Fixpoint spanLen (p : ascii -> bool) (s : string) : nat :=
  match s with
  | String c r => if p c then S (spanLen p r) else 0
  | "" => 0
  end.

Fixpoint allChars (p : ascii -> bool) (s : string) : bool :=
  match s with
  | "" => true
  | String c r => p c && allChars p r
  end.

Fixpoint repeatStr (s : string) (n : nat) : string :=
  match n with
  | 0 => ""
  | S k => s ++ repeatStr s k
  end.

(** [s.trimStart()], [s.trimEnd()], [s.trim()] *)
Definition trimStart (s : string) : string := dropStr (spanLen isSpace s) s.

Fixpoint trimEnd (s : string) : string :=
  match s with
  | "" => ""
  | String c r => if isSpace c && allChars isSpace r then ""
                  else String c (trimEnd r)
  end.

Definition trim (s : string) : string := trimEnd (trimStart s).

(** [s.split('\n')]: always at least one piece. *)
Fixpoint splitLines (s : string) : list string :=
  match s with
  | "" => [""]
  | String c r =>
      if Ascii.eqb c LF then "" :: splitLines r
      else match splitLines r with
           | l :: ls => String c l :: ls
           | [] => [chr c]
           end
  end.

(** [xs.join(sep)] *)
Fixpoint join (sep : string) (xs : list string) : string :=
  match xs with
  | [] => ""
  | [x] => x
  | x :: rest => x ++ sep ++ join sep rest
  end.

(** Decimal digits of a number, as template literals print an index. *)
Fixpoint digitsOf (fuel n : nat) (acc : string) : string :=
  match fuel with
  | 0 => acc
  | S f =>
      let acc' := String (ascii_of_nat (48 + n mod 10)) acc in
      if (n <? 10)%nat then acc' else digitsOf f (n / 10) acc'
  end.

Definition showNat (n : nat) : string := digitsOf (S n) n "".

(** [parseInt] on a string of decimal digits. *)
Fixpoint parseDigits (acc : nat) (s : string) : nat :=
  match s with
  | "" => acc
  | String c r => parseDigits (10 * acc + (nat_of_ascii c - 48)) r
  end.

Definition parseInt (s : string) : nat := parseDigits 0 s.

(* ===================================================================== *)
(** ** Global regular-expression search                                   *)
(* ===================================================================== *)

(** A search cuts the subject into literal characters and hits.  A matcher
    is given the character before the current position (for a lookbehind)
    and the text from the current position on; it answers with the captured
    data and the length of the match, which is never 0 for the patterns of
    this program.  After a hit the search resumes behind the match. *)
Inductive piece (M : Type) : Type :=
| Lit (c : ascii)
| Hit (m : M).
Arguments Lit {M} c.
Arguments Hit {M} m.

Fixpoint scan {M : Type} (matchAt : option ascii -> string -> option (M * nat))
         (prev : option ascii) (skip : nat) (s : string) : list (piece M) :=
  match s with
  | "" => []
  | String c r =>
      match skip with
      | S k => scan matchAt (Some c) k r
      | 0 =>
          match matchAt prev s with
          | Some (m, len) => Hit m :: scan matchAt (Some c) (len - 1) r
          | None => Lit c :: scan matchAt (Some c) 0 r
          end
      end
  end.

(** Reassemble, replacing the [i]-th hit by [f i m]. *)
Fixpoint assemble {M : Type} (f : nat -> M -> string) (i : nat)
         (ps : list (piece M)) : string :=
  match ps with
  | [] => ""
  | Lit c :: r => String c (assemble f i r)
  | Hit m :: r => f i m ++ assemble f (S i) r
  end.

Fixpoint hits {M : Type} (ps : list (piece M)) : list M :=
  match ps with
  | [] => []
  | Lit _ :: r => hits r
  | Hit m :: r => m :: hits r
  end.

Definition replaceAll {M : Type}
           (matchAt : option ascii -> string -> option (M * nat))
           (f : nat -> M -> string) (s : string) : string :=
  assemble f 0 (scan matchAt None 0 s).

(* ===================================================================== *)
(** ** Extractor: final clean-up                                          *)
(* ===================================================================== *)

Definition isLF (c : ascii) : bool := Ascii.eqb c LF.

(** [/\n{3,}/]: a run of three or more line feeds, taken greedily. *)
Definition matchNewlines3 (_ : option ascii) (s : string) : option (unit * nat) :=
  let k := spanLen isLF s in
  if (3 <=? k)%nat then Some (tt, k) else None.

(** [.replace(/\n{3,}/g, '\n\n')] *)
Definition collapseNewlines (s : string) : string :=
  replaceAll matchNewlines3 (fun _ _ => nl ++ nl) s.

(** [.replace(/^\n+/, '')] *)
Definition stripLeadingNewlines (s : string) : string :=
  dropStr (spanLen isLF s) s.

(** [.replace(/\n+$/, '')]: the leftmost position from which only line
    feeds follow up to the end. *)
Fixpoint stripTrailingNewlines (s : string) : string :=
  match s with
  | "" => ""
  | String c r => if isLF c && allChars isLF r then ""
                  else String c (stripTrailingNewlines r)
  end.

Definition cleanMarkdown (text : string) : string :=
  stripTrailingNewlines (stripLeadingNewlines (collapseNewlines text)).

(* ===================================================================== *)
(** ** How a call ends                                                    *)
(* ===================================================================== *)

(** [Thrown] is an exception that leaves the function, [Diverges] a loop
    whose state no longer changes, [Unfinished] the model running out of
    fuel. *)
Inductive JsError : Type := TypeError.

Inductive outcome (A : Type) : Type :=
| Returned (a : A)
| Thrown (e : JsError)
| Diverges
| Unfinished.
Arguments Returned {A} a.
Arguments Thrown {A} e.
Arguments Diverges {A}.
Arguments Unfinished {A}.

(* ===================================================================== *)
(** ** The document tree                                                  *)
(* ===================================================================== *)

(** A node of the host tree.  [tag] is the lower-cased tag name
    ([tagName.toLowerCase()]); [attrs] lists the attributes in document
    order.  Nodes that are neither text nor element are comments. *)
#[warnings="-register-all"]
Inductive Node : Type :=
| TextNode (text : string)
| CommentNode (data : string)
| ElementNode (tag : string) (attrs : list (string * string))
              (childNodes : list Node).

(** [el.getAttribute(name)]; [None] is [null]. *)
Fixpoint getAttribute (name : string) (attrs : list (string * string))
  : option string :=
  match attrs with
  | [] => None
  | (k, v) :: rest => if String.eqb k name then Some v else getAttribute name rest
  end.

Definition attrsOf (n : Node) : list (string * string) :=
  match n with
  | ElementNode _ attrs _ => attrs
  | _ => []
  end.

(** [el.className]: the class attribute, empty when absent. *)
Definition className (n : Node) : string :=
  match getAttribute "class" (attrsOf n) with
  | Some v => v
  | None => ""
  end.

(** [node.textContent] *)
Fixpoint textContent (n : Node) : string :=
  match n with
  | TextNode t => t
  | CommentNode d => d
  | ElementNode _ _ cs =>
      (fix go (l : list Node) : string :=
         match l with
         | [] => ""
         | CommentNode _ :: r => go r
         | c :: r => textContent c ++ go r
         end) cs
  end.

(** Descendant elements in document order (the node itself excluded). *)
Fixpoint descendants (n : Node) : list Node :=
  match n with
  | ElementNode _ _ cs =>
      (fix go (l : list Node) : list Node :=
         match l with
         | [] => []
         | c :: r =>
             match c with
             | ElementNode _ _ _ => (c :: descendants c ++ go r)%list
             | _ => go r
             end
         end) cs
  | _ => []
  end.

Definition hasTag (tags : list string) (n : Node) : bool :=
  match n with
  | ElementNode t _ _ => existsb (String.eqb t) tags
  | _ => false
  end.

(** [el.querySelectorAll('a, b')] for a list of tag names. *)
Definition querySelectorAll (tags : list string) (n : Node) : list Node :=
  List.filter (hasTag tags) (descendants n).

(** [el.querySelector(tag)] *)
Definition querySelector (tag : string) (n : Node) : option Node :=
  List.head (querySelectorAll [tag] n).

(* ===================================================================== *)
(** ** Extractor                                                          *)
(* ===================================================================== *)

(** Position of the first place where [p] holds of the remaining text. *)
Fixpoint findFirst (p : string -> bool) (s : string) : option string :=
  if p s then Some s
  else match s with
       | "" => None
       | String _ r => findFirst p r
       end.

(** [classes.match(/language-(\w+)/)], first capture group. *)
Definition matchLanguageWord (classes : string) : option string :=
  match findFirst (fun t => startsWith "language-" t
                            && (0 <? spanLen isWord (dropStr 9 t))%nat) classes with
  | Some t => let rest := dropStr 9 t in Some (takeStr (spanLen isWord rest) rest)
  | None => None
  end.

Definition extractCodeLanguage (codeEl : Node) : string :=
  match matchLanguageWord (className codeEl) with
  | Some lang => lang
  | None => ""
  end.

(** [extractTableContent]: one markdown row per [tr], a separator row
    after the first. *)
Definition extractTableContent (table : Node) : string :=
  let rows := querySelectorAll ["tr"] table in
  (fix go (rs : list Node) (i : nat) (md : string) : string :=
     match rs with
     | [] => md
     | row :: rest =>
         let cells := querySelectorAll ["th"; "td"] row in
         let cellTexts := List.map (fun c => trim (textContent c)) cells in
         let md1 := md ++ "| " ++ join " | " cellTexts ++ " |" ++ nl in
         let md2 := if (i =? 0)%nat
                    then md1 ++ "| " ++ join " | " (List.map (fun _ => "---") cellTexts)
                             ++ " |" ++ nl
                    else md1 in
         go rest (S i) md2
     end) rows 0 "".

(** The recursion context [{inline, indent}]; an absent field reads as
    [false] / [0], an absent context as both. *)
Record Ctx : Type := mkCtx { inline : bool; indent : nat }.

Definition noCtx : Ctx := mkCtx false 0.

(** [/^h[1-6]$/.test(tag)] with [parseInt(tag[1])] *)
Definition headingLevel (tag : string) : option nat :=
  match tag with
  | String "h" (String d "") =>
      let n := nat_of_ascii d in
      if ((49 <=? n) && (n <=? 54))%nat then Some (n - 48) else None
  | _ => None
  end.

Definition isSkippedTag (tag : string) : bool :=
  existsb (String.eqb tag) ["svg"; "button"; "nav"; "style"; "script"].

Definition isListTag (tag : string) : bool :=
  String.eqb tag "ul" || String.eqb tag "ol".

(** [href && !href.startsWith('javascript:')] after
    [getAttribute('href') || ''] *)
Definition linkTarget (attrs : list (string * string)) : string :=
  match getAttribute "href" attrs with
  | Some h => h
  | None => ""
  end.

Definition isNavigable (href : string) : bool :=
  negb (String.eqb href "") && negb (startsWith "javascript:" href).

(** The last step of [extractTextContent]:
    [return inline ? result : cleanMarkdown(result)] *)
Definition finish (ctx : Ctx) (result : string) : string :=
  if inline ctx then result else cleanMarkdown result.

(** The body of the [for] loop of [extractTextContent]: what one child
    adds to [result].  The three functions of the recursion are passed in
    and tied together below. *)
Definition extractChild
           (extractTextContent : Node -> Ctx -> string)
           (processListElement : Node -> nat -> string)
           (processListItem : Node -> nat -> string -> string)
           (ctx : Ctx) (child : Node) (result : string) : string :=
  let indent := indent ctx in
  match child with
  | TextNode t => result ++ t
  | CommentNode _ => result
  | ElementNode tag attrs _ =>
    if isSkippedTag tag then result
    else if String.eqb tag "pre" then
      let codeEl := match querySelector "code" child with
                    | Some c => c
                    | None => child
                    end in
      let lang := extractCodeLanguage codeEl in
      let codeText := textContent codeEl in
      result ++ nl ++ "```" ++ lang ++ nl ++ trim codeText ++ nl ++ "```" ++ nl
    else if String.eqb tag "code" then
      result ++ "`" ++ textContent child ++ "`"
    else if String.eqb tag "br" then
      result ++ (if inline ctx then " " else nl)
    else if String.eqb tag "p" then
      if inline ctx then
        let inner := extractTextContent child (mkCtx true indent) in
        (if (0 <? String.length result)%nat && negb (endsWith " " result)
         then result ++ " " else result) ++ inner
      else
        result ++ nl ++ extractTextContent child (mkCtx false indent) ++ nl
    else if String.eqb tag "div" then
      if inline ctx then
        result ++ extractTextContent child (mkCtx true indent)
      else
        result ++ extractTextContent child (mkCtx false indent)
    else if isListTag tag then
      result ++ processListElement child indent
    else if String.eqb tag "li" then
      result ++ processListItem child indent "-"
    else if String.eqb tag "strong" || String.eqb tag "b" then
      result ++ "**" ++ extractTextContent child ctx ++ "**"
    else if String.eqb tag "em" || String.eqb tag "i" then
      result ++ "*" ++ extractTextContent child ctx ++ "*"
    else
      match headingLevel tag with
      | Some level =>
          let text := trim (extractTextContent child (mkCtx true 0)) in
          result ++ nl ++ nl ++ repeatStr "#" level ++ " " ++ text ++ nl ++ nl
      | None =>
        if String.eqb tag "a" then
          let href := linkTarget attrs in
          let text := extractTextContent child ctx in
          if isNavigable href
          then result ++ "[" ++ text ++ "](" ++ href ++ ")"
          else result ++ text
        else if String.eqb tag "blockquote" then
          let inner := trim (extractTextContent child noCtx) in
          let lines := splitLines inner in
          result ++ nl ++ join nl (List.map (fun l => "> " ++ l) lines) ++ nl
        else if String.eqb tag "table" then
          result ++ nl ++ extractTableContent child ++ nl
        else if String.eqb tag "img" then
          let alt := match getAttribute "alt" attrs with
                     | Some a => if String.eqb a "" then "image" else a
                     | None => "image"
                     end in
          let src := match getAttribute "src" attrs with
                     | Some u => u
                     | None => ""
                     end in
          result ++ "![" ++ alt ++ "](" ++ src ++ ")"
        else if String.eqb tag "hr" then
          result ++ nl ++ nl ++ "---" ++ nl ++ nl
        else
          result ++ extractTextContent child ctx
      end
  end.

Fixpoint extractTextContent (element : Node) (ctx : Ctx) {struct element}
  : string :=
  match element with
  | TextNode _ | CommentNode _ => finish ctx ""
  | ElementNode _ _ childNodes =>
    finish ctx
      ((fix loop (children : list Node) (result : string) {struct children}
          : string :=
          match children with
          | [] => result
          | child :: rest =>
              loop rest (extractChild extractTextContent processListElement
                                      processListItem ctx child result)
          end) childNodes "")
  end

with processListElement (listEl : Node) (indent : nat) {struct listEl} : string :=
  let isOrdered := hasTag ["ol"] listEl in
  match listEl with
  | TextNode _ | CommentNode _ => nl
  | ElementNode _ _ childNodes =>
    (fix each (items : list Node) (i : nat) (result : string) {struct items}
       : string :=
       match items with
       | [] => result
       | item :: rest =>
           if hasTag ["li"] item then
             let marker := if isOrdered then showNat (i + 1) ++ "." else "-" in
             each rest (S i) (result ++ processListItem item indent marker)
           else each rest i result
       end) childNodes 0 nl
  end

with processListItem (li : Node) (indent : nat) (marker : string) {struct li}
  : string :=
  let prefix := repeatStr "  " indent in
  let parts :=
    match li with
    | TextNode _ | CommentNode _ => ("", "")
    | ElementNode _ _ childNodes =>
      (fix loop (children : list Node) (textParts nestedLists : string)
           {struct children} : string * string :=
         match children with
         | [] => (textParts, nestedLists)
         | child :: rest =>
             if hasTag ["ul"; "ol"] child
             then loop rest textParts
                       (nestedLists ++ processListElement child (indent + 1))
             else loop rest
                       (textParts ++ extractTextContent child (mkCtx true indent))
                       nestedLists
         end) childNodes "" ""
    end in
  prefix ++ marker ++ " " ++ trim (fst parts) ++ nl ++ snd parts.

(** The entry point as JavaScript sees it: the root may be [null] and the
    context may be absent.  [if (!element) return '']; no statement of the
    three functions throws. *)
Definition extractTextContentJS (element : option Node) (ctx : option Ctx)
  : outcome string :=
  match element with
  | None => Returned ""
  | Some e =>
      Returned (extractTextContent e (match ctx with Some c => c | None => noCtx end))
  end.

(* ===================================================================== *)
(** ** Renderer: escaping and inline formatting                           *)
(* ===================================================================== *)

(** [escapeHtml]: the text is stored in a detached element and read back
    as markup, which escapes [&], [<], [>] and the no-break space. *)
Definition escapeChar (c : ascii) : string :=
  if Ascii.eqb c "&" then "&amp;"
  else if Ascii.eqb c "<" then "&lt;"
  else if Ascii.eqb c ">" then "&gt;"
  else if (nat_of_ascii c =? 160)%nat then "&nbsp;"
  else chr c.

Fixpoint escapeHtml (text : string) : string :=
  match text with
  | "" => ""
  | String c r => escapeChar c ++ escapeHtml r
  end.

(** A lazy quantifier [x+?] followed by the rest of the pattern: consume
    characters allowed by [ok], at least one, and stop as soon as [stop]
    accepts what follows.  Returns the number of characters consumed. *)
Fixpoint lazyPlus (ok : ascii -> bool) (stop : string -> bool) (s : string)
  : option nat :=
  match s with
  | "" => None
  | String c r =>
      if ok c then
        if stop r then Some 1
        else match lazyPlus ok stop r with
             | Some k => Some (S k)
             | None => None
             end
      else None
  end.

(** [/\x00IC_(\d+)\x00/] and [/\x00CB_(\d+)\x00/]: the digits. *)
Definition matchPlaceholder (kind : string) (s : string) : option (string * nat) :=
  if startsWith (String NUL kind) s then
    let r := dropStr 4 s in
    let k := spanLen isDigit r in
    if (1 <=? k)%nat && startsWith (chr NUL) (dropStr k r)
    then Some (takeStr k r, 4 + k + 1)
    else None
  else None.

Definition matchInlinePlaceholder (_ : option ascii) (s : string) :=
  matchPlaceholder "IC_" s.

(** The bold pattern: two stars, one or more characters of a line taken
    lazily, two stars. *)
Definition matchBold (_ : option ascii) (s : string) : option (string * nat) :=
  if startsWith "**" s then
    let r := dropStr 2 s in
    match lazyPlus (fun c => negb (isLineTerminator c)) (startsWith "**") r with
    | Some k => Some (takeStr k r, 2 + k + 2)
    | None => None
    end
  else None.

Definition isStar (c : ascii) : bool := Ascii.eqb c "*".

(** The italic pattern: a star not preceded by a star, one or more
    characters other than a star taken lazily, and a star not followed by
    a star. *)
Definition matchItalic (prev : option ascii) (s : string) : option (string * nat) :=
  let behind := match prev with Some p => isStar p | None => false end in
  if negb behind && startsWith "*" s then
    let r := dropStr 1 s in
    match lazyPlus (fun c => negb (isStar c))
                   (fun t => startsWith "*" t && negb (startsWith "*" (dropStr 1 t))) r with
    | Some k => Some (takeStr k r, 1 + k + 1)
    | None => None
    end
  else None.

(** [/\[([^\]]+)\]\(([^)]+)\)/]: link text and target. *)
Definition matchLink (_ : option ascii) (s : string)
  : option ((string * string) * nat) :=
  if startsWith "[" s then
    let r := dropStr 1 s in
    let k := spanLen (fun c => negb (Ascii.eqb c "]")) r in
    if (1 <=? k)%nat && startsWith "](" (dropStr k r) then
      let r2 := dropStr (k + 2) r in
      let j := spanLen (fun c => negb (Ascii.eqb c ")")) r2 in
      if (1 <=? j)%nat && startsWith ")" (dropStr j r2)
      then Some ((takeStr k r, takeStr j r2), 1 + k + 2 + j + 1)
      else None
    else None
  else None.

(** [/&lt;br&gt;/] *)
Definition matchEscapedBr (_ : option ascii) (s : string) : option (unit * nat) :=
  if startsWith "&lt;br&gt;" s then Some (tt, 10) else None.

Definition quoted (s : string) : string := chr DQ ++ s ++ chr DQ.

(** [inlineCodes[parseInt(idx)]] passed to [escapeHtml]: an index past
    the end reads [undefined], which the detached element stores as the
    empty text. *)
Definition restoreInlineCode (inlineCodes : list string) (idx : string) : string :=
  "<code>" ++ escapeHtml (match nth_error inlineCodes (parseInt idx) with
                          | Some code => code
                          | None => ""
                          end) ++ "</code>".

Definition inlineFormat (text : string) (inlineCodes : list string) : string :=
  let html := escapeHtml text in
  let html := replaceAll matchInlinePlaceholder
                (fun _ idx => restoreInlineCode inlineCodes idx) html in
  let html := replaceAll matchBold
                (fun _ t => "<strong>" ++ t ++ "</strong>") html in
  let html := replaceAll matchItalic
                (fun _ t => "<em>" ++ t ++ "</em>") html in
  let html := replaceAll matchLink
                (fun _ m => "<a href=" ++ quoted (snd m) ++ " target="
                            ++ quoted "_blank" ++ " rel=" ++ quoted "noopener"
                            ++ ">" ++ fst m ++ "</a>") html in
  (* html.replace(/→/g, '→') leaves the text as it is *)
  replaceAll matchEscapedBr (fun _ _ => "<br>") html.

(* ===================================================================== *)
(** ** Renderer: lists                                                    *)
(* ===================================================================== *)

Definition isBullet (c : ascii) : bool := Ascii.eqb c "-" || Ascii.eqb c "*".

(** The text behind the marker [[-*]\s+] when [s] starts with one. *)
Definition afterBullet (s : string) : option string :=
  match s with
  | String c r =>
      if isBullet c && (1 <=? spanLen isSpace r)%nat
      then Some (dropStr (spanLen isSpace r) r) else None
  | "" => None
  end.

(** The text behind the marker [\d+\.\s+] when [s] starts with one. *)
Definition afterNumber (s : string) : option string :=
  let d := spanLen isDigit s in
  if (1 <=? d)%nat then
    match dropStr d s with
    | String c r =>
        if Ascii.eqb c "." && (1 <=? spanLen isSpace r)%nat
        then Some (dropStr (spanLen isSpace r) r) else None
    | "" => None
    end
  else None.

Definition isSome {A : Type} (o : option A) : bool :=
  match o with Some _ => true | None => false end.

(** [/^\s*\d+\.\s+/.test(line)] *)
Definition isOrderedLine (line : string) : bool :=
  isSome (afterNumber (trimStart line)).

(** [isListLine]: optional white space, then either a hyphen or star and
    white space, or digits, a dot and white space. *)
Definition isListLine (line : string) : bool :=
  isSome (afterBullet (trimStart line)) || isOrderedLine line.

(** [getIndent]: the length of the leading white space. *)
Definition getIndent (line : string) : nat := spanLen isSpace line.

(** [.replace(/^\s*[-*]\s+/, '').replace(/^\s*\d+\.\s+/, '')] *)
Definition stripMarkers (line : string) : string :=
  let s1 := match afterBullet (trimStart line) with
            | Some t => t
            | None => line
            end in
  match afterNumber (trimStart s1) with
  | Some t => t
  | None => s1
  end.

(** [buildListHTML] and its [while] loop.  The recursion of the source is
    not structural, so both take fuel; [None] means the fuel ran out. *)
Fixpoint buildListHTML (fuel : nat) (listLines : list string) (fromIndex : nat)
         (inlineCodes : list string) {struct fuel} : option (string * nat) :=
  match fuel with
  | 0 => None
  | S f =>
    match nth_error listLines fromIndex with
    | None => Some ("", fromIndex)
    | Some first =>
      let baseIndent := getIndent first in
      let tag := if isOrderedLine first then "ol" else "ul" in
      match buildListLoop f listLines inlineCodes baseIndent
                          ("<" ++ tag ++ ">") fromIndex with
      | Some (html, i) => Some (html ++ "</" ++ tag ++ ">", i)
      | None => None
      end
    end
  end

with buildListLoop (fuel : nat) (listLines : list string)
       (inlineCodes : list string) (baseIndent : nat) (html : string) (i : nat)
       {struct fuel} : option (string * nat) :=
  match fuel with
  | 0 => None
  | S f =>
    match nth_error listLines i with
    | None => Some (html, i)
    | Some line =>
      let indent := getIndent line in
      if (indent <? baseIndent)%nat then Some (html, i)
      else if (indent =? baseIndent)%nat then
        let text := stripMarkers line in
        let html := html ++ "<li>" ++ inlineFormat text inlineCodes in
        let deeper := match nth_error listLines (i + 1) with
                      | Some next => (baseIndent <? getIndent next)%nat
                      | None => false
                      end in
        if deeper then
          match buildListHTML f listLines (i + 1) inlineCodes with
          | Some (nested, endIndex) =>
              buildListLoop f listLines inlineCodes baseIndent
                            (html ++ nested ++ "</li>") endIndex
          | None => None
          end
        else
          buildListLoop f listLines inlineCodes baseIndent
                        (html ++ "</li>") (i + 1)
      else
        match buildListHTML f listLines i inlineCodes with
        | Some (nested, endIndex) =>
            buildListLoop f listLines inlineCodes baseIndent
                          (html ++ nested) endIndex
        | None => None
        end
    end
  end.

(** Fuel that is enough for a run of [n] lines. *)
Definition listFuel (n : nat) : nat := 3 * n + 3.

(** Length of the longest prefix of [l] whose elements satisfy [p]. *)
Fixpoint runLength {A : Type} (p : A -> bool) (l : list A) : nat :=
  match l with
  | x :: r => if p x then S (runLength p r) else 0
  | [] => 0
  end.

(** The lines collected by the first loop of [parseList]. *)
Definition listRegion (lines : list string) (startIdx : nat) : list string :=
  let rest := skipn startIdx lines in
  firstn (runLength isListLine rest) rest.

Definition parseList (lines : list string) (startIdx : nat)
           (inlineCodes : list string) : option string :=
  let listLines := listRegion lines startIdx in
  match buildListHTML (listFuel (List.length listLines)) listLines 0 inlineCodes with
  | Some (html, _) => Some html
  | None => None
  end.

(* ===================================================================== *)
(** ** Renderer: blocks                                                   *)
(* ===================================================================== *)

(** Index of the first occurrence of [p] in [s]. *)
Fixpoint indexOf (p s : string) : option nat :=
  if startsWith p s then Some 0
  else match s with
       | "" => None
       | String _ r => match indexOf p r with
                       | Some k => Some (S k)
                       | None => None
                       end
       end.

(** The fence pattern: three backticks, word characters (the language), a
    line feed, any text taken lazily (the code), three backticks. *)
Definition matchFence (_ : option ascii) (s : string)
  : option ((string * string) * nat) :=
  if startsWith "```" s then
    let r := dropStr 3 s in
    let k := spanLen isWord r in
    match dropStr k r with
    | String c body =>
        if isLF c then
          match indexOf "```" body with
          | Some j => Some ((takeStr k r, takeStr j body), 3 + k + 1 + j + 3)
          | None => None
          end
        else None
    | "" => None
    end
  else None.

(** The inline-code pattern: a backtick, one or more characters that are
    neither a backtick nor a line feed, a backtick. *)
Definition matchInlineCode (_ : option ascii) (s : string) : option (string * nat) :=
  match s with
  | String c r =>
      if Ascii.eqb c BT then
        let k := spanLen (fun x => negb (Ascii.eqb x BT) && negb (isLF x)) r in
        if (1 <=? k)%nat && startsWith "`" (dropStr k r)
        then Some (takeStr k r, k + 2) else None
      else None
  | "" => None
  end.

Record CodeBlock : Type := mkCodeBlock { language : string; code : string }.

(** [{ language: lang || 'plaintext', code: code.trimEnd() }] *)
Definition toCodeBlock (m : string * string) : CodeBlock :=
  mkCodeBlock (if String.eqb (fst m) "" then "plaintext" else fst m)
              (trimEnd (snd m)).

(** The sentinel put in place of the [idx]-th extracted span. *)
Definition placeholder (kind : string) (idx : nat) : string :=
  String NUL (kind ++ showNat idx ++ chr NUL).

(** A line that is one code-block sentinel and nothing else: its digits. *)
Definition matchCodeLine (line : string) : option string :=
  match matchPlaceholder "CB_" line with
  | Some (digits, len) =>
      if (len =? String.length line)%nat then Some digits else None
  | None => None
  end.

Definition isHash (c : ascii) : bool := Ascii.eqb c "#".

Definition notTerminator (c : ascii) : bool := negb (isLineTerminator c).

(** The greedy white space of the heading pattern gives characters back
    one at a time until the rest of the line is a non-empty text without a
    line terminator: the first [j] among [k], [k-1], ..., [1] that works. *)
Fixpoint firstDown (k : nat) (ok : nat -> bool) : option nat :=
  match k with
  | 0 => None
  | S k' => if ok k then Some k else firstDown k' ok
  end.

(** The heading pattern: one to four hashes, white space, a non-empty
    text up to the end of the line.  Returns the level and the text. *)
Definition matchHeading (line : string) : option (nat * string) :=
  let h := spanLen isHash line in
  if (1 <=? h)%nat && (h <=? 4)%nat then
    let r := dropStr h line in
    let k := spanLen isSpace r in
    match firstDown k (fun j => let t := dropStr j r in
                                negb (String.eqb t "") && allChars notTerminator t) with
    | Some j => Some (h, dropStr j r)
    | None => None
    end
  else None.

(** One to four hashes followed by white space, as the paragraph loop
    tests it. *)
Definition startsHeading (line : string) : bool :=
  let h := spanLen isHash line in
  (1 <=? h)%nat && (h <=? 4)%nat
  && match dropStr h line with
     | String c _ => isSpace c
     | "" => false
     end.

(** Three or more hyphens and nothing else, after [trim]. *)
Definition isRule (line : string) : bool :=
  let t := trim line in
  (3 <=? String.length t)%nat && allChars (Ascii.eqb "-") t.

Definition isQuoteLine (line : string) : bool := startsWith "> " line.

Definition isBlank (line : string) : bool := String.eqb (trim line) "".

(** The heading weight: [#] is [h2], [##] and [###] are [h3], [####] is
    [h4]. *)
Definition headingTag (lvl : nat) : string :=
  if (lvl =? 1)%nat then "h2" else if (lvl <=? 3)%nat then "h3" else "h4".

Definition codeBlockHtml (cb : CodeBlock) : string :=
  "<div class=" ++ quoted "code-block" ++ "><div class="
    ++ quoted "code-block-header" ++ "><span class=" ++ quoted "code-lang"
    ++ ">" ++ language cb ++ "</span><button class=" ++ quoted "code-copy-btn"
    ++ ">Copy code</button></div><pre><code class="
    ++ quoted ("language-" ++ language cb) ++ ">" ++ escapeHtml (code cb)
    ++ "</code></pre></div>".

(** The tests that end a paragraph. *)
Definition endsParagraph (pLine : string) : bool :=
  isBlank pLine || startsHeading pLine || isListLine pLine
  || isQuoteLine pLine || isRule pLine || isSome (matchCodeLine pLine).

(** The [while (i < lines.length)] loop of [renderMarkdown].  Every turn
    that changes [i] moves it forward, so [fuel] above the number of lines
    is enough; a turn that leaves [i] and [blocks] as they were repeats for
    ever. *)
Fixpoint blockLoop (fuel : nat) (codeBlocks : list CodeBlock)
         (inlineCodes : list string) (lines : list string) (i : nat)
         (blocks : list string) {struct fuel} : outcome (list string) :=
  match fuel with
  | 0 => Unfinished
  | S f =>
    match nth_error lines i with
    | None => Returned blocks
    | Some line =>
      match matchCodeLine line with
      | Some digits =>
          match nth_error codeBlocks (parseInt digits) with
          | Some cb =>
              blockLoop f codeBlocks inlineCodes lines (i + 1)
                        (blocks ++ [codeBlockHtml cb])
          | None => Thrown TypeError
          end
      | None =>
      match matchHeading line with
      | Some (lvl, text) =>
          let tag := headingTag lvl in
          blockLoop f codeBlocks inlineCodes lines (i + 1)
                    (blocks ++ ["<" ++ tag ++ ">" ++ inlineFormat text inlineCodes
                                    ++ "</" ++ tag ++ ">"])
      | None =>
        if isRule line then
          blockLoop f codeBlocks inlineCodes lines (i + 1) (blocks ++ ["<hr>"])
        else if isQuoteLine line then
          let rest := skipn i lines in
          let n := runLength isQuoteLine rest in
          let qLines := List.map (dropStr 2) (firstn n rest) in
          blockLoop f codeBlocks inlineCodes lines (i + n)
                    (blocks ++ ["<blockquote>"
                                  ++ inlineFormat (join "<br>" qLines) inlineCodes
                                  ++ "</blockquote>"])
        else if isListLine line then
          match parseList lines i inlineCodes with
          | Some html =>
              blockLoop f codeBlocks inlineCodes lines
                        (i + runLength isListLine (skipn i lines))
                        (blocks ++ [html])
          | None => Unfinished
          end
        else if isBlank line then
          blockLoop f codeBlocks inlineCodes lines (i + 1) blocks
        else
          let rest := skipn i lines in
          let n := runLength (fun l => negb (endsParagraph l)) rest in
          let paraLines := firstn n rest in
          match n with
          | 0 => Diverges
          | S _ =>
              blockLoop f codeBlocks inlineCodes lines (i + n)
                        (blocks ++ ["<p>" ++ inlineFormat (join "<br>" paraLines)
                                                          inlineCodes ++ "</p>"])
          end
      end
      end
    end
  end.

Definition renderMarkdown (raw : string) : outcome string :=
  (* 1. fenced code blocks *)
  let fenced := scan matchFence None 0 raw in
  let codeBlocks := List.map toCodeBlock (hits fenced) in
  let text := assemble (fun idx _ => placeholder "CB_" idx) 0 fenced in
  (* 2. inline code *)
  let spans := scan matchInlineCode None 0 text in
  let inlineCodes := hits spans in
  let text := assemble (fun idx _ => placeholder "IC_" idx) 0 spans in
  (* 3. blocks *)
  let lines := splitLines text in
  match blockLoop (S (List.length lines)) codeBlocks inlineCodes lines 0 [] with
  | Returned blocks => Returned (join nl blocks)
  | Thrown e => Thrown e
  | Diverges => Diverges
  | Unfinished => Unfinished
  end.

(** [renderMarkdown] as JavaScript sees it: [raw.replace] on [null] or
    [undefined] is a [TypeError]. *)
Definition renderMarkdownJS (raw : option string) : outcome string :=
  match raw with
  | None => Thrown TypeError
  | Some s => renderMarkdown s
  end.

(* ===================================================================== *)
(** ** Sanitizer                                                          *)
(* ===================================================================== *)

Definition ALLOWED_TAGS : list string :=
  [ "p"; "br"; "strong"; "b"; "em"; "i"; "u"; "a";
    "h1"; "h2"; "h3"; "h4"; "h5"; "h6";
    "ul"; "ol"; "li";
    "pre"; "code"; "blockquote";
    "table"; "thead"; "tbody"; "tr"; "th"; "td";
    "hr"; "img"; "span"; "div"; "sup"; "sub" ].

Definition ALLOWED_ATTRS : list string :=
  [ "href"; "src"; "alt"; "class"; "target"; "rel" ].

Definition isAllowedTag (tag : string) : bool :=
  existsb (String.eqb tag) ALLOWED_TAGS.

Definition isAllowedAttr (name : string) : bool :=
  existsb (String.eqb name) ALLOWED_ATTRS.

(** [className.match(/language-\S+/)?.[0]] *)
Definition matchLanguageClass (classes : string) : option string :=
  let notSpace := fun c => negb (isSpace c) in
  match findFirst (fun t => startsWith "language-" t
                            && (1 <=? spanLen notSpace (dropStr 9 t))%nat) classes with
  | Some t => Some (takeStr (9 + spanLen notSpace (dropStr 9 t)) t)
  | None => None
  end.

(** [el.removeAttribute(name)] *)
Definition removeAttribute (name : string) (attrs : list (string * string))
  : list (string * string) :=
  List.filter (fun kv => negb (String.eqb (fst kv) name)) attrs.

(** [el.className = v] on an element that has a class attribute. *)
Definition setClass (v : string) (attrs : list (string * string))
  : list (string * string) :=
  List.map (fun kv => if String.eqb (fst kv) "class" then (fst kv, v) else kv) attrs.

(** The attributes of an allowed element after the two clean-up steps. *)
Definition cleanAttrs (tag : string) (attrs : list (string * string))
  : list (string * string) :=
  let kept := List.filter (fun kv => isAllowedAttr (fst kv)) attrs in
  if String.eqb tag "code" then
    match getAttribute "class" kept with
    | Some cls =>
        match matchLanguageClass cls with
        | Some langClass => setClass langClass kept
        | None => removeAttribute "class" kept
        end
    | None => removeAttribute "class" kept
    end
  else removeAttribute "class" kept.

(** [cleanNode(node)]: the child nodes of [node] after the call.  The
    loop runs over a snapshot of the children.  A child with a disallowed
    tag is replaced by its own children, which are not part of the snapshot
    and are therefore not visited; a child with an allowed tag has its
    attributes cleaned and is then cleaned itself. *)
Fixpoint cleanNode (node : Node) : list Node :=
  match node with
  | ElementNode _ _ childNodes =>
      (fix each (children : list Node) : list Node :=
         match children with
         | [] => []
         | child :: rest =>
             match child with
             | ElementNode tag attrs kids =>
                 if negb (isAllowedTag tag) then (kids ++ each rest)%list
                 else ElementNode tag (cleanAttrs tag attrs) (cleanNode child)
                        :: each rest
             | _ => child :: each rest
             end
         end) childNodes
  | _ => []
  end.

(** [sanitizeHTML] between the parser and the serializer of the browser:
    from the parsed fragment, the children of the detached [div], to the
    children that are written back as markup. *)
Definition sanitizeHTML (fragment : list Node) : list Node :=
  cleanNode (ElementNode "div" [] fragment).

(* ===================================================================== *)
(** ** Store: saveConversation                                            *)
(* ===================================================================== *)

(** JavaScript values as far as records of the store need them. *)
#[warnings="-register-all"]
Inductive Value : Type :=
| VUndefined
| VNull
| VBool (b : bool)
| VNumber (n : Z)
| VString (s : string)
| VArray (items : list Value)
| VObject (fields : list (string * Value)).

(** A record is an object: a finite map from property names to values,
    [gmap string Value]. *)

Definition truthy (v : Value) : bool :=
  match v with
  | VUndefined | VNull => false
  | VBool b => b
  | VNumber n => negb (Z.eqb n 0)
  | VString s => negb (String.eqb s "")
  | VArray _ | VObject _ => true
  end.

(** [o.name]: an absent property reads [undefined]. *)
Definition prop (o : gmap string Value) (name : string) : Value :=
  match o !! name with
  | Some v => v
  | None => VUndefined
  end.

(** [a || b] *)
Definition orElse (a b : Value) : Value := if truthy a then a else b.

(** The key of a record under [keyPath: 'id'], for the string ids this
    program generates. *)
Definition keyOf (v : Value) : option string :=
  match v with
  | VString s => Some s
  | _ => None
  end.

(** The object store and the number of clock reads so far. *)
Record World : Type := mkWorld {
  db : gmap string (gmap string Value);
  reads : nat
}.

(** [saveConversation(conversation)].  [clock k] is what the [k]-th
    [new Date().toISOString()] of the run returns.  [None] is a rejected
    promise (a key that is not valid). *)
Definition saveConversation (clock : nat -> string) (w : World)
           (conversation : gmap string Value)
  : option (World * gmap string Value) :=
  match keyOf (prop conversation "id") with
  | None => None
  | Some key =>
    let '(toSave, reads') :=
      match db w !! key with
      | Some existing =>
          (<["url" := orElse (prop conversation "url") (prop existing "url")]>
             (<["updatedAt" := VString (clock (reads w))]>
                (<["messages" := prop conversation "messages"]>
                   (<["title" := orElse (prop conversation "title")
                                        (prop existing "title")]> existing))),
           S (reads w))
      | None =>
          if truthy (prop conversation "savedAt") then
            (<["updatedAt" := VString (clock (reads w))]>
               (<["savedAt" := prop conversation "savedAt"]> conversation),
             S (reads w))
          else
            (<["updatedAt" := VString (clock (S (reads w)))]>
               (<["savedAt" := VString (clock (reads w))]> conversation),
             S (S (reads w)))
      end in
    match keyOf (prop toSave "id") with
    | Some key' => Some (mkWorld (<[key' := toSave]> (db w)) reads', toSave)
    | None => None
    end
  end.

(** Every record is stored under its own [id]. *)
Definition storeOk (store : gmap string (gmap string Value)) : Prop :=
  forall key record, store !! key = Some record ->
                     record !! "id" = Some (VString key).

(* ===================================================================== *)
(** ** Auxiliary notions used in the statements                           *)
(* ===================================================================== *)

(** The collapsing search of [cleanMarkdown] with [skip] characters of a
    match still to pass over. *)
Definition collapseFrom (skip : nat) (s : string) : string :=
  assemble (fun (_ : nat) (_ : unit) => nl ++ nl) 0
           (scan matchNewlines3 None skip s).

(** No position starts a run of three line feeds. *)
Fixpoint no3 (s : string) : bool :=
  match s with
  | "" => true
  | String _ r => (spanLen isLF s <? 3)%nat && no3 r
  end.

(** The last character is a line feed. *)
Fixpoint endsLF (s : string) : bool :=
  match s with
  | "" => false
  | String c r => match r with
                  | "" => isLF c
                  | String _ _ => endsLF r
                  end
  end.

(** The text between the steps of [renderMarkdown], cut into characters of
    the input and sentinels put in by the two extraction steps. *)
Inductive token : Type :=
| TChar (c : ascii)
| TCode (idx : nat)
| TInline (idx : nat).

Definition tokenText (t : token) : string :=
  match t with
  | TChar c => chr c
  | TCode idx => placeholder "CB_" idx
  | TInline idx => placeholder "IC_" idx
  end.

Fixpoint flatten (ts : list token) : string :=
  match ts with
  | [] => ""
  | t :: r => tokenText t ++ flatten r
  end.

(** A character of the input is not the sentinel character, and a
    code-block sentinel carries an index below [count]. *)
Definition tokenOk (count : nat) (t : token) : bool :=
  match t with
  | TChar c => negb (Ascii.eqb c NUL)
  | TCode idx => (idx <? count)%nat
  | TInline _ => true
  end.

Definition notNUL (c : ascii) : bool := negb (Ascii.eqb c NUL).

(** The pieces of a search that found nothing. *)
Fixpoint lits {M : Type} (s : string) : list (piece M) :=
  match s with
  | "" => []
  | String c r => Lit c :: lits r
  end.

(** Tag and attributes of every element of a tree, in document order. *)
Fixpoint elementsOf (n : Node) : list (string * list (string * string)) :=
  match n with
  | ElementNode tag attrs kids => (tag, attrs) :: flat_map elementsOf kids
  | _ => []
  end.

Definition isElement (n : Node) : bool :=
  match n with
  | ElementNode _ _ _ => true
  | _ => false
  end.

(** No element with a disallowed tag has an element among its children. *)
Fixpoint plainUnwrap (n : Node) : bool :=
  match n with
  | ElementNode tag _ kids =>
      (isAllowedTag tag || forallb (fun k => negb (isElement k)) kids)
      && forallb plainUnwrap kids
  | _ => true
  end.

(** A language marker: [language-] and one or more characters that are
    not white space. *)
Definition isLanguageMarker (v : string) : bool :=
  startsWith "language-" v
  && (1 <=? String.length (dropStr 9 v))%nat
  && allChars (fun c => negb (isSpace c)) (dropStr 9 v).

(** What the sanitizer leaves of an element: an allowed tag, allow-listed
    attributes, and a class only on [code], where it is a language marker. *)
Definition cleanElement (e : string * list (string * string)) : Prop :=
  isAllowedTag (fst e) = true
  /\ Forall (fun kv => isAllowedAttr (fst kv) = true
                       /\ (fst kv = "class" ->
                           fst e = "code" /\ isLanguageMarker (snd kv) = true))
            (snd e).

(** What a call of [buildListHTML] at index [i] and a run of its loop
    from [i] promise about the index they return, for [len] lines. *)
Definition buildListPost (len i : nat) (r : option (string * nat)) : Prop :=
  exists html e, r = Some (html, e)
                 /\ (i < len -> i < e <= len) /\ (len <= i -> e = i).

Definition buildLoopPost (len i : nat) (r : option (string * nat)) : Prop :=
  exists html e, r = Some (html, e) /\ i <= e /\ (i <= len -> e <= len).

(* ===================================================================== *)
(** ** Store: reading, deleting and the message handler                   *)
(* ===================================================================== *)

(** [getConversation(id)]: [request.result || null]. *)
Definition getConversation (w : World) (id : string)
  : option (gmap string Value) :=
  db w !! id.

(** [deleteConversation(id)]: the store after [store.delete(id)]. *)
Definition deleteConversation (w : World) (id : string) : World :=
  mkWorld (delete id (db w)) (reads w).

(** How [handleSaveConversation] ends: with the world and the record that
    [saveConversation] resolves to, or with an [Error] that carries a
    message. *)
Inductive Saved : Type :=
| Stored (w : World) (toSave : gmap string Value)
| Refused (message : string).

(** [handleSaveConversation(conversation)]; the argument is [None] when
    the message carries no conversation.  The outer [None] is a key that
    [saveConversation] does not model. *)
Definition handleSaveConversation (clock : nat -> string) (w : World)
           (conversation : option (gmap string Value)) : option Saved :=
  match conversation with
  | None => Some (Refused "Invalid conversation data")
  | Some c =>
      if truthy (prop c "id") then
        match saveConversation clock w c with
        | Some (w', toSave) => Some (Stored w' toSave)
        | None => None
        end
      else Some (Refused "Invalid conversation data")
  end.

(** The two messages that write to the store. *)
Inductive Request : Type :=
| SAVE_CONVERSATION (conversation : option (gmap string Value))
| DELETE_CONVERSATION (id : string).

(** The store after the handler of one message has run; a refused save
    leaves it as it was. *)
Definition handle (clock : nat -> string) (w : World) (message : Request)
  : option World :=
  match message with
  | SAVE_CONVERSATION conversation =>
      match handleSaveConversation clock w conversation with
      | Some (Stored w' _) => Some w'
      | Some (Refused _) => Some w
      | None => None
      end
  | DELETE_CONVERSATION id => Some (deleteConversation w id)
  end.

(** A sequence of messages, handled one after the other. *)
Fixpoint handleAll (clock : nat -> string) (w : World) (messages : list Request)
  : option World :=
  match messages with
  | [] => Some w
  | message :: rest =>
      match handle clock w message with
      | Some w' => handleAll clock w' rest
      | None => None
      end
  end.

(* ===================================================================== *)
(** ** Common utilities: generateId                                       *)
(* ===================================================================== *)

(** [s.split(sep)] for a separator of one character. *)
Fixpoint splitOn (sep : ascii) (s : string) : list string :=
  match s with
  | "" => [""]
  | String c r =>
      if Ascii.eqb c sep then "" :: splitOn sep r
      else match splitOn sep r with
           | l :: ls => String c l :: ls
           | [] => [chr c]
           end
  end.

(** [ToInt32]: the value modulo 2^32, read as a signed 32-bit integer. *)
Definition toInt32 (z : Z) : Z :=
  ((z + 2147483648) mod 4294967296 - 2147483648)%Z.

(** [a << n] *)
Definition shiftLeft32 (a : Z) (n : Z) : Z := toInt32 (Z.shiftl (toInt32 a) n).

(** One turn of the hashing loop:
    [hash = ((hash << 5) - hash) + char; hash |= 0]. *)
Definition hashStep (hash : Z) (char : ascii) : Z :=
  toInt32 (shiftLeft32 hash 5 - hash + Z.of_nat (nat_of_ascii char)).

Fixpoint hashLoop (hash : Z) (str : string) : Z :=
  match str with
  | "" => hash
  | String char r => hashLoop (hashStep hash char) r
  end.

(** [n.toString(36)] for an integer [n >= 0]. *)
Definition digit36 (d : Z) : ascii :=
  if (d <? 10)%Z then ascii_of_nat (48 + Z.to_nat d)
  else ascii_of_nat (87 + Z.to_nat d).

Fixpoint digits36 (fuel : nat) (n : Z) (acc : string) : string :=
  match fuel with
  | 0 => acc
  | S f =>
      let acc' := String (digit36 (n mod 36)) acc in
      if (n <? 36)%Z then acc' else digits36 f (n / 36) acc'
  end.

Definition toString36 (n : Z) : string :=
  digits36 (S (Z.to_nat (Z.log2 n))) n "".

(** The test of [pathParts.find]: longer than eight characters and none of
    the words that name a route. *)
Definition isChatId (routes : list string) (p : string) : bool :=
  (8 <? String.length p)%nat && negb (existsb (String.eqb p) routes).

(** [generateId(source, url)].  [pathname] is [new URL(url).pathname],
    [None] when the constructor throws. *)
Definition generateId (pathname : option string) (source url : string) : string :=
  let pathParts :=
    match pathname with
    | Some p => List.filter (fun part => negb (String.eqb part "")) (splitOn "/" p)
    | None => []
    end in
  let chatIdFor (name : string) (routes : list string) : option string :=
    if String.eqb source name then List.find (isChatId routes) pathParts
    else None in
  match chatIdFor "chatgpt" ["c"; "g"; "chat"] with
  | Some chatId => "chatgpt_" ++ chatId
  | None =>
    match chatIdFor "claude" ["chat"; "new"] with
    | Some chatId => "claude_" ++ chatId
    | None =>
        source ++ "_" ++ toString36 (Z.abs (hashLoop 0 (source ++ "_" ++ url)))
    end
  end.

(* ===================================================================== *)
(** ** ChatGPT content script: the content of a message                   *)
(* ===================================================================== *)

(** ASCII white space, which separates the tokens of a class attribute. *)
Definition isAsciiSpace (c : ascii) : bool :=
  let n := nat_of_ascii c in
  ((n =? 9) || (n =? 10) || (n =? 12) || (n =? 13) || (n =? 32))%nat.

(** The tokens of a class attribute, [el.classList]. *)
Fixpoint classList (s : string) : list string :=
  match s with
  | "" => []
  | String c r =>
      if isAsciiSpace c then classList r
      else match r with
           | "" => [chr c]
           | String d _ =>
               if isAsciiSpace d then chr c :: classList r
               else match classList r with
                    | t :: ts => String c t :: ts
                    | [] => [chr c]
                    end
           end
  end.

(** The selector [.name] *)
Definition hasClass (name : string) (n : Node) : bool :=
  isElement n && existsb (String.eqb name) (classList (className n)).

(** The selector [[name]] *)
Definition hasAttribute (name : string) (n : Node) : bool :=
  isElement n && isSome (getAttribute name (attrsOf n)).

(** The selector [[name="value"]] *)
Definition hasAttributeValue (name value : string) (n : Node) : bool :=
  match getAttribute name (attrsOf n) with
  | Some v => isElement n && String.eqb v value
  | None => false
  end.

Definition childNodesOf (n : Node) : list Node :=
  match n with
  | ElementNode _ _ childNodes => childNodes
  | _ => []
  end.

(** [SELECTORS.contentSelectors] *)
Definition contentSelectors : list (Node -> bool) :=
  [ hasAttribute "data-message-content"; hasClass "markdown"; hasClass "prose";
    hasClass "whitespace-pre-wrap"; hasClass "text-message"; hasClass "min-h-8" ].

(** [findElement(selectors, parent)]: the first descendant of [parent]
    that the first successful selector matches. *)
Fixpoint findElement (selectors : list (Node -> bool)) (parent : Node)
  : option Node :=
  match selectors with
  | [] => None
  | sel :: rest =>
      match List.find sel (descendants parent) with
      | Some el => Some el
      | None => findElement rest parent
      end
  end.

(** The selector list of [getMessageContent]:
    [button, nav, .sr-only, svg, [aria-hidden=true], script, style,
    .katex-html]. *)
Definition isNonContent (n : Node) : bool :=
  hasTag ["button"; "nav"; "svg"; "script"; "style"] n
  || hasClass "sr-only" n || hasClass "katex-html" n
  || hasAttributeValue "aria-hidden" "true" n.

(** The clone after every matching descendant has been removed. *)
Fixpoint stripNonContent (n : Node) : Node :=
  match n with
  | ElementNode tag attrs childNodes =>
      ElementNode tag attrs
        ((fix each (children : list Node) : list Node :=
            match children with
            | [] => []
            | child :: rest =>
                if isNonContent child then each rest
                else stripNonContent child :: each rest
            end) childNodes)
  | _ => n
  end.

(** [getMessageContent(msgEl)]: the markdown text and the sanitized
    children of the stripped clone.  The markup that [clone.innerHTML]
    writes and [sanitizeHTML] parses again is taken to stand for the
    children of the clone. *)
Definition getMessageContent (msgEl : Node) : string * list Node :=
  let target := match findElement contentSelectors msgEl with
                | Some contentEl => contentEl
                | None => msgEl
                end in
  let clone := stripNonContent target in
  (trim (extractTextContent clone noCtx), sanitizeHTML (childNodesOf clone)).

Inductive Role : Type := user | assistant.

Record Message : Type := mkMessage {
  role : Role;
  content : string;
  contentHtml : list Node;
  index : nat
}.

(** The [forEach] of [scrapeConversation] from element [index] on.
    [getMessageRole] answers [None] for [null]. *)
Fixpoint scrapeMessages (getMessageRole : Node -> option Role)
         (messageEls : list Node) (index : nat) (lastRole : option Role)
         (messages : list Message) : list Message :=
  match messageEls with
  | [] => messages
  | msgEl :: rest =>
      let role := match getMessageRole msgEl with
                  | Some r => r
                  | None => match lastRole with
                            | Some user => assistant
                            | _ => user
                            end
                  end in
      let result := getMessageContent msgEl in
      if String.eqb (fst result) "" then
        scrapeMessages getMessageRole rest (S index) lastRole messages
      else
        scrapeMessages getMessageRole rest (S index) (Some role)
                       (messages ++ [mkMessage role (fst result) (snd result) index])
  end.

(* ===================================================================== *)
(** ** Viewer: the name of an exported file                               *)
(* ===================================================================== *)

(** The character class of reserved file-name characters: the angle
    brackets, the colon, the double quote, both slashes, the bar, the
    question mark and the star. *)
Definition isReserved (c : ascii) : bool :=
  existsb (Ascii.eqb c) ["<"; ">"; ":"; DQ; "/"; "\"; "|"; "?"; "*"]%char.

Definition matchReserved (_ : option ascii) (s : string) : option (unit * nat) :=
  match s with
  | String c _ => if isReserved c then Some (tt, 1) else None
  | "" => None
  end.

(** The [download] attribute set by [exportConversation]; an absent or
    empty title reads ['conversation']. *)
Definition exportFileName (title : string) : string :=
  replaceAll matchReserved (fun _ _ => "_")
             (if String.eqb title "" then "conversation" else title) ++ ".md".

(** The hash of [generateId] without the reduction to 32 bits: Horner's
    rule with the multiplier 31 over the character codes. *)
Fixpoint poly31 (acc : Z) (str : string) : Z :=
  match str with
  | "" => acc
  | String char r => poly31 (31 * acc + Z.of_nat (nat_of_ascii char))%Z r
  end.

(** The strings of a list one after the other. *)
Definition concatStr (xs : list string) : string :=
  fold_right String.append "" xs.

(** Characters that no step of the renderer treats in a special way:
    all but the ampersand, the angle brackets, the star, the opening
    square bracket, the backtick, the sentinel character, the two line
    terminators and the no-break space. *)
Definition inert (c : ascii) : bool :=
  negb (existsb (Ascii.eqb c) ["&"; "<"; ">"; "*"; "["; BT; NUL; LF; CR]%char)
  && negb (nat_of_ascii c =? 160)%nat.

Definition isLetter (c : ascii) : bool :=
  let n := nat_of_ascii c in
  (((65 <=? n) && (n <=? 90)) || ((97 <=? n) && (n <=? 122)))%nat.

(** A line of inert characters that starts with a letter. *)
Definition plainLine (line : string) : bool :=
  match line with
  | String c _ => isLetter c && allChars inert line
  | "" => false
  end.

(** Every character but [x]. *)
Definition notChar (x : ascii) (c : ascii) : bool := negb (Ascii.eqb c x).

(** The tag name of a heading of the given level, [h1] to [h6]. *)
Definition headingName (level : nat) : string :=
  String "h" (String (ascii_of_nat (48 + level)) "").

(** The markdown lines of a list of one level whose items have the given
    texts: a hyphen, or the number of the item counted from [i + 1] and a
    dot, then a space and the trimmed text. *)
Fixpoint itemLines (ordered : bool) (i : nat) (texts : list string) : list string :=
  match texts with
  | [] => []
  | t :: rest =>
      ((if ordered then showNat (i + 1) ++ "." else "-") ++ " " ++ trim t)
        :: itemLines ordered (S i) rest
  end.

(** The openings of the elements that the renderer writes. *)
Definition knownTags : list string :=
  [ "<p>"; "</p>"; "<br>"; "<hr>"; "<h2>"; "</h2>"; "<h3>"; "</h3>"; "<h4>"; "</h4>";
    "<blockquote>"; "</blockquote>"; "<ul>"; "</ul>"; "<ol>"; "</ol>"; "<li>"; "</li>";
    "<pre>"; "</pre>"; "<code>"; "<code class="; "</code>";
    "<strong>"; "</strong>"; "<em>"; "</em>"; "<a href="; "</a>";
    "<div class="; "</div>"; "<span class="; "</span>";
    "<button class="; "</button>" ].

(** Every [<] of the text starts one of these openings. *)
Fixpoint tagsOk (s : string) : bool :=
  match s with
  | "" => true
  | String c r =>
      (negb (Ascii.eqb c "<") || existsb (fun o => startsWith o s) knownTags)
      && tagsOk r
  end.

(** The characters that occur in an opening behind its [<]. *)
Definition tagChar (c : ascii) : bool :=
  existsb (fun o => negb (allChars (notChar c) (dropStr 1 o))) knownTags.

(** Characters that the emphasis, link and line-break steps of
    [inlineFormat] pass by, and that the dot of a pattern accepts. *)
Definition soft (c : ascii) : bool :=
  negb (existsb (Ascii.eqb c) ["&"; "*"; "["; NUL; LF; CR]%char).

(** The steps of [inlineFormat] behind the restoring of the code spans:
    bold, italic, links, line breaks. *)
Definition formatEscaped (html : string) : string :=
  let html := replaceAll matchBold
                (fun _ t => "<strong>" ++ t ++ "</strong>") html in
  let html := replaceAll matchItalic
                (fun _ t => "<em>" ++ t ++ "</em>") html in
  let html := replaceAll matchLink
                (fun _ m => "<a href=" ++ quoted (snd m) ++ " target="
                            ++ quoted "_blank" ++ " rel=" ++ quoted "noopener"
                            ++ ">" ++ fst m ++ "</a>") html in
  replaceAll matchEscapedBr (fun _ _ => "<br>") html.

(* ===================================================================== *)
(** ** Claude content script: the content of a turn and the messages      *)
(* ===================================================================== *)

Module Claude.

(** The selector [[class*="part"]]: the class attribute is there and holds
    [part] somewhere. *)
Definition classHolds (part : string) (n : Node) : bool :=
  isElement n
  && match getAttribute "class" (attrsOf n) with
     | Some v => isSome (indexOf part v)
     | None => false
     end.

(** The selectors that [getMessageContent] tries in turn. *)
Definition contentSelectors : list (Node -> bool) :=
  [ hasClass "font-claude-message"; classHolds "markdown"; classHolds "Markdown";
    hasClass "prose"; hasClass "whitespace-pre-wrap";
    (fun n => hasTag ["div"] n && classHolds "message-content" n);
    (fun n => hasTag ["div"] n && classHolds "messageContent" n) ].

(** The [for] loop over the selectors: the trimmed text of the first
    element found by a selector, unless that text is empty. *)
Fixpoint firstText (selectors : list (Node -> bool)) (msgEl : Node)
  : option string :=
  match selectors with
  | [] => None
  | sel :: rest =>
      match List.find sel (descendants msgEl) with
      | Some el =>
          let text := trim (extractTextContent el noCtx) in
          if (0 <? String.length text)%nat then Some text
          else firstText rest msgEl
      | None => firstText rest msgEl
      end
  end.

(** The selector list of the fallback: buttons, navigation, icons, hidden
    elements, tool bars and everything whose class names an avatar, an
    icon, an action or a tool bar. *)
Definition isChrome (n : Node) : bool :=
  hasTag ["button"; "nav"; "svg"] n
  || hasClass "sr-only" n || hasAttribute "aria-hidden" n
  || hasAttributeValue "role" "toolbar" n
  || existsb (fun part => classHolds part n)
             ["avatar"; "Avatar"; "icon"; "Icon"; "action"; "Action";
              "toolbar"; "Toolbar"].

(** The clone after every matching descendant has been removed. *)
Fixpoint stripChrome (n : Node) : Node :=
  match n with
  | ElementNode tag attrs childNodes =>
      ElementNode tag attrs
        ((fix each (children : list Node) : list Node :=
            match children with
            | [] => []
            | child :: rest =>
                if isChrome child then each rest
                else stripChrome child :: each rest
            end) childNodes)
  | _ => n
  end.

(** [getMessageContent(msgEl)] *)
Definition getMessageContent (msgEl : Node) : string :=
  match firstText contentSelectors msgEl with
  | Some text => text
  | None => trim (extractTextContent (stripChrome msgEl) noCtx)
  end.

Record Message : Type := mkMessage {
  role : Role;
  content : string;
  index : nat
}.

(** [messages.length > 0 && messages[messages.length - 1].content === content] *)
Definition repeatsLast (messages : list Message) (content' : string) : bool :=
  (0 <? List.length messages)%nat
  && match nth_error messages (List.length messages - 1) with
     | Some m => String.eqb (content m) content'
     | None => false
     end.

(** The [forEach] of [scrapeConversation] from element [index] on.
    [getMessageRole] answers [None] for [null]. *)
Fixpoint scrapeMessages (getMessageRole : Node -> option Role)
         (messageEls : list Node) (index : nat) (lastRole : option Role)
         (messages : list Message) : list Message :=
  match messageEls with
  | [] => messages
  | msgEl :: rest =>
      let role := match getMessageRole msgEl with
                  | Some r => r
                  | None => match lastRole with
                            | Some user => assistant
                            | _ => user
                            end
                  end in
      let content := getMessageContent msgEl in
      if (String.length content <? 2)%nat then
        scrapeMessages getMessageRole rest (S index) lastRole messages
      else if repeatsLast messages content then
        scrapeMessages getMessageRole rest (S index) lastRole messages
      else
        scrapeMessages getMessageRole rest (S index) (Some role)
                       (messages ++ [mkMessage role content index])
  end.

End Claude.

(** What holds of the messages collected from the first [n] elements. *)
Definition collected (getMessageRole : Node -> option Role) (all : list Node)
           (n : nat) (ms : list Claude.Message) : Prop :=
  (forall m, In m ms ->
     Claude.index m < n
     /\ exists el, nth_error all (Claude.index m) = Some el
                   /\ Claude.content m = Claude.getMessageContent el
                   /\ 2 <= String.length (Claude.content m)
                   /\ forall r, getMessageRole el = Some r -> Claude.role m = r)
  /\ StronglySorted lt (List.map Claude.index ms)
  /\ (forall i m1 m2, nth_error ms i = Some m1 -> nth_error ms (S i) = Some m2 ->
                      Claude.content m1 <> Claude.content m2)
  /\ (forall i el, i < n -> nth_error all i = Some el ->
                   2 <= String.length (Claude.getMessageContent el) ->
                   exists m, In m ms
                             /\ Claude.content m = Claude.getMessageContent el).

(* ===================================================================== *)
(** ** Script-scheme targets, as a browser reads them                     *)
(* ===================================================================== *)

(** The guard of the link branch tests the lower-case prefix
    [javascript:].  A browser is more liberal when it reads the target of
    a link (URL standard): control characters and spaces in front are
    dropped, tabs and line breaks are dropped wherever they stand, and the
    scheme is compared without regard to the case of its letters.  This
    is the notion of a script-scheme target that the guard is compared
    with. *)
Definition isC0OrSpace (c : ascii) : bool := (nat_of_ascii c <=? 32)%nat.

Definition isTabOrNewline (c : ascii) : bool :=
  let n := nat_of_ascii c in ((n =? 9) || (n =? 10) || (n =? 13))%nat.

Fixpoint removeChars (p : ascii -> bool) (s : string) : string :=
  match s with
  | "" => ""
  | String c r => if p c then removeChars p r else String c (removeChars p r)
  end.

Definition toLowerAscii (c : ascii) : ascii :=
  let n := nat_of_ascii c in
  if ((65 <=? n) && (n <=? 90))%nat then ascii_of_nat (n + 32) else c.

Fixpoint mapStr (f : ascii -> ascii) (s : string) : string :=
  match s with
  | "" => ""
  | String c r => String (f c) (mapStr f r)
  end.

Definition isScriptSchemeURI (href : string) : bool :=
  startsWith "javascript:"
    (mapStr toLowerAscii
       (removeChars isTabOrNewline (dropStr (spanLen isC0OrSpace href) href))).

(* ===================================================================== *)
(** * Properties                                                          *)
(* ===================================================================== *)

(** ** Strings *)

#[local] Arguments String.append !_ _ / : simpl nomatch.

Lemma append_assoc (a b c : string) : (a ++ b) ++ c = a ++ b ++ c.
Proof. induction a as [|x r IH]; simpl; [reflexivity | now rewrite IH]. Qed.

Lemma length_dropStr (n : nat) (s : string) :
  String.length (dropStr n s) = String.length s - n.
Proof.
  revert s; induction n as [|n IH]; intros [|c r]; simpl; auto.
Qed.

Lemma spanLen_le_length (p : ascii -> bool) (s : string) :
  spanLen p s <= String.length s.
Proof.
  induction s as [|c r IH]; simpl; [lia|]. destruct (p c); simpl; lia.
Qed.

Lemma spanLen_dropStr (p : ascii -> bool) (s : string) :
  spanLen p (dropStr (spanLen p s) s) = 0.
Proof.
  induction s as [|c r IH]; simpl; [reflexivity|].
  destruct (p c) eqn:E; simpl; [exact IH | now rewrite E].
Qed.

(** ** cleanMarkdown *)

Section CleanMarkdown.

Local Abbreviation col := collapseFrom.

Local Lemma assemble_const (ps : list (piece unit)) (i j : nat) :
  assemble (fun (_ : nat) (_ : unit) => nl ++ nl) i ps
  = assemble (fun (_ : nat) (_ : unit) => nl ++ nl) j ps.
Proof.
  revert i j; induction ps as [|[c|m] r IH]; intros i j; cbn [assemble].
  - reflexivity.
  - f_equal; apply IH.
  - f_equal; apply IH.
Qed.

Local Lemma scan_prev (p q : option ascii) (skip : nat) (s : string) :
  scan matchNewlines3 p skip s = scan matchNewlines3 q skip s.
Proof. destruct s; reflexivity. Qed.

Local Lemma col_skip (k : nat) (c : ascii) (r : string) :
  col (S k) (String c r) = col k r.
Proof.
  unfold collapseFrom; simpl. now rewrite (scan_prev (Some c) None).
Qed.

Local Lemma col_lit (c : ascii) (r : string) :
  (spanLen isLF (String c r) <? 3)%nat = true ->
  col 0 (String c r) = String c (col 0 r).
Proof.
  intros H. unfold collapseFrom. cbn [scan]. unfold matchNewlines3.
  apply Nat.ltb_lt in H.
  destruct (Nat.leb_spec 3 (spanLen isLF (String c r))) as [L|L]; [lia|].
  cbn [assemble]. now rewrite (scan_prev (Some c) None).
Qed.

Local Lemma col_hit (c : ascii) (r : string) :
  (3 <=? spanLen isLF (String c r))%nat = true ->
  col 0 (String c r) = nl ++ nl ++ col (spanLen isLF (String c r) - 1) r.
Proof.
  intros H. unfold collapseFrom. cbn [scan]. unfold matchNewlines3. rewrite H.
  cbn [assemble]. rewrite (scan_prev (Some c) None).
  rewrite (assemble_const _ 1 0). now rewrite append_assoc.
Qed.

Local Lemma col_drop (k : nat) (s : string) : col k s = col 0 (dropStr k s).
Proof.
  revert k; induction s as [|c r IH]; intros [|k]; try reflexivity.
  rewrite col_skip. simpl. apply IH.
Qed.

Local Lemma col_run (s : string) :
  (3 <=? spanLen isLF s)%nat = true ->
  col 0 s = nl ++ nl ++ col 0 (dropStr (spanLen isLF s) s).
Proof.
  destruct s as [|c r]; [discriminate|]. intros H.
  rewrite (col_hit _ _ H). rewrite col_drop. do 2 f_equal.
  simpl in *. destruct (isLF c); [|discriminate].
  simpl. now rewrite Nat.sub_0_r.
Qed.

Local Lemma collapse_col (s : string) : collapseNewlines s = col 0 s.
Proof. reflexivity. Qed.

(** The leading run of the result has at most two line feeds. *)
Local Lemma col_leading (n : nat) :
  forall s, String.length s <= n ->
            spanLen isLF (col 0 s) = Nat.min (spanLen isLF s) 2.
Proof.
  induction n as [|n IH]; intros [|c r] Hn; simpl in Hn; try reflexivity;
    [lia|].
  destruct (Nat.leb_spec 3 (spanLen isLF (String c r))) as [L|L].
  - rewrite col_run by (now apply Nat.leb_le).
    assert (Hd : String.length (dropStr (spanLen isLF (String c r)) (String c r)) <= n).
    { rewrite length_dropStr. cbn [String.length]. lia. }
    pose proof (IH _ Hd) as Hl. rewrite spanLen_dropStr in Hl.
    change (nl ++ nl ++ ?x) with (String LF (String LF x)).
    remember (col 0 (dropStr (spanLen isLF (String c r)) (String c r))) as t.
    remember (spanLen isLF (String c r)) as k.
    cbn [spanLen]. change (isLF LF) with true. cbv iota.
    rewrite Hl. lia.
  - rewrite col_lit by (now apply Nat.ltb_lt).
    simpl in *. destruct (isLF c); [|reflexivity].
    rewrite IH by lia. lia.
Qed.

Local Lemma col_no3 (n : nat) :
  forall s, String.length s <= n -> no3 (col 0 s) = true.
Proof.
  induction n as [|n IH]; intros [|c r] Hn; simpl in Hn; try reflexivity;
    [lia|].
  destruct (Nat.leb_spec 3 (spanLen isLF (String c r))) as [L|L].
  - rewrite col_run by (now apply Nat.leb_le).
    change (nl ++ nl ++ ?x) with (String LF (String LF x)).
    assert (Hd : String.length (dropStr (spanLen isLF (String c r)) (String c r)) <= n).
    { rewrite length_dropStr. cbn [String.length]. lia. }
    pose proof (col_leading n _ Hd) as Hl. rewrite spanLen_dropStr in Hl.
    pose proof (IH _ Hd) as Hn3.
    remember (col 0 (dropStr (spanLen isLF (String c r)) (String c r))) as t.
    cbn [no3 spanLen]. change (isLF LF) with true. cbv iota.
    rewrite Hl, Hn3. reflexivity.
  - rewrite col_lit by (now apply Nat.ltb_lt).
    cbn [no3]. rewrite (IH r) by lia. rewrite andb_true_r.
    apply Nat.ltb_lt. simpl in *. destruct (isLF c); [|lia].
    rewrite (col_leading n) by lia. lia.
Qed.

Local Lemma no3_fixed (s : string) : no3 s = true -> col 0 s = s.
Proof.
  induction s as [|c r IH]; [reflexivity|]. cbn [no3].
  intros [H1 H2]%andb_true_iff. rewrite col_lit by exact H1.
  now rewrite IH.
Qed.

Local Lemma no3_dropStr (k : nat) (s : string) :
  no3 s = true -> no3 (dropStr k s) = true.
Proof.
  revert s; induction k as [|k IH]; intros [|c r]; simpl; auto.
  intros [_ H]%andb_true_iff. now apply IH.
Qed.

Local Lemma spanLen_stripTrailing (s : string) :
  spanLen isLF (stripTrailingNewlines s) <= spanLen isLF s.
Proof.
  induction s as [|c r IH]; simpl; [lia|].
  destruct (isLF c) eqn:E; simpl.
  - destruct (allChars isLF r); simpl; [lia|]. rewrite E. lia.
  - now rewrite E.
Qed.

Local Lemma no3_stripTrailing (s : string) :
  no3 s = true -> no3 (stripTrailingNewlines s) = true.
Proof.
  induction s as [|c r IH]; [reflexivity|].
  cbn [no3]. intros [H1 H2]%andb_true_iff.
  pose proof (spanLen_stripTrailing (String c r)) as Hle.
  cbn [stripTrailingNewlines] in *.
  destruct (isLF c && allChars isLF r); [reflexivity|].
  cbn [no3]. rewrite (IH H2), andb_true_r.
  apply Nat.ltb_lt. apply Nat.ltb_lt in H1. lia.
Qed.

Local Lemma allLF_endsLF (c : ascii) (r : string) :
  endsLF (String c r) = false -> isLF c && allChars isLF r = false.
Proof.
  revert c; induction r as [|d r IH]; intros c; cbn [endsLF allChars].
  - intros ->. reflexivity.
  - intros H. apply IH in H. rewrite H. apply andb_false_r.
Qed.

Local Lemma endsLF_fixed (s : string) :
  endsLF s = false -> stripTrailingNewlines s = s.
Proof.
  induction s as [|c r IH]; [reflexivity|]. intros H.
  cbn [stripTrailingNewlines]. rewrite (allLF_endsLF _ _ H).
  f_equal. apply IH. destruct r; [reflexivity | exact H].
Qed.

Local Lemma stripTrailing_endsLF (s : string) :
  endsLF (stripTrailingNewlines s) = false.
Proof.
  induction s as [|c r IH]; [reflexivity|].
  cbn [stripTrailingNewlines].
  destruct (isLF c && allChars isLF r) eqn:E; [reflexivity|].
  cbn [endsLF].
  destruct (stripTrailingNewlines r) eqn:Er; [|exact IH].
  destruct (isLF c) eqn:Ec; [|reflexivity].
  simpl in E.
  assert (Hall : forall t, stripTrailingNewlines t = "" -> allChars isLF t = true).
  { clear. induction t as [|d t IHt]; [reflexivity|].
    cbn [stripTrailingNewlines allChars].
    destruct (isLF d && allChars isLF t) eqn:E'; [reflexivity|discriminate]. }
  rewrite (Hall _ Er) in E. discriminate.
Qed.

Local Lemma stripTrailing_leading (s : string) :
  spanLen isLF s = 0 -> spanLen isLF (stripTrailingNewlines s) = 0.
Proof. pose proof (spanLen_stripTrailing s). lia. Qed.

Local Lemma leading_fixed (s : string) :
  spanLen isLF s = 0 -> stripLeadingNewlines s = s.
Proof. unfold stripLeadingNewlines. intros ->. now destruct s. Qed.

(** The three facts about the result of [cleanMarkdown]. *)
Lemma cleanMarkdown_shape (s : string) :
  no3 (cleanMarkdown s) = true
  /\ spanLen isLF (cleanMarkdown s) = 0
  /\ endsLF (cleanMarkdown s) = false.
Proof.
  unfold cleanMarkdown. repeat split.
  - apply no3_stripTrailing, no3_dropStr. rewrite collapse_col.
    now apply (col_no3 (String.length s)).
  - apply stripTrailing_leading. apply spanLen_dropStr.
  - apply stripTrailing_endsLF.
Qed.

Lemma cleanMarkdown_fixed (s : string) :
  no3 s = true -> spanLen isLF s = 0 -> endsLF s = false ->
  cleanMarkdown s = s.
Proof.
  intros H1 H2 H3. unfold cleanMarkdown.
  rewrite collapse_col, (no3_fixed _ H1), (leading_fixed _ H2).
  now apply endsLF_fixed.
Qed.

Lemma no3_append (a b : string) : no3 (a ++ b) = true -> no3 b = true.
Proof.
  induction a as [|c r IH]; simpl; [auto|].
  intros [_ H]%andb_true_iff. now apply IH.
Qed.

Lemma endsLF_append_nl (a : string) : endsLF (a ++ nl) = true.
Proof.
  induction a as [|c r IH]; [reflexivity|].
  simpl. destruct (r ++ nl) eqn:E; [|exact IH].
  destruct r; discriminate.
Qed.

End CleanMarkdown.

(** C5.  [cleanMarkdown] is idempotent, and its result holds no run of
    three or more newlines and neither starts nor ends with a newline. *)
Theorem cleanMarkdown_idempotent (s : string) :
  cleanMarkdown (cleanMarkdown s) = cleanMarkdown s
  /\ (forall a b, cleanMarkdown s <> a ++ (nl ++ nl ++ nl) ++ b)
  /\ (forall t, cleanMarkdown s <> nl ++ t)
  /\ (forall t, cleanMarkdown s <> t ++ nl).
Proof.
  destruct (cleanMarkdown_shape s) as (H1 & H2 & H3).
  repeat split.
  - now apply cleanMarkdown_fixed.
  - intros a b E. rewrite E in H1. apply no3_append in H1. discriminate.
  - intros t E. rewrite E in H2. discriminate.
  - intros t E. rewrite E, endsLF_append_nl in H3. discriminate.
Qed.

(** ** buildListHTML: progress and termination *)

Section ListBuilder.

Variable listLines : list string.
Variable inlineCodes : list string.

Local Abbreviation len := (List.length listLines).
Local Abbreviation build := (fun fuel i => buildListHTML fuel listLines i inlineCodes).
Local Abbreviation loop := (fun fuel => buildListLoop fuel listLines inlineCodes).

Lemma buildListHTML_unfold (f fromIndex : nat) :
  buildListHTML (S f) listLines fromIndex inlineCodes =
  match nth_error listLines fromIndex with
  | None => Some ("", fromIndex)
  | Some first =>
    let tag := if isOrderedLine first then "ol" else "ul" in
    match buildListLoop f listLines inlineCodes (getIndent first)
                        ("<" ++ tag ++ ">") fromIndex with
    | Some (html, i) => Some (html ++ "</" ++ tag ++ ">", i)
    | None => None
    end
  end.
Proof. reflexivity. Qed.

Lemma buildListLoop_unfold (f baseIndent : nat) (html : string) (i : nat) :
  buildListLoop (S f) listLines inlineCodes baseIndent html i =
  match nth_error listLines i with
  | None => Some (html, i)
  | Some line =>
    if (getIndent line <? baseIndent)%nat then Some (html, i)
    else if (getIndent line =? baseIndent)%nat then
      let html' := html ++ "<li>" ++ inlineFormat (stripMarkers line) inlineCodes in
      if match nth_error listLines (i + 1) with
         | Some next => (baseIndent <? getIndent next)%nat
         | None => false
         end
      then
        match buildListHTML f listLines (i + 1) inlineCodes with
        | Some (nested, endIndex) =>
            buildListLoop f listLines inlineCodes baseIndent
                          (html' ++ nested ++ "</li>") endIndex
        | None => None
        end
      else
        buildListLoop f listLines inlineCodes baseIndent (html' ++ "</li>") (i + 1)
    else
      match buildListHTML f listLines i inlineCodes with
      | Some (nested, endIndex) =>
          buildListLoop f listLines inlineCodes baseIndent (html ++ nested) endIndex
      | None => None
      end
  end.
Proof. reflexivity. Qed.

(** More fuel does not change a result. *)
Lemma fuel_monotone (f : nat) :
  (forall g i r, f <= g -> build f i = Some r -> build g i = Some r)
  /\ (forall g b h i r, f <= g -> loop f b h i = Some r -> loop g b h i = Some r).
Proof.
  induction f as [|f [IHb IHl]]; (split; [intros g i r Hg | intros g b h i r Hg]);
    try discriminate;
    (destruct g as [|g]; [lia|]); assert (Hfg : f <= g) by lia.
  - rewrite !buildListHTML_unfold.
    destruct (nth_error listLines i) as [first|]; [|auto].
    cbv zeta.
    destruct (buildListLoop f _ _ _ _ _) as [[h e]|] eqn:E; [|discriminate].
    now rewrite (IHl g _ _ _ _ Hfg E).
  - rewrite !buildListLoop_unfold.
    destruct (nth_error listLines i) as [line|]; [|auto].
    destruct (getIndent line <? b)%nat; [auto|].
    destruct (getIndent line =? b)%nat.
    + cbv zeta.
      destruct (match nth_error listLines (i + 1) with
                | Some next => (b <? getIndent next)%nat
                | None => false
                end).
      * destruct (buildListHTML f _ _ _) as [[nested e]|] eqn:E; [|discriminate].
        rewrite (IHb g _ _ Hfg E). now apply IHl.
      * now apply IHl.
    + destruct (buildListHTML f _ _ _) as [[nested e]|] eqn:E; [|discriminate].
      rewrite (IHb g _ _ Hfg E). now apply IHl.
Qed.

Local Abbreviation buildPost := (buildListPost len).
Local Abbreviation loopPost := (buildLoopPost len).

Lemma enough_fuel (n : nat) :
  forall i, len - i <= n ->
    (forall fuel, 3 * n + 1 <= fuel -> buildPost i (build fuel i))
    /\ (forall fuel b h line,
           nth_error listLines i = Some line -> getIndent line = b ->
           3 * n <= fuel ->
           exists html e, loop fuel b h i = Some (html, e) /\ i < e <= len)
    /\ (forall fuel b h, 3 * n + 2 <= fuel -> loopPost i (loop fuel b h i)).
Proof.
  induction n as [|n IH]; intros i Hi.
  - assert (Hnone : nth_error listLines i = None)
      by (apply nth_error_None; lia).
    repeat split.
    + intros [|f] Hf; [lia|]. rewrite buildListHTML_unfold, Hnone.
      exists "", i. repeat split; lia.
    + intros fuel b h line Hl. congruence.
    + intros [|f] b h Hf; [lia|]. rewrite buildListLoop_unfold, Hnone.
      exists h, i. repeat split; lia.
  - assert (LI : forall fuel b h line,
               nth_error listLines i = Some line -> getIndent line = b ->
               3 * S n <= fuel ->
               exists html e, loop fuel b h i = Some (html, e) /\ i < e <= len).
    { intros [|f] b h line Hl Hb Hf; [lia|].
      assert (Hlt : i < len) by (apply nth_error_Some; congruence).
      rewrite buildListLoop_unfold, Hl, Hb, Nat.ltb_irrefl, Nat.eqb_refl.
      cbv zeta.
      destruct (nth_error listLines (i + 1)) as [next|] eqn:En.
      - destruct (b <? getIndent next)%nat.
        + assert (Hn1 : i + 1 < len) by (apply nth_error_Some; congruence).
          destruct (IH (i + 1) ltac:(lia)) as (B & _ & _).
          destruct (B f ltac:(lia)) as (nested & e & -> & He & _).
          destruct (IH e ltac:(lia)) as (_ & _ & L).
          destruct (L f b ((h ++ "<li>" ++ inlineFormat (stripMarkers line) inlineCodes)
                            ++ nested ++ "</li>") ltac:(lia))
            as (html & e' & -> & He1 & He2).
          exists html, e'. split; [reflexivity | lia].
        + destruct (IH (i + 1) ltac:(lia)) as (_ & _ & L).
          destruct (L f b ((h ++ "<li>" ++ inlineFormat (stripMarkers line) inlineCodes)
                            ++ "</li>") ltac:(lia))
            as (html & e' & -> & He1 & He2).
          exists html, e'. split; [reflexivity | lia].
      - destruct (IH (i + 1) ltac:(lia)) as (_ & _ & L).
        destruct (L f b ((h ++ "<li>" ++ inlineFormat (stripMarkers line) inlineCodes)
                          ++ "</li>") ltac:(lia))
          as (html & e' & -> & He1 & He2).
        exists html, e'. split; [reflexivity | lia]. }
    assert (B : forall fuel, 3 * S n + 1 <= fuel -> buildPost i (build fuel i)).
    { intros [|f] Hf; [lia|]. rewrite buildListHTML_unfold.
      destruct (nth_error listLines i) as [first|] eqn:E.
      - cbv zeta.
        destruct (LI f (getIndent first)
                     ("<" ++ (if isOrderedLine first then "ol" else "ul") ++ ">")
                     first eq_refl eq_refl ltac:(lia)) as (html & e & -> & He).
        eexists _, e. split; [reflexivity|]. split; lia.
      - apply nth_error_None in E. exists "", i. repeat split; lia. }
    repeat split; [exact B | exact LI |].
    intros [|f] b h Hf; [lia|].
    destruct (nth_error listLines i) as [line|] eqn:E.
    + assert (Hlt : i < len) by (apply nth_error_Some; congruence).
      destruct (Nat.eqb_spec (getIndent line) b) as [Heq|Hne].
      * destruct (LI (S f) b h line eq_refl Heq ltac:(lia)) as (html & e & -> & He).
        exists html, e. split; [reflexivity | lia].
      * rewrite buildListLoop_unfold, E.
        destruct (getIndent line <? b)%nat.
        { exists h, i. repeat split; lia. }
        destruct (Nat.eqb_spec (getIndent line) b) as [|_]; [contradiction|].
        destruct (B f ltac:(lia)) as (nested & e & -> & He & _).
        destruct (IH e ltac:(lia)) as (_ & _ & L).
        destruct (L f b (h ++ nested) ltac:(lia)) as (html & e' & -> & He1 & He2).
        exists html, e'. split; [reflexivity | lia].
    + rewrite buildListLoop_unfold, E. exists h, i.
      apply nth_error_None in E. repeat split; lia.
Qed.

End ListBuilder.

Lemma parseList_returns (lines : list string) (startIdx : nat)
      (inlineCodes : list string) :
  exists html, parseList lines startIdx inlineCodes = Some html.
Proof.
  unfold parseList.
  destruct (enough_fuel (listRegion lines startIdx) inlineCodes
              (List.length (listRegion lines startIdx)) 0 ltac:(lia))
    as (B & _ & _).
  destruct (B (listFuel (List.length (listRegion lines startIdx)))
              ltac:(unfold listFuel; lia)) as (html & e & -> & _).
  now exists html.
Qed.

(** C9.  From every index inside a run of list lines [buildListHTML]
    returns, with an end index strictly behind the start and not behind the
    end of the run; the fuel of the model is enough and more fuel changes
    nothing.  [parseList] therefore returns on every input, the recovery
    branch for a deeper line without a preceding sibling included. *)
Theorem buildListHTML_progress (listLines inlineCodes : list string)
        (fromIndex : nat) :
  fromIndex < List.length listLines ->
  exists html endIndex,
    (forall fuel, listFuel (List.length listLines) <= fuel ->
       buildListHTML fuel listLines fromIndex inlineCodes = Some (html, endIndex))
    /\ fromIndex < endIndex <= List.length listLines
    /\ (forall startIdx, exists out, parseList listLines startIdx inlineCodes = Some out).
Proof.
  intros Hlt.
  destruct (enough_fuel listLines inlineCodes (List.length listLines) fromIndex
              ltac:(lia)) as (B & _ & _).
  destruct (B (listFuel (List.length listLines)) ltac:(unfold listFuel; lia))
    as (html & e & E & He & _).
  exists html, e. split; [|split].
  - intros fuel Hf.
    exact (proj1 (fuel_monotone listLines inlineCodes _) fuel fromIndex _ Hf E).
  - now apply He.
  - intros startIdx. apply parseList_returns.
Qed.

Lemma buildListHTML_progress_witness :
  1 < 3 /\
  exists html endIndex,
    (forall fuel, listFuel 3 <= fuel ->
       buildListHTML fuel ["    - deep"; "- a"; "  - b"] 1 [] = Some (html, endIndex))
    /\ 1 < endIndex <= 3
    /\ (forall startIdx, exists out,
           parseList ["    - deep"; "- a"; "  - b"] startIdx [] = Some out).
Proof.
  split; [lia|].
  apply (buildListHTML_progress ["    - deep"; "- a"; "  - b"] [] 1). simpl; lia.
Defined.

(** ** Nested lists through the extractor and the renderer *)

(** C1.  An unordered list with one item that holds a nested ordered list
    of two items.  The extractor puts an empty line between the item and
    its nested list, the renderer ends the list region at that line, and
    the ordered list comes out as a sibling of the unordered list instead of
    inside its item. *)
Theorem nested_list_is_flattened :
  let item (text : string) (more : list Node) :=
    ElementNode "li" [] (ElementNode "p" [] [TextNode text] :: more) in
  let tree :=
    ElementNode "div" []
      [ElementNode "ul" []
         [item "A" [ElementNode "ol" [] [item "B" []; item "C" []]]]] in
  extractTextContent tree (mkCtx false 0)
    = "- A" ++ nl ++ nl ++ "  1. B" ++ nl ++ "  2. C"
  /\ renderMarkdown (extractTextContent tree (mkCtx false 0))
    = Returned ("<ul><li>A</li></ul>" ++ nl ++ "<ol><li>B</li><li>C</li></ol>")
  /\ renderMarkdown ("- A" ++ nl ++ "  1. B" ++ nl ++ "  2. C")
    = Returned "<ul><li>A<ol><li>B</li><li>C</li></ol></li></ul>".
Proof. repeat split; vm_compute; reflexivity. Qed.

(** ** Fenced code *)

(** C2.  The fenced block with the body [print("a`b")]: the code body of
    the rendered block is that text, backtick included, and the inline-code
    step finds no span in what the fence step left. *)
Theorem fence_before_inline_code :
  let body := "print(" ++ quoted "a`b" ++ ")" in
  let raw := "```python" ++ nl ++ body ++ nl ++ "```" in
  renderMarkdown raw
    = Returned ("<div class=" ++ quoted "code-block" ++ "><div class="
                  ++ quoted "code-block-header" ++ "><span class="
                  ++ quoted "code-lang" ++ ">python</span><button class="
                  ++ quoted "code-copy-btn" ++ ">Copy code</button></div>"
                  ++ "<pre><code class=" ++ quoted "language-python" ++ ">"
                  ++ body ++ "</code></pre></div>")
  /\ List.map toCodeBlock (hits (scan matchFence None 0 raw))
     = [mkCodeBlock "python" body]
  /\ hits (scan matchInlineCode None 0
             (assemble (fun idx _ => placeholder "CB_" idx) 0
                       (scan matchFence None 0 raw))) = [].
Proof. repeat split; vm_compute; reflexivity. Qed.

(** ** List regions *)

Lemma runLength_split {A : Type} (p : A -> bool) (l : list A) :
  Forall (fun x => p x = true) (firstn (runLength p l) l)
  /\ match skipn (runLength p l) l with
     | [] => True
     | x :: _ => p x = false
     end.
Proof.
  induction l as [|x r [IH1 IH2]]; simpl; [split; [constructor | exact I]|].
  destruct (p x) eqn:E; simpl.
  - split; [constructor; assumption | exact IH2].
  - split; [constructor | exact E].
Qed.

Lemma trimEnd_empty (c : ascii) (r : string) :
  isSpace c = false -> trimEnd (String c r) <> "".
Proof. intros H. simpl. rewrite H. discriminate. Qed.

Lemma trimStart_head (s : string) :
  match trimStart s with
  | "" => True
  | String c _ => isSpace c = false
  end.
Proof.
  unfold trimStart. induction s as [|c r IH]; simpl; [exact I|].
  destruct (isSpace c) eqn:E; simpl; [exact IH | exact E].
Qed.

Lemma blank_trimStart (line : string) :
  isBlank line = true -> trimStart line = "".
Proof.
  unfold isBlank, trim. intros H. apply String.eqb_eq in H.
  pose proof (trimStart_head line) as Hh.
  destruct (trimStart line) as [|c r]; [reflexivity|].
  now apply trimEnd_empty with (r := r) in Hh.
Qed.

Lemma blank_not_list (line : string) :
  isBlank line && isListLine line = false.
Proof.
  destruct (isBlank line) eqn:E; [|reflexivity].
  unfold isListLine, isOrderedLine. now rewrite (blank_trimStart _ E).
Qed.

Lemma char_classes (c : ascii) :
  (isSpace c = true -> Ascii.eqb "-" c = false)
  /\ (isDigit c = true -> isSpace c = false /\ Ascii.eqb "-" c = false)
  /\ (isBullet c = true -> isSpace c = false)
  /\ (isSpace c || isBullet c || isDigit c = true ->
      Ascii.eqb NUL c = false /\ isHash c = false /\ Ascii.eqb ">" c = false).
Proof.
  destruct c as [[] [] [] [] [] [] [] []]; vm_compute; intuition discriminate.
Qed.

Lemma listLine_head (line : string) :
  isListLine line = true ->
  exists c r, line = String c r /\ isSpace c || isBullet c || isDigit c = true.
Proof.
  destruct line as [|c r]; intros H; [vm_compute in H; discriminate|].
  exists c, r.
  split; [reflexivity|].
  destruct (isSpace c) eqn:Es; [reflexivity|].
  unfold isListLine, isOrderedLine, trimStart in H. cbn [spanLen] in H.
  rewrite Es in H. unfold afterBullet, afterNumber in H.
  cbn [dropStr spanLen] in H.
  destruct (isBullet c); [reflexivity|].
  destruct (isDigit c); [reflexivity | discriminate].
Qed.

Lemma listLine_not_rule (line : string) :
  isListLine line = true -> isRule line = false.
Proof.
  unfold isListLine, isOrderedLine, isRule, trim.
  pose proof (trimStart_head line) as Hh.
  destruct (trimStart line) as [|c r]; [discriminate|].
  destruct (char_classes c) as (_ & Hd & Hb & _).
  cbn [trimEnd]. rewrite Hh. cbn [andb].
  intros [H|H]%orb_true_iff.
  - cbn [afterBullet] in H.
    destruct (isBullet c) eqn:Eb; [|discriminate]. cbn [andb] in H.
    destruct r as [|w r']; [discriminate|]. cbn [spanLen] in H.
    destruct (isSpace w) eqn:Ew; [|discriminate].
    destruct (char_classes w) as (Hw & _).
    cbn [trimEnd]. rewrite Ew. cbn [andb].
    destruct (allChars isSpace r'); [reflexivity|].
    cbn [allChars]. rewrite (Hw Ew). cbn [andb].
    now rewrite !andb_false_r.
  - unfold afterNumber in H. cbn [spanLen] in H.
    destruct (isDigit c) eqn:Ed; [|discriminate].
    destruct (Hd eq_refl) as [_ Hm].
    cbn [allChars]. rewrite Hm. apply andb_false_r.
Qed.
(** At a list line the block loop takes the list branch: it pushes what
    [parseList] returns and moves behind the run of list lines. *)
Lemma blockLoop_list_line (fuel : nat) (codeBlocks : list CodeBlock)
      (inlineCodes lines : list string) (i : nat) (blocks : list string)
      (line : string) :
  nth_error lines i = Some line -> isListLine line = true ->
  blockLoop (S fuel) codeBlocks inlineCodes lines i blocks
  = match parseList lines i inlineCodes with
    | Some html =>
        blockLoop fuel codeBlocks inlineCodes lines
                  (i + runLength isListLine (skipn i lines)) (blocks ++ [html])
    | None => Unfinished
    end.
Proof.
  intros Hl Hlist. cbn [blockLoop]. rewrite Hl.
  rewrite (listLine_not_rule _ Hlist), Hlist.
  destruct (listLine_head _ Hlist) as (c & r & -> & Hc).
  destruct (char_classes c) as (_ & _ & _ & Hcls).
  destruct (Hcls Hc) as (Hnul & Hhash & Hgt).
  unfold matchCodeLine, matchPlaceholder, matchHeading, isQuoteLine.
  cbn [startsWith spanLen]. rewrite Hnul, Hhash, Hgt. reflexivity.
Qed.

(** C4, as the code has it.  The region handed to the list builder is the
    longest run of consecutive list lines from the start index: every line
    of the region is a list line and the line behind the region (if any) is
    not.  At a list line [renderMarkdown] pushes what the builder makes of
    the region and resumes behind the region.  A blank line is never a list
    line, so it ends the region. *)
Theorem listRegion_longest_run (lines : list string) (startIdx : nat)
        (inlineCodes : list string) :
  let region := listRegion lines startIdx in
  let rest := skipn (List.length region) (skipn startIdx lines) in
  skipn startIdx lines = (region ++ rest)%list
  /\ Forall (fun l => isListLine l = true) region
  /\ match rest with
     | [] => True
     | next :: _ => isListLine next = false
     end
  /\ parseList lines startIdx inlineCodes
     = match buildListHTML (listFuel (List.length region)) region 0 inlineCodes with
       | Some (html, _) => Some html
       | None => None
       end
  /\ (forall fuel codeBlocks blocks line,
         nth_error lines startIdx = Some line -> isListLine line = true ->
         exists html,
           parseList lines startIdx inlineCodes = Some html
           /\ blockLoop (S fuel) codeBlocks inlineCodes lines startIdx blocks
              = blockLoop fuel codeBlocks inlineCodes lines
                          (startIdx + List.length region) (blocks ++ [html]))
  /\ (forall blank, isBlank blank && isListLine blank = false).
Proof.
  cbv zeta. unfold listRegion.
  set (tail := skipn startIdx lines).
  destruct (runLength_split isListLine tail) as [H1 H2].
  assert (Hlen : List.length (firstn (runLength isListLine tail) tail)
                 = runLength isListLine tail).
  { apply firstn_length_le. clear. induction tail as [|x r IH]; simpl; [lia|].
    destruct (isListLine x); simpl; lia. }
  rewrite Hlen. split; [|split; [|split; [|split; [|split]]]].
  - symmetry. apply firstn_skipn.
  - exact H1.
  - exact H2.
  - unfold parseList, listRegion. fold tail. now rewrite Hlen.
  - intros fuel codeBlocks blocks line Hl Hlist.
    rewrite (blockLoop_list_line _ _ _ _ _ _ _ Hl Hlist). fold tail.
    destruct (parseList_returns lines startIdx inlineCodes) as [html ->].
    now exists html.
  - apply blank_not_list.
Qed.

Lemma listRegion_longest_run_witness :
  let lines := ["intro"; "- a"; "  - b"; ""; "- c"] in
  (nth_error lines 1 = Some "- a" /\ isListLine "- a" = true)
  /\ listRegion lines 1 = ["- a"; "  - b"]
  /\ exists html,
       parseList lines 1 [] = Some html
       /\ blockLoop 5 [] [] lines 1 ["<p>intro</p>"]
          = blockLoop 4 [] [] lines 3 ["<p>intro</p>"; html].
Proof.
  intros lines. split; [split; reflexivity | split; [reflexivity|]].
  destruct (listRegion_longest_run lines 1 []) as (_ & _ & _ & _ & H & _).
  destruct (H 4 [] ["<p>intro</p>"] "- a" eq_refl eq_refl) as (html & Hp & Hb).
  exists html. split; [exact Hp | exact Hb].
Defined.

(** C4, as the claim has it, fails: list lines behind a blank line are
    not part of the region, and are rendered as a list of their own. *)
Lemma listRegion_stops_at_blank_line :
  let lines := ["- a"; ""; "- b"] in
  isListLine "- a" = true /\ isBlank "" = true /\ isListLine "- b" = true
  /\ listRegion lines 0 = ["- a"]
  /\ ~ In "- b" (listRegion lines 0)
  /\ renderMarkdown (join nl lines)
     = Returned ("<ul><li>a</li></ul>" ++ nl ++ "<ul><li>b</li></ul>").
Proof.
  cbv zeta. repeat split; try (vm_compute; reflexivity).
  vm_compute. intros [H|[]]. discriminate.
Qed.


(** ** The extractor, child by child *)

Lemma extractTextContent_unfold (tag : string) (attrs : list (string * string))
      (childNodes : list Node) (ctx : Ctx) :
  extractTextContent (ElementNode tag attrs childNodes) ctx
  = finish ctx
      (fold_left (fun result child =>
                    extractChild extractTextContent processListElement
                                 processListItem ctx child result)
                 childNodes "").
Proof.
  reflexivity.
Qed.

Lemma extractChild_anchor (attrs : list (string * string)) (kids : list Node)
      (ctx : Ctx) (result : string) :
  extractChild extractTextContent processListElement processListItem ctx
               (ElementNode "a" attrs kids) result
  = if isNavigable (linkTarget attrs)
    then result ++ "[" ++ extractTextContent (ElementNode "a" attrs kids) ctx
                ++ "](" ++ linkTarget attrs ++ ")"
    else result ++ extractTextContent (ElementNode "a" attrs kids) ctx.
Proof. reflexivity. Qed.





(** The slip that the statement above leaves out: the guard compares the
    prefix as it is written, so a script-scheme target with a capital
    letter, or behind a space, passes it and is written as a link. *)
Lemma script_target_in_another_spelling_passes :
  let link (href : string) :=
    extractTextContent
      (ElementNode "div" [] [ElementNode "a" [("href", href)] [TextNode "x"]])
      (mkCtx false 0) in
  isScriptSchemeURI "JavaScript:evil()" = true
  /\ link "JavaScript:evil()" = "[x](JavaScript:evil())"
  /\ isScriptSchemeURI " javascript:evil()" = true
  /\ link " javascript:evil()" = "[x]( javascript:evil())".
Proof. repeat split. Qed.


(** ** saveConversation *)

Lemma prop_string (o : gmap string Value) (name s : string) :
  prop o name = VString s -> o !! name = Some (VString s).
Proof. unfold prop. destruct (o !! name); [congruence | discriminate]. Qed.

Lemma storeOk_insert (store : gmap string (gmap string Value)) (key : string)
      (record : gmap string Value) :
  storeOk store -> record !! "id" = Some (VString key) ->
  storeOk (<[key := record]> store).
Proof.
  intros Hok Hid k r. rewrite lookup_insert. case_decide as Hk.
  - intros [= <-]. now subst k.
  - apply Hok.
Qed.

(** C10.  With an id under which a record exists, the record that is
    stored (and returned) agrees with the existing one on every property
    but [title], [url], [messages] and [updatedAt], so [savedAt], [id] and
    [source] are kept; [title] and [url] are the incoming values or, when
    these are absent (or empty), the existing ones; [messages] is the
    incoming value and [updatedAt] the current time.  With no record under
    the id, the stored record agrees with the incoming one on every property
    but [savedAt] and [updatedAt]; [savedAt] is the incoming value or, when
    that is absent, the current time, and [updatedAt] is the current time. *)
Theorem saveConversation_merge (clock : nat -> string) (w : World)
        (conversation : gmap string Value) (key : string) :
  prop conversation "id" = VString key ->
  storeOk (db w) ->
  exists toSave w',
    saveConversation clock w conversation = Some (w', toSave)
    /\ db w' = <[key := toSave]> (db w)
    /\ storeOk (db w')
    /\ match db w !! key with
       | Some existing =>
           (forall name, name ∉ ["title"; "url"; "messages"; "updatedAt"] ->
                         toSave !! name = existing !! name)
           /\ toSave !! "savedAt" = existing !! "savedAt"
           /\ toSave !! "id" = existing !! "id"
           /\ toSave !! "source" = existing !! "source"
           /\ toSave !! "title"
              = Some (if truthy (prop conversation "title")
                      then prop conversation "title" else prop existing "title")
           /\ toSave !! "url"
              = Some (if truthy (prop conversation "url")
                      then prop conversation "url" else prop existing "url")
           /\ toSave !! "messages" = Some (prop conversation "messages")
           /\ toSave !! "updatedAt" = Some (VString (clock (reads w)))
           /\ reads w' = S (reads w)
       | None =>
           (forall name, name ∉ ["savedAt"; "updatedAt"] ->
                         toSave !! name = conversation !! name)
           /\ toSave !! "savedAt"
              = Some (if truthy (prop conversation "savedAt")
                      then prop conversation "savedAt"
                      else VString (clock (reads w)))
           /\ toSave !! "updatedAt" = Some (VString (clock (reads w' - 1)))
           /\ reads w < reads w' <= reads w + 2
       end.
Proof.
  intros Hid Hok. unfold saveConversation. rewrite Hid. cbn [keyOf].
  apply prop_string in Hid.
  destruct (db w !! key) as [existing|] eqn:Eex;
    [pose proof (Hok _ _ Eex) as Hex
    | destruct (truthy (prop conversation "savedAt")) eqn:Et];
    match goal with
    | |- context [keyOf (prop ?r "id")] => set (toSave := r)
    end;
    (assert (Hts : toSave !! "id" = Some (VString key))
      by (subst toSave; now simplify_map_eq));
    unfold prop at 1; rewrite Hts; cbn [keyOf];
    eexists toSave, _; (split; [reflexivity|]); cbn [db reads];
    (split; [reflexivity|]); (split; [now apply storeOk_insert|]);
    subst toSave; unfold orElse;
    repeat split;
    try (now simplify_map_eq); try lia;
    try (intros name Hn; rewrite !lookup_insert_ne; [reflexivity|..];
         intros <-; apply Hn; set_solver);
    try (rewrite lookup_insert_eq; do 3 f_equal; lia).
Qed.

Lemma saveConversation_merge_witness :
  let existing : gmap string Value :=
    list_to_map [("id", VString "chatgpt_c1"); ("source", VString "chatgpt");
                 ("title", VString "First title"); ("url", VString "https://chatgpt.com/c/c1");
                 ("messages", VArray []);
                 ("savedAt", VString "2024-01-01T00:00:00.000Z");
                 ("updatedAt", VString "2024-01-01T00:00:00.000Z")] in
  let incoming : gmap string Value :=
    list_to_map [("id", VString "chatgpt_c1"); ("source", VString "elsewhere");
                 ("url", VString "https://chatgpt.com/c/c1?x=1");
                 ("messages", VArray [VObject [("role", VString "user");
                                               ("content", VString "hi")]])] in
  let w := mkWorld {["chatgpt_c1" := existing]} 0 in
  exists toSave w',
    saveConversation (fun _ => "2024-05-02T10:00:00.000Z") w incoming
      = Some (w', toSave)
    /\ toSave !! "savedAt" = Some (VString "2024-01-01T00:00:00.000Z")
    /\ toSave !! "source" = Some (VString "chatgpt")
    /\ toSave !! "title" = Some (VString "First title")
    /\ toSave !! "url" = Some (VString "https://chatgpt.com/c/c1?x=1")
    /\ toSave !! "updatedAt" = Some (VString "2024-05-02T10:00:00.000Z").
Proof.
  intros existing incoming w.
  destruct (saveConversation_merge (fun _ => "2024-05-02T10:00:00.000Z") w
                                   incoming "chatgpt_c1")
    as (toSave & w' & Hsave & _ & _ & Hframe).
  - reflexivity.
  - intros k r. subst w. cbn [db].
    destruct (decide (k = "chatgpt_c1")) as [->|Hk].
    + rewrite lookup_singleton_eq. intros [= <-]. reflexivity.
    + rewrite lookup_singleton_ne by congruence. discriminate.
  - subst w. cbn [db] in Hframe. rewrite lookup_singleton_eq in Hframe.
    destruct Hframe as (_ & Hsaved & _ & Hsource & Htitle & Hurl & _ & Hupd & _).
    exists toSave, w'. repeat split; try assumption.
Defined.

(** ** sanitizeHTML *)

Lemma Node_induction (P : Node -> Prop) :
  (forall t, P (TextNode t)) ->
  (forall d, P (CommentNode d)) ->
  (forall tag attrs kids, Forall P kids -> P (ElementNode tag attrs kids)) ->
  forall n, P n.
Proof.
  intros Ht Hc He.
  fix IH 1. intros [t|d|tag attrs kids]; [apply Ht | apply Hc |].
  apply He. induction kids as [|k r IHr]; constructor; [apply IH | exact IHr].
Qed.

Lemma sanitizeHTML_cons (n : Node) (rest : list Node) :
  sanitizeHTML (n :: rest)
  = match n with
    | ElementNode tag attrs kids =>
        if isAllowedTag tag
        then ElementNode tag (cleanAttrs tag attrs) (sanitizeHTML kids)
               :: sanitizeHTML rest
        else (kids ++ sanitizeHTML rest)%list
    | _ => n :: sanitizeHTML rest
    end.
Proof.
  destruct n as [t|d|tag attrs kids]; try reflexivity.
  unfold sanitizeHTML. cbn [cleanNode]. now destruct (isAllowedTag tag).
Qed.

Lemma sanitizeHTML_app (a b : list Node) :
  sanitizeHTML (a ++ b) = (sanitizeHTML a ++ sanitizeHTML b)%list.
Proof.
  induction a as [|n r IH]; [reflexivity|].
  rewrite <- app_comm_cons, !sanitizeHTML_cons, IH.
  destruct n as [t|d|tag attrs kids]; try reflexivity.
  destruct (isAllowedTag tag); [reflexivity | now rewrite app_assoc].
Qed.

Lemma getAttribute_filter (name : string) (keep : string -> bool)
      (attrs : list (string * string)) :
  keep name = true ->
  getAttribute name (List.filter (fun kv => keep (fst kv)) attrs)
  = getAttribute name attrs.
Proof.
  intros Hk. induction attrs as [|[k v] r IH]; [reflexivity|].
  cbn [List.filter fst getAttribute].
  destruct (String.eqb_spec k name) as [->|Hne].
  - rewrite Hk. cbn [getAttribute]. now rewrite String.eqb_refl.
  - destruct (keep k); [cbn [getAttribute]|]; [|exact IH].
    destruct (String.eqb_spec k name); [contradiction | exact IH].
Qed.

Lemma getAttribute_setClass (name v : string) (attrs : list (string * string)) :
  name <> "class" ->
  getAttribute name (setClass v attrs) = getAttribute name attrs.
Proof.
  intros Hn. induction attrs as [|[k x] r IH]; [reflexivity|].
  cbn [setClass List.map fst getAttribute].
  destruct (String.eqb_spec k "class") as [->|Hk]; cbn [getAttribute].
  - destruct (String.eqb_spec "class" name); [congruence | exact IH].
  - destruct (String.eqb_spec k name); [reflexivity | exact IH].
Qed.

(** The attributes other than [class] that the allow-list names are kept
    with their values. *)
Lemma cleanAttrs_keeps (tag name : string) (attrs : list (string * string)) :
  In name ["href"; "src"; "alt"; "target"; "rel"] ->
  getAttribute name (cleanAttrs tag attrs) = getAttribute name attrs.
Proof.
  intros Hin.
  assert (Hallowed : isAllowedAttr name = true)
    by (repeat (destruct Hin as [<-|Hin]; [reflexivity|]); destruct Hin).
  assert (Hclass : name <> "class")
    by (repeat (destruct Hin as [<-|Hin]; [discriminate|]); destruct Hin).
  assert (Hrm : forall l, getAttribute name (removeAttribute "class" l)
                          = getAttribute name l).
  { intros l. unfold removeAttribute.
    apply (getAttribute_filter name (fun k => negb (String.eqb k "class"))).
    destruct (String.eqb_spec name "class"); [contradiction | reflexivity]. }
  unfold cleanAttrs.
  rewrite <- (getAttribute_filter name isAllowedAttr attrs Hallowed).
  destruct (String.eqb tag "code"); [|apply Hrm].
  destruct (getAttribute "class" _) as [cls|]; [|apply Hrm].
  destruct (matchLanguageClass cls); [|apply Hrm].
  now apply getAttribute_setClass.
Qed.

Lemma findFirst_sound (p : string -> bool) (s t : string) :
  findFirst p s = Some t -> p t = true.
Proof.
  induction s as [|c r IH]; cbn [findFirst].
  - destruct (p "") eqn:E; [intros [= <-]; exact E | discriminate].
  - destruct (p (String c r)) eqn:E; [intros [= <-]; exact E | exact IH].
Qed.

Lemma startsWith_takeStr (p t : string) (n : nat) :
  startsWith p t = true -> String.length p <= n ->
  startsWith p (takeStr n t) = true.
Proof.
  revert t n; induction p as [|a p IH]; intros t n; [reflexivity|].
  destruct t as [|b t]; [discriminate|]. destruct n as [|n]; simpl; [lia|].
  intros [-> H]%andb_true_iff Hn. rewrite (IH t n H) by lia. reflexivity.
Qed.

Lemma dropStr_takeStr (a b : nat) (t : string) :
  dropStr a (takeStr (a + b) t) = takeStr b (dropStr a t).
Proof.
  revert t; induction a as [|a IH]; intros t.
  - now destruct b, t.
  - destruct t as [|c t]; [now destruct b | apply IH].
Qed.

Lemma takeStr_span (p : ascii -> bool) (s : string) :
  allChars p (takeStr (spanLen p s) s) = true
  /\ String.length (takeStr (spanLen p s) s) = spanLen p s.
Proof.
  induction s as [|c r [IH1 IH2]]; [split; reflexivity|].
  simpl. destruct (p c) eqn:E; simpl; [|split; reflexivity].
  rewrite E, IH1, IH2. split; reflexivity.
Qed.

Lemma matchLanguageClass_marker (cls v : string) :
  matchLanguageClass cls = Some v -> isLanguageMarker v = true.
Proof.
  unfold matchLanguageClass.
  destruct (findFirst _ cls) as [t|] eqn:E; [|discriminate].
  apply findFirst_sound in E. apply andb_true_iff in E as [Hp Hk].
  intros Hv.
  replace v with (takeStr (9 + spanLen (fun c => negb (isSpace c)) (dropStr 9 t)) t)
    by congruence.
  clear Hv. unfold isLanguageMarker.
  rewrite (startsWith_takeStr "language-" t _ Hp) by (simpl; lia).
  rewrite (dropStr_takeStr 9 _ t).
  destruct (takeStr_span (fun c => negb (isSpace c)) (dropStr 9 t)) as [-> ->].
  now rewrite Hk.
Qed.

Lemma cleanAttrs_clean (tag : string) (attrs : list (string * string)) :
  Forall (fun kv => isAllowedAttr (fst kv) = true
                    /\ (fst kv = "class" ->
                        tag = "code" /\ isLanguageMarker (snd kv) = true))
         (cleanAttrs tag attrs).
Proof.
  assert (Hrm : forall l,
    Forall (fun kv => isAllowedAttr (fst kv) = true) l ->
    Forall (fun kv => isAllowedAttr (fst kv) = true
                      /\ (fst kv = "class" ->
                          tag = "code" /\ isLanguageMarker (snd kv) = true))
           (removeAttribute "class" l)).
  { intros l Hl. unfold removeAttribute. apply List.Forall_forall.
    intros kv [Hin Hk]%List.filter_In. split.
    - rewrite List.Forall_forall in Hl. now apply Hl.
    - intros Hc. rewrite Hc in Hk. discriminate. }
  assert (Hkept : Forall (fun kv => isAllowedAttr (fst kv) = true)
                         (List.filter (fun kv => isAllowedAttr (fst kv)) attrs)).
  { apply List.Forall_forall. now intros kv [_ H]%List.filter_In. }
  unfold cleanAttrs.
  destruct (String.eqb_spec tag "code") as [->|_]; [|now apply Hrm].
  destruct (getAttribute "class" _) as [cls|]; [|now apply Hrm].
  destruct (matchLanguageClass cls) as [lang|] eqn:El; [|now apply Hrm].
  apply matchLanguageClass_marker in El.
  unfold setClass. apply List.Forall_forall. intros kv Hin.
  apply List.in_map_iff in Hin as ([k x] & <- & Hin).
  rewrite List.Forall_forall in Hkept. specialize (Hkept _ Hin). cbn [fst] in *.
  destruct (String.eqb_spec k "class") as [->|Hne]; cbn [fst snd].
  - split; [reflexivity | now intros _].
  - split; [exact Hkept | now intros ->].
Qed.

Lemma sanitizeHTML_split (n : Node) (rest : list Node) :
  sanitizeHTML (n :: rest) = (sanitizeHTML [n] ++ sanitizeHTML rest)%list.
Proof. apply (sanitizeHTML_app [n] rest). Qed.

Lemma no_elements (kids : list Node) :
  forallb (fun k => negb (isElement k)) kids = true ->
  flat_map elementsOf kids = [].
Proof.
  induction kids as [|k r IH]; [reflexivity|]. cbn [forallb flat_map].
  intros [Hk Hr]%andb_true_iff. rewrite (IH Hr).
  destruct k; [reflexivity | reflexivity | discriminate].
Qed.

Lemma sanitize_forest_clean (forest : list Node) :
  Forall (fun n => plainUnwrap n = true ->
                   Forall cleanElement (flat_map elementsOf (sanitizeHTML [n])))
         forest ->
  forallb plainUnwrap forest = true ->
  Forall cleanElement (flat_map elementsOf (sanitizeHTML forest)).
Proof.
  induction 1 as [|n r Hn _ IH]; [constructor|].
  cbn [forallb]. intros [H1 H2]%andb_true_iff.
  rewrite sanitizeHTML_split, flat_map_app. apply List.Forall_app. auto.
Qed.

Lemma sanitize_node_clean (n : Node) :
  plainUnwrap n = true ->
  Forall cleanElement (flat_map elementsOf (sanitizeHTML [n])).
Proof.
  induction n as [t|d|tag attrs kids IH] using Node_induction;
    [constructor | constructor |].
  cbn [plainUnwrap]. intros [Hshape Hkids]%andb_true_iff.
  rewrite sanitizeHTML_cons.
  destruct (isAllowedTag tag) eqn:Et.
  - cbn [flat_map elementsOf]. rewrite app_nil_r. constructor.
    + split; [exact Et | apply cleanAttrs_clean].
    + now apply sanitize_forest_clean.
  - cbn [orb] in Hshape. change (sanitizeHTML []) with (@nil Node).
    rewrite app_nil_r, (no_elements _ Hshape). constructor.
Qed.

(** C6, as the code has it, for a fragment in which no element with a
    disallowed tag has an element among its children.  Every element that
    is left has an allowed tag and allow-listed attributes only, and carries
    a class only if it is a [code] element, as a language marker; hence no
    [script] element is left.  An element of the fragment with a disallowed
    tag is replaced by its children, one with an allowed tag keeps its
    place with cleaned attributes and sanitized children.  Cleaning keeps
    [href], [src], [alt], [target] and [rel] with their values. *)
Theorem sanitizeHTML_cleans (fragment : list Node) :
  forallb plainUnwrap fragment = true ->
  Forall cleanElement (flat_map elementsOf (sanitizeHTML fragment))
  /\ ~ In "script" (List.map fst (flat_map elementsOf (sanitizeHTML fragment)))
  /\ (forall before tag attrs kids after,
         fragment = (before ++ ElementNode tag attrs kids :: after)%list ->
         sanitizeHTML fragment
         = (sanitizeHTML before
              ++ (if isAllowedTag tag
                  then [ElementNode tag (cleanAttrs tag attrs) (sanitizeHTML kids)]
                  else kids)
              ++ sanitizeHTML after)%list)
  /\ (forall tag attrs name,
         In name ["href"; "src"; "alt"; "target"; "rel"] ->
         getAttribute name (cleanAttrs tag attrs) = getAttribute name attrs).
Proof.
  intros Hplain.
  assert (Hclean : Forall cleanElement (flat_map elementsOf (sanitizeHTML fragment))).
  { apply sanitize_forest_clean; [|exact Hplain].
    apply List.Forall_forall. intros n _. apply sanitize_node_clean. }
  split; [exact Hclean | split; [|split]].
  - intros Hin. apply List.in_map_iff in Hin as (e & He & Hin).
    rewrite List.Forall_forall in Hclean. destruct (Hclean e Hin) as [Ht _].
    rewrite He in Ht. discriminate.
  - intros before tag attrs kids after ->.
    rewrite sanitizeHTML_app, sanitizeHTML_cons.
    now destruct (isAllowedTag tag).
  - intros tag attrs name. apply cleanAttrs_keeps.
Qed.

Lemma sanitizeHTML_cleans_witness :
  let fragment :=
    [ElementNode "section" [("id", "s")] [TextNode "intro"];
     ElementNode "p" [("onclick", "run()"); ("class", "lead")]
       [ElementNode "a" [("href", "https://example.org"); ("style", "color:red")]
          [TextNode "link"];
        ElementNode "script" [] [TextNode "alert(1)"];
        ElementNode "code" [("class", "hljs language-python")] [TextNode "x"]]] in
  forallb plainUnwrap fragment = true
  /\ sanitizeHTML fragment
     = [TextNode "intro";
        ElementNode "p" []
          [ElementNode "a" [("href", "https://example.org")] [TextNode "link"];
           TextNode "alert(1)";
           ElementNode "code" [("class", "language-python")] [TextNode "x"]]]
  /\ ~ In "script" (List.map fst (flat_map elementsOf (sanitizeHTML fragment))).
Proof.
  intros fragment. split; [reflexivity | split; [reflexivity|]].
  apply (sanitizeHTML_cleans fragment). reflexivity.
Defined.

(** C6, as the claim has it, fails: [class] is on the allow-list and is an
    attribute of an allowed element, and it is removed all the same. *)
Lemma class_is_removed_from_paragraph :
  isAllowedTag "p" = true /\ isAllowedAttr "class" = true
  /\ sanitizeHTML [ElementNode "p" [("class", "lead")] [TextNode "x"]]
     = [ElementNode "p" [] [TextNode "x"]].
Proof. repeat split. Qed.

(** The children that take the place of an element with a disallowed tag
    are not visited: a [script] element below such an element is left in
    the result with everything it holds. *)
Lemma hoisted_script_is_left :
  sanitizeHTML
    [ElementNode "section" []
       [ElementNode "script" [("onload", "x()")] [TextNode "alert(1)"]]]
  = [ElementNode "script" [("onload", "x()")] [TextNode "alert(1)"]].
Proof. reflexivity. Qed.

(** ** Headings *)

Lemma allChars_append (p : ascii -> bool) (a b : string) :
  allChars p (a ++ b) = allChars p a && allChars p b.
Proof.
  induction a as [|c r IH]; [reflexivity|]. simpl. now rewrite IH, andb_assoc.
Qed.

Lemma allChars_dropStr (p : ascii -> bool) (n : nat) (s : string) :
  allChars p s = true -> allChars p (dropStr n s) = true.
Proof.
  revert s; induction n as [|n IH]; intros [|c r]; simpl; auto.
  intros [_ H]%andb_true_iff. now apply IH.
Qed.

Lemma allChars_weaken (p q : ascii -> bool) (s : string) :
  (forall c, p c = true -> q c = true) ->
  allChars p s = true -> allChars q s = true.
Proof.
  intros Hpq. induction s as [|c r IH]; [reflexivity|]. simpl.
  intros [H1 H2]%andb_true_iff. now rewrite (Hpq _ H1), IH.
Qed.

Lemma assemble_app {M : Type} (f : nat -> M -> string) (s : string)
      (ps : list (piece M)) (i : nat) :
  assemble f i (lits s ++ ps) = s ++ assemble f i ps.
Proof. induction s as [|c r IH]; [reflexivity|]. simpl. now rewrite IH. Qed.

Lemma assemble_lits {M : Type} (f : nat -> M -> string) (s : string) (i : nat) :
  assemble f i (lits s) = s.
Proof. induction s as [|c r IH]; [reflexivity|]. simpl. now rewrite IH. Qed.

Lemma hits_app {M : Type} (s : string) (ps : list (piece M)) :
  hits (lits s ++ ps) = hits ps.
Proof. induction s as [|c r IH]; [reflexivity | exact IH]. Qed.

Lemma hits_lits {M : Type} (s : string) : hits (@lits M s) = [].
Proof. induction s as [|c r IH]; [reflexivity | exact IH]. Qed.

(** A text without a line feed holds no fence. *)
Lemma matchFence_one_line (prev : option ascii) (s : string) :
  allChars (fun c => negb (isLF c)) s = true -> matchFence prev s = None.
Proof.
  intros H. unfold matchFence. destruct (startsWith "```" s); [|reflexivity].
  pose proof (allChars_dropStr _ (spanLen isWord (dropStr 3 s)) _
                               (allChars_dropStr _ 3 _ H)) as Hd.
  destruct (dropStr (spanLen isWord (dropStr 3 s)) (dropStr 3 s)) as [|c body];
    [reflexivity|].
  simpl in Hd. apply andb_true_iff in Hd as [Hc _].
  now destruct (isLF c).
Qed.

Lemma scan_fence_one_line (prev : option ascii) (s : string) :
  allChars (fun c => negb (isLF c)) s = true ->
  scan matchFence prev 0 s = lits s.
Proof.
  revert prev; induction s as [|c r IH]; intros prev H; [reflexivity|].
  cbn [scan lits]. rewrite (matchFence_one_line prev _ H).
  simpl in H. apply andb_true_iff in H as [_ H]. now rewrite IH.
Qed.

Lemma scan_inline_prefix (pre s : string) (prev : option ascii) :
  allChars (fun c => negb (Ascii.eqb c BT)) pre = true ->
  exists prev', scan matchInlineCode prev 0 (pre ++ s)
                = (lits pre ++ scan matchInlineCode prev' 0 s)%list.
Proof.
  revert prev; induction pre as [|c r IH]; intros prev H; [now exists prev|].
  simpl in H. apply andb_true_iff in H as [Hc H].
  destruct (IH (Some c) H) as [prev' E]. exists prev'.
  cbn [append scan matchInlineCode lits].
  destruct (Ascii.eqb c BT); [discriminate|]. now rewrite E.
Qed.

Lemma splitLines_one_line (s : string) :
  allChars (fun c => negb (isLF c)) s = true -> splitLines s = [s].
Proof.
  induction s as [|c r IH]; [reflexivity|]. simpl.
  intros [Hc H]%andb_true_iff. rewrite (IH H).
  unfold isLF in Hc. now destruct (Ascii.eqb c LF).
Qed.

Lemma digit_char (d : nat) : d < 10 -> isDigit (ascii_of_nat (48 + d)) = true.
Proof.
  intros H. unfold isDigit. rewrite nat_ascii_embedding by lia.
  apply andb_true_iff. split; apply Nat.leb_le; lia.
Qed.

Lemma digitsOf_digits (fuel n : nat) (acc : string) :
  allChars isDigit acc = true -> allChars isDigit (digitsOf fuel n acc) = true.
Proof.
  revert n acc; induction fuel as [|f IH]; intros n acc H; [exact H|].
  cbn [digitsOf].
  assert (Hacc : allChars isDigit (String (ascii_of_nat (48 + n mod 10)) acc) = true).
  { cbn [allChars]. rewrite digit_char, H; [reflexivity|].
    apply Nat.mod_upper_bound. lia. }
  destruct (n <? 10)%nat; [exact Hacc | now apply IH].
Qed.

Lemma showNat_digits (n : nat) : allChars isDigit (showNat n) = true.
Proof. now apply digitsOf_digits. Qed.

Lemma digit_not_terminator (c : ascii) : isDigit c = true -> notTerminator c = true.
Proof.
  unfold isDigit, notTerminator, isLineTerminator.
  intros [H1 H2]%andb_true_iff. apply Nat.leb_le in H1.
  destruct (Ascii.eqb_spec c LF) as [->|_]; [vm_compute in H1; lia|].
  destruct (Ascii.eqb_spec c CR) as [->|_]; [vm_compute in H1; lia|].
  reflexivity.
Qed.

Lemma placeholder_one_line (idx : nat) :
  allChars notTerminator (placeholder "IC_" idx) = true.
Proof.
  unfold placeholder. cbn [allChars append].
  rewrite !allChars_append.
  rewrite (allChars_weaken _ _ _ digit_not_terminator (showNat_digits idx)).
  reflexivity.
Qed.

Lemma scan_keeps_chars {M : Type}
      (matchAt : option ascii -> string -> option (M * nat))
      (p : ascii -> bool) (s : string) :
  allChars p s = true ->
  forall prev skip,
    Forall (fun x => match x with Lit c => p c = true | Hit _ => True end)
           (scan matchAt prev skip s).
Proof.
  induction s as [|c r IH]; intros H prev skip; [constructor|].
  simpl in H. apply andb_true_iff in H as [Hc H].
  cbn [scan]. destruct skip as [|k]; [|now apply IH].
  destruct (matchAt prev (String c r)) as [[m len]|];
    constructor; auto.
Qed.

Lemma assemble_one_line (ps : list (piece string)) (i : nat) :
  Forall (fun x => match x with Lit c => notTerminator c = true | Hit _ => True end) ps ->
  allChars notTerminator (assemble (fun idx _ => placeholder "IC_" idx) i ps) = true.
Proof.
  intros H. revert i. induction H as [|[c|m] r Hx _ IH]; intros i;
    [reflexivity | |]; cbn [assemble].
  - cbn [allChars]. now rewrite Hx, IH.
  - now rewrite allChars_append, placeholder_one_line, IH.
Qed.

Lemma assemble_not_empty (s : string) (prev : option ascii) (i : nat) :
  s <> "" ->
  assemble (fun idx (_ : string) => placeholder "IC_" idx) i
           (scan matchInlineCode prev 0 s) <> "".
Proof.
  destruct s as [|c r]; [congruence|]. intros _. cbn [scan].
  destruct (matchInlineCode prev (String c r)) as [[m len]|]; discriminate.
Qed.

Lemma spanLen_hashes (n : nat) (s : string) :
  spanLen isHash (repeatStr "#" n ++ String " " s) = n
  /\ dropStr n (repeatStr "#" n ++ String " " s) = String " " s.
Proof. induction n as [|n [IH1 IH2]]; [split; reflexivity|]. simpl. auto. Qed.

Lemma firstDown_found (k : nat) (ok : nat -> bool) (j : nat) :
  1 <= j <= k -> ok j = true -> exists j', firstDown k ok = Some j'.
Proof.
  induction k as [|k IH]; intros Hj Hok; [lia|]. cbn [firstDown].
  destruct (ok (S k)) eqn:E; [now eexists|].
  apply IH; [|exact Hok].
  destruct (Nat.eq_dec j (S k)) as [->|]; [congruence | lia].
Qed.

(** A line of one to four hashes, a space and a non-empty text without a
    line terminator matches the heading pattern with the number of hashes
    as its level. *)
Lemma matchHeading_hashes (n : nat) (text : string) :
  1 <= n <= 4 -> text <> "" -> allChars notTerminator text = true ->
  exists t, matchHeading (repeatStr "#" n ++ " " ++ text) = Some (n, t).
Proof.
  intros Hn Hne Hall. unfold matchHeading.
  change (" " ++ text) with (String " " text).
  destruct (spanLen_hashes n text) as [-> ->].
  replace ((1 <=? n)%nat && (n <=? 4)%nat) with true
    by (symmetry; apply andb_true_iff; split; apply Nat.leb_le; lia).
  set (ok := fun j : nat =>
               let t := dropStr j (String " " text) in
               negb (String.eqb t "") && allChars notTerminator t).
  enough (exists j : nat, (1 <= j <= spanLen isSpace (String " " text))%nat
                          /\ ok j = true)
    as (j & Hj & Hok).
  { destruct (firstDown_found _ ok j Hj Hok) as [j' ->]. now eexists. }
  change (spanLen isSpace (String " " text)) with (S (spanLen isSpace text)).
  set (m := spanLen isSpace text).
  assert (Hm : m <= String.length text) by apply spanLen_le_length.
  assert (Hlen : 1 <= String.length text) by (destruct text; simpl; [congruence | lia]).
  assert (Hok : forall j, j < String.length text -> ok (S j) = true).
  { intros j Hj. subst ok. cbv beta. cbn [dropStr].
    rewrite (allChars_dropStr _ j _ Hall), andb_true_r.
    pose proof (length_dropStr j text) as Hd.
    destruct (dropStr j text); [simpl in Hd; lia | reflexivity]. }
  destruct (Nat.eq_dec m (String.length text)) as [E|E].
  - exists m. split; [lia|]. destruct m as [|m']; [lia|]. apply Hok. lia.
  - exists (S m). split; [lia|]. apply Hok. lia.
Qed.

Lemma blockLoop_single_heading (codeBlocks : list CodeBlock)
      (inlineCodes : list string) (line : string) (lvl : nat) (t : string) :
  matchCodeLine line = None -> matchHeading line = Some (lvl, t) ->
  blockLoop 2 codeBlocks inlineCodes [line] 0 []
  = Returned ["<" ++ headingTag lvl ++ ">" ++ inlineFormat t inlineCodes
                  ++ "</" ++ headingTag lvl ++ ">"].
Proof.
  intros H1 H2. cbn [blockLoop nth_error]. rewrite H1, H2. reflexivity.
Qed.

Lemma hashes_no_backtick (n : nat) :
  allChars (fun c => negb (Ascii.eqb c BT)) (repeatStr "#" n ++ " ") = true
  /\ allChars notTerminator (repeatStr "#" n ++ " ") = true.
Proof. induction n as [|n [IH1 IH2]]; [split; reflexivity|]. simpl. auto. Qed.

Lemma terminator_is_LF (c : ascii) :
  notTerminator c = true -> negb (isLF c) = true.
Proof.
  unfold notTerminator, isLineTerminator, isLF.
  now destruct (Ascii.eqb c LF).
Qed.

(** The heading weights.  A line of [n] hashes ([n] from 1 to 4), a
    space and a text (not empty, without a line terminator) is rendered
    as one heading element, whose tag is [h2] for one hash, [h3] for two
    and for three, and [h4] for four. *)
Theorem heading_remap (n : nat) (text : string) :
  1 <= n <= 4 -> text <> "" -> allChars notTerminator text = true ->
  (exists body,
      renderMarkdown (repeatStr "#" n ++ " " ++ text)
      = Returned ("<" ++ headingTag n ++ ">" ++ body ++ "</" ++ headingTag n ++ ">"))
  /\ headingTag n = match n with
                    | 1 => "h2"
                    | 2 | 3 => "h3"
                    | _ => "h4"
                    end.
Proof.
  intros Hn Hne Hall. split.
  - destruct (hashes_no_backtick n) as [Hbt Hpre].
    assert (Hraw : allChars (fun c => negb (isLF c))
                            (repeatStr "#" n ++ " " ++ text) = true).
    { rewrite <- append_assoc.
      apply (allChars_weaken _ _ _ terminator_is_LF).
      now rewrite allChars_append, Hpre, Hall. }
    unfold renderMarkdown.
    rewrite (scan_fence_one_line None _ Hraw), hits_lits, assemble_lits.
    rewrite <- append_assoc.
    destruct (scan_inline_prefix (repeatStr "#" n ++ " ") text None Hbt)
      as [prev' ->].
    rewrite hits_app, assemble_app.
    set (spans := scan matchInlineCode prev' 0 text).
    set (text' := assemble (fun idx (_ : string) => placeholder "IC_" idx) 0 spans).
    assert (Hne' : text' <> "") by (now apply assemble_not_empty).
    assert (Hall' : allChars notTerminator text' = true)
      by (apply assemble_one_line; now apply scan_keeps_chars).
    assert (Hline : allChars (fun c => negb (isLF c))
                             ((repeatStr "#" n ++ " ") ++ text') = true).
    { apply (allChars_weaken _ _ _ terminator_is_LF).
      now rewrite allChars_append, Hpre, Hall'. }
    rewrite (splitLines_one_line _ Hline). cbn [List.length List.map].
    destruct (matchHeading_hashes n text' Hn Hne' Hall') as [t Ht].
    rewrite <- append_assoc in Ht.
    rewrite (blockLoop_single_heading _ _ _ n t); [eexists; reflexivity | | exact Ht].
    destruct n as [|n]; [lia | reflexivity].
  - destruct n as [|[|[|[|[|n]]]]]; try reflexivity; lia.
Qed.

Lemma heading_remap_witness :
  (1 <= 3 <= 4 /\ "Title" <> "" /\ allChars notTerminator "Title" = true)
  /\ (exists body,
         renderMarkdown "### Title" = Returned ("<h3>" ++ body ++ "</h3>"))
  /\ renderMarkdown "### Title" = Returned "<h3>Title</h3>"
  /\ renderMarkdown "## Title" = Returned "<h3>Title</h3>"
  /\ renderMarkdown "# Title" = Returned "<h2>Title</h2>"
  /\ renderMarkdown "#### Title" = Returned "<h4>Title</h4>".
Proof.
  split; [repeat split; [lia | lia | discriminate]|].
  split; [|repeat split; vm_compute; reflexivity].
  apply (heading_remap 3 "Title"); [lia | discriminate | reflexivity].
Defined.

(** ** Sentinels: printing and reading an index *)

Lemma parseDigits_snoc (s : string) (c : ascii) (a : nat) :
  parseDigits a (s ++ chr c) = 10 * parseDigits a s + (nat_of_ascii c - 48).
Proof.
  revert a; induction s as [|d r IH]; intros a; [reflexivity|].
  cbn [append parseDigits]. apply IH.
Qed.

Lemma digitsOf_acc (fuel n : nat) (acc : string) :
  digitsOf fuel n acc = digitsOf fuel n "" ++ acc.
Proof.
  revert n acc; induction fuel as [|f IH]; intros n acc; [reflexivity|].
  cbn [digitsOf]. destruct (n <? 10)%nat; [reflexivity|].
  rewrite (IH _ (String _ acc)), (IH _ (String _ "")).
  now rewrite append_assoc.
Qed.

Lemma parseInt_digitsOf (fuel n : nat) :
  n < fuel -> parseInt (digitsOf fuel n "") = n.
Proof.
  revert n; induction fuel as [|f IH]; intros n Hn; [lia|].
  cbn [digitsOf]. unfold parseInt in *.
  assert (Hd : nat_of_ascii (ascii_of_nat (48 + n mod 10)) - 48 = n mod 10).
  { rewrite nat_ascii_embedding; [lia|].
    pose proof (Nat.mod_upper_bound n 10). lia. }
  destruct (Nat.ltb_spec n 10) as [Hlt|Hge].
  - cbn [parseDigits]. rewrite Hd, Nat.mod_small by exact Hlt. lia.
  - rewrite digitsOf_acc.
    change (String ?c "") with (chr c).
    rewrite parseDigits_snoc, Hd, IH.
    + pose proof (Nat.div_mod_eq n 10). lia.
    + apply Nat.lt_le_trans with n; [apply Nat.div_lt; lia | lia].
Qed.

Lemma parseInt_showNat (n : nat) : parseInt (showNat n) = n.
Proof. apply parseInt_digitsOf. lia. Qed.

Lemma spanLen_stops (p : ascii -> bool) (ds : string) (c : ascii) (x : string) :
  allChars p ds = true -> p c = false ->
  spanLen p (ds ++ String c x) = String.length ds
  /\ takeStr (String.length ds) (ds ++ String c x) = ds.
Proof.
  intros Hds Hc. induction ds as [|d r IH].
  - simpl. now rewrite Hc.
  - simpl in *. apply andb_true_iff in Hds as [-> Hr].
    destruct (IH Hr) as [-> ->]. split; reflexivity.
Qed.

(** A line that reads as a code-block sentinel and is made of well-formed
    tokens carries the index of its first token. *)
Lemma matchCodeLine_token (count : nat) (seg : list token) (digits : string) :
  forallb (tokenOk count) seg = true ->
  matchCodeLine (flatten seg) = Some digits ->
  parseInt digits < count.
Proof.
  intros Hok. unfold matchCodeLine, matchPlaceholder.
  destruct seg as [|[c|idx|idx] rest]; cbn [flatten tokenText]; try discriminate.
  - cbn [forallb tokenOk] in Hok. apply andb_true_iff in Hok as [Hc _].
    unfold chr. cbn [append startsWith].
    destruct (Ascii.eqb_spec NUL c) as [<-|_]; [discriminate | discriminate].
  - cbn [forallb tokenOk] in Hok. apply andb_true_iff in Hok as [Hidx _].
    apply Nat.ltb_lt in Hidx.
    unfold placeholder.
    change (String NUL ("CB_" ++ showNat idx ++ chr NUL) ++ flatten rest)
      with (String NUL (String "C" (String "B" (String "_"
              ((showNat idx ++ chr NUL) ++ flatten rest))))).
    rewrite append_assoc. change (chr NUL ++ flatten rest) with (String NUL (flatten rest)).
    cbn [startsWith dropStr]. rewrite !Ascii.eqb_refl. cbn [andb].
    destruct (spanLen_stops isDigit (showNat idx) NUL (flatten rest)
                            (showNat_digits idx) eq_refl) as [-> ->].
    destruct ((1 <=? String.length (showNat idx))%nat && _); [|discriminate].
    destruct (_ =? _)%nat; [|discriminate].
    intros [= <-]. now rewrite parseInt_showNat.
Qed.

(** ** Sentinels: the text between the steps *)

(** After the fence step the text is made of well-formed tokens. *)
Lemma fence_tokens (ps : list (piece (string * string))) (i : nat) :
  Forall (fun x => match x with Lit c => notNUL c = true | Hit _ => True end) ps ->
  exists ts,
    assemble (fun idx _ => placeholder "CB_" idx) i ps = flatten ts
    /\ forallb (tokenOk (i + List.length (hits ps))) ts = true.
Proof.
  intros H. revert i. induction H as [|[c|m] r Hx _ IH]; intros i.
  - now exists [].
  - destruct (IH i) as (ts & E & Hok). exists (TChar c :: ts).
    cbn [assemble flatten tokenText hits forallb tokenOk].
    rewrite E, Hok. unfold notNUL in Hx. now rewrite Hx.
  - destruct (IH (S i)) as (ts & E & Hok). exists (TCode i :: ts).
    cbn [assemble flatten tokenText hits forallb tokenOk List.length].
    rewrite E. split; [reflexivity|].
    replace (i + S (List.length (hits r))) with (S i + List.length (hits r)) by lia.
    rewrite Hok, andb_true_r. apply Nat.ltb_lt. lia.
Qed.

Lemma digit_not_backtick (c : ascii) :
  isDigit c = true -> negb (Ascii.eqb c BT) && negb (isLF c) = true.
Proof.
  unfold isDigit, isLF. intros [H1 H2]%andb_true_iff. apply Nat.leb_le in H2.
  destruct (Ascii.eqb_spec c BT) as [->|_]; [vm_compute in H2; lia|].
  destruct (Ascii.eqb_spec c LF) as [->|_]; [|reflexivity].
  apply Nat.leb_le in H1. vm_compute in H1. lia.
Qed.

(** A sentinel holds neither a backtick nor a line feed. *)
Lemma placeholder_plain (kind : string) (idx : nat) :
  allChars (fun c => negb (Ascii.eqb c BT) && negb (isLF c)) kind = true ->
  allChars (fun c => negb (Ascii.eqb c BT) && negb (isLF c)) (placeholder kind idx) = true.
Proof.
  intros Hk. unfold placeholder. cbn [allChars].
  rewrite !allChars_append, Hk.
  rewrite (allChars_weaken _ _ _ digit_not_backtick (showNat_digits idx)).
  reflexivity.
Qed.

Lemma tokenText_plain (t : token) :
  (forall c, t <> TChar c) ->
  allChars (fun c => negb (Ascii.eqb c BT) && negb (isLF c)) (tokenText t) = true.
Proof.
  destruct t as [c|idx|idx]; intros H; [now destruct (H c)| |];
    now apply placeholder_plain.
Qed.

Lemma scan_inline_skip (s : string) (prev : option ascii) (skip : nat) :
  scan matchInlineCode prev skip s = scan matchInlineCode None 0 (dropStr skip s).
Proof.
  revert prev skip; induction s as [|c r IH]; intros prev [|k]; try reflexivity.
  cbn [scan dropStr]. apply IH.
Qed.

Lemma dropStr_app (p x : string) (k : nat) :
  dropStr (String.length p + k) (p ++ x) = dropStr k x.
Proof. induction p as [|c r IH]; [reflexivity | exact IH]. Qed.

(** A backtick found behind a text without backticks lies behind it. *)
Lemma backtick_behind (p x : string) (k : nat) :
  allChars (fun c => negb (Ascii.eqb c BT) && negb (isLF c)) p = true ->
  startsWith "`" (dropStr k (p ++ x)) = true ->
  exists k', k = String.length p + k'.
Proof.
  revert k; induction p as [|c r IH]; intros k Hp Hk; [now exists k|].
  simpl in Hp. apply andb_true_iff in Hp as [Hc Hr].
  destruct k as [|k].
  - cbn [dropStr append startsWith] in Hk.
    change (Ascii.eqb "`" c) with (Ascii.eqb BT c) in Hk.
    rewrite Ascii.eqb_sym in Hk. destruct (Ascii.eqb c BT); discriminate.
  - destruct (IH k Hr Hk) as [k' ->]. now exists k'.
Qed.

(** The text behind a backtick of a token text is a token text again. *)
Lemma token_suffix (count : nat) (ts : list token) (k : nat) :
  forallb (tokenOk count) ts = true ->
  startsWith "`" (dropStr k (flatten ts)) = true ->
  exists ts', dropStr (S k) (flatten ts) = flatten ts'
              /\ List.length ts' < List.length ts
              /\ forallb (tokenOk count) ts' = true.
Proof.
  revert k; induction ts as [|t r IH]; intros k Hok Hk.
  - now destruct k.
  - cbn [forallb] in Hok. apply andb_true_iff in Hok as [Ht Hr].
    assert (Hrec : forall k', startsWith "`" (dropStr k' (flatten r)) = true ->
                   exists ts', dropStr (S k') (flatten r) = flatten ts'
                               /\ List.length ts' < List.length (t :: r)
                               /\ forallb (tokenOk count) ts' = true).
    { intros k' Hk'. destruct (IH k' Hr Hk') as (ts' & E & Hl & Hok').
      exists ts'. cbn [List.length]. repeat split; [exact E | lia | exact Hok']. }
    destruct t as [c|idx|idx].
    + destruct k as [|k]; [|apply Hrec; exact Hk].
      exists r. cbn [List.length]. repeat split; [lia | exact Hr].
    + cbn [flatten] in *.
      destruct (backtick_behind _ _ _ (tokenText_plain (TCode idx) ltac:(discriminate)) Hk)
        as [k' ->].
      rewrite dropStr_app in Hk.
      replace (S (String.length (tokenText (TCode idx)) + k'))
        with (String.length (tokenText (TCode idx)) + S k') by lia.
      rewrite dropStr_app. now apply Hrec.
    + cbn [flatten] in *.
      destruct (backtick_behind _ _ _ (tokenText_plain (TInline idx) ltac:(discriminate)) Hk)
        as [k' ->].
      rewrite dropStr_app in Hk.
      replace (S (String.length (tokenText (TInline idx)) + k'))
        with (String.length (tokenText (TInline idx)) + S k') by lia.
      rewrite dropStr_app. now apply Hrec.
Qed.

Lemma scan_inline_plain (pre s : string) (prev : option ascii) (i : nat) :
  allChars (fun c => negb (Ascii.eqb c BT) && negb (isLF c)) pre = true ->
  exists prev',
    assemble (fun idx (_ : string) => placeholder "IC_" idx) i
             (scan matchInlineCode prev 0 (pre ++ s))
    = pre ++ assemble (fun idx (_ : string) => placeholder "IC_" idx) i
                      (scan matchInlineCode prev' 0 s).
Proof.
  intros H.
  assert (H' : allChars (fun c => negb (Ascii.eqb c BT)) pre = true).
  { revert H. apply allChars_weaken. now intros c [-> _]%andb_true_iff. }
  destruct (scan_inline_prefix pre s prev H') as [prev' ->].
  exists prev'. apply assemble_app.
Qed.

(** After the inline-code step the text is made of well-formed tokens. *)
Lemma inline_tokens (count n : nat) :
  forall ts, List.length ts <= n -> forallb (tokenOk count) ts = true ->
  forall prev i,
  exists ts',
    assemble (fun idx (_ : string) => placeholder "IC_" idx) i
             (scan matchInlineCode prev 0 (flatten ts)) = flatten ts'
    /\ forallb (tokenOk count) ts' = true.
Proof.
  induction n as [|n IH]; intros [|t r] Hn Hok prev i;
    try (now exists []).
  cbn [List.length] in Hn. cbn [forallb] in Hok.
  apply andb_true_iff in Hok as [Ht Hr].
  assert (Hplain : (forall c, t <> TChar c) ->
                   exists ts', assemble (fun idx (_ : string) => placeholder "IC_" idx) i
                                 (scan matchInlineCode prev 0 (flatten (t :: r)))
                               = flatten ts'
                               /\ forallb (tokenOk count) ts' = true).
  { intros Hne. cbn [flatten].
    destruct (scan_inline_plain (tokenText t) (flatten r) prev i (tokenText_plain t Hne))
      as [prev' ->].
    destruct (IH r ltac:(lia) Hr prev' i) as (ts' & -> & Hok').
    exists (t :: ts'). cbn [flatten forallb]. now rewrite Ht, Hok'. }
  destruct t as [c|idx|idx]; [|apply Hplain; discriminate | apply Hplain; discriminate].
  clear Hplain. cbn [flatten tokenText]. unfold chr. cbn [append scan].
  destruct (matchInlineCode prev (String c (flatten r))) as [[m len]|] eqn:Em.
  - unfold matchInlineCode in Em.
    destruct (Ascii.eqb c BT); [|discriminate].
    set (k := spanLen _ (flatten r)) in Em.
    destruct ((1 <=? k)%nat && startsWith "`" (dropStr k (flatten r))) eqn:Ek;
      [|discriminate].
    apply andb_true_iff in Ek as [_ Ek].
    assert (len = k + 2) by congruence. subst len.
    rewrite scan_inline_skip. replace (k + 2 - 1) with (S k) by lia.
    destruct (token_suffix count r k Hr Ek) as (ts1 & -> & Hl & Hok1).
    destruct (IH ts1 ltac:(lia) Hok1 None (S i)) as (ts' & E & Hok').
    exists (TInline i :: ts'). cbn [assemble flatten tokenText forallb tokenOk].
    now rewrite E, Hok'.
  - destruct (IH r ltac:(lia) Hr (Some c) i) as (ts' & E & Hok').
    exists (TChar c :: ts'). cbn [assemble flatten tokenText forallb tokenOk].
    cbn [tokenOk] in Ht. unfold chr. cbn [append]. now rewrite E, Ht, Hok'.
Qed.

Lemma splitLines_not_nil (s : string) : splitLines s <> [].
Proof.
  induction s as [|c r IH]; [discriminate|]. simpl.
  destruct (Ascii.eqb c LF); [discriminate|].
  destruct (splitLines r); discriminate.
Qed.

Lemma splitLines_plain_prefix (p x : string) :
  allChars (fun c => negb (Ascii.eqb c BT) && negb (isLF c)) p = true ->
  splitLines (p ++ x) = match splitLines x with
                        | l :: ls => (p ++ l) :: ls
                        | [] => [p]
                        end.
Proof.
  induction p as [|c r IH]; intros H.
  - cbn [append]. pose proof (splitLines_not_nil x). now destruct (splitLines x).
  - simpl in H. apply andb_true_iff in H as [[_ Hc]%andb_true_iff Hr].
    cbn [append splitLines]. unfold isLF in Hc.
    destruct (Ascii.eqb c LF); [discriminate|].
    rewrite (IH Hr). now destruct (splitLines x).
Qed.

(** Every line of a token text is a token text. *)
Lemma lines_tokens (count : nat) (ts : list token) :
  forallb (tokenOk count) ts = true ->
  forall line, In line (splitLines (flatten ts)) ->
  exists seg, line = flatten seg /\ forallb (tokenOk count) seg = true.
Proof.
  induction ts as [|t r IH]; intros Hok line Hin.
  - destruct Hin as [<-|[]]. now exists [].
  - cbn [forallb] in Hok. apply andb_true_iff in Hok as [Ht Hr].
    specialize (IH Hr).
    assert (Hcons : forall p, p = tokenText t ->
              In line (match splitLines (flatten r) with
                       | l :: ls => (p ++ l) :: ls
                       | [] => [p]
                       end) ->
              exists seg, line = flatten seg /\ forallb (tokenOk count) seg = true).
    { intros p -> Hin'. pose proof (splitLines_not_nil (flatten r)) as Hnn.
      destruct (splitLines (flatten r)) as [|l ls]; [contradiction|].
      destruct Hin' as [<-|Hin'].
      - destruct (IH l (or_introl eq_refl)) as (seg & -> & Hseg).
        exists (t :: seg). cbn [flatten forallb]. now rewrite Ht, Hseg.
      - apply IH. now right. }
    destruct t as [c|idx|idx].
    + cbn [flatten tokenText] in Hin. unfold chr in Hin. cbn [append splitLines] in Hin.
      destruct (Ascii.eqb c LF).
      * destruct Hin as [<-|Hin]; [now exists [] | now apply IH].
      * apply (Hcons (chr c) eq_refl).
        now destruct (splitLines (flatten r)).
    + apply (Hcons _ eq_refl). cbn [flatten] in Hin.
      now rewrite splitLines_plain_prefix in Hin
        by (apply tokenText_plain; discriminate).
    + apply (Hcons _ eq_refl). cbn [flatten] in Hin.
      now rewrite splitLines_plain_prefix in Hin
        by (apply tokenText_plain; discriminate).
Qed.

(** ** The block loop neither throws nor runs out of fuel *)

Lemma blockLoop_no_throw (codeBlocks : list CodeBlock) (inlineCodes lines : list string) :
  (forall line digits, In line lines -> matchCodeLine line = Some digits ->
                       parseInt digits < List.length codeBlocks) ->
  forall fuel i blocks e,
    blockLoop fuel codeBlocks inlineCodes lines i blocks <> Thrown e.
Proof.
  intros Hsafe. induction fuel as [|f IH]; intros i blocks e; [discriminate|].
  cbn [blockLoop].
  destruct (nth_error lines i) as [line|] eqn:El; [|discriminate].
  apply nth_error_In in El.
  destruct (matchCodeLine line) as [digits|] eqn:Ec.
  - specialize (Hsafe _ _ El Ec).
    destruct (nth_error codeBlocks (parseInt digits)) eqn:En; [apply IH|].
    apply nth_error_None in En. lia.
  - destruct (matchHeading line) as [[lvl text]|]; [apply IH|].
    destruct (isRule line); [apply IH|].
    destruct (isQuoteLine line); [apply IH|].
    destruct (isListLine line).
    { destruct (parseList lines i inlineCodes); [apply IH | discriminate]. }
    destruct (isBlank line); [apply IH|].
    destruct (runLength _ _); [discriminate | apply IH].
Qed.

Lemma runLength_head {A : Type} (p : A -> bool) (l : list A) (i : nat) (x : A) :
  nth_error l i = Some x -> p x = true -> 1 <= runLength p (skipn i l).
Proof.
  revert l; induction i as [|i IH]; intros [|y r] H Hp; try discriminate.
  - injection H as ->. simpl. rewrite Hp. lia.
  - now apply IH.
Qed.

Lemma blockLoop_fuel (codeBlocks : list CodeBlock) (inlineCodes lines : list string) :
  forall fuel i blocks,
    List.length lines - i < fuel ->
    blockLoop fuel codeBlocks inlineCodes lines i blocks <> Unfinished.
Proof.
  induction fuel as [|f IH]; intros i blocks Hf; [lia|].
  cbn [blockLoop].
  destruct (nth_error lines i) as [line|] eqn:El; [|discriminate].
  assert (Hi : i < List.length lines) by (apply nth_error_Some; congruence).
  destruct (matchCodeLine line) as [digits|].
  { destruct (nth_error codeBlocks (parseInt digits)); [apply IH; lia | discriminate]. }
  destruct (matchHeading line) as [[lvl text]|]; [apply IH; lia|].
  destruct (isRule line); [apply IH; lia|].
  destruct (isQuoteLine line) eqn:Eq.
  { pose proof (runLength_head isQuoteLine lines i line El Eq). apply IH. lia. }
  destruct (isListLine line) eqn:Eli.
  { pose proof (runLength_head isListLine lines i line El Eli).
    destruct (parseList_returns lines i inlineCodes) as [html ->]. apply IH. lia. }
  destruct (isBlank line); [apply IH; lia|].
  destruct (runLength _ _) eqn:Er; [discriminate | apply IH; lia].
Qed.

(** [renderMarkdown] never stops for lack of fuel. *)
Lemma renderMarkdown_finishes (raw : string) : renderMarkdown raw <> Unfinished.
Proof.
  unfold renderMarkdown.
  match goal with
  | |- context [blockLoop ?f ?c ?ic ?l 0 []] =>
      pose proof (blockLoop_fuel c ic l f 0 [] ltac:(lia)) as H;
      destruct (blockLoop f c ic l 0 [])
  end; congruence.
Qed.

(** A text without the sentinel character never makes [renderMarkdown]
    throw. *)
Lemma renderMarkdown_no_throw (raw : string) (e : JsError) :
  allChars notNUL raw = true -> renderMarkdown raw <> Thrown e.
Proof.
  intros Hraw. unfold renderMarkdown.
  destruct (fence_tokens (scan matchFence None 0 raw) 0
              (scan_keeps_chars matchFence notNUL raw Hraw None 0))
    as (ts1 & -> & Hok1).
  cbn [Nat.add] in Hok1.
  destruct (inline_tokens _ _ ts1 (le_n _) Hok1 None 0) as (ts2 & -> & Hok2).
  match goal with
  | |- context [blockLoop ?f ?c ?ic ?l 0 []] =>
      assert (Hsafe : forall line digits,
                 In line l -> matchCodeLine line = Some digits ->
                 parseInt digits < List.length c);
      [| pose proof (blockLoop_no_throw c ic l Hsafe f 0 []) as H;
         destruct (blockLoop f c ic l 0 []) as [?|e0| |]; try discriminate;
         intros _; exact (H e0 eq_refl)]
  end.
  intros line digits Hin Hm.
  destruct (lines_tokens _ ts2 Hok2 line Hin) as (seg & -> & Hseg).
  rewrite List.length_map. now apply matchCodeLine_token with (seg := seg).
Qed.

(** ** Errors *)

(** C8, as the code has it.  [extractTextContent] raises nothing: on a
    [null] root it returns the empty string, on every tree it returns, and
    an element without children gives the empty string whatever the
    context.  [renderMarkdown] returns the empty string on the empty string
    and throws on no text that is free of the sentinel character; what it
    raises on [null] is the [TypeError] of the failed method call. *)
Theorem no_error_on_expected_inputs :
  (forall ctx, extractTextContentJS None ctx = Returned "")
  /\ (forall root ctx, exists s, extractTextContentJS root ctx = Returned s)
  /\ (forall tag attrs ctx,
         extractTextContentJS (Some (ElementNode tag attrs [])) ctx = Returned "")
  /\ renderMarkdown "" = Returned ""
  /\ (forall raw e, allChars notNUL raw = true -> renderMarkdown raw <> Thrown e)
  /\ renderMarkdownJS None = Thrown TypeError.
Proof.
  split; [reflexivity | split; [|split; [|split; [|split]]]].
  - intros [e|] ctx; eexists; reflexivity.
  - intros tag attrs [[[] n]|]; reflexivity.
  - reflexivity.
  - intros raw e. apply renderMarkdown_no_throw.
  - reflexivity.
Qed.

Lemma no_error_on_expected_inputs_witness :
  let raw := "Use `x` as in" ++ nl ++ "```js" ++ nl ++ "x()" ++ nl ++ "```" in
  allChars notNUL raw = true /\ renderMarkdown raw <> Thrown TypeError.
Proof.
  intros raw. split; [reflexivity|].
  destruct no_error_on_expected_inputs as (_ & _ & _ & _ & H & _).
  apply H. reflexivity.
Defined.

(** C8, as the claim has it, fails: on a [null] root the extractor returns
    normally. *)
Lemma null_root_returns_normally :
  extractTextContentJS None None = Returned ""
  /\ extractTextContentJS None None <> Thrown TypeError.
Proof. split; [reflexivity | discriminate]. Qed.

(** A heading line without text is no heading for the block loop and ends
    the paragraph it would start: the loop makes no progress on it. *)
Lemma renderMarkdown_hangs_on_empty_heading : renderMarkdown "# " = Diverges.
Proof. reflexivity. Qed.

(** ** More on strings *)

Lemma append_empty (s : string) : s ++ "" = s.
Proof. induction s as [|c r IH]; cbn [String.append]; [reflexivity | now rewrite IH]. Qed.

Lemma length_append (a b : string) :
  String.length (a ++ b) = String.length a + String.length b.
Proof.
  induction a as [|c r IH]; cbn [String.append String.length];
    [reflexivity | now rewrite IH].
Qed.

Lemma revStr_append (s t acc : string) :
  revStr acc (s ++ t) = revStr (revStr acc s) t.
Proof.
  revert acc. induction s as [|c r IH]; intros acc; [reflexivity|].
  cbn [String.append revStr]. apply IH.
Qed.

(** Appends nested to the right, with the literal parts in front. *)
Ltac norm_append :=
  repeat first [rewrite !append_assoc | progress cbn [String.append]].

(** ** The store under a sequence of messages *)

Lemma saveConversation_inserts (clock : nat -> string) (w : World)
      (conversation : gmap string Value) (key : string) :
  prop conversation "id" = VString key ->
  storeOk (db w) ->
  exists toSave w',
    saveConversation clock w conversation = Some (w', toSave)
    /\ db w' = <[key := toSave]> (db w)
    /\ toSave !! "id" = Some (VString key)
    /\ reads w < reads w'
    /\ (exists k, k < reads w' /\ toSave !! "updatedAt" = Some (VString (clock k)))
    /\ (forall existing, db w !! key = Some existing ->
                         toSave !! "savedAt" = existing !! "savedAt").
Proof.
  intros Hid Hok. unfold saveConversation. rewrite Hid. cbn [keyOf].
  apply prop_string in Hid.
  destruct (db w !! key) as [existing|] eqn:Eex;
    [pose proof (Hok _ _ Eex) as Hex
    | destruct (truthy (prop conversation "savedAt")) eqn:Et];
    match goal with
    | |- context [keyOf (prop ?r "id")] => set (toSave := r)
    end;
    (assert (Hts : toSave !! "id" = Some (VString key))
      by (subst toSave; now simplify_map_eq));
    unfold prop at 1; rewrite Hts; cbn [keyOf];
    eexists toSave, _; (split; [reflexivity|]); cbn [db reads];
    (split; [reflexivity|]); (split; [assumption|]);
    (split; [lia|]); subst toSave.
  - split; [exists (reads w); split; [lia | now simplify_map_eq]|].
    intros e [= <-]. now simplify_map_eq.
  - split; [exists (reads w); split; [lia | now simplify_map_eq]|]. discriminate.
  - split; [exists (S (reads w)); split; [lia | now simplify_map_eq]|]. discriminate.
Qed.

(** X1.  What [saveConversation] resolves to is what [getConversation]
    reads back under the same id; no other id is affected; after
    [deleteConversation] the id reads [null] while the other ids still read
    what they read before; and deleting an id that was new undoes the
    save. *)
Theorem save_read_delete (clock : nat -> string) (w : World)
        (conversation : gmap string Value) (key : string) :
  prop conversation "id" = VString key ->
  storeOk (db w) ->
  exists toSave w',
    saveConversation clock w conversation = Some (w', toSave)
    /\ getConversation w' key = Some toSave
    /\ (forall other, other <> key ->
                      getConversation w' other = getConversation w other)
    /\ getConversation (deleteConversation w' key) key = None
    /\ (forall other, other <> key ->
          getConversation (deleteConversation w' key) other
          = getConversation w other)
    /\ (getConversation w key = None -> db (deleteConversation w' key) = db w).
Proof.
  intros Hid Hok.
  destruct (saveConversation_inserts clock w conversation key Hid Hok)
    as (toSave & w' & Hsave & Hdb & _).
  exists toSave, w'. unfold getConversation, deleteConversation. cbn [db].
  rewrite Hdb. split; [assumption|].
  split; [apply lookup_insert_eq|].
  split; [intros other Ho; now apply lookup_insert_ne|].
  split; [apply lookup_delete_eq|].
  split.
  - intros other Ho. rewrite lookup_delete_ne by congruence.
    now apply lookup_insert_ne.
  - intros Hnew. rewrite delete_insert_eq. now apply delete_id.
Qed.

Lemma save_read_delete_witness :
  let conversation : gmap string Value :=
    list_to_map [("id", VString "claude_0123456789"); ("source", VString "claude");
                 ("title", VString "T"); ("messages", VArray [])] in
  let w := mkWorld ∅ 0 in
  exists toSave w',
    saveConversation (fun _ => "2024-05-02T10:00:00.000Z") w conversation
      = Some (w', toSave)
    /\ getConversation w' "claude_0123456789" = Some toSave
    /\ db (deleteConversation w' "claude_0123456789") = db w.
Proof.
  intros conversation w.
  destruct (save_read_delete (fun _ => "2024-05-02T10:00:00.000Z") w
                             conversation "claude_0123456789")
    as (toSave & w' & Hsave & Hget & _ & _ & _ & Hundo).
  - reflexivity.
  - intros k r. subst w. cbn [db]. rewrite lookup_empty. discriminate.
  - exists toSave, w'. split; [assumption|]. split; [assumption|].
    apply Hundo. reflexivity.
Defined.

Lemma truthy_id_key (c : gmap string Value) (key : string) :
  prop c "id" = VString key -> truthy (prop c "id") = true -> key <> "".
Proof. intros -> H ->. discriminate. Qed.

Lemma handle_invariant (clock : nat -> string) (w w' : World) (message : Request) :
  let inv (x : World) :=
    storeOk (db x) /\ db x !! "" = None
    /\ (forall key record, db x !! key = Some record ->
          exists k, k < reads x
                    /\ record !! "updatedAt" = Some (VString (clock k))) in
  inv w -> handle clock w message = Some w' -> inv w'.
Proof.
  intros inv (Hok & Hne & Hupd) Hh. destruct message as [[c|]|id]; cbn in Hh.
  - destruct (truthy (prop c "id")) eqn:Et; [|injection Hh as <-; now repeat split].
    destruct (keyOf (prop c "id")) as [key|] eqn:Ek.
    + assert (Hid : prop c "id" = VString key)
        by (destruct (prop c "id"); try discriminate; cbn in Ek; congruence).
      destruct (saveConversation_inserts clock w c key Hid Hok)
        as (toSave & w1 & Hsave & Hdb & Hts & Hr & (k & Hk & Hu) & _).
      rewrite Hsave in Hh. injection Hh as <-.
      assert (key <> "") by (eapply truthy_id_key; eassumption).
      split; [rewrite Hdb; now apply storeOk_insert|].
      split; [rewrite Hdb, lookup_insert_ne by congruence; assumption|].
      intros key' record. rewrite Hdb, lookup_insert. case_decide as Hkk.
      * intros [= <-]. exists k. split; assumption.
      * intros Hl. destruct (Hupd _ _ Hl) as (j & Hj & Hrec).
        exists j. split; [lia | assumption].
    + unfold saveConversation in Hh. rewrite Ek in Hh. discriminate.
  - injection Hh as <-. now repeat split.
  - injection Hh as <-. subst inv. unfold deleteConversation. cbn [db reads].
    split; [|split].
    + intros k r Hl. apply lookup_delete_Some in Hl as [_ Hl]. now apply Hok.
    + destruct (decide (id = "")) as [->|Hd];
        [apply lookup_delete_eq | rewrite lookup_delete_ne by congruence; assumption].
    + intros k r Hl. apply lookup_delete_Some in Hl as [_ Hl].
      exact (Hupd k r Hl).
Qed.

(** X2.  Whatever messages the background worker handles, starting with
    an empty store: every record sits under its own id, no record sits
    under the empty id, and the [updatedAt] of every record is a reading of
    the clock taken during the run. *)
Theorem store_invariant (clock : nat -> string) (messages : list Request)
        (w' : World) :
  handleAll clock (mkWorld ∅ 0) messages = Some w' ->
  storeOk (db w')
  /\ getConversation w' "" = None
  /\ (forall key record, getConversation w' key = Some record ->
        record !! "id" = Some (VString key)
        /\ exists k, k < reads w'
                     /\ record !! "updatedAt" = Some (VString (clock k))).
Proof.
  set (inv := fun x : World =>
    storeOk (db x) /\ db x !! "" = None
    /\ (forall key record, db x !! key = Some record ->
          exists k, k < reads x
                    /\ record !! "updatedAt" = Some (VString (clock k)))).
  assert (Hrun : forall ms w, inv w -> handleAll clock w ms = Some w' -> inv w').
  { induction ms as [|m ms IH]; intros w Hw Hr; cbn in Hr.
    - now injection Hr as <-.
    - destruct (handle clock w m) as [w1|] eqn:Eh; [|discriminate].
      apply (IH w1); [|assumption].
      exact (handle_invariant clock w w1 m Hw Eh). }
  intros Hr.
  assert (H0 : inv (mkWorld ∅ 0)).
  { split; [|split]; cbn [db].
    - intros k r. rewrite lookup_empty. discriminate.
    - apply lookup_empty.
    - intros k r. rewrite lookup_empty. discriminate. }
  destruct (Hrun messages _ H0 Hr) as (Hok & Hne & Hupd).
  split; [assumption|]. split; [assumption|].
  intros key record Hl. split; [exact (Hok key record Hl) | exact (Hupd key record Hl)].
Qed.

Lemma store_invariant_witness :
  let first : gmap string Value :=
    list_to_map [("id", VString "chatgpt_0123456789"); ("title", VString "One")] in
  let second : gmap string Value :=
    list_to_map [("id", VString ""); ("title", VString "No id")] in
  let messages :=
    [SAVE_CONVERSATION (Some first); SAVE_CONVERSATION (Some second);
     SAVE_CONVERSATION None; DELETE_CONVERSATION "claude_absent";
     SAVE_CONVERSATION (Some first)] in
  exists w',
    handleAll (fun k => "t" ++ showNat k) (mkWorld ∅ 0) messages = Some w'
    /\ storeOk (db w')
    /\ getConversation w' "" = None.
Proof.
  intros first second messages.
  eexists. split; [vm_compute; reflexivity|].
  match goal with
  | |- storeOk (db ?w) /\ _ =>
      destruct (store_invariant (fun k => "t" ++ showNat k) messages w)
        as (Hok & Hne & _); [vm_compute; reflexivity | split; assumption]
  end.
Defined.

Lemma handle_step (clock : nat -> string) (w w' : World) (message : Request) :
  storeOk (db w) -> handle clock w message = Some w' ->
  storeOk (db w')
  /\ (forall key record,
        db w !! key = Some record -> message <> DELETE_CONVERSATION key ->
        exists record', db w' !! key = Some record'
                        /\ record' !! "savedAt" = record !! "savedAt").
Proof.
  intros Hok Hh. destruct message as [[c|]|id]; cbn in Hh.
  - destruct (truthy (prop c "id")) eqn:Et;
      [|injection Hh as <-; split; [assumption | intros k r Hl _; now exists r]].
    destruct (keyOf (prop c "id")) as [key|] eqn:Ek.
    + assert (Hid : prop c "id" = VString key)
        by (destruct (prop c "id"); try discriminate; cbn in Ek; congruence).
      destruct (saveConversation_inserts clock w c key Hid Hok)
        as (toSave & w1 & Hsave & Hdb & Hts & _ & _ & Hsaved).
      rewrite Hsave in Hh. injection Hh as <-.
      split; [rewrite Hdb; now apply storeOk_insert|].
      intros key' record Hl _. rewrite Hdb, lookup_insert. case_decide as Hkk.
      * subst key'. exists toSave. split; [reflexivity | now apply Hsaved].
      * now exists record.
    + unfold saveConversation in Hh. rewrite Ek in Hh. discriminate.
  - injection Hh as <-. split; [assumption | intros k r Hl _; now exists r].
  - injection Hh as <-. unfold deleteConversation. cbn [db].
    split.
    + intros k r Hl. apply lookup_delete_Some in Hl as [_ Hl]. exact (Hok k r Hl).
    + intros k r Hl Hm. exists r. split; [|reflexivity].
      rewrite lookup_delete_ne; [assumption | congruence].
Qed.

(** X3.  A conversation that is stored and not deleted is still stored
    after any sequence of messages, with the [savedAt] it had: later saves
    under its id, and saves and deletions under other ids, never touch
    it. *)
Theorem savedAt_is_kept (clock : nat -> string) (messages : list Request)
        (w w' : World) (key : string) (record : gmap string Value) :
  storeOk (db w) ->
  getConversation w key = Some record ->
  ~ In (DELETE_CONVERSATION key) messages ->
  handleAll clock w messages = Some w' ->
  exists record', getConversation w' key = Some record'
                  /\ record' !! "savedAt" = record !! "savedAt".
Proof.
  unfold getConversation. revert w record.
  induction messages as [|m ms IH]; intros w record Hok Hl Hnd Hr; cbn in Hr.
  - injection Hr as <-. now exists record.
  - destruct (handle clock w m) as [w1|] eqn:Eh; [|discriminate].
    destruct (handle_step clock w w1 m Hok Eh) as (Hok1 & Hkeep).
    destruct (Hkeep key record Hl) as (r1 & Hl1 & Hs1).
    { intros ->. apply Hnd. now left. }
    destruct (IH w1 r1 Hok1 Hl1) as (r' & Hl' & Hs'); [|assumption|].
    { intros Hin. apply Hnd. now right. }
    exists r'. split; [assumption | congruence].
Qed.

Lemma savedAt_is_kept_witness :
  let stored : gmap string Value :=
    list_to_map [("id", VString "chatgpt_0123456789");
                 ("savedAt", VString "2024-01-01T00:00:00.000Z")] in
  let again : gmap string Value :=
    list_to_map [("id", VString "chatgpt_0123456789");
                 ("savedAt", VString "2025-01-01T00:00:00.000Z");
                 ("title", VString "Later")] in
  let w := mkWorld {["chatgpt_0123456789" := stored]} 0 in
  let messages :=
    [SAVE_CONVERSATION (Some again); DELETE_CONVERSATION "claude_other";
     SAVE_CONVERSATION (Some again)] in
  exists w' record',
    handleAll (fun k => "t" ++ showNat k) w messages = Some w'
    /\ getConversation w' "chatgpt_0123456789" = Some record'
    /\ record' !! "savedAt" = Some (VString "2024-01-01T00:00:00.000Z").
Proof.
  intros stored again w messages.
  eexists. 
  match goal with
  | |- exists r, handleAll ?c _ _ = Some ?w1 /\ _ =>
      destruct (savedAt_is_kept c messages w w1 "chatgpt_0123456789" stored)
        as (r' & Hl & Hs)
  end.
  - intros k r. subst w. cbn [db].
    destruct (decide (k = "chatgpt_0123456789")) as [->|Hk].
    + rewrite lookup_singleton_eq. intros [= <-]. reflexivity.
    + rewrite lookup_singleton_ne by congruence. discriminate.
  - reflexivity.
  - intros [H|[H|[H|[]]]]; discriminate.
  - vm_compute. reflexivity.
  - exists r'. split; [vm_compute; reflexivity|]. split; [exact Hl | exact Hs].
Defined.

(** ** generateId *)

Lemma toInt32_range (z : Z) : (-2147483648 <= toInt32 z < 2147483648)%Z.
Proof.
  unfold toInt32.
  pose proof (Z.mod_pos_bound (z + 2147483648) 4294967296 eq_refl). lia.
Qed.

Lemma toInt32_repr (z : Z) : exists k, toInt32 z = (z + k * 4294967296)%Z.
Proof.
  exists (- ((z + 2147483648) / 4294967296))%Z. unfold toInt32.
  pose proof (Z.div_mod (z + 2147483648) 4294967296). lia.
Qed.

Lemma toInt32_periodic (z k : Z) : toInt32 (z + k * 4294967296) = toInt32 z.
Proof.
  unfold toInt32.
  replace (z + k * 4294967296 + 2147483648)%Z
    with (z + 2147483648 + k * 4294967296)%Z by lia.
  now rewrite Z.mod_add.
Qed.

Lemma hashStep_multiplies (h : Z) (c : ascii) :
  hashStep (toInt32 h) c = toInt32 (31 * h + Z.of_nat (nat_of_ascii c)).
Proof.
  unfold hashStep, shiftLeft32. rewrite Z.shiftl_mul_pow2 by lia.
  destruct (toInt32_repr h) as (k1 & E1).
  destruct (toInt32_repr (toInt32 h)) as (k2 & E2).
  destruct (toInt32_repr (toInt32 (toInt32 h) * 2 ^ 5)) as (k3 & E3).
  rewrite E3, E2, E1.
  rewrite <- (toInt32_periodic (31 * h + _) (31 * k1 + 32 * k2 + k3)).
  f_equal. change (2 ^ 5)%Z with 32%Z. lia.
Qed.

Lemma hashLoop_polynomial (h : Z) (str : string) :
  hashLoop (toInt32 h) str = toInt32 (poly31 h str).
Proof.
  revert h. induction str as [|c r IH]; intros h; cbn [hashLoop poly31];
    [reflexivity|].
  now rewrite hashStep_multiplies, IH.
Qed.

Lemma digits36_not_empty (fuel : nat) (n : Z) (acc : string) :
  acc <> "" -> digits36 fuel n acc <> "".
Proof.
  revert n acc. induction fuel as [|f IH]; intros n acc Ha; cbn [digits36];
    [assumption|].
  destruct (n <? 36)%Z; [discriminate | apply IH; discriminate].
Qed.

Lemma toString36_not_empty (n : Z) : toString36 n <> "".
Proof.
  unfold toString36. cbn [digits36].
  destruct (n <? 36)%Z; [discriminate | apply digits36_not_empty; discriminate].
Qed.

(** X4.  The fallback hash of [generateId], which the loop keeps within
    32 bits at every turn, is the polynomial of the character codes with
    multiplier 31 reduced to a signed 32-bit integer once, at the end; so it
    lies between -2^31 and 2^31 - 1, and the number that is printed in base
    36 between 0 and 2^31. *)
Theorem hash_is_polynomial (str : string) :
  hashLoop 0 str = toInt32 (poly31 0 str)
  /\ (-2147483648 <= hashLoop 0 str < 2147483648)%Z
  /\ (0 <= Z.abs (hashLoop 0 str) <= 2147483648)%Z.
Proof.
  assert (E : hashLoop 0 str = toInt32 (poly31 0 str))
    by (change 0%Z with (toInt32 0) at 1; apply hashLoop_polynomial).
  pose proof (toInt32_range (poly31 0 str)) as Hr.
  rewrite E. repeat split; lia.
Qed.

Lemma find_some_length (routes : list string) (parts : list string) (p : string) :
  List.find (isChatId routes) parts = Some p -> p <> "".
Proof.
  intros H. apply List.find_some in H as [_ H]. unfold isChatId in H.
  intros ->. discriminate.
Qed.

(** X5.  Every id starts with the source and an underscore, followed by a
    text that is not empty: the segment of the path or the hash.  So
    [handleSaveConversation] never refuses a conversation for its id when
    that id comes from [generateId]: it stores the conversation under that
    very id. *)
Theorem generateId_namespaced (pathname : option string) (source url : string) :
  (exists rest, rest <> ""
                /\ generateId pathname source url = source ++ "_" ++ rest)
  /\ (forall clock w conversation,
         prop conversation "id" = VString (generateId pathname source url) ->
         storeOk (db w) ->
         exists w' toSave,
           handleSaveConversation clock w (Some conversation)
           = Some (Stored w' toSave)
           /\ getConversation w' (generateId pathname source url) = Some toSave).
Proof.
  assert (Hshape : exists rest, rest <> ""
                     /\ generateId pathname source url = source ++ "_" ++ rest).
  { unfold generateId.
    set (parts := match pathname with Some _ => _ | None => _ end).
    destruct (String.eqb source "chatgpt") eqn:Eg.
    - apply String.eqb_eq in Eg. subst source.
      destruct (List.find _ parts) as [p|] eqn:Ef.
      + exists p. split; [now apply find_some_length in Ef | reflexivity].
      + cbn [String.eqb Ascii.eqb Bool.eqb]. eexists. split; [|reflexivity].
        apply toString36_not_empty.
    - destruct (String.eqb source "claude") eqn:Ec.
      + apply String.eqb_eq in Ec. subst source.
        destruct (List.find _ parts) as [p|] eqn:Ef.
        * exists p. split; [now apply find_some_length in Ef | reflexivity].
        * eexists. split; [|reflexivity]. apply toString36_not_empty.
      + eexists. split; [|reflexivity]. apply toString36_not_empty. }
  split; [assumption|].
  intros clock w conversation Hid Hok.
  destruct Hshape as (rest & Hrest & Hshape).
  destruct (saveConversation_inserts clock w conversation _ Hid Hok)
    as (toSave & w' & Hsave & Hdb & _).
  exists w', toSave. unfold handleSaveConversation, getConversation.
  rewrite Hid, Hsave, Hdb. cbn [truthy].
  replace (String.eqb (generateId pathname source url) "") with false.
  - split; [reflexivity | apply lookup_insert_eq].
  - symmetry. apply String.eqb_neq. rewrite Hshape.
    destruct source; discriminate.
Qed.

Lemma generateId_namespaced_witness :
  let url := "https://chatgpt.com/c/0123456789abcdef?model=x" in
  let id := generateId (Some "/c/0123456789abcdef") "chatgpt" url in
  let conversation : gmap string Value :=
    list_to_map [("id", VString id); ("source", VString "chatgpt");
                 ("url", VString url); ("messages", VArray [])] in
  id = "chatgpt_0123456789abcdef"
  /\ generateId None "chatgpt" url = "chatgpt_" ++ "me8hq5"
  /\ exists w' toSave,
       handleSaveConversation (fun _ => "2024-05-02T10:00:00.000Z")
                              (mkWorld ∅ 0) (Some conversation)
       = Some (Stored w' toSave)
       /\ getConversation w' id = Some toSave.
Proof.
  intros url id conversation. split; [reflexivity|]. split; [vm_compute; reflexivity|].
  apply (proj2 (generateId_namespaced (Some "/c/0123456789abcdef") "chatgpt" url)).
  - reflexivity.
  - intros k r. cbn [db]. rewrite lookup_empty. discriminate.
Defined.

(** ** The segment of the path that becomes the id *)

Lemma splitOn_join (sep : ascii) (parts : list string) :
  parts <> [] -> Forall (fun p => allChars (notChar sep) p = true) parts ->
  splitOn sep (join (String sep "") parts) = parts.
Proof.
  intros Hne H. induction H as [|l r Hl Hr IH]; [contradiction|].
  assert (Hone : forall x, allChars (notChar sep) x = true -> splitOn sep x = [x]).
  { induction x as [|c x IHx]; [reflexivity|]. cbn [allChars splitOn].
    intros [Hc Hx]%andb_true_iff. unfold notChar in Hc.
    destruct (Ascii.eqb c sep); [discriminate|]. now rewrite (IHx Hx). }
  destruct r as [|l2 r2]; [exact (Hone l Hl)|].
  change (join (String sep "") (l :: l2 :: r2))
    with (l ++ String sep "" ++ join (String sep "") (l2 :: r2)).
  specialize (IH ltac:(discriminate)).
  revert IH. generalize (join (String sep "") (l2 :: r2)) as t. intros t IH.
  clear Hne Hone. change (String sep "" ++ t) with (String sep t).
  induction l as [|c x IHx].
  - cbn [String.append splitOn]. now rewrite Ascii.eqb_refl, IH.
  - cbn [allChars] in Hl. apply andb_true_iff in Hl as [Hc Hx].
    cbn [String.append splitOn]. unfold notChar in Hc.
    destruct (Ascii.eqb c sep); [discriminate|]. now rewrite (IHx Hx).
Qed.

Lemma long_is_chat_id (routes : list string) (id : string) :
  8 < String.length id ->
  Forall (fun r => String.length r <= 8) routes ->
  isChatId routes id = true.
Proof.
  intros Hid Hr. unfold isChatId. rewrite (proj2 (Nat.ltb_lt _ _) Hid). cbn [andb].
  apply negb_true_iff. induction Hr as [|r rs Hlen _ IH]; [reflexivity|].
  cbn [existsb]. rewrite IH, orb_false_r. apply String.eqb_neq. intros ->. lia.
Qed.

Lemma find_first_long (routes : list string) (short : list string) (id : string)
      (rest : list string) :
  Forall (fun p => String.length p <= 8) short ->
  8 < String.length id ->
  Forall (fun r => String.length r <= 8) routes ->
  List.find (isChatId routes)
            (List.filter (fun part => negb (String.eqb part "")) (short ++ id :: rest))
  = Some id.
Proof.
  intros Hs Hid Hr. induction Hs as [|p ps Hp _ IH].
  - cbn [app List.filter].
    assert (Hne : String.eqb id "" = false)
      by (apply String.eqb_neq; intros ->; cbn [String.length] in Hid; lia).
    rewrite Hne. cbn [negb List.find]. now rewrite (long_is_chat_id routes id Hid Hr).
  - cbn [app List.filter]. destruct (negb (String.eqb p "")); [|exact IH].
    cbn [List.find]. unfold isChatId at 1.
    rewrite (proj2 (Nat.ltb_ge _ _) Hp). exact IH.
Qed.

(** X6.  The id of a ChatGPT or Claude conversation is the first segment
    of the path that is longer than eight characters, whatever else the
    address holds.  For a path made of segments without a slash, first
    some of at most eight characters, then one of more than eight, then
    any others: [generateId] returns the source, an underscore and that
    long segment; the segments behind it, the query and the fragment of
    the address play no part.  So the address of a conversation under
    [/c/] gives the id of that conversation, and so does a later visit
    with another query; but under [/g/<gpt>/c/<conversation>] with a long
    first segment the id is the one of the first segment, the same for
    every conversation below it. *)
Theorem generateId_first_long_segment (source url url' : string)
        (short : list string) (id : string) (rest rest' : list string) :
  source = "chatgpt" \/ source = "claude" ->
  Forall (fun p => String.length p <= 8) short ->
  Forall (fun p => allChars (notChar "/") p = true) (short ++ id :: rest) ->
  Forall (fun p => allChars (notChar "/") p = true) (short ++ id :: rest') ->
  8 < String.length id ->
  generateId (Some (join "/" ("" :: short ++ id :: rest))) source url
  = source ++ "_" ++ id
  /\ generateId (Some (join "/" ("" :: short ++ id :: rest'))) source url'
     = generateId (Some (join "/" ("" :: short ++ id :: rest))) source url.
Proof.
  intros Hsrc Hshort Hrest Hrest' Hid.
  assert (Hgen : forall u tail,
            Forall (fun p => allChars (notChar "/") p = true) (short ++ id :: tail) ->
            generateId (Some (join "/" ("" :: short ++ id :: tail))) source u
            = source ++ "_" ++ id).
  { intros u tail Htail. unfold generateId.
    rewrite (splitOn_join "/" ("" :: short ++ id :: tail) ltac:(discriminate))
      by (constructor; [reflexivity | exact Htail]).
    change (List.filter (fun part => negb (String.eqb part "")) ("" :: short ++ id :: tail))
      with (List.filter (fun part => negb (String.eqb part "")) (short ++ id :: tail)).
    destruct Hsrc as [-> | ->].
    - rewrite String.eqb_refl, (find_first_long ["c"; "g"; "chat"] short id tail Hshort Hid);
        [reflexivity|].
      repeat constructor; cbn [String.length]; lia.
    - change (String.eqb "claude" "chatgpt") with false. cbv iota.
      rewrite String.eqb_refl, (find_first_long ["chat"; "new"] short id tail Hshort Hid);
        [reflexivity|].
      repeat constructor; cbn [String.length]; lia. }
  split; [exact (Hgen url rest Hrest)|].
  now rewrite (Hgen url rest Hrest), (Hgen url' rest' Hrest').
Qed.

Lemma generateId_first_long_segment_witness :
  let first := "https://chatgpt.com/g/g-2fkFE8rbu-dall-e/c/6630f2a1-aaaa" in
  let second := "https://chatgpt.com/g/g-2fkFE8rbu-dall-e/c/7741c3b2-bbbb?model=x" in
  (Forall (fun p => String.length p <= 8) ["g"]
   /\ 8 < String.length "g-2fkFE8rbu-dall-e")
  /\ generateId (Some "/g/g-2fkFE8rbu-dall-e/c/6630f2a1-aaaa") "chatgpt" first
  = "chatgpt_g-2fkFE8rbu-dall-e"
  /\ generateId (Some "/g/g-2fkFE8rbu-dall-e/c/7741c3b2-bbbb") "chatgpt" second
     = generateId (Some "/g/g-2fkFE8rbu-dall-e/c/6630f2a1-aaaa") "chatgpt" first.
Proof.
  intros first second.
  split; [split; [repeat constructor | cbn [String.length]; lia]|].
  apply (generateId_first_long_segment "chatgpt" first second ["g"]
           "g-2fkFE8rbu-dall-e" ["c"; "6630f2a1-aaaa"] ["c"; "7741c3b2-bbbb"]).
  - now left.
  - repeat constructor.
  - repeat constructor.
  - repeat constructor.
  - cbn [String.length]. lia.
Defined.

(** ** The content of a message *)

Lemma trimEnd_keeps_text (s : string) :
  allChars isSpace s = false -> allChars isSpace (trimEnd s) = false.
Proof.
  induction s as [|c r IH]; [discriminate|]. cbn [allChars trimEnd].
  destruct (isSpace c) eqn:Ec; cbn [andb].
  - intros Hr. rewrite Hr. cbn [allChars]. rewrite Ec. now apply IH.
  - intros _. cbn [allChars]. now rewrite Ec.
Qed.

Lemma trimEnd_idempotent (s : string) : trimEnd (trimEnd s) = trimEnd s.
Proof.
  induction s as [|c r IH]; [reflexivity|]. cbn [trimEnd].
  destruct (isSpace c && allChars isSpace r) eqn:E; [reflexivity|].
  cbn [trimEnd]. rewrite IH.
  destruct (isSpace c); cbn [andb] in *; [|reflexivity].
  now rewrite (trimEnd_keeps_text _ E).
Qed.

Lemma trim_idempotent (s : string) : trim (trim s) = trim s.
Proof.
  unfold trim. pose proof (trimStart_head s) as Hh.
  destruct (trimStart s) as [|c r]; [reflexivity|].
  assert (H1 : trimEnd (String c r) = String c (trimEnd r))
    by (cbn [trimEnd]; now rewrite Hh).
  rewrite H1. unfold trimStart. cbn [spanLen]. rewrite Hh. cbn [dropStr].
  rewrite <- H1. apply trimEnd_idempotent.
Qed.

Lemma stripped_tag (tag : string) (attrs : list (string * string))
      (kids : list Node) :
  isNonContent (ElementNode tag attrs kids) = false -> isSkippedTag tag = false.
Proof.
  unfold isNonContent, isSkippedTag, hasTag. intros H.
  do 3 (apply orb_false_iff in H as [H _]). cbn [existsb] in *.
  destruct (String.eqb tag "button"), (String.eqb tag "nav"),
    (String.eqb tag "svg"), (String.eqb tag "script"), (String.eqb tag "style");
    try discriminate; reflexivity.
Qed.

Lemma stripNonContent_tags (n : Node) :
  Forall (fun e => isSkippedTag (fst e) = false)
         (flat_map elementsOf (childNodesOf (stripNonContent n))).
Proof.
  induction n as [t|d|tag attrs kids IH] using Node_induction;
    [constructor | constructor |].
  cbn [stripNonContent childNodesOf].
  induction IH as [|k r Hk _ IHr]; [constructor|].
  destruct (isNonContent k) eqn:Ek; [exact IHr|].
  cbn [flat_map]. apply List.Forall_app. split; [|exact IHr].
  destruct k as [t|d|ktag kattrs kkids]; [constructor | constructor |].
  cbn [stripNonContent elementsOf]. constructor.
  - cbn [fst]. exact (stripped_tag _ _ _ Ek).
  - exact Hk.
Qed.

Lemma sanitizeHTML_tags (keep : string -> bool) (forest : list Node) :
  Forall (fun e => keep (fst e) = true) (flat_map elementsOf forest) ->
  Forall (fun e => keep (fst e) = true) (flat_map elementsOf (sanitizeHTML forest)).
Proof.
  assert (Hnode : forall n,
    Forall (fun e => keep (fst e) = true) (elementsOf n) ->
    Forall (fun e => keep (fst e) = true) (flat_map elementsOf (sanitizeHTML [n]))).
  { induction n as [t|d|tag attrs kids IH] using Node_induction;
      [constructor | constructor |].
    cbn [elementsOf]. intros H. inversion H as [|? ? Htag Hkids]; subst.
    rewrite sanitizeHTML_cons. change (sanitizeHTML []) with (@nil Node).
    destruct (isAllowedTag tag).
    - cbn [flat_map elementsOf]. rewrite app_nil_r. constructor; [exact Htag|].
      clear H Htag. induction IH as [|k r Hk _ IHr]; [constructor|].
      cbn [flat_map] in Hkids. apply List.Forall_app in Hkids as [H1 H2].
      rewrite sanitizeHTML_split, flat_map_app. apply List.Forall_app. auto.
    - now rewrite app_nil_r. }
  induction forest as [|n r IH]; [constructor|].
  cbn [flat_map]. intros [H1 H2]%List.Forall_app.
  rewrite sanitizeHTML_split, flat_map_app. apply List.Forall_app. auto.
Qed.

(** X7.  The markup that [getMessageContent] returns holds no [button],
    [nav], [svg], [script] or [style] element, whatever the message element
    looks like: these are removed from the clone before [sanitizeHTML] runs,
    and [sanitizeHTML] adds no element.  The text it returns has no white
    space at either end. *)
Theorem message_html_without_script (msgEl : Node) :
  Forall (fun e => isSkippedTag (fst e) = false)
         (flat_map elementsOf (snd (getMessageContent msgEl)))
  /\ ~ In "script" (List.map fst (flat_map elementsOf (snd (getMessageContent msgEl))))
  /\ trim (fst (getMessageContent msgEl)) = fst (getMessageContent msgEl).
Proof.
  unfold getMessageContent. cbn [fst snd].
  set (target := match findElement contentSelectors msgEl with
                 | Some contentEl => contentEl
                 | None => msgEl
                 end).
  assert (H : Forall (fun e => negb (isSkippedTag (fst e)) = true)
                (flat_map elementsOf
                   (sanitizeHTML (childNodesOf (stripNonContent target))))).
  { apply (sanitizeHTML_tags (fun t => negb (isSkippedTag t))).
    eapply List.Forall_impl; [|apply stripNonContent_tags].
    intros e He. cbn beta in He. now rewrite He. }
  split; [|split].
  - eapply List.Forall_impl; [|exact H].
    intros e He. cbn beta in He. now destruct (isSkippedTag (fst e)).
  - intros Hin. apply List.in_map_iff in Hin as (e & He & Hin).
    rewrite List.Forall_forall in H. specialize (H e Hin).
    rewrite He in H. discriminate.
  - apply trim_idempotent.
Qed.

Lemma scrapeMessages_acc (getMessageRole : Node -> option Role)
      (messageEls : list Node) :
  forall i lastRole messages,
    scrapeMessages getMessageRole messageEls i lastRole messages
    = (messages ++ scrapeMessages getMessageRole messageEls i lastRole [])%list.
Proof.
  induction messageEls as [|el rest IH]; intros i lastRole messages;
    cbn [scrapeMessages]; [now rewrite app_nil_r|].
  destruct (String.eqb (fst (getMessageContent el)) ""); [apply IH|].
  rewrite IH, (IH _ _ ([] ++ _)%list). cbn [app]. now rewrite <- app_assoc.
Qed.

Lemma scrapeMessages_from (getMessageRole : Node -> option Role)
      (messageEls : list Node) :
  forall i lastRole,
    let next (r : option Role) :=
      match r with Some user => assistant | _ => user end in
    let messages := scrapeMessages getMessageRole messageEls i lastRole [] in
    Forall (fun m =>
              content m <> "" /\ i <= index m
              /\ exists msgEl,
                   nth_error messageEls (index m - i) = Some msgEl
                   /\ getMessageContent msgEl = (content m, contentHtml m)
                   /\ (forall r, getMessageRole msgEl = Some r -> role m = r))
           messages
    /\ StronglySorted lt (List.map index messages)
    /\ (forall k msgEl,
           nth_error messageEls k = Some msgEl ->
           fst (getMessageContent msgEl) <> "" ->
           In (i + k) (List.map index messages))
    /\ ((forall msgEl, In msgEl messageEls -> getMessageRole msgEl = None) ->
        forall j m, nth_error messages j = Some m ->
                    role m = if Nat.even j then next lastRole
                             else next (Some (next lastRole))).
Proof.
  induction messageEls as [|el rest IH]; intros i lastRole next messages.
  - subst messages. cbn [scrapeMessages List.map].
    split; [constructor|]. split; [constructor|].
    split; [intros [|k] ? [=]|]. intros _ [|j] m [=].
  - subst messages. cbn [scrapeMessages].
    destruct (String.eqb (fst (getMessageContent el)) "") eqn:Et.
    + destruct (IH (S i) lastRole) as (Hall & Hsort & Hin & Hrole).
      split; [|split; [exact Hsort|split]].
      * eapply List.Forall_impl; [|exact Hall].
        intros m (Hc & Hi & msgEl & Hn & Hrest).
        split; [exact Hc|]. split; [lia|]. exists msgEl. split; [|exact Hrest].
        replace (index m - i) with (S (index m - S i)) by lia. exact Hn.
      * intros [|k] msgEl Hn Hne.
        -- injection Hn as <-. apply String.eqb_eq in Et. contradiction.
        -- replace (i + S k) with (S i + k) by lia. now apply (Hin k msgEl).
      * intros Hnone. apply Hrole. intros msgEl Hm. apply Hnone. now right.
    + rewrite scrapeMessages_acc.
      set (r0 := match getMessageRole el with
                 | Some r => r
                 | None => match lastRole with
                           | Some user => assistant
                           | _ => user
                           end
                 end).
      destruct (IH (S i) (Some r0)) as (Hall & Hsort & Hin & Hrole).
      split; [|split; [|split]].
      * constructor.
        -- cbn [content index contentHtml role].
           split; [now apply String.eqb_neq|]. split; [lia|].
           exists el. rewrite Nat.sub_diag. split; [reflexivity|].
           split; [now destruct (getMessageContent el)|].
           intros r Hr. subst r0. now rewrite Hr.
        -- eapply List.Forall_impl; [|exact Hall].
           intros m (Hc & Hi & msgEl & Hn & Hrest).
           split; [exact Hc|]. split; [lia|]. exists msgEl. split; [|exact Hrest].
           replace (index m - i) with (S (index m - S i)) by lia. exact Hn.
      * cbn [List.map app index]. constructor; [exact Hsort|].
        apply List.Forall_forall. intros x Hx.
        apply List.in_map_iff in Hx as (m & <- & Hm).
        rewrite List.Forall_forall in Hall. destruct (Hall m Hm) as (_ & Hi & _).
        lia.
      * intros [|k] msgEl Hn Hne.
        -- left. cbn [index]. lia.
        -- right. replace (i + S k) with (S i + k) by lia. now apply (Hin k msgEl).
      * intros Hnone [|j] m Hm.
        -- injection Hm as <-. cbn [role Nat.even]. subst r0.
           rewrite (Hnone el) by now left. reflexivity.
        -- cbn [nth_error app] in Hm.
           rewrite (Hrole (fun x Hx => Hnone x (or_intror Hx)) j m Hm).
           assert (Hr0 : r0 = next lastRole)
             by (subst r0; rewrite (Hnone el) by (now left); reflexivity).
           rewrite Hr0, Nat.even_succ, <- Nat.negb_even.
           destruct (Nat.even j); cbn [negb]; [reflexivity|].
           subst next. now destruct lastRole as [[|]|].
Qed.

(** X8.  The messages that [scrapeConversation] collects are the message
    elements whose text is not empty, in the order of the page: no message
    has an empty content, each carries the position of its element and the
    text and markup of that element, the positions increase strictly, and
    every element with a text is there.  A role that [getMessageRole]
    determines is the role of the message; when it determines none for any
    element, the roles alternate, starting with the user. *)
Theorem scraped_messages (getMessageRole : Node -> option Role)
        (messageEls : list Node) :
  let messages := scrapeMessages getMessageRole messageEls 0 None [] in
  Forall (fun m =>
            content m <> ""
            /\ exists msgEl,
                 nth_error messageEls (index m) = Some msgEl
                 /\ getMessageContent msgEl = (content m, contentHtml m)
                 /\ (forall r, getMessageRole msgEl = Some r -> role m = r))
         messages
  /\ StronglySorted lt (List.map index messages)
  /\ (forall i msgEl,
         nth_error messageEls i = Some msgEl ->
         fst (getMessageContent msgEl) <> "" ->
         In i (List.map index messages))
  /\ ((forall msgEl, In msgEl messageEls -> getMessageRole msgEl = None) ->
      forall j m, nth_error messages j = Some m ->
                  role m = if Nat.even j then user else assistant).
Proof.
  intros messages.
  destruct (scrapeMessages_from getMessageRole messageEls 0 None)
    as (Hall & Hsort & Hin & Hrole).
  split; [|split; [exact Hsort|split; [exact Hin | exact Hrole]]].
  eapply List.Forall_impl; [|exact Hall].
  intros m (Hc & _ & msgEl & Hn & Hrest). split; [exact Hc|].
  exists msgEl. rewrite Nat.sub_0_r in Hn. now split.
Qed.

Lemma scraped_messages_witness :
  let turn (text : string) := ElementNode "article" [] [ElementNode "p" [] [TextNode text]] in
  let messageEls := [turn "Hello"; turn "  "; turn "Hi, how can I help?"; turn "Thanks"] in
  let messages := scrapeMessages (fun _ => None) messageEls 0 None [] in
  List.map index messages = [0; 2; 3]
  /\ List.map content messages = ["Hello"; "Hi, how can I help?"; "Thanks"]
  /\ List.map role messages = [user; assistant; user]
  /\ In 2 (List.map index messages)
  /\ forall j m, nth_error messages j = Some m ->
                 role m = if Nat.even j then user else assistant.
Proof.
  intros turn messageEls messages.
  destruct (scraped_messages (fun _ => None) messageEls) as (_ & _ & Hin & Hrole).
  split; [reflexivity|]. split; [reflexivity|]. split; [reflexivity|].
  split.
  - apply (Hin 2 (turn "Hi, how can I help?")); [reflexivity | discriminate].
  - apply Hrole. reflexivity.
Defined.

(** ** The name of an exported file *)

Lemma replace_reserved (s : string) :
  forall prev i,
    let out := assemble (fun (_ : nat) (_ : unit) => "_") i
                        (scan matchReserved prev 0 s) in
    allChars (fun c => negb (isReserved c)) out = true
    /\ String.length out = String.length s
    /\ (allChars (fun c => negb (isReserved c)) s = true -> out = s).
Proof.
  induction s as [|c r IH]; intros prev i; [now repeat split|].
  cbn [scan matchReserved]. destruct (isReserved c) eqn:Ec.
  - cbn [Nat.sub assemble]. destruct (IH (Some c) (S i)) as (H1 & H2 & _).
    cbn [String.append allChars String.length].
    split; [exact H1|]. split; [now rewrite H2|].
    rewrite Ec. discriminate.
  - cbn [assemble]. destruct (IH (Some c) i) as (H1 & H2 & H3).
    cbn [allChars String.length]. rewrite Ec. cbn [negb andb].
    split; [exact H1|]. split; [now rewrite H2|].
    intros Hr. now rewrite (H3 Hr).
Qed.

(** X9.  The file name that [exportConversation] proposes never contains
    one of the reserved characters: each is replaced by an underscore, one
    for one, so the name is as long as the title plus the extension; a title
    without reserved characters is kept as it is, and an empty title gives
    [conversation.md]. *)
Theorem exportFileName_safe (title : string) :
  let base := if String.eqb title "" then "conversation" else title in
  allChars (fun c => negb (isReserved c)) (exportFileName title) = true
  /\ String.length (exportFileName title) = String.length base + 3
  /\ endsWith ".md" (exportFileName title) = true
  /\ (allChars (fun c => negb (isReserved c)) base = true ->
      exportFileName title = base ++ ".md").
Proof.
  intros base. unfold exportFileName, replaceAll. fold base.
  destruct (replace_reserved base None 0) as (H1 & H2 & H3).
  set (out := assemble _ 0 _) in *.
  split; [rewrite allChars_append, H1; reflexivity|].
  split; [rewrite length_append, H2; reflexivity|].
  split; [|intros Hb; now rewrite (H3 Hb)].
  unfold endsWith. now rewrite revStr_append.
Qed.

Lemma exportFileName_safe_witness :
  allChars (fun c => negb (isReserved c)) "Plan for 2025" = true
  /\ exportFileName "Plan for 2025" = "Plan for 2025.md"
  /\ exportFileName "a/b: c?" = "a_b_ c_.md".
Proof.
  split; [reflexivity|]. split; [|reflexivity].
  apply (exportFileName_safe "Plan for 2025"). reflexivity.
Defined.

(** ** The extractor: its output, list items and tables *)

(** X10.  In block mode, that is with no context or with [inline] unset,
    [extractTextContent] returns a text in the normal form of
    [cleanMarkdown], whatever the tree: cleaning it again changes nothing, it
    has no run of three line feeds, and it neither starts nor ends with a
    line feed. *)
Theorem extract_output_is_clean (element : Node) (depth : nat) :
  let out := extractTextContent element (mkCtx false depth) in
  extractTextContentJS (Some element) None = Returned (extractTextContent element noCtx)
  /\ cleanMarkdown out = out
  /\ (forall a b, out <> a ++ (nl ++ nl ++ nl) ++ b)
  /\ (forall t, out <> nl ++ t)
  /\ (forall t, out <> t ++ nl).
Proof.
  intros out. split; [reflexivity|].
  assert (E : exists raw, out = cleanMarkdown raw).
  { subst out. destruct element as [t|d|tag attrs kids].
    - now exists "".
    - now exists "".
    - rewrite extractTextContent_unfold. unfold finish. cbn [inline].
      now eexists. }
  destruct E as (raw & ->).
  destruct (cleanMarkdown_shape raw) as (H1 & H2 & H3).
  split; [now apply cleanMarkdown_fixed|]. split; [|split].
  - intros a b E. rewrite E in H1. apply no3_append in H1. discriminate.
  - intros t E. rewrite E in H2. discriminate.
  - intros t E. rewrite E, endsLF_append_nl in H3. discriminate.
Qed.

Lemma processListItem_unfold (tag : string) (attrs : list (string * string))
      (kids : list Node) (depth : nat) (marker : string) :
  processListItem (ElementNode tag attrs kids) depth marker
  = let parts :=
      fold_left (fun acc child =>
                   if hasTag ["ul"; "ol"] child
                   then (fst acc, snd acc ++ processListElement child (depth + 1))
                   else (fst acc ++ extractTextContent child (mkCtx true depth),
                         snd acc))
                kids ("", "") in
    repeatStr "  " depth ++ marker ++ " " ++ trim (fst parts) ++ nl ++ snd parts.
Proof.
  cbn [processListItem]. cbv zeta.
  match goal with
  | |- context [?f kids "" ""] => set (loop := f)
  end.
  assert (H : forall ks a b,
             loop ks a b
             = fold_left (fun acc child =>
                   if hasTag ["ul"; "ol"] child
                   then (fst acc, snd acc ++ processListElement child (depth + 1))
                   else (fst acc ++ extractTextContent child (mkCtx true depth),
                         snd acc))
                 ks (a, b)).
  { induction ks as [|k r IH]; intros a b; [reflexivity|].
    cbn [fold_left fst snd]. destruct (hasTag ["ul"; "ol"] k) eqn:E;
      rewrite <- IH; subst loop; cbn beta iota; now rewrite E. }
  now rewrite H.
Qed.

(** X11.  The text of a list item is taken from its child elements only:
    text and comment nodes that are direct children of the [li] add nothing,
    so an item whose children are all text nodes comes out as its marker
    with no text behind it. *)
Theorem list_item_text_nodes_are_dropped (tag : string)
        (attrs : list (string * string)) (kids : list Node) (depth : nat)
        (marker : string) :
  processListItem (ElementNode tag attrs kids) depth marker
  = processListItem (ElementNode tag attrs (List.filter isElement kids)) depth marker
  /\ (forallb (fun k => negb (isElement k)) kids = true ->
      processListItem (ElementNode tag attrs kids) depth marker
      = repeatStr "  " depth ++ marker ++ " " ++ nl).
Proof.
  assert (H : processListItem (ElementNode tag attrs kids) depth marker
    = processListItem (ElementNode tag attrs (List.filter isElement kids)) depth marker).
  { rewrite !processListItem_unfold. cbv zeta.
    match goal with
    | |- context [fold_left ?F kids _] =>
        assert (E : forall acc, fold_left F kids acc
                                = fold_left F (List.filter isElement kids) acc)
    end.
    { induction kids as [|k r IH]; intros acc; [reflexivity|].
      cbn [fold_left List.filter]. destruct k as [t|d|ktag kattrs kkids];
        cbn [isElement hasTag fold_left]; rewrite <- IH; try reflexivity;
        f_equal; cbn [extractTextContent finish inline];
        rewrite (append_empty (fst acc)); now destruct acc. }
    now rewrite E. }
  split; [exact H|]. intros Hk. rewrite H.
  replace (List.filter isElement kids) with (@nil Node); [reflexivity|].
  clear H. induction kids as [|k r IH]; [reflexivity|].
  cbn [forallb] in Hk. apply andb_true_iff in Hk as [H1 H2].
  cbn [List.filter]. destruct (isElement k); [discriminate | now apply IH].
Qed.

Lemma list_item_text_nodes_are_dropped_witness :
  let li := ElementNode "li" [] [TextNode "Buy milk"] in
  forallb (fun k => negb (isElement k)) [TextNode "Buy milk"] = true
  /\ processListItem li 0 "-" = "- " ++ nl
  /\ extractTextContent (ElementNode "div" [] [ElementNode "ul" [] [li]]) noCtx
     = "- ".
Proof.
  intros li. split; [reflexivity|]. split; [|reflexivity].
  apply (list_item_text_nodes_are_dropped "li" [] [TextNode "Buy milk"] 0 "-").
  reflexivity.
Defined.

Lemma descendants_cons (tag : string) (attrs : list (string * string))
      (c : Node) (r : list Node) :
  descendants (ElementNode tag attrs (c :: r))
  = match c with
    | ElementNode _ _ _ =>
        (c :: descendants c ++ descendants (ElementNode tag attrs r))%list
    | _ => descendants (ElementNode tag attrs r)
    end.
Proof. destruct c; reflexivity. Qed.

Lemma extractTableContent_rows (table : Node) :
  let lineOf (row : Node) :=
    List.map (fun c => trim (textContent c)) (querySelectorAll ["th"; "td"] row) in
  extractTableContent table
  = match querySelectorAll ["tr"] table with
    | [] => ""
    | first :: rest =>
        "| " ++ join " | " (lineOf first) ++ " |" ++ nl
        ++ "| " ++ join " | " (List.map (fun _ => "---") (lineOf first)) ++ " |" ++ nl
        ++ concatStr (List.map (fun row => "| " ++ join " | " (lineOf row) ++ " |" ++ nl)
                               rest)
    end.
Proof.
  intros lineOf. unfold extractTableContent.
  match goal with
  | |- ?f _ 0 "" = _ => set (go := f)
  end.
  assert (H : forall rs i md,
             go rs (S i) md
             = md ++ concatStr (List.map (fun row => "| " ++ join " | " (lineOf row)
                                                        ++ " |" ++ nl) rs)).
  { induction rs as [|row rs IH]; intros i md.
    - cbn. now rewrite append_empty.
    - cbn [List.map concatStr fold_right]. rewrite <- append_assoc, <- (IH (S i)).
      subst go. cbn beta iota. now norm_append. }
  destruct (querySelectorAll ["tr"] table) as [|first rest]; [reflexivity|].
  transitivity (go rest 1 (("" ++ "| " ++ join " | " (lineOf first) ++ " |" ++ nl)
                             ++ "| " ++ join " | " (List.map (fun _ => "---") (lineOf first))
                             ++ " |" ++ nl)).
  - reflexivity.
  - rewrite H. now norm_append.
Qed.

(** X12.  A table with a header row in [thead] and data rows in [tbody],
    each cell holding a text, comes out as one line per row with the
    trimmed cell texts between bars, and after the header line a separator
    line with as many [---] columns as the header has cells. *)
Theorem table_rows (headers : list string) (rows : list (list string)) :
  let cell (tag text : string) := ElementNode tag [] [TextNode text] in
  let tr (tag : string) (texts : list string) :=
    ElementNode "tr" [] (List.map (cell tag) texts) in
  let table :=
    ElementNode "table" []
      [ElementNode "thead" [] [tr "th" headers];
       ElementNode "tbody" [] (List.map (tr "td") rows)] in
  let line (texts : list string) := "| " ++ join " | " texts ++ " |" ++ nl in
  extractTableContent table
  = line (List.map trim headers)
    ++ line (List.map (fun _ => "---") headers)
    ++ concatStr (List.map (fun texts => line (List.map trim texts)) rows).
Proof.
  intros cell tr table line.
  assert (Hcells : forall tag texts,
             descendants (tr tag texts) = List.map (cell tag) texts).
  { intros tag texts. unfold tr.
    induction texts as [|t ts IH]; [reflexivity|].
    cbn [List.map]. rewrite descendants_cons. unfold cell at 1 2 3.
    cbn beta iota.
    change (descendants (ElementNode tag [] [TextNode t])) with (@nil Node).
    cbn [app]. now rewrite IH. }
  assert (Hsel : forall tag texts,
             tag = "th" \/ tag = "td" ->
             List.filter (hasTag ["tr"]) (List.map (cell tag) texts) = []
             /\ List.map (fun c => trim (textContent c))
                         (querySelectorAll ["th"; "td"] (tr tag texts))
                = List.map trim texts).
  { intros tag texts Ht. unfold querySelectorAll. rewrite Hcells.
    induction texts as [|t ts [IH1 IH2]]; [now split|].
    cbn [List.map List.filter]. unfold cell at 1 3. cbn [hasTag existsb].
    destruct Ht as [-> | ->]; cbn [String.eqb Ascii.eqb Bool.eqb andb orb];
      (split; [exact IH1|]);
      [change (hasTag ["th"; "td"] (cell "th" t)) with true
      |change (hasTag ["th"; "td"] (cell "td" t)) with true];
      cbn [List.map];
      [change (textContent (cell "th" t)) with (t ++ "")
      |change (textContent (cell "td" t)) with (t ++ "")];
      now rewrite append_empty, IH2. }
  assert (Hbody : List.filter (hasTag ["tr"])
                    (descendants (ElementNode "tbody" [] (List.map (tr "td") rows)))
                  = List.map (tr "td") rows).
  { induction rows as [|r rs IH]; [reflexivity|].
    cbn [List.map]. rewrite descendants_cons. unfold tr at 1 2.
    fold (tr "td" r). rewrite Hcells.
    cbn [List.filter hasTag existsb String.eqb Ascii.eqb Bool.eqb andb orb].
    rewrite List.filter_app, (proj1 (Hsel "td" r (or_intror eq_refl))).
    cbn [app]. now rewrite IH. }
  rewrite extractTableContent_rows. cbv zeta.
  assert (Hrows : querySelectorAll ["tr"] table
                  = tr "th" headers :: List.map (tr "td") rows).
  { unfold querySelectorAll, table. rewrite !descendants_cons.
    unfold tr at 1 2. fold (tr "th" headers). rewrite Hcells.
    change (descendants (ElementNode "thead" [] [])) with (@nil Node).
    change (descendants (ElementNode "table" [] [])) with (@nil Node).
    rewrite !app_nil_r.
    cbn [List.filter hasTag existsb String.eqb Ascii.eqb Bool.eqb andb orb app].
    rewrite !List.filter_app, (proj1 (Hsel "th" headers (or_introl eq_refl))).
    cbn [List.filter hasTag existsb String.eqb Ascii.eqb Bool.eqb andb orb app].
    now rewrite Hbody. }
  rewrite Hrows, (proj2 (Hsel "th" headers (or_introl eq_refl))).
  rewrite (List.map_map trim (fun _ => "---")).
  assert (Hm : forall x,
             "| " ++ join " | " (List.map (fun c => trim (textContent c))
                                          (querySelectorAll ["th"; "td"] (tr "td" x)))
                  ++ " |" ++ nl
             = line (List.map trim x))
    by (intros x; now rewrite (proj2 (Hsel "td" x (or_intror eq_refl)))).
  rewrite List.map_map, (List.map_ext _ _ Hm).
  unfold line. now norm_append.
Qed.

(** ** Text that the search steps leave alone *)

Lemma scan_untouched_prefix {M : Type}
      (matchAt : option ascii -> string -> option (M * nat)) (p : ascii -> bool) :
  (forall prev c r, p c = true -> matchAt prev (String c r) = None) ->
  forall pre s prev,
    allChars p pre = true ->
    exists prev', scan matchAt prev 0 (pre ++ s)
                  = (lits pre ++ scan matchAt prev' 0 s)%list.
Proof.
  intros Hp pre s. induction pre as [|c r IH]; intros prev H; [now exists prev|].
  cbn [allChars] in H. apply andb_true_iff in H as [Hc H].
  destruct (IH (Some c) H) as [prev' E]. exists prev'.
  cbn [String.append scan lits]. now rewrite (Hp prev c _ Hc), E.
Qed.

Lemma scan_untouched {M : Type}
      (matchAt : option ascii -> string -> option (M * nat)) (p : ascii -> bool) :
  (forall prev c r, p c = true -> matchAt prev (String c r) = None) ->
  forall s prev, allChars p s = true -> scan matchAt prev 0 s = lits s.
Proof.
  intros Hp s prev H.
  destruct (scan_untouched_prefix matchAt p Hp s "" prev H) as [prev' E].
  rewrite append_empty in E. rewrite E. cbn [scan]. apply app_nil_r.
Qed.

Lemma replaceAll_untouched {M : Type}
      (matchAt : option ascii -> string -> option (M * nat))
      (f : nat -> M -> string) (p : ascii -> bool) :
  (forall prev c r, p c = true -> matchAt prev (String c r) = None) ->
  forall s, allChars p s = true -> replaceAll matchAt f s = s.
Proof.
  intros Hp s H. unfold replaceAll.
  rewrite (scan_untouched matchAt p Hp s None H). apply assemble_lits.
Qed.

Lemma fence_trigger (prev : option ascii) (c : ascii) (r : string) :
  notChar BT c = true -> matchFence prev (String c r) = None.
Proof.
  unfold notChar, matchFence, BT. cbn [startsWith].
  rewrite (Ascii.eqb_sym "`" c). now destruct (Ascii.eqb c "`").
Qed.

Lemma inlineCode_trigger (prev : option ascii) (c : ascii) (r : string) :
  notChar BT c = true -> matchInlineCode prev (String c r) = None.
Proof. unfold notChar, matchInlineCode. now destruct (Ascii.eqb c BT). Qed.

Lemma placeholder_trigger (prev : option ascii) (c : ascii) (r : string) :
  notChar NUL c = true -> matchInlinePlaceholder prev (String c r) = None.
Proof.
  unfold notChar, matchInlinePlaceholder, matchPlaceholder. cbn [startsWith].
  rewrite (Ascii.eqb_sym NUL c). now destruct (Ascii.eqb c NUL).
Qed.

Lemma bold_trigger (prev : option ascii) (c : ascii) (r : string) :
  notChar "*" c = true -> matchBold prev (String c r) = None.
Proof.
  unfold notChar, matchBold. cbn [startsWith].
  rewrite (Ascii.eqb_sym "*" c). now destruct (Ascii.eqb c "*").
Qed.

Lemma italic_trigger (prev : option ascii) (c : ascii) (r : string) :
  notChar "*" c = true -> matchItalic prev (String c r) = None.
Proof.
  unfold notChar, matchItalic. cbn [startsWith].
  rewrite (Ascii.eqb_sym "*" c). destruct (Ascii.eqb c "*"); [discriminate|].
  now rewrite andb_false_r.
Qed.

Lemma link_trigger (prev : option ascii) (c : ascii) (r : string) :
  notChar "[" c = true -> matchLink prev (String c r) = None.
Proof.
  unfold notChar, matchLink. cbn [startsWith].
  rewrite (Ascii.eqb_sym "[" c). now destruct (Ascii.eqb c "[").
Qed.

Lemma escapedBr_trigger (prev : option ascii) (c : ascii) (r : string) :
  notChar "&" c = true -> matchEscapedBr prev (String c r) = None.
Proof.
  unfold notChar, matchEscapedBr. cbn [startsWith].
  rewrite (Ascii.eqb_sym "&" c). now destruct (Ascii.eqb c "&").
Qed.

Lemma inert_chars (c : ascii) :
  inert c = true ->
  notChar "&" c = true /\ notChar "<" c = true /\ notChar ">" c = true
  /\ notChar "*" c = true /\ notChar "[" c = true /\ notChar BT c = true
  /\ notChar NUL c = true /\ notChar LF c = true /\ notChar CR c = true
  /\ (nat_of_ascii c =? 160)%nat = false.
Proof.
  unfold inert, notChar. cbn [existsb]. intros [H1 H2]%andb_true_iff.
  apply negb_true_iff in H1, H2.
  repeat (apply orb_false_iff in H1 as [? H1]).
  repeat split; try assumption; now apply negb_true_iff.
Qed.

Lemma inert_weaken (x : ascii) (s : string) :
  In x ["&"; "<"; ">"; "*"; "["; BT; NUL; LF; CR]%char ->
  allChars inert s = true -> allChars (notChar x) s = true.
Proof.
  intros Hx. apply allChars_weaken. intros c Hc.
  destruct (inert_chars c Hc) as (?&?&?&?&?&?&?&?&?&?).
  cbn [In] in Hx. intuition (subst; assumption).
Qed.

(** [escapeHtml] on inert text, and on a join with [<br>]. *)
Lemma escapeHtml_inert (s : string) : allChars inert s = true -> escapeHtml s = s.
Proof.
  induction s as [|c r IH]; [reflexivity|]. cbn [allChars escapeHtml].
  intros [Hc Hr]%andb_true_iff. rewrite (IH Hr).
  destruct (inert_chars c Hc) as (H1 & H2 & H3 & _ & _ & _ & _ & _ & _ & H9).
  unfold escapeChar, notChar in *.
  destruct (Ascii.eqb c "&"); [discriminate|].
  destruct (Ascii.eqb c "<"); [discriminate|].
  destruct (Ascii.eqb c ">"); [discriminate|].
  now rewrite H9.
Qed.

Lemma escapeHtml_append (a b : string) :
  escapeHtml (a ++ b) = escapeHtml a ++ escapeHtml b.
Proof.
  induction a as [|c r IH]; [reflexivity|]. cbn [String.append escapeHtml].
  now rewrite IH, append_assoc.
Qed.

Lemma escapeHtml_join (ls : list string) :
  Forall (fun l => allChars inert l = true) ls ->
  escapeHtml (join "<br>" ls) = join "&lt;br&gt;" ls.
Proof.
  induction 1 as [|l r Hl Hr IH]; [reflexivity|].
  destruct r as [|l2 r2]; [now apply escapeHtml_inert|].
  change (join "<br>" (l :: l2 :: r2)) with (l ++ "<br>" ++ join "<br>" (l2 :: r2)).
  change (join "&lt;br&gt;" (l :: l2 :: r2))
    with (l ++ "&lt;br&gt;" ++ join "&lt;br&gt;" (l2 :: r2)).
  rewrite !escapeHtml_append, IH, (escapeHtml_inert l Hl). reflexivity.
Qed.

Lemma allChars_join (p : ascii -> bool) (sep : string) (ls : list string) :
  allChars p sep = true -> Forall (fun l => allChars p l = true) ls ->
  allChars p (join sep ls) = true.
Proof.
  intros Hs. induction 1 as [|l r Hl Hr IH]; [reflexivity|].
  destruct r as [|l2 r2]; [exact Hl|].
  change (join sep (l :: l2 :: r2)) with (l ++ sep ++ join sep (l2 :: r2)).
  now rewrite !allChars_append, Hl, Hs, IH.
Qed.

Lemma escapedBr_prev (s : string) (p q : option ascii) (k : nat) :
  scan matchEscapedBr p k s = scan matchEscapedBr q k s.
Proof. destruct s as [|c r]; [reflexivity|]. destruct k; reflexivity. Qed.

Lemma restore_breaks (ls : list string) :
  Forall (fun l => allChars (notChar "&") l = true) ls ->
  forall prev i,
    assemble (fun (_ : nat) (_ : unit) => "<br>") i
             (scan matchEscapedBr prev 0 (join "&lt;br&gt;" ls))
    = join "<br>" ls.
Proof.
  induction 1 as [|l r Hl Hr IH]; intros prev i; [reflexivity|].
  destruct r as [|l2 r2].
  - cbn [join].
    rewrite (scan_untouched matchEscapedBr (notChar "&") escapedBr_trigger l prev Hl).
    apply assemble_lits.
  - change (join "&lt;br&gt;" (l :: l2 :: r2))
      with (l ++ "&lt;br&gt;" ++ join "&lt;br&gt;" (l2 :: r2)).
    change (join "<br>" (l :: l2 :: r2)) with (l ++ "<br>" ++ join "<br>" (l2 :: r2)).
    destruct (scan_untouched_prefix matchEscapedBr (notChar "&") escapedBr_trigger
                l ("&lt;br&gt;" ++ join "&lt;br&gt;" (l2 :: r2)) prev Hl) as [prev' E].
    rewrite E, assemble_app. f_equal.
    cbn [String.append scan matchEscapedBr startsWith Ascii.eqb Bool.eqb andb
         Nat.sub assemble].
    now rewrite IH.
Qed.

Lemma inlineFormat_inert_lines (ls : list string) (inlineCodes : list string) :
  Forall (fun l => allChars inert l = true) ls ->
  inlineFormat (join "<br>" ls) inlineCodes = join "<br>" ls.
Proof.
  intros H. unfold inlineFormat. rewrite (escapeHtml_join ls H).
  assert (Hx : forall x, In x ["*"; "["; NUL]%char ->
                         allChars (notChar x) (join "&lt;br&gt;" ls) = true).
  { intros x Hx. apply allChars_join.
    - cbn [In] in Hx. destruct Hx as [<-|[<-|[<-|[]]]]; reflexivity.
    - eapply List.Forall_impl; [|exact H]. intros l. apply inert_weaken.
      cbn [In] in *. intuition. }
  rewrite (replaceAll_untouched matchInlinePlaceholder _ (notChar NUL)
             placeholder_trigger) by (apply Hx; cbn [In]; auto 10).
  rewrite (replaceAll_untouched matchBold _ (notChar "*") bold_trigger)
    by (apply Hx; cbn [In]; auto 10).
  rewrite (replaceAll_untouched matchItalic _ (notChar "*") italic_trigger)
    by (apply Hx; cbn [In]; auto 10).
  rewrite (replaceAll_untouched matchLink _ (notChar "[") link_trigger)
    by (apply Hx; cbn [In]; auto 10).
  unfold replaceAll. apply restore_breaks.
  eapply List.Forall_impl; [|exact H]. intros l. apply inert_weaken. cbn [In]; auto 10.
Qed.

(** ** Paragraphs *)

Lemma splitLines_join (ls : list string) :
  ls <> [] -> Forall (fun l => allChars (notChar LF) l = true) ls ->
  splitLines (join nl ls) = ls.
Proof.
  intros Hne H. induction H as [|l r Hl Hr IH]; [contradiction|].
  assert (Hl' : allChars (fun c => negb (Ascii.eqb c BT) && negb (isLF c)) "" = true)
    by reflexivity.
  destruct r as [|l2 r2].
  - cbn [join]. apply splitLines_one_line.
    eapply allChars_weaken; [|exact Hl]. intros c Hc. exact Hc.
  - change (join nl (l :: l2 :: r2)) with (l ++ nl ++ join nl (l2 :: r2)).
    clear Hne. revert IH. generalize (join nl (l2 :: r2)) as t. intros t IH.
    specialize (IH ltac:(discriminate)).
    induction l as [|c x IHx].
    + cbn [String.append nl chr splitLines]. change (Ascii.eqb LF LF) with true.
      cbn iota. now rewrite IH.
    + cbn [allChars] in Hl. apply andb_true_iff in Hl as [Hc Hx].
      cbn [String.append splitLines]. unfold notChar in Hc.
      destruct (Ascii.eqb c LF); [discriminate|]. now rewrite (IHx Hx).
Qed.

Lemma renderMarkdown_no_code (raw : string) :
  allChars (notChar BT) raw = true ->
  renderMarkdown raw
  = match blockLoop (S (List.length (splitLines raw))) [] [] (splitLines raw) 0 [] with
    | Returned blocks => Returned (join nl blocks)
    | Thrown e => Thrown e
    | Diverges => Diverges
    | Unfinished => Unfinished
    end.
Proof.
  intros H. unfold renderMarkdown.
  rewrite (scan_untouched matchFence (notChar BT) fence_trigger raw None H).
  rewrite hits_lits, assemble_lits.
  rewrite (scan_untouched matchInlineCode (notChar BT) inlineCode_trigger raw None H).
  rewrite hits_lits, assemble_lits. reflexivity.
Qed.

Lemma matchHeading_startsHeading (line : string) (m : nat * string) :
  matchHeading line = Some m -> startsHeading line = true.
Proof.
  unfold matchHeading, startsHeading.
  destruct ((1 <=? spanLen isHash line)%nat && (spanLen isHash line <=? 4)%nat);
    [|discriminate].
  destruct (dropStr (spanLen isHash line) line) as [|c r]; [discriminate|].
  cbn [spanLen]. destruct (isSpace c); [reflexivity | discriminate].
Qed.

Lemma runLength_all {A : Type} (p : A -> bool) (l : list A) :
  Forall (fun x => p x = true) l -> runLength p l = List.length l.
Proof.
  induction 1 as [|x r Hx _ IH]; [reflexivity|].
  cbn [runLength List.length]. now rewrite Hx, IH.
Qed.

Lemma blockLoop_paragraph (codeBlocks : list CodeBlock)
      (inlineCodes : list string) (first : string) (rest : list string) :
  Forall (fun l => endsParagraph l = false) (first :: rest) ->
  blockLoop (S (List.length (first :: rest))) codeBlocks inlineCodes
            (first :: rest) 0 []
  = Returned ["<p>" ++ inlineFormat (join "<br>" (first :: rest)) inlineCodes
                    ++ "</p>"].
Proof.
  intros H. inversion H as [|? ? Hf Hr]; subst.
  unfold endsParagraph in Hf.
  repeat (apply orb_false_iff in Hf as [Hf ?]).
  assert (Hh : matchHeading first = None).
  { destruct (matchHeading first) as [m|] eqn:E; [|reflexivity].
    apply matchHeading_startsHeading in E. congruence. }
  cbn [blockLoop nth_error].
  destruct (matchCodeLine first); [discriminate|].
  rewrite Hh.
  repeat match goal with
         | E : ?t = false |- context [if ?t then _ else _] => rewrite E
         end.
  cbn [skipn].
  rewrite (runLength_all (fun l => negb (endsParagraph l)) (first :: rest))
    by (eapply List.Forall_impl; [|exact H]; intros l Hl; cbn beta; now rewrite Hl).
  rewrite List.firstn_all. cbn [List.length].
  cbn [blockLoop Nat.add]. rewrite (proj2 (nth_error_None (first :: rest) _))
    by (cbn [List.length]; lia). reflexivity.
Qed.

Lemma paragraph_block (ls : list string) :
  ls <> [] ->
  Forall (fun l => allChars inert l = true) ls ->
  Forall (fun l => endsParagraph l = false) ls ->
  renderMarkdown (join nl ls) = Returned ("<p>" ++ join "<br>" ls ++ "</p>").
Proof.
  intros Hne Hi He.
  assert (Hbt : allChars (notChar BT) (join nl ls) = true).
  { apply allChars_join; [reflexivity|].
    eapply List.Forall_impl; [|exact Hi]. intros l. apply inert_weaken. cbn [In]; auto 10. }
  rewrite (renderMarkdown_no_code _ Hbt), splitLines_join; [|assumption|].
  - destruct ls as [|first rest]; [contradiction|].
    rewrite (blockLoop_paragraph [] [] first rest He).
    now rewrite (inlineFormat_inert_lines _ [] Hi).
  - eapply List.Forall_impl; [|exact Hi]. intros l. apply inert_weaken. cbn [In]; auto 10.
Qed.

Lemma not_a_block_start (c : ascii) (r : string) :
  isSpace c = false -> isBullet c = false -> isDigit c = false ->
  Ascii.eqb c ">" = false -> Ascii.eqb c NUL = false ->
  isBlank (String c r) = false /\ isListLine (String c r) = false
  /\ isQuoteLine (String c r) = false /\ isRule (String c r) = false
  /\ matchCodeLine (String c r) = None.
Proof.
  intros Hs Hb Hd Hq Hn.
  assert (Ht : trim (String c r) = String c (trimEnd r)).
  { unfold trim, trimStart. cbn [spanLen]. rewrite Hs. cbn [dropStr trimEnd].
    now rewrite Hs. }
  split; [|split; [|split; [|split]]].
  - unfold isBlank. now rewrite Ht.
  - destruct (isListLine (String c r)) eqn:E; [|reflexivity].
    apply listLine_head in E as (c' & r' & [= <- <-] & E).
    rewrite Hs, Hb, Hd in E. discriminate.
  - unfold isQuoteLine. cbn [startsWith]. rewrite (Ascii.eqb_sym ">" c), Hq.
    reflexivity.
  - unfold isRule. rewrite Ht. cbn [allChars].
    unfold isBullet in Hb. apply orb_false_iff in Hb as [Hb _].
    rewrite (Ascii.eqb_sym "-" c), Hb. cbn [andb]. apply andb_false_r.
  - unfold matchCodeLine, matchPlaceholder. cbn [startsWith].
    now rewrite (Ascii.eqb_sym NUL c), Hn.
Qed.

Lemma letter_classes (c : ascii) :
  isLetter c = true ->
  isSpace c = false /\ isBullet c = false /\ isDigit c = false
  /\ Ascii.eqb c ">" = false /\ Ascii.eqb c NUL = false /\ isHash c = false.
Proof.
  intros H. unfold isLetter in H.
  destruct c as [[] [] [] [] [] [] [] []]; vm_compute in H; try discriminate;
    vm_compute; repeat split; reflexivity.
Qed.

Lemma plainLine_paragraph (line : string) :
  plainLine line = true ->
  allChars inert line = true /\ endsParagraph line = false.
Proof.
  destruct line as [|c r]; [discriminate|]. unfold plainLine.
  intros [Hc Hi]%andb_true_iff. split; [exact Hi|].
  destruct (letter_classes c Hc) as (Hs & Hb & Hd & Hq & Hn & Hh).
  destruct (not_a_block_start c r Hs Hb Hd Hq Hn) as (H1 & H2 & H3 & H4 & H5).
  unfold endsParagraph. rewrite H1, H2, H3, H4, H5.
  unfold startsHeading. cbn [spanLen]. rewrite Hh. reflexivity.
Qed.

(** X13.  A text whose lines are inert and start with a letter, lines of
    plain prose, is rendered as one paragraph: the lines in their order,
    unchanged, with a line break between two of them. *)
Theorem plain_lines_are_one_paragraph (ls : list string) :
  ls <> [] ->
  Forall (fun l => plainLine l = true) ls ->
  renderMarkdown (join nl ls) = Returned ("<p>" ++ join "<br>" ls ++ "</p>")
  /\ (forall inlineCodes, inlineFormat (join "<br>" ls) inlineCodes = join "<br>" ls)
  /\ escapeHtml (join nl ls) = join nl ls.
Proof.
  intros Hne H.
  assert (Hi : Forall (fun l => allChars inert l = true) ls)
    by (eapply List.Forall_impl; [|exact H]; intros l Hl;
        exact (proj1 (plainLine_paragraph l Hl))).
  assert (He : Forall (fun l => endsParagraph l = false) ls)
    by (eapply List.Forall_impl; [|exact H]; intros l Hl;
        exact (proj2 (plainLine_paragraph l Hl))).
  split; [now apply paragraph_block|].
  split; [intros codes; now apply inlineFormat_inert_lines|].
  clear Hne H He. induction Hi as [|l r Hl Hr IH]; [reflexivity|].
  destruct r as [|l2 r2]; [now apply escapeHtml_inert|].
  change (join nl (l :: l2 :: r2)) with (l ++ nl ++ join nl (l2 :: r2)).
  now rewrite !escapeHtml_append, IH, (escapeHtml_inert l Hl).
Qed.

Lemma plain_lines_are_one_paragraph_witness :
  let ls := ["Dear all,"; "the meeting is at 10 # room 4."; "See you"] in
  (ls <> [] /\ Forall (fun l => plainLine l = true) ls)
  /\ renderMarkdown (join nl ls)
     = Returned "<p>Dear all,<br>the meeting is at 10 # room 4.<br>See you</p>".
Proof.
  intros ls. split; [split; [discriminate | repeat constructor]|].
  apply (plain_lines_are_one_paragraph ls); [discriminate | repeat constructor].
Defined.

(** ** cleanMarkdown on a clean text between line feeds *)

Lemma stripTrailing_all (b : string) :
  allChars isLF b = true -> stripTrailingNewlines b = "".
Proof.
  destruct b as [|c r]; [reflexivity|]. cbn [allChars stripTrailingNewlines].
  now intros ->.
Qed.

Lemma stripTrailing_append (x b : string) :
  x <> "" -> endsLF x = false -> allChars isLF b = true ->
  stripTrailingNewlines (x ++ b) = x /\ allChars isLF (x ++ b) = false.
Proof.
  intros Hne He Hb. induction x as [|c r IH]; [contradiction|].
  destruct r as [|d r'].
  - cbn [endsLF] in He. cbn [String.append stripTrailingNewlines allChars].
    rewrite He. cbn [andb]. now rewrite (stripTrailing_all b Hb).
  - destruct IH as [IH1 IH2]; [discriminate | exact He|].
    change (String c (String d r') ++ b) with (String c (String d r' ++ b)).
    cbn [stripTrailingNewlines allChars]. rewrite IH2, IH1, !andb_false_r.
    now split.
Qed.

Lemma spanLen_append_clean (x b : string) :
  x <> "" -> endsLF x = false -> spanLen isLF (x ++ b) = spanLen isLF x.
Proof.
  intros Hne He. induction x as [|c r IH]; [contradiction|].
  cbn [String.append spanLen]. destruct (isLF c) eqn:Ec; [|reflexivity].
  destruct r as [|d r']; [cbn [endsLF] in He; congruence|].
  f_equal. apply IH; [discriminate | exact He].
Qed.

Lemma no3_append_clean (x b : string) :
  x <> "" -> endsLF x = false -> no3 x = true -> In b [""; nl; nl ++ nl] ->
  no3 (x ++ b) = true.
Proof.
  intros Hne He Hx Hb. induction x as [|c r IH]; [contradiction|].
  change (String c r ++ b) with (String c (r ++ b)).
  cbn [no3]. change (String c (r ++ b)) with (String c r ++ b).
  rewrite (spanLen_append_clean (String c r) b Hne He).
  cbn [no3] in Hx. apply andb_true_iff in Hx as [H1 H2]. rewrite H1. cbn [andb].
  destruct r as [|d r'].
  - cbn [String.append]. cbn [In] in Hb.
    destruct Hb as [<-|[<-|[<-|[]]]]; reflexivity.
  - apply IH; [discriminate | exact He | exact H2].
Qed.

Lemma collapse_fixed (s : string) : no3 s = true -> collapseNewlines s = s.
Proof.
  intros H. unfold collapseNewlines, replaceAll.
  enough (E : forall prev, scan matchNewlines3 prev 0 s = lits s)
    by (rewrite E; apply assemble_lits).
  induction s as [|c r IH]; intros prev; [reflexivity|].
  cbn [no3] in H. apply andb_true_iff in H as [H1 H2].
  cbn [scan lits]. unfold matchNewlines3.
  apply Nat.ltb_lt in H1. destruct (Nat.leb_spec 3 (spanLen isLF (String c r)));
    [lia|]. now rewrite (IH H2).
Qed.

Lemma cleanMarkdown_wrap (a x b : string) :
  In a [""; nl; nl ++ nl] -> In b [""; nl; nl ++ nl] ->
  x <> "" -> no3 x = true -> spanLen isLF x = 0 -> endsLF x = false ->
  cleanMarkdown (a ++ x ++ b) = x.
Proof.
  intros Ha Hb Hne H3 H0 He.
  assert (Hbl : allChars isLF b = true)
    by (cbn [In] in Hb; destruct Hb as [<-|[<-|[<-|[]]]]; reflexivity).
  pose proof (no3_append_clean x b Hne He H3 Hb) as Hxb.
  pose proof (spanLen_append_clean x b Hne He) as Hs. rewrite H0 in Hs.
  assert (Hall : no3 (a ++ x ++ b) = true
                 /\ stripLeadingNewlines (a ++ x ++ b) = x ++ b).
  { unfold stripLeadingNewlines. cbn [In] in Ha.
    destruct Ha as [<-|[<-|[<-|[]]]];
      cbn [String.append nl chr no3 spanLen isLF];
      change (Ascii.eqb LF LF) with true; cbn iota; rewrite ?Hs, Hxb;
      now split. }
  destruct Hall as [Hn Hl]. unfold cleanMarkdown.
  rewrite (collapse_fixed _ Hn), Hl. exact (proj1 (stripTrailing_append x b Hne He Hbl)).
Qed.

Lemma one_line_clean (x : string) :
  allChars (notChar LF) x = true ->
  no3 x = true /\ spanLen isLF x = 0 /\ endsLF x = false.
Proof.
  induction x as [|c r IH]; [now repeat split|].
  cbn [allChars]. intros [Hc Hr]%andb_true_iff.
  destruct (IH Hr) as (H1 & H2 & H3). unfold notChar in Hc.
  assert (Ec : isLF c = false) by (unfold isLF; now destruct (Ascii.eqb c LF)).
  cbn [no3 spanLen endsLF]. rewrite Ec, H1. cbn [Nat.ltb Nat.leb andb].
  repeat split. destruct r; [reflexivity | exact H3].
Qed.

(** ** Headings through the extractor and the renderer *)

Lemma allChars_trimEnd (p : ascii -> bool) (s : string) :
  allChars p s = true -> allChars p (trimEnd s) = true.
Proof.
  induction s as [|c r IH]; [reflexivity|]. cbn [allChars trimEnd].
  intros [Hc Hr]%andb_true_iff.
  destruct (isSpace c && allChars isSpace r); [reflexivity|].
  cbn [allChars]. now rewrite Hc, IH.
Qed.

Lemma allChars_trim (p : ascii -> bool) (s : string) :
  allChars p s = true -> allChars p (trim s) = true.
Proof. intros H. apply allChars_trimEnd, allChars_dropStr, H. Qed.

Lemma plainLine_trim (text : string) :
  plainLine text = true ->
  exists c r, trim text = String c r /\ isLetter c = true
              /\ allChars inert (trim text) = true.
Proof.
  destruct text as [|c r]; [discriminate|]. unfold plainLine.
  intros [Hc Hi]%andb_true_iff.
  destruct (letter_classes c Hc) as (Hs & _).
  assert (Ht : trim (String c r) = String c (trimEnd r)).
  { unfold trim, trimStart. cbn [spanLen]. rewrite Hs. cbn [dropStr trimEnd].
    now rewrite Hs. }
  exists c, (trimEnd r). split; [exact Ht|]. split; [exact Hc|].
  now apply allChars_trim.
Qed.

Lemma inert_not_terminator (s : string) :
  allChars inert s = true -> allChars notTerminator s = true.
Proof.
  apply allChars_weaken. intros c Hc.
  destruct (inert_chars c Hc) as (_&_&_&_&_&_&_& H8 & H9 & _).
  unfold notTerminator, isLineTerminator, notChar in *.
  destruct (Ascii.eqb c LF); [discriminate|]. now destruct (Ascii.eqb c CR).
Qed.

Lemma matchHeading_exact (n : nat) (c : ascii) (r : string) :
  1 <= n <= 4 -> isSpace c = false -> allChars notTerminator (String c r) = true ->
  matchHeading (repeatStr "#" n ++ " " ++ String c r) = Some (n, String c r).
Proof.
  intros Hn Hc Ht. unfold matchHeading.
  change (" " ++ String c r) with (String " " (String c r)).
  destruct (spanLen_hashes n (String c r)) as [-> ->].
  replace ((1 <=? n)%nat && (n <=? 4)%nat) with true
    by (symmetry; apply andb_true_iff; split; apply Nat.leb_le; lia).
  cbn [spanLen]. change (isSpace " ") with true. cbn iota. rewrite Hc.
  cbn [firstDown dropStr String.eqb negb andb]. now rewrite Ht.
Qed.

Lemma hash_line (n : nat) (text : string) :
  1 <= n -> allChars inert text = true ->
  allChars inert (repeatStr "#" n ++ " " ++ text) = true
  /\ isBlank (repeatStr "#" n ++ " " ++ text) = false
  /\ isListLine (repeatStr "#" n ++ " " ++ text) = false
  /\ isQuoteLine (repeatStr "#" n ++ " " ++ text) = false
  /\ isRule (repeatStr "#" n ++ " " ++ text) = false
  /\ matchCodeLine (repeatStr "#" n ++ " " ++ text) = None.
Proof.
  intros Hn Hi. split.
  - rewrite !allChars_append, Hi, andb_true_r.
    clear Hn. induction n as [|k IH]; [reflexivity|].
    cbn [repeatStr String.append allChars]. now rewrite IH.
  - destruct n as [|k]; [lia|]. cbn [repeatStr String.append].
    now apply not_a_block_start.
Qed.

Lemma extractChild_heading (level : nat) (attrs : list (string * string))
      (kids : list Node) (ctx : Ctx) (result : string) :
  1 <= level <= 6 ->
  extractChild extractTextContent processListElement processListItem ctx
               (ElementNode (headingName level) attrs kids) result
  = result ++ nl ++ nl ++ repeatStr "#" level ++ " "
      ++ trim (extractTextContent (ElementNode (headingName level) attrs kids)
                                  (mkCtx true 0))
      ++ nl ++ nl.
Proof.
  intros H.
  destruct level as [|[|[|[|[|[|[|]]]]]]]; try lia; reflexivity.
Qed.

Lemma hashes_one_line (n : nat) : allChars (notChar LF) (repeatStr "#" n) = true.
Proof.
  induction n as [|k IH]; [reflexivity|].
  cbn [repeatStr String.append allChars]. now rewrite IH.
Qed.

Lemma extract_heading (level : nat) (attrs : list (string * string))
      (kids : list Node) :
  let inner := extractTextContent (ElementNode (headingName level) attrs kids)
                                  (mkCtx true 0) in
  1 <= level <= 6 -> allChars (notChar LF) (trim inner) = true ->
  extractTextContent
    (ElementNode "div" [] [ElementNode (headingName level) attrs kids]) noCtx
  = repeatStr "#" level ++ " " ++ trim inner.
Proof.
  intros inner Hl Ht. rewrite extractTextContent_unfold. cbn [fold_left].
  rewrite (extractChild_heading level attrs _ noCtx "" Hl). fold inner.
  cbn [finish inline noCtx].
  transitivity (cleanMarkdown ((nl ++ nl) ++ (repeatStr "#" level ++ " " ++ trim inner)
                                          ++ (nl ++ nl)));
    [f_equal; now norm_append|].
  assert (H1 : allChars (notChar LF) (repeatStr "#" level ++ " " ++ trim inner) = true)
    by (now rewrite !allChars_append, hashes_one_line, Ht).
  apply cleanMarkdown_wrap; try apply one_line_clean; try exact H1;
    try (cbn [In]; now auto).
  destruct level; [lia | discriminate].
Qed.

Lemma render_heading_line (n : nat) (c : ascii) (r : string) :
  1 <= n <= 4 -> isSpace c = false -> allChars inert (String c r) = true ->
  renderMarkdown (repeatStr "#" n ++ " " ++ String c r)
  = Returned ("<" ++ headingTag n ++ ">" ++ String c r ++ "</" ++ headingTag n ++ ">").
Proof.
  intros Hn Hc Hi.
  destruct (hash_line n (String c r) ltac:(lia) Hi) as (Hl & _ & _ & _ & _ & Hcode).
  rewrite renderMarkdown_no_code
    by (revert Hl; apply inert_weaken; cbn [In]; auto 10).
  rewrite splitLines_one_line
    by (eapply allChars_weaken; [|exact Hl]; intros x Hx;
        destruct (inert_chars x Hx) as (_&_&_&_&_&_&_& H8 & _); exact H8).
  cbn [List.length].
  rewrite (blockLoop_single_heading [] [] _ n (String c r) Hcode
             (matchHeading_exact n c r Hn Hc (inert_not_terminator _ Hi))).
  cbn [join].
  assert (H1 : Forall (fun l => allChars inert l = true) [String c r])
    by (constructor; [exact Hi | constructor]).
  pose proof (inlineFormat_inert_lines _ [] H1) as E. cbn [join] in E.
  now rewrite E.
Qed.

Lemma render_deep_heading_line (n : nat) (text : string) :
  5 <= n -> allChars inert text = true ->
  renderMarkdown (repeatStr "#" n ++ " " ++ text)
  = Returned ("<p>" ++ repeatStr "#" n ++ " " ++ text ++ "</p>")
  /\ matchHeading (repeatStr "#" n ++ " " ++ text) = None.
Proof.
  intros Hn Hi.
  destruct (hash_line n text ltac:(lia) Hi) as (Hl & H1 & H2 & H3 & H4 & H5).
  assert (Hs : startsHeading (repeatStr "#" n ++ " " ++ text) = false).
  { unfold startsHeading. change (" " ++ text) with (String " " text).
    destruct (spanLen_hashes n text) as [-> _].
    replace (n <=? 4)%nat with false by (symmetry; apply Nat.leb_gt; lia).
    now rewrite andb_false_r. }
  split.
  - assert (E : renderMarkdown (join nl [repeatStr "#" n ++ " " ++ text])
                = Returned ("<p>" ++ join "<br>" [repeatStr "#" n ++ " " ++ text]
                                ++ "</p>")).
    { apply paragraph_block; [discriminate | now constructor|].
      constructor; [|constructor]. unfold endsParagraph.
      now rewrite H1, Hs, H2, H3, H4, H5. }
    cbn [join] in E. rewrite E. now norm_append.
  - destruct (matchHeading _) as [m|] eqn:E; [|reflexivity].
    apply matchHeading_startsHeading in E. congruence.
Qed.

(** X14.  A line of five or more hashes, a space and an inert text is not
    a heading for the renderer, which knows four levels: it is rendered as a
    paragraph that shows the hashes. *)
Theorem deep_heading_is_a_paragraph (n : nat) (text : string) :
  5 <= n -> allChars inert text = true ->
  renderMarkdown (repeatStr "#" n ++ " " ++ text)
  = Returned ("<p>" ++ repeatStr "#" n ++ " " ++ text ++ "</p>")
  /\ matchHeading (repeatStr "#" n ++ " " ++ text) = None
  /\ startsHeading (repeatStr "#" n ++ " " ++ text) = false.
Proof.
  intros Hn Hi. destruct (render_deep_heading_line n text Hn Hi) as [H1 H2].
  split; [exact H1|]. split; [exact H2|].
  unfold startsHeading. change (" " ++ text) with (String " " text).
  destruct (spanLen_hashes n text) as [-> _].
  replace (n <=? 4)%nat with false by (symmetry; apply Nat.leb_gt; lia).
  now rewrite andb_false_r.
Qed.

Lemma deep_heading_is_a_paragraph_witness :
  (5 <= 6 /\ allChars inert "Details" = true)
  /\ renderMarkdown "###### Details" = Returned "<p>###### Details</p>".
Proof.
  split; [split; [lia | reflexivity]|].
  apply (deep_heading_is_a_paragraph 6 "Details"); [lia | reflexivity].
Defined.

(** X15.  A heading element with a plain text, extracted and rendered
    again: the extractor writes as many hashes as the level, and the
    renderer turns the levels 1 to 4 into [h2], [h3], [h3] and [h4] with the
    trimmed text, while the levels 5 and 6 come back as paragraphs that show
    the hashes. *)
Theorem heading_round_trip (level : nat) (attrs : list (string * string))
        (text : string) :
  1 <= level <= 6 -> plainLine text = true ->
  let tree :=
    ElementNode "div" []
      [ElementNode (headingName level) attrs [TextNode text]] in
  extractTextContent tree noCtx = repeatStr "#" level ++ " " ++ trim text
  /\ renderMarkdown (extractTextContent tree noCtx)
     = Returned (if (level <=? 4)%nat
                 then "<" ++ headingTag level ++ ">" ++ trim text
                          ++ "</" ++ headingTag level ++ ">"
                 else "<p>" ++ repeatStr "#" level ++ " " ++ trim text ++ "</p>").
Proof.
  intros Hl Hp tree.
  destruct (plainLine_trim text Hp) as (c & r & Ht & Hc & Hi).
  assert (Hinner : extractTextContent (ElementNode (headingName level) attrs
                                                   [TextNode text]) (mkCtx true 0)
                   = text) by reflexivity.
  assert (He : extractTextContent tree noCtx
               = repeatStr "#" level ++ " " ++ trim text).
  { pose proof (extract_heading level attrs [TextNode text]) as E.
    cbv zeta in E. rewrite Hinner in E. apply E; [exact Hl|].
    revert Hi. apply inert_weaken. cbn [In]; auto 10. }
  split; [exact He|]. rewrite He.
  destruct (Nat.leb_spec level 4) as [H4|H4].
  - rewrite Ht. apply render_heading_line; [lia | | now rewrite <- Ht].
    exact (proj1 (letter_classes c Hc)).
  - exact (proj1 (render_deep_heading_line level (trim text) ltac:(lia) Hi)).
Qed.

Lemma heading_round_trip_witness :
  let tree (tag : string) :=
    ElementNode "div" [] [ElementNode tag [("id", "intro")] [TextNode "Overview "]] in
  (1 <= 2 <= 6 /\ plainLine "Overview " = true)
  /\ extractTextContent (tree "h2") noCtx = "## Overview"
  /\ renderMarkdown (extractTextContent (tree "h2") noCtx)
     = Returned "<h3>Overview</h3>"
  /\ renderMarkdown (extractTextContent (tree "h5") noCtx)
     = Returned "<p>##### Overview</p>".
Proof.
  intros tree. split; [split; [lia | reflexivity]|].
  destruct (heading_round_trip 2 [("id", "intro")] "Overview ") as [H1 H2];
    [lia | reflexivity|].
  split; [exact H1|]. split; [exact H2|].
  apply (heading_round_trip 5 [("id", "intro")] "Overview "); [lia | reflexivity].
Defined.

Lemma blockLoop_hangs (fuel : nat) (codeBlocks : list CodeBlock)
      (inlineCodes : list string) (line : string) (rest : list string) :
  startsHeading line = true -> matchHeading line = None ->
  matchCodeLine line = None -> isRule line = false -> isQuoteLine line = false ->
  isListLine line = false -> isBlank line = false ->
  blockLoop (S fuel) codeBlocks inlineCodes (line :: rest) 0 [] = Diverges.
Proof.
  intros Hs Hh Hc Hr Hq Hl Hb. cbn [blockLoop nth_error].
  rewrite Hc, Hh, Hr, Hq, Hl, Hb. cbn [skipn runLength].
  unfold endsParagraph. now rewrite Hb, Hs.
Qed.

Lemma empty_heading_line (n : nat) :
  1 <= n <= 4 ->
  let line := repeatStr "#" n ++ " " in
  startsHeading line = true /\ matchHeading line = None
  /\ matchCodeLine line = None /\ isRule line = false /\ isQuoteLine line = false
  /\ isListLine line = false /\ isBlank line = false
  /\ allChars (fun c => negb (Ascii.eqb c BT) && negb (isLF c)) line = true.
Proof.
  intros H. destruct n as [|[|[|[|[|]]]]]; try lia; vm_compute; repeat split.
Qed.

(** X16.  A heading of level 1 to 4 without text, such as a heading
    element that is empty or holds only an icon, is extracted as the hashes
    and a space; on a text that starts with such a line the renderer never
    returns: the line is no heading for want of a text, and the paragraph
    loop, which stops in front of a line of hashes and a space, consumes
    nothing and runs again on the same line. *)
Theorem empty_heading_hangs (level : nat) (attrs : list (string * string))
        (kids : list Node) (rest : string) :
  1 <= level <= 4 ->
  trim (extractTextContent (ElementNode (headingName level) attrs kids)
                           (mkCtx true 0)) = "" ->
  let tree := ElementNode "div" [] [ElementNode (headingName level) attrs kids] in
  extractTextContent tree noCtx = repeatStr "#" level ++ " "
  /\ renderMarkdown (extractTextContent tree noCtx) = Diverges
  /\ renderMarkdown (repeatStr "#" level ++ " " ++ nl ++ rest) = Diverges.
Proof.
  intros Hl Hempty tree.
  destruct (empty_heading_line level Hl)
    as (Hs & Hh & Hc & Hr & Hq & Hli & Hb & Hplain).
  assert (Hbt : allChars (notChar BT) (repeatStr "#" level ++ " ") = true).
  { eapply allChars_weaken; [|exact Hplain]. intros c [Hc' _]%andb_true_iff.
    exact Hc'. }
  assert (He : extractTextContent tree noCtx = repeatStr "#" level ++ " ").
  { pose proof (extract_heading level attrs kids) as E. cbv zeta in E.
    rewrite Hempty in E. rewrite append_empty in E. apply E; [lia | reflexivity]. }
  split; [exact He|]. split.
  - rewrite He, (renderMarkdown_no_code _ Hbt).
    rewrite splitLines_one_line
      by (eapply allChars_weaken; [|exact Hplain];
          intros c [_ Hc']%andb_true_iff; exact Hc').
    now rewrite blockLoop_hangs.
  - unfold renderMarkdown.
    assert (Hbt' : allChars (notChar BT) ((repeatStr "#" level ++ " ") ++ nl) = true)
      by (now rewrite allChars_append, Hbt).
    rewrite <- (append_assoc _ " " (nl ++ rest)), <- (append_assoc _ nl rest).
    destruct (scan_untouched_prefix matchFence (notChar BT) fence_trigger
                _ rest None Hbt') as [p1 E1].
    rewrite E1, hits_app, assemble_app.
    match goal with
    | |- context [scan matchInlineCode None 0 (_ ++ ?t)] =>
        destruct (scan_untouched_prefix matchInlineCode (notChar BT)
                    inlineCode_trigger _ t None Hbt') as [p2 E2]
    end.
    rewrite E2, hits_app, assemble_app.
    rewrite append_assoc, (splitLines_plain_prefix _ _ Hplain).
    cbn [nl chr String.append splitLines]. change (Ascii.eqb LF LF) with true.
    cbn iota. rewrite append_empty, blockLoop_hangs by assumption. reflexivity.
Qed.

Lemma empty_heading_hangs_witness :
  let icon := ElementNode "svg" [] [ElementNode "path" [("d", "M0 0")] []] in
  (1 <= 2 <= 4
   /\ trim (extractTextContent (ElementNode (headingName 2) [] [icon])
                               (mkCtx true 0)) = "")
  /\ extractTextContent (ElementNode "div" [] [ElementNode "h2" [] [icon]]) noCtx
     = "## "
  /\ renderMarkdown "## " = Diverges
  /\ renderMarkdown ("## " ++ nl ++ "Some text") = Diverges.
Proof.
  intros icon. split; [split; [lia | reflexivity]|].
  destruct (empty_heading_hangs 2 [] [icon] "Some text") as (H1 & H2 & H3);
    [lia | reflexivity|].
  split; [exact H1|]. split; [|exact H3].
  rewrite H1 in H2. exact H2.
Defined.

(** ** Lists of one level, and lists cut short *)

Lemma nth_error_skipn {A : Type} (l : list A) (i : nat) (x : A) :
  nth_error l i = Some x -> skipn i l = x :: skipn (S i) l.
Proof.
  revert i. induction l as [|y r IH]; intros [|i] H; try discriminate.
  - now injection H as ->.
  - cbn [skipn]. cbn [nth_error] in H. rewrite (IH i H).
    destruct r; [destruct i; discriminate | reflexivity].
Qed.

Lemma flat_loop (lines inlineCodes : list string) (b : nat) :
  Forall (fun l => getIndent l = b) lines ->
  forall k i html fuel,
    i + k = List.length lines -> k < fuel ->
    buildListLoop fuel lines inlineCodes b html i
    = Some (html ++ concatStr
                      (List.map (fun l => "<li>" ++ inlineFormat (stripMarkers l) inlineCodes
                                               ++ "</li>")
                                (skipn i lines)),
            List.length lines).
Proof.
  intros Hall. induction k as [|k IH]; intros i html fuel Hi Hf;
    (destruct fuel as [|f]; [lia|]); rewrite buildListLoop_unfold.
  - rewrite (proj2 (nth_error_None lines i)) by lia.
    rewrite skipn_all2 by lia. cbn [List.map concatStr fold_right].
    rewrite append_empty. f_equal. f_equal. lia.
  - destruct (nth_error lines i) as [line|] eqn:En;
      [|apply nth_error_None in En; lia].
    rewrite (nth_error_skipn _ _ _ En).
    assert (Hb : getIndent line = b).
    { rewrite List.Forall_forall in Hall. apply Hall. eapply nth_error_In, En. }
    rewrite Hb, Nat.ltb_irrefl, Nat.eqb_refl.
    replace (match nth_error lines (i + 1) with
             | Some next => (b <? getIndent next)%nat
             | None => false
             end) with false.
    + cbv zeta. rewrite (IH (i + 1)) by lia.
      replace (i + 1) with (S i) by lia.
      cbn [List.map concatStr fold_right]. f_equal. f_equal. now norm_append.
    + destruct (nth_error lines (i + 1)) as [next|] eqn:En2; [|reflexivity].
      rewrite List.Forall_forall in Hall.
      rewrite (Hall next (nth_error_In _ _ En2)). symmetry. apply Nat.ltb_irrefl.
Qed.

Lemma listRegion_all (lines : list string) :
  Forall (fun l => isListLine l = true) lines -> listRegion lines 0 = lines.
Proof.
  intros H. unfold listRegion. change (skipn 0 lines) with lines.
  rewrite (runLength_all isListLine lines H). apply List.firstn_all.
Qed.

Lemma flat_list_html (first : string) (rest inlineCodes : list string) :
  Forall (fun l => getIndent l = getIndent first) rest ->
  forall fuel,
    List.length (first :: rest) + 2 <= fuel ->
    buildListHTML fuel (first :: rest) 0 inlineCodes
    = Some ("<" ++ (if isOrderedLine first then "ol" else "ul") ++ ">"
                ++ concatStr
                     (List.map (fun l => "<li>" ++ inlineFormat (stripMarkers l) inlineCodes
                                              ++ "</li>")
                               (first :: rest))
                ++ "</" ++ (if isOrderedLine first then "ol" else "ul") ++ ">",
            List.length (first :: rest)).
Proof.
  intros Hall fuel Hf. destruct fuel as [|f]; [lia|].
  rewrite buildListHTML_unfold. cbn [nth_error]. cbv zeta.
  rewrite (flat_loop (first :: rest) inlineCodes (getIndent first)
             ltac:(now constructor) (List.length (first :: rest)) 0)
    by (cbn [List.length] in *; lia).
  cbn [skipn]. f_equal. f_equal. now norm_append.
Qed.

(** X17.  Lines of one indentation make a list of one level: one [ul], or
    one [ol] when the first line is numbered, that holds one [li] per line in
    the order of the lines, with the marker removed and the rest formatted
    inline.  The first line alone decides between [ul] and [ol]. *)
Theorem flat_list (first : string) (rest inlineCodes : list string) :
  Forall (fun l => getIndent l = getIndent first) rest ->
  let lines := first :: rest in
  let tag := if isOrderedLine first then "ol" else "ul" in
  let html :=
    "<" ++ tag ++ ">"
        ++ concatStr (List.map (fun l => "<li>" ++ inlineFormat (stripMarkers l) inlineCodes
                                              ++ "</li>") lines)
        ++ "</" ++ tag ++ ">" in
  (forall fuel, List.length lines + 2 <= fuel ->
                buildListHTML fuel lines 0 inlineCodes = Some (html, List.length lines))
  /\ (Forall (fun l => isListLine l = true) lines ->
      parseList lines 0 inlineCodes = Some html).
Proof.
  intros Hall lines tag html. split.
  - intros fuel Hf. now apply flat_list_html.
  - intros Hl. unfold parseList. rewrite (listRegion_all lines Hl).
    subst lines. rewrite (flat_list_html first rest inlineCodes Hall);
      [reflexivity | unfold listFuel; cbn [List.length]; lia].
Qed.

Lemma flat_list_witness :
  let rest := ["* bread"; "2. **fresh** eggs"] in
  (Forall (fun l => getIndent l = getIndent "- milk") rest
   /\ Forall (fun l => isListLine l = true) ("- milk" :: rest))
  /\ parseList ("- milk" :: rest) 0 []
     = Some "<ul><li>milk</li><li>bread</li><li><strong>fresh</strong> eggs</li></ul>".
Proof.
  intros rest. split; [split; repeat constructor|].
  apply (flat_list "- milk" rest []); repeat constructor.
Defined.

Lemma build_end (lines inlineCodes : list string) (f i : nat) (html : string)
      (e : nat) :
  buildListHTML f lines i inlineCodes = Some (html, e) ->
  i <= List.length lines -> e <= List.length lines.
Proof.
  intros H Hi.
  destruct (enough_fuel lines inlineCodes (List.length lines) i ltac:(lia))
    as (B & _ & _).
  destruct (B (f + (3 * List.length lines + 1)) ltac:(lia))
    as (html' & e' & E & H1 & H2).
  rewrite (proj1 (fuel_monotone lines inlineCodes f)
                 (f + (3 * List.length lines + 1)) i _ ltac:(lia) H) in E.
  injection E as _ <-.
  destruct (Nat.lt_ge_cases i (List.length lines)) as [Hlt|Hge];
    [apply H1 in Hlt; lia | apply H2 in Hge; lia].
Qed.

Lemma cut_list (run : list string) (x : string) (rest inlineCodes : list string)
      (b0 : nat) :
  Forall (fun l => b0 <= getIndent l) run -> getIndent x < b0 ->
  forall f,
    (forall i, i < List.length run ->
               buildListHTML f (run ++ x :: rest) i inlineCodes
               = buildListHTML f run i inlineCodes)
    /\ (forall i base html,
           i <= List.length run -> b0 <= base ->
           buildListLoop f (run ++ x :: rest) inlineCodes base html i
           = buildListLoop f run inlineCodes base html i).
Proof.
  intros Hall Hx. rewrite List.Forall_forall in Hall.
  induction f as [|f [IHb IHl]]; [now split|].
  assert (Hsame : forall i, i < List.length run ->
                            nth_error (run ++ x :: rest) i = nth_error run i)
    by (intros i Hi; now apply nth_error_app1).
  split.
  - intros i Hi. rewrite !buildListHTML_unfold, (Hsame i Hi).
    destruct (nth_error run i) as [first|] eqn:En; [|reflexivity]. cbv zeta.
    rewrite IHl; [reflexivity | lia|].
    apply Hall. eapply nth_error_In, En.
  - intros i base html Hi Hb. rewrite !buildListLoop_unfold.
    destruct (Nat.eq_dec i (List.length run)) as [->|Hne].
    + rewrite nth_error_app2 by lia. rewrite Nat.sub_diag. cbn [nth_error].
      rewrite (proj2 (nth_error_None run _)) by lia.
      replace (getIndent x <? base)%nat with true
        by (symmetry; apply Nat.ltb_lt; lia). reflexivity.
    + rewrite (Hsame i) by lia.
      destruct (nth_error run i) as [line|] eqn:En; [|reflexivity].
      destruct (getIndent line <? base)%nat; [reflexivity|].
      assert (Hnext : match nth_error (run ++ x :: rest) (i + 1) with
                      | Some next => (base <? getIndent next)%nat
                      | None => false
                      end
                      = match nth_error run (i + 1) with
                        | Some next => (base <? getIndent next)%nat
                        | None => false
                        end).
      { destruct (Nat.eq_dec (i + 1) (List.length run)) as [E|E].
        - rewrite E, nth_error_app2 by lia. rewrite Nat.sub_diag. cbn [nth_error].
          rewrite (proj2 (nth_error_None run _)) by lia.
          apply Nat.ltb_ge. lia.
        - now rewrite Hsame by lia. }
      cbv zeta. rewrite Hnext.
      destruct (getIndent line =? base)%nat.
      * destruct (match nth_error run (i + 1) with
                  | Some next => (base <? getIndent next)%nat
                  | None => false
                  end) eqn:Ed.
        -- assert (i + 1 < List.length run).
           { destruct (nth_error run (i + 1)) eqn:E2; [|discriminate].
             apply nth_error_Some. congruence. }
           rewrite IHb by lia.
           destruct (buildListHTML f run (i + 1) inlineCodes) as [[nested e]|] eqn:Eb;
             [|reflexivity].
           apply IHl; [|exact Hb]. eapply build_end; [exact Eb | lia].
        -- apply IHl; [lia | exact Hb].
      * rewrite IHb by lia.
        destruct (buildListHTML f run i inlineCodes) as [[nested e]|] eqn:Eb;
          [|reflexivity].
        apply IHl; [|exact Hb]. eapply build_end; [exact Eb | lia].
Qed.

(** X18.  A list is built up to the first line that is indented less than
    its first line, and no further: whatever follows that line, the markup
    is the markup of the lines in front of it.  Since the block loop then
    skips the whole run of list lines, such lines and all list lines behind
    them leave no trace in the rendering. *)
Theorem list_is_cut_at_a_shallower_line (first : string) (more : list string)
        (x : string) (rest inlineCodes : list string) :
  Forall (fun l => getIndent first <= getIndent l) more ->
  getIndent x < getIndent first ->
  let run := first :: more in
  (forall fuel, buildListHTML fuel (run ++ x :: rest) 0 inlineCodes
                = buildListHTML fuel run 0 inlineCodes)
  /\ (Forall (fun l => isListLine l = true) (run ++ x :: rest) ->
      parseList (run ++ x :: rest) 0 inlineCodes = parseList run 0 inlineCodes
      /\ forall fuel codeBlocks blocks,
           List.length (run ++ x :: rest) < fuel ->
           exists html,
             parseList run 0 inlineCodes = Some html
             /\ blockLoop fuel codeBlocks inlineCodes (run ++ x :: rest) 0 blocks
                = Returned (blocks ++ [html])%list).
Proof.
  intros Hmore Hx run.
  assert (Hall : Forall (fun l => getIndent first <= getIndent l) run)
    by (constructor; [lia | exact Hmore]).
  assert (Hb : forall fuel, buildListHTML fuel (run ++ x :: rest) 0 inlineCodes
                            = buildListHTML fuel run 0 inlineCodes).
  { intros fuel.
    apply (proj1 (cut_list run x rest inlineCodes (getIndent first) Hall Hx fuel)).
    unfold run. cbn [List.length]. lia. }
  split; [exact Hb|]. intros Hl.
  assert (Hrun : Forall (fun l => isListLine l = true) run)
    by (apply List.Forall_app in Hl; tauto).
  assert (Hp : parseList (run ++ x :: rest) 0 inlineCodes = parseList run 0 inlineCodes).
  { unfold parseList. rewrite (listRegion_all _ Hl), (listRegion_all _ Hrun), Hb.
    destruct (enough_fuel run inlineCodes (List.length run) 0 ltac:(lia))
      as (B & _ & _).
    destruct (B (listFuel (List.length run)) ltac:(unfold listFuel; lia))
      as (html & e & E & _).
    rewrite E.
    rewrite (proj1 (fuel_monotone run inlineCodes (listFuel (List.length run)))
               (listFuel (List.length (run ++ x :: rest))) 0 _
               ltac:(unfold listFuel; rewrite List.length_app; lia) E).
    reflexivity. }
  split; [exact Hp|]. intros fuel codeBlocks blocks Hf.
  destruct (parseList_returns run 0 inlineCodes) as [html Eh].
  exists html. split; [exact Eh|].
  destruct fuel as [|f]; [lia|].
  rewrite (blockLoop_list_line f codeBlocks inlineCodes _ 0 blocks first);
    [|reflexivity | now inversion Hrun].
  rewrite Hp, Eh. change (skipn 0 (run ++ x :: rest)) with (run ++ x :: rest)%list.
  rewrite (runLength_all isListLine _ Hl). cbn [Nat.add].
  assert (Hlen : 1 <= List.length (run ++ x :: rest))
    by (unfold run; cbn [List.length app]; lia).
  destruct f as [|f']; [lia|]. cbn [blockLoop].
  now rewrite (proj2 (nth_error_None _ _)) by lia.
Qed.

Lemma list_is_cut_at_a_shallower_line_witness :
  let lines := ["  - deep"; "- shallow"; "- next"] in
  (Forall (fun l => getIndent "  - deep" <= getIndent l) []
   /\ getIndent "- shallow" < getIndent "  - deep"
   /\ Forall (fun l => isListLine l = true) lines)
  /\ parseList lines 0 [] = Some "<ul><li>deep</li></ul>"
  /\ renderMarkdown (join nl lines) = Returned "<ul><li>deep</li></ul>".
Proof.
  intros lines.
  assert (Hx : getIndent "- shallow" < getIndent "  - deep") by (vm_compute; lia).
  assert (Hl : Forall (fun l => isListLine l = true) lines) by (repeat constructor).
  split; [split; [constructor | split; assumption]|].
  pose proof (list_is_cut_at_a_shallower_line "  - deep" [] "- shallow" ["- next"] []
                (List.Forall_nil _) Hx) as H.
  cbv zeta in H. destruct H as (_ & H). destruct (H Hl) as (Hp & _).
  split; [|reflexivity].
  unfold lines. change ["  - deep"; "- shallow"; "- next"]
    with (["  - deep"] ++ "- shallow" :: ["- next"])%list.
  rewrite Hp. reflexivity.
Defined.

(** ** When the renderer returns *)

Lemma blockLoop_no_hang (codeBlocks : list CodeBlock)
      (inlineCodes lines : list string) :
  (forall line, In line lines -> startsHeading line = false) ->
  forall fuel i blocks,
    blockLoop fuel codeBlocks inlineCodes lines i blocks <> Diverges.
Proof.
  intros Hsafe. induction fuel as [|f IH]; intros i blocks; [discriminate|].
  cbn [blockLoop].
  destruct (nth_error lines i) as [line|] eqn:El; [|discriminate].
  destruct (matchCodeLine line) as [digits|] eqn:Ec.
  { destruct (nth_error codeBlocks (parseInt digits)); [apply IH | discriminate]. }
  destruct (matchHeading line) as [[lvl text]|]; [apply IH|].
  destruct (isRule line) eqn:Er; [apply IH|].
  destruct (isQuoteLine line) eqn:Eq; [apply IH|].
  destruct (isListLine line) eqn:Eli.
  { destruct (parseList lines i inlineCodes); [apply IH | discriminate]. }
  destruct (isBlank line) eqn:Eb; [apply IH|].
  assert (Hp : negb (endsParagraph line) = true).
  { unfold endsParagraph.
    now rewrite Eb, (Hsafe line (nth_error_In _ _ El)), Eli, Eq, Er, Ec. }
  pose proof (runLength_head (fun l => negb (endsParagraph l)) lines i line El Hp).
  destruct (runLength _ _); [lia | apply IH].
Qed.

Lemma assemble_keeps_chars {M : Type} (f : nat -> M -> string) (p : ascii -> bool)
      (ps : list (piece M)) :
  (forall i m, allChars p (f i m) = true) ->
  Forall (fun x => match x with Lit c => p c = true | Hit _ => True end) ps ->
  forall i, allChars p (assemble f i ps) = true.
Proof.
  intros Hf. induction 1 as [|[c|m] r Hx _ IH]; intros i; [reflexivity| |];
    cbn [assemble allChars].
  - now rewrite Hx, IH.
  - now rewrite allChars_append, Hf, IH.
Qed.

Lemma placeholder_chars (p : ascii -> bool) (kind : string) (idx : nat) :
  p NUL = true -> allChars p kind = true ->
  (forall c, isDigit c = true -> p c = true) ->
  allChars p (placeholder kind idx) = true.
Proof.
  intros Hn Hk Hd. unfold placeholder. cbn [allChars]. rewrite Hn.
  rewrite !allChars_append, Hk. cbn [allChars chr]. rewrite Hn.
  rewrite (allChars_weaken isDigit p _ Hd (showNat_digits idx)). reflexivity.
Qed.

Lemma splitLines_keeps_chars (p : ascii -> bool) (s : string) :
  allChars p s = true -> Forall (fun l => allChars p l = true) (splitLines s).
Proof.
  induction s as [|c r IH]; [repeat constructor|].
  cbn [allChars splitLines]. intros [Hc Hr]%andb_true_iff. specialize (IH Hr).
  destruct (Ascii.eqb c LF); [now constructor|].
  destruct (splitLines r) as [|l ls]; [repeat constructor; cbn; now rewrite Hc|].
  inversion IH; subst. constructor; [cbn [allChars]; now rewrite Hc | assumption].
Qed.

(** X19.  On a text that contains neither the sentinel character nor a
    hash, [renderMarkdown] returns: it does not throw, and the block loop
    makes progress on every line. *)
Theorem renders_without_hash (raw : string) :
  allChars (fun c => notNUL c && notChar "#" c) raw = true ->
  exists html, renderMarkdown raw = Returned html.
Proof.
  intros H.
  assert (Hn : allChars notNUL raw = true)
    by (eapply allChars_weaken; [|exact H]; now intros c [? _]%andb_true_iff).
  assert (Hh : allChars (notChar "#") raw = true)
    by (eapply allChars_weaken; [|exact H]; now intros c [_ ?]%andb_true_iff).
  pose proof (renderMarkdown_finishes raw) as Hfin.
  pose proof (fun e => renderMarkdown_no_throw raw e Hn) as Hthrow.
  assert (Hd : forall c, isDigit c = true -> notChar "#" c = true).
  { intros c Hc. destruct c as [[] [] [] [] [] [] [] []]; vm_compute in Hc;
      try discriminate; reflexivity. }
  unfold renderMarkdown in *.
  match goal with
  | |- context [blockLoop ?f ?c ?ic ?l 0 []] =>
      assert (Hsafe : forall line, In line l -> startsHeading line = false);
      [| pose proof (blockLoop_no_hang c ic l Hsafe f 0 []) as Hhang;
         destruct (blockLoop f c ic l 0 []) as [blocks|e| |]]
  end.
  - intros line Hin.
    assert (Hline : allChars (notChar "#") line = true).
    { revert line Hin. apply List.Forall_forall, splitLines_keeps_chars.
      apply assemble_keeps_chars;
        [intros i m; now apply placeholder_chars|].
      apply scan_keeps_chars. apply assemble_keeps_chars;
        [intros i m; now apply placeholder_chars|].
      now apply scan_keeps_chars. }
    unfold startsHeading. destruct line as [|c r]; [reflexivity|].
    cbn [allChars] in Hline. apply andb_true_iff in Hline as [Hc _].
    unfold notChar in Hc. cbn [spanLen]. unfold isHash.
    now destruct (Ascii.eqb c "#").
  - now eexists.
  - now destruct (Hthrow e).
  - now destruct Hhang.
  - now destruct Hfin.
Qed.

Lemma renders_without_hash_witness :
  let raw := "Use `x` as in" ++ nl ++ "```js" ++ nl ++ "x()" ++ nl ++ "```"
                             ++ nl ++ "- and **so** on" in
  allChars (fun c => notNUL c && notChar "#" c) raw = true
  /\ exists html, renderMarkdown raw = Returned html.
Proof.
  intros raw. split; [reflexivity|].
  apply (renders_without_hash raw). reflexivity.
Defined.

(** ** Fenced code *)

Lemma startsWith_fence_nl (s t : string) :
  startsWith "```" (s ++ String LF t) = startsWith "```" s.
Proof.
  destruct s as [|a [|b [|c r]]]; cbn [String.append startsWith];
    rewrite ?andb_false_r, ?andb_true_r; try reflexivity;
    repeat match goal with
           | |- context [Ascii.eqb "`" ?x] => destruct (Ascii.eqb "`" x)
           end; reflexivity.
Qed.

Lemma indexOf_fence_end (code : string) :
  indexOf "```" code = None ->
  indexOf "```" (code ++ nl ++ "```") = Some (String.length code + 1).
Proof.
  induction code as [|c r IH]; [reflexivity|].
  cbn [indexOf]. destruct (startsWith "```" (String c r)) eqn:Es; [discriminate|].
  destruct (indexOf "```" r) as [k|] eqn:Ei; [discriminate|]. intros _.
  change ((String c r ++ nl ++ "```")) with (String c (r ++ nl ++ "```")).
  cbn [indexOf].
  change (String c (r ++ nl ++ "```")) with (String c r ++ String LF "```").
  rewrite startsWith_fence_nl, Es.
  change (r ++ nl ++ "```") with (r ++ nl ++ "```") in IH.
  cbn [nl chr String.append] in IH |- *. rewrite (IH eq_refl).
  cbn [String.length]. reflexivity.
Qed.

Lemma takeStr_app (a b : string) : takeStr (String.length a) (a ++ b) = a.
Proof.
  induction a as [|c r IH]; [now destruct b|].
  cbn [String.length String.append takeStr]. now rewrite IH.
Qed.

Lemma scan_skip_all {M : Type}
      (matchAt : option ascii -> string -> option (M * nat)) (s : string) :
  forall prev k, String.length s <= k -> scan matchAt prev k s = [].
Proof.
  induction s as [|c r IH]; intros prev k Hk; [reflexivity|].
  cbn [String.length] in Hk. destruct k as [|k]; [lia|].
  cbn [scan]. apply IH. lia.
Qed.

Lemma matchFence_whole (lang code : string) :
  allChars isWord lang = true -> indexOf "```" code = None ->
  matchFence None ("```" ++ lang ++ nl ++ code ++ nl ++ "```")
  = Some ((lang, code ++ nl),
          String.length ("```" ++ lang ++ nl ++ code ++ nl ++ "```")).
Proof.
  intros Hl Hc. unfold matchFence.
  change (startsWith "```" ("```" ++ lang ++ nl ++ code ++ nl ++ "```")) with true.
  cbn iota.
  change (dropStr 3 ("```" ++ lang ++ nl ++ code ++ nl ++ "```"))
    with (lang ++ String LF (code ++ nl ++ "```")).
  destruct (spanLen_stops isWord lang LF (code ++ nl ++ "```") Hl eq_refl)
    as [-> ->].
  pose proof (dropStr_app lang (String LF (code ++ nl ++ "```")) 0) as Hd.
  rewrite Nat.add_0_r in Hd. cbn [dropStr] in Hd. rewrite Hd.
  change (isLF LF) with true. cbn iota.
  rewrite (indexOf_fence_end code Hc).
  replace (String.length code + 1) with (String.length (code ++ nl))
    by (rewrite length_append; reflexivity).
  rewrite <- (append_assoc code nl "```"), takeStr_app.
  do 2 f_equal. rewrite !length_append. cbn [String.length nl chr]. lia.
Qed.

Lemma render_fence (lang code : string) :
  allChars isWord lang = true -> indexOf "```" code = None ->
  renderMarkdown ("```" ++ lang ++ nl ++ code ++ nl ++ "```")
  = Returned (codeBlockHtml (toCodeBlock (lang, code ++ nl))).
Proof.
  intros Hl Hc. unfold renderMarkdown.
  assert (Hscan : scan matchFence None 0 ("```" ++ lang ++ nl ++ code ++ nl ++ "```")
                  = [Hit (lang, code ++ nl)]).
  { pose proof (matchFence_whole lang code Hl Hc) as Hm.
    change ("```" ++ lang ++ nl ++ code ++ nl ++ "```")
      with (String "`" ("``" ++ lang ++ nl ++ code ++ nl ++ "```")) in Hm |- *.
    cbn [scan]. rewrite Hm. f_equal. apply scan_skip_all.
    cbn [String.length]. lia. }
  rewrite Hscan. cbn [hits List.map assemble].
  change (placeholder "CB_" 0 ++ "")
    with (String NUL (String "C" (String "B" (String "_" (String "0" (String NUL "")))))).
  cbn [scan matchInlineCode hits assemble Ascii.eqb Bool.eqb BT NUL splitLines LF].
  cbn [List.length blockLoop nth_error].
  change (matchCodeLine (String NUL (String "C" (String "B" (String "_"
            (String "0" (String NUL "")))))))
    with (Some "0").
  cbn iota. change (parseInt "0") with 0. cbn [nth_error Nat.add app join].
  reflexivity.
Qed.

Lemma trimEnd_all_space (s : string) : trimEnd s = "" -> allChars isSpace s = true.
Proof.
  induction s as [|c r IH]; [reflexivity|]. cbn [trimEnd allChars].
  destruct (isSpace c && allChars isSpace r) eqn:E; [reflexivity | discriminate].
Qed.

Lemma trimEnd_append_nl (s : string) : trimEnd (s ++ nl) = trimEnd s.
Proof.
  induction s as [|c r IH]; [reflexivity|].
  cbn [String.append trimEnd]. rewrite allChars_append, IH.
  change (allChars isSpace nl) with true. now rewrite andb_true_r.
Qed.

(** X20.  A fenced block, three backticks and a language of word
    characters, the code, and three backticks on a line of their own, is
    rendered as one code block, whatever the code contains short of three
    backticks in a row: its language is the one given, or [plaintext] when
    none is given, and its body is the code without white space at the end,
    escaped and otherwise untouched, so that stars, brackets and single
    backticks in it are not formatted. *)
Theorem fenced_block (lang code : string) :
  allChars isWord lang = true -> indexOf "```" code = None ->
  renderMarkdown ("```" ++ lang ++ nl ++ code ++ nl ++ "```")
  = Returned (codeBlockHtml
                (mkCodeBlock (if String.eqb lang "" then "plaintext" else lang)
                             (trimEnd code)))
  /\ List.map toCodeBlock
              (hits (scan matchFence None 0
                          ("```" ++ lang ++ nl ++ code ++ nl ++ "```")))
     = [mkCodeBlock (if String.eqb lang "" then "plaintext" else lang)
                    (trimEnd code)].
Proof.
  intros Hl Hc. split.
  - rewrite (render_fence lang code Hl Hc). unfold toCodeBlock. cbn [fst snd].
    now rewrite trimEnd_append_nl.
  - pose proof (matchFence_whole lang code Hl Hc) as Hm.
    change ("```" ++ lang ++ nl ++ code ++ nl ++ "```")
      with (String "`" ("``" ++ lang ++ nl ++ code ++ nl ++ "```")) in Hm |- *.
    cbn [scan]. rewrite Hm. rewrite scan_skip_all by (cbn [String.length]; lia).
    cbn [hits List.map]. unfold toCodeBlock. cbn [fst snd].
    now rewrite trimEnd_append_nl.
Qed.

Lemma fenced_block_witness :
  let code := "for x in *args:" ++ nl ++ "    print(x[0], `x`, <b>)  " ++ nl in
  (allChars isWord "python" = true /\ indexOf "```" code = None)
  /\ renderMarkdown ("```python" ++ nl ++ code ++ nl ++ "```")
     = Returned ("<div class=" ++ quoted "code-block" ++ "><div class="
                   ++ quoted "code-block-header" ++ "><span class="
                   ++ quoted "code-lang" ++ ">python</span><button class="
                   ++ quoted "code-copy-btn" ++ ">Copy code</button></div>"
                   ++ "<pre><code class=" ++ quoted "language-python" ++ ">"
                   ++ "for x in *args:" ++ nl
                   ++ "    print(x[0], `x`, &lt;b&gt;)"
                   ++ "</code></pre></div>").
Proof.
  intros code. split; [split; reflexivity|].
  exact (proj1 (fenced_block "python" code eq_refl eq_refl)).
Defined.

(** ** Code blocks through the extractor and the renderer *)

Lemma spanLen_all (p : ascii -> bool) (s : string) :
  allChars p s = true -> spanLen p s = String.length s /\ takeStr (String.length s) s = s.
Proof.
  induction s as [|c r IH]; [now split|]. cbn [allChars spanLen String.length takeStr].
  intros [Hc Hr]%andb_true_iff. rewrite Hc. destruct (IH Hr) as [-> ->]. now split.
Qed.

Lemma language_class (lang : string) :
  lang <> "" -> allChars isWord lang = true ->
  matchLanguageWord ("language-" ++ lang) = Some lang.
Proof.
  intros Hne Hw. unfold matchLanguageWord.
  destruct (spanLen_all isWord lang Hw) as [Hs Ht].
  assert (Hp : startsWith "language-" ("language-" ++ lang)
               && (0 <? spanLen isWord (dropStr 9 ("language-" ++ lang)))%nat = true).
  { change (dropStr 9 ("language-" ++ lang)) with lang.
    change (startsWith "language-" ("language-" ++ lang)) with true.
    rewrite Hs. destruct lang; [contradiction | reflexivity]. }
  change ("language-" ++ lang) with (String "l" ("anguage-" ++ lang)) in *.
  cbn [findFirst]. rewrite Hp.
  change (dropStr 9 (String "l" ("anguage-" ++ lang))) with lang.
  now rewrite Hs, Ht.
Qed.

Lemma no3_append_left (x y : string) :
  x <> "" -> endsLF x = false -> no3 x = true -> no3 y = true ->
  no3 (x ++ y) = true.
Proof.
  intros Hne He Hx Hy. induction x as [|c r IH]; [contradiction|].
  change (String c r ++ y) with (String c (r ++ y)).
  cbn [no3]. change (String c (r ++ y)) with (String c r ++ y).
  rewrite (spanLen_append_clean (String c r) y Hne He).
  cbn [no3] in Hx. apply andb_true_iff in Hx as [H1 H2]. rewrite H1. cbn [andb].
  destruct r as [|d r']; [exact Hy|].
  apply IH; [discriminate | exact He | exact H2].
Qed.

Lemma trimEnd_not_LF (s : string) : endsLF (trimEnd s) = false.
Proof.
  induction s as [|c r IH]; [reflexivity|]. cbn [trimEnd].
  destruct (isSpace c && allChars isSpace r) eqn:E; [reflexivity|].
  cbn [endsLF]. destruct (trimEnd r) as [|d r'] eqn:Er; [|exact IH].
  apply trimEnd_all_space in Er. rewrite Er, andb_true_r in E.
  destruct c as [[] [] [] [] [] [] [] []]; vm_compute in E; try discriminate;
    reflexivity.
Qed.

Lemma trim_clean (s : string) :
  spanLen isLF (trim s) = 0 /\ endsLF (trim s) = false.
Proof.
  split; [|apply trimEnd_not_LF].
  unfold trim. pose proof (trimStart_head s) as Hh.
  destruct (trimStart s) as [|c r]; [reflexivity|].
  cbn [trimEnd]. rewrite Hh. cbn [andb spanLen].
  destruct c as [[] [] [] [] [] [] [] []]; vm_compute in Hh; try discriminate;
    reflexivity.
Qed.

Lemma endsLF_append (a y : string) : y <> "" -> endsLF (a ++ y) = endsLF y.
Proof.
  intros Hy. induction a as [|c r IH]; [reflexivity|].
  cbn [String.append endsLF]. destruct (r ++ y) eqn:E; [|exact IH].
  destruct r; [contradiction | discriminate].
Qed.

Lemma fence_text_clean (lang body : string) :
  allChars isWord lang = true -> no3 (trim body) = true ->
  let x := "```" ++ lang ++ nl ++ trim body ++ nl ++ "```" in
  x <> "" /\ no3 x = true /\ spanLen isLF x = 0 /\ endsLF x = false.
Proof.
  intros Hl H3 x. destruct (trim_clean body) as [Hs He].
  split; [discriminate|]. split; [|split; [reflexivity|]].
  - assert (Htail : no3 (nl ++ trim body ++ nl ++ "```") = true
                    /\ no3 (trim body ++ nl ++ "```") = true).
    { destruct (trim body) as [|c r] eqn:Et; [now split|].
      assert (Hb : no3 (String c r ++ nl ++ "```") = true)
        by (apply no3_append_left; [discriminate | exact He | exact H3 | reflexivity]).
      split; [|exact Hb].
      change (nl ++ String c r ++ nl ++ "```")
        with (String LF (String c r ++ nl ++ "```")).
      cbn [no3]. rewrite Hb, andb_true_r.
      change (String c r ++ nl ++ "```") with (String c (r ++ nl ++ "```")).
      cbn [spanLen] in Hs |- *. change (isLF LF) with true. cbn iota.
      now destruct (isLF c). }
    subst x. rewrite <- (append_assoc "```" lang).
    apply no3_append_left; [discriminate | | | exact (proj1 Htail)].
    + apply one_line_clean. rewrite allChars_append.
      rewrite (allChars_weaken isWord (notChar LF) lang); [reflexivity | | exact Hl].
      intros c Hc. destruct c as [[] [] [] [] [] [] [] []]; vm_compute in Hc;
        try discriminate; reflexivity.
    + apply one_line_clean. rewrite allChars_append.
      rewrite (allChars_weaken isWord (notChar LF) lang); [reflexivity | | exact Hl].
      intros c Hc. destruct c as [[] [] [] [] [] [] [] []]; vm_compute in Hc;
        try discriminate; reflexivity.
  - subst x. rewrite <- !append_assoc.
    now rewrite (endsLF_append _ "```") by discriminate.
Qed.

(** X21.  A code block of the page, a [pre] that holds a [code] element
    with a language class and the code as text, extracted and rendered
    again, comes back as one code block with the same language and the
    trimmed code, provided the trimmed code contains neither three backticks
    in a row nor three line feeds in a row. *)
Theorem code_block_round_trip (lang body : string)
        (preAttrs : list (string * string)) :
  lang <> "" -> allChars isWord lang = true ->
  indexOf "```" (trim body) = None -> no3 (trim body) = true ->
  let tree :=
    ElementNode "div" []
      [ElementNode "pre" preAttrs
         [ElementNode "code" [("class", "language-" ++ lang)] [TextNode body]]] in
  extractTextContent tree noCtx
  = "```" ++ lang ++ nl ++ trim body ++ nl ++ "```"
  /\ renderMarkdown (extractTextContent tree noCtx)
     = Returned (codeBlockHtml (mkCodeBlock lang (trim body))).
Proof.
  intros Hne Hw Hi H3 tree.
  assert (He : extractTextContent tree noCtx
               = "```" ++ lang ++ nl ++ trim body ++ nl ++ "```").
  { subst tree. rewrite extractTextContent_unfold. cbn [fold_left].
    unfold extractChild.
    change (isSkippedTag "pre") with false. change (String.eqb "pre" "pre") with true.
    cbn iota.
    change (querySelector "code" _)
      with (Some (ElementNode "code" [("class", "language-" ++ lang)] [TextNode body])).
    cbn iota. unfold extractCodeLanguage.
    change (className (ElementNode "code" [("class", "language-" ++ lang)] [TextNode body]))
      with ("language-" ++ lang).
    rewrite (language_class lang Hne Hw).
    change (textContent (ElementNode "code" [("class", "language-" ++ lang)]
                                     [TextNode body]))
      with (body ++ "").
    rewrite append_empty. cbn [finish inline noCtx].
    destruct (fence_text_clean lang body Hw H3) as (Hx1 & Hx2 & Hx3 & Hx4).
    transitivity (cleanMarkdown (nl ++ ("```" ++ lang ++ nl ++ trim body ++ nl ++ "```")
                                    ++ nl));
      [f_equal; now norm_append|].
    apply cleanMarkdown_wrap; try assumption; cbn [In]; auto. }
  split; [exact He|].
  rewrite He, (render_fence lang (trim body) Hw Hi). unfold toCodeBlock.
  cbn [fst snd]. rewrite trimEnd_append_nl.
  replace (String.eqb lang "") with false
    by (symmetry; now apply String.eqb_neq).
  unfold trim. now rewrite trimEnd_idempotent.
Qed.

Lemma code_block_round_trip_witness :
  let body := nl ++ "if a < b:" ++ nl ++ nl ++ "    swap(a, b)" ++ nl in
  let tree :=
    ElementNode "div" []
      [ElementNode "pre" []
         [ElementNode "code" [("class", "language-python")] [TextNode body]]] in
  ("python" <> "" /\ allChars isWord "python" = true
   /\ indexOf "```" (trim body) = None /\ no3 (trim body) = true)
  /\ extractTextContent tree noCtx
     = "```python" ++ nl ++ "if a < b:" ++ nl ++ nl ++ "    swap(a, b)" ++ nl ++ "```"
  /\ renderMarkdown (extractTextContent tree noCtx)
     = Returned (codeBlockHtml
                   (mkCodeBlock "python"
                                ("if a < b:" ++ nl ++ nl ++ "    swap(a, b)"))).
Proof.
  intros body tree.
  split; [split; [discriminate | repeat split; reflexivity]|].
  destruct (code_block_round_trip "python" body []) as [H1 H2];
    try reflexivity; [discriminate|].
  split; [exact H1 | exact H2].
Defined.

(** ** Lists of one level through the extractor and the renderer *)

Lemma concat_lines (lines : list string) :
  lines <> [] ->
  concatStr (List.map (fun l => l ++ nl) lines) = join nl lines ++ nl.
Proof.
  induction lines as [|l r IH]; [contradiction|]. intros _.
  destruct r as [|l2 r2]; [cbn; now rewrite append_empty|].
  change (join nl (l :: l2 :: r2)) with (l ++ nl ++ join nl (l2 :: r2)).
  cbn [List.map concatStr fold_right] in IH |- *.
  rewrite IH by discriminate. now norm_append.
Qed.

Lemma join_lines_clean (lines : list string) :
  lines <> [] ->
  Forall (fun l => l <> "" /\ allChars (notChar LF) l = true) lines ->
  join nl lines <> "" /\ no3 (join nl lines) = true
  /\ spanLen isLF (join nl lines) = 0 /\ endsLF (join nl lines) = false.
Proof.
  intros Hne H. induction H as [|l r [Hl1 Hl2] Hr IH]; [contradiction|].
  destruct (one_line_clean l Hl2) as (H1 & H2 & H3).
  destruct r as [|l2 r2]; [cbn [join]; now repeat split|].
  destruct IH as (I0 & I1 & I2 & I3); [discriminate|].
  change (join nl (l :: l2 :: r2)) with (l ++ nl ++ join nl (l2 :: r2)).
  split; [destruct l; [contradiction | discriminate]|].
  split; [|split].
  - apply no3_append_left; try assumption.
    change (nl ++ join nl (l2 :: r2)) with (String LF (join nl (l2 :: r2))).
    cbn [no3 spanLen]. change (isLF LF) with true. cbn iota.
    now rewrite I2, I1.
  - destruct l as [|c x]; [contradiction|]. cbn [String.append spanLen].
    cbn [spanLen] in H2. now destruct (isLF c).
  - rewrite endsLF_append by discriminate.
    change (nl ++ join nl (l2 :: r2)) with (String LF (join nl (l2 :: r2))).
    cbn [endsLF]. destruct (join nl (l2 :: r2)); [contradiction | exact I3].
Qed.

Lemma showNat_not_empty (n : nat) : showNat n <> "".
Proof.
  unfold showNat. cbn [digitsOf]. destruct (n <? 10)%nat; [discriminate|].
  rewrite digitsOf_acc. destruct (digitsOf n (n / 10) ""); discriminate.
Qed.

Lemma digit_classes (c : ascii) :
  isDigit c = true ->
  isSpace c = false /\ isBullet c = false /\ inert c = true.
Proof.
  intros H. destruct c as [[] [] [] [] [] [] [] []]; vm_compute in H;
    try discriminate; repeat split; reflexivity.
Qed.

(** What the list functions of the renderer see in an item line. *)
Lemma item_line (ordered : bool) (i : nat) (c : ascii) (r : string) :
  isLetter c = true -> allChars inert (String c r) = true ->
  let line := (if ordered then showNat (i + 1) ++ "." else "-") ++ " " ++ String c r in
  line <> "" /\ allChars inert line = true /\ isListLine line = true
  /\ isOrderedLine line = ordered /\ getIndent line = 0
  /\ stripMarkers line = String c r.
Proof.
  intros Hc Hi line. destruct (letter_classes c Hc) as (Hs & Hb & Hd & _).
  assert (Hsp : spanLen isSpace (String " " (String c r)) = 1)
    by (cbn [spanLen]; change (isSpace " ") with true; cbn iota; now rewrite Hs).
  assert (Hnum : afterNumber (trimStart (String c r)) = None).
  { unfold trimStart. cbn [spanLen]. rewrite Hs. cbn [dropStr].
    unfold afterNumber. cbn [spanLen]. now rewrite Hd. }
  destruct ordered; subst line.
  - pose proof (showNat_digits (i + 1)) as Hdig.
    pose proof (showNat_not_empty (i + 1)) as Hne.
    destruct (showNat (i + 1)) as [|d ds] eqn:Es; [contradiction|].
    cbn [allChars] in Hdig. apply andb_true_iff in Hdig as [Hd1 Hd2].
    destruct (digit_classes d Hd1) as (Hds & Hdb & Hdi).
    set (D := String d ds) in *.
    assert (Hall : allChars isDigit D = true)
      by (subst D; cbn [allChars]; now rewrite Hd1, Hd2).
    assert (Hline : (D ++ ".") ++ " " ++ String c r
                    = D ++ String "." (String " " (String c r)))
      by now norm_append.
    rewrite Hline.
    assert (Htrim : trimStart (D ++ String "." (String " " (String c r)))
                    = D ++ String "." (String " " (String c r)))
      by (unfold trimStart; subst D; cbn [String.append spanLen]; now rewrite Hds).
    assert (Hnumber : afterNumber (D ++ String "." (String " " (String c r)))
                      = Some (String c r)).
    { unfold afterNumber.
      destruct (spanLen_stops isDigit D "." (String " " (String c r)) Hall eq_refl)
        as [-> _].
      pose proof (dropStr_app D (String "." (String " " (String c r))) 0) as Hdrop.
      rewrite Nat.add_0_r in Hdrop. cbn [dropStr] in Hdrop. rewrite Hdrop.
      replace (1 <=? String.length D)%nat with true by (subst D; reflexivity).
      rewrite Hsp. reflexivity. }
    assert (Hbullet : afterBullet (D ++ String "." (String " " (String c r))) = None)
      by (subst D; cbn [String.append afterBullet]; now rewrite Hdb).
    split; [subst D; discriminate|]. split; [|split; [|split; [|split]]].
    + rewrite allChars_append. cbn [allChars]. cbn [allChars] in Hi. rewrite Hi.
      rewrite (allChars_weaken isDigit inert D); [reflexivity | | exact Hall].
      intros x Hx. exact (proj2 (proj2 (digit_classes x Hx))).
    + unfold isListLine, isOrderedLine. rewrite Htrim, Hnumber. apply orb_true_r.
    + unfold isOrderedLine. now rewrite Htrim, Hnumber.
    + unfold getIndent. subst D. cbn [String.append spanLen]. now rewrite Hds.
    + unfold stripMarkers. now rewrite Htrim, Hbullet, Htrim, Hnumber.
  - change ("-" ++ " " ++ String c r) with (String "-" (String " " (String c r))).
    assert (Htrim : trimStart (String "-" (String " " (String c r)))
                    = String "-" (String " " (String c r))) by reflexivity.
    assert (Hbullet : afterBullet (String "-" (String " " (String c r)))
                      = Some (String c r)).
    { unfold afterBullet. change (isBullet "-") with true. rewrite Hsp. reflexivity. }
    split; [discriminate|]. split; [|split; [|split; [|split]]].
    + cbn [allChars]. cbn [allChars] in Hi. now rewrite Hi.
    + unfold isListLine. now rewrite Htrim, Hbullet.
    + reflexivity.
    + reflexivity.
    + unfold stripMarkers. now rewrite Htrim, Hbullet, Hnum.
Qed.

Lemma itemLines_facts (ordered : bool) (texts : list string) :
  Forall (fun t => plainLine t = true) texts ->
  forall i,
    List.length (itemLines ordered i texts) = List.length texts
    /\ Forall (fun l => l <> "" /\ allChars inert l = true /\ isListLine l = true
                        /\ isOrderedLine l = ordered /\ getIndent l = 0)
              (itemLines ordered i texts)
    /\ List.map (fun l => "<li>" ++ inlineFormat (stripMarkers l) [] ++ "</li>")
                (itemLines ordered i texts)
       = List.map (fun t => "<li>" ++ trim t ++ "</li>") texts.
Proof.
  induction 1 as [|t r Ht Hr IH]; intros i; [now repeat split|].
  destruct (IH (S i)) as (I1 & I2 & I3).
  destruct (plainLine_trim t Ht) as (c & x & Et & Hc & Hi).
  cbn [itemLines List.length List.map]. rewrite Et in *.
  destruct (item_line ordered i c x Hc Hi) as (L1 & L2 & L3 & L4 & L5 & L6).
  split; [now rewrite I1|]. split; [constructor; [now repeat split | exact I2]|].
  rewrite I3, L6. do 2 f_equal.
  assert (H1 : Forall (fun l => allChars inert l = true) [String c x])
    by (constructor; [exact Hi | constructor]).
  pose proof (inlineFormat_inert_lines _ [] H1) as E. cbn [join] in E.
  now rewrite E.
Qed.

Lemma processListItem_paragraph (t marker : string) (attrs pattrs : list (string * string)) :
  processListItem (ElementNode "li" attrs [ElementNode "p" pattrs [TextNode t]]) 0 marker
  = marker ++ " " ++ trim t ++ nl.
Proof.
  rewrite processListItem_unfold. cbn [fold_left hasTag existsb String.eqb Ascii.eqb
                                       Bool.eqb andb orb fst snd repeatStr].
  change (extractTextContent (ElementNode "p" pattrs [TextNode t]) (mkCtx true 0))
    with t.
  cbn [String.append]. now rewrite append_empty.
Qed.

Lemma processListElement_items (ordered : bool) (texts : list string) :
  processListElement
    (ElementNode (if ordered then "ol" else "ul") []
       (List.map (fun t => ElementNode "li" [] [ElementNode "p" [] [TextNode t]]) texts))
    0
  = nl ++ concatStr (List.map (fun l => l ++ nl) (itemLines ordered 0 texts)).
Proof.
  cbn [processListElement].
  match goal with
  | |- ?f _ 0 nl = _ => set (each := f)
  end.
  assert (Ho : hasTag ["ol"] (ElementNode (if ordered then "ol" else "ul") []
                 (List.map (fun t => ElementNode "li" [] [ElementNode "p" [] [TextNode t]])
                           texts)) = ordered) by now destruct ordered.
  assert (H : forall ts i result,
             each (List.map (fun t => ElementNode "li" [] [ElementNode "p" [] [TextNode t]]) ts)
                  i result
             = result ++ concatStr (List.map (fun l => l ++ nl) (itemLines ordered i ts))).
  { induction ts as [|t r IH]; intros i result.
    - cbn. now rewrite append_empty.
    - cbn [List.map itemLines concatStr fold_right].
      rewrite <- append_assoc, <- (IH (S i)).
      subst each. cbn beta iota.
      change (hasTag ["li"] (ElementNode "li" [] [ElementNode "p" [] [TextNode t]]))
        with true.
      cbn iota. rewrite Ho, processListItem_paragraph. f_equal.
      destruct ordered; now norm_append. }
  apply H.
Qed.

(** X22.  A list of one level whose items hold a paragraph of plain text,
    extracted and rendered again, comes back as the same list: one line per
    item with a hyphen, or with the number of the item for an ordered list,
    and from these lines one [ul] or [ol] with one [li] per item that holds
    the trimmed text, in the order of the items. *)
Theorem list_round_trip (ordered : bool) (texts : list string) :
  texts <> [] ->
  Forall (fun t => plainLine t = true) texts ->
  let tag := if ordered then "ol" else "ul" in
  let tree :=
    ElementNode "div" []
      [ElementNode tag []
         (List.map (fun t => ElementNode "li" [] [ElementNode "p" [] [TextNode t]])
                   texts)] in
  extractTextContent tree noCtx = join nl (itemLines ordered 0 texts)
  /\ renderMarkdown (extractTextContent tree noCtx)
     = Returned ("<" ++ tag ++ ">"
                     ++ concatStr (List.map (fun t => "<li>" ++ trim t ++ "</li>") texts)
                     ++ "</" ++ tag ++ ">").
Proof.
  intros Hne Hp tag tree.
  destruct (itemLines_facts ordered texts Hp 0) as (Hlen & Hfacts & Hitems).
  set (lines := itemLines ordered 0 texts) in *.
  assert (Hlines : lines <> [])
    by (intros E; rewrite E in Hlen; destruct texts; [contradiction | discriminate]).
  assert (Hone : Forall (fun l => allChars (notChar LF) l = true) lines).
  { eapply List.Forall_impl; [|exact Hfacts]. intros l (_ & Hl & _).
    revert Hl. apply inert_weaken. cbn [In]; auto 10. }
  assert (He : extractTextContent tree noCtx = join nl lines).
  { subst tree. rewrite extractTextContent_unfold. cbn [fold_left].
    assert (Hchild : forall kids,
               extractChild extractTextContent processListElement processListItem
                            noCtx (ElementNode tag [] kids) ""
               = processListElement (ElementNode tag [] kids) 0)
      by (intros kids; subst tag; now destruct ordered).
    rewrite Hchild. subst tag. rewrite processListElement_items. fold lines.
    rewrite (concat_lines lines Hlines). cbn [finish inline noCtx].
    destruct (join_lines_clean lines Hlines) as (J0 & J1 & J2 & J3).
    { eapply List.Forall_impl; [|exact Hfacts]. intros l (Hl0 & Hl & _).
      split; [exact Hl0|]. revert Hl. apply inert_weaken. cbn [In]; auto 10. }
    apply cleanMarkdown_wrap; try assumption; cbn [In]; auto. }
  split; [exact He|]. rewrite He.
  assert (Hbt : allChars (notChar BT) (join nl lines) = true).
  { apply allChars_join; [reflexivity|].
    eapply List.Forall_impl; [|exact Hfacts]. intros l (_ & Hl & _).
    revert Hl. apply inert_weaken. cbn [In]; auto 10. }
  rewrite (renderMarkdown_no_code _ Hbt), (splitLines_join lines Hlines Hone).
  destruct lines as [|first rest] eqn:El; [contradiction|].
  assert (Hlist : Forall (fun l => isListLine l = true) (first :: rest))
    by (eapply List.Forall_impl; [|exact Hfacts]; now intros l (_ & _ & Hl & _)).
  rewrite (blockLoop_list_line _ [] [] (first :: rest) 0 [] first eq_refl)
    by now inversion Hlist.
  unfold parseList. rewrite (listRegion_all _ Hlist).
  destruct (List.Forall_inv Hfacts) as (_ & _ & _ & Ho & H0).
  assert (Hind : Forall (fun l => getIndent l = getIndent first) rest).
  { eapply List.Forall_impl; [|exact (List.Forall_inv_tail Hfacts)].
    intros l (_ & _ & _ & _ & Hl). congruence. }
  rewrite (flat_list_html first rest [] Hind)
    by (unfold listFuel; cbn [List.length]; lia).
  change (skipn 0 (first :: rest)) with (first :: rest).
  rewrite (runLength_all isListLine _ Hlist). cbn [Nat.add app].
  cbn [List.length blockLoop]. rewrite (proj2 (nth_error_None (first :: rest) _))
    by (cbn [List.length]; lia).
  cbn [join]. rewrite Hitems, Ho. subst tag. reflexivity.
Qed.

Lemma list_round_trip_witness :
  let texts := ["Preheat the oven "; "Mix flour and sugar"; "Bake for 20 minutes"] in
  let item (t : string) := ElementNode "li" [] [ElementNode "p" [] [TextNode t]] in
  let tree := ElementNode "div" [] [ElementNode "ol" [] (List.map item texts)] in
  (texts <> [] /\ Forall (fun t => plainLine t = true) texts)
  /\ extractTextContent tree noCtx
     = "1. Preheat the oven" ++ nl ++ "2. Mix flour and sugar" ++ nl
                             ++ "3. Bake for 20 minutes"
  /\ renderMarkdown (extractTextContent tree noCtx)
     = Returned ("<ol><li>Preheat the oven</li><li>Mix flour and sugar</li>"
                   ++ "<li>Bake for 20 minutes</li></ol>").
Proof.
  intros texts item tree.
  split; [split; [discriminate | repeat constructor]|].
  destruct (list_round_trip true texts) as [H1 H2];
    [discriminate | repeat constructor|].
  split; [exact H1 | exact H2].
Defined.

(** ** The elements that the renderer can open *)

Lemma startsWith_append (o x y : string) :
  startsWith o x = true -> startsWith o (x ++ y) = true.
Proof.
  revert x. induction o as [|a o IH]; intros [|b x] H; try reflexivity;
    try discriminate.
  cbn [startsWith String.append] in *. apply andb_true_iff in H as [H1 H2].
  now rewrite H1, IH.
Qed.

Lemma startsWith_cut (o x : string) (d : ascii) (r : string) :
  allChars tagChar o = true -> tagChar d = false ->
  startsWith o (x ++ String d r) = true -> startsWith o x = true.
Proof.
  revert x. induction o as [|a o IH]; intros x Ho Hd H; [reflexivity|].
  cbn [allChars] in Ho. apply andb_true_iff in Ho as [Ha Ho].
  destruct x as [|b x]; cbn [String.append startsWith] in *;
    apply andb_true_iff in H as [H1 H2].
  - apply Ascii.eqb_eq in H1. subst d. congruence.
  - rewrite H1. cbn [andb]. now apply IH.
Qed.

Lemma knownTags_shape (o : string) :
  In o knownTags ->
  exists t, o = String "<" t /\ allChars tagChar t = true.
Proof.
  intros H. cbn [knownTags In] in H.
  repeat (destruct H as [<-|H]; [eexists; split; [reflexivity | vm_compute; reflexivity]|]).
  contradiction.
Qed.

Lemma tagsOk_append (a b : string) :
  tagsOk a = true -> tagsOk b = true -> tagsOk (a ++ b) = true.
Proof.
  intros Ha Hb. induction a as [|c r IH]; [exact Hb|].
  cbn [tagsOk] in Ha. apply andb_true_iff in Ha as [H1 H2].
  change (String c r ++ b) with (String c (r ++ b)). cbn [tagsOk].
  rewrite (IH H2), andb_true_r.
  destruct (Ascii.eqb c "<"); [|reflexivity]. cbn [negb orb] in *.
  apply existsb_exists in H1 as (o & Ho & Hs). apply existsb_exists.
  exists o. split; [exact Ho|]. exact (startsWith_append o (String c r) b Hs).
Qed.

Lemma tagsOk_suffix (a b : string) : tagsOk (a ++ b) = true -> tagsOk b = true.
Proof.
  induction a as [|c r IH]; [auto|].
  change (String c r ++ b) with (String c (r ++ b)). cbn [tagsOk].
  intros [_ H]%andb_true_iff. now apply IH.
Qed.

Lemma take_drop (k : nat) (s : string) : takeStr k s ++ dropStr k s = s.
Proof.
  revert s. induction k as [|k IH]; intros [|c r]; try reflexivity.
  cbn [takeStr dropStr String.append]. now rewrite IH.
Qed.

Lemma tagsOk_dropStr (k : nat) (s : string) :
  tagsOk s = true -> tagsOk (dropStr k s) = true.
Proof. intros H. rewrite <- (take_drop k s) in H. exact (tagsOk_suffix _ _ H). Qed.

Lemma tagsOk_prefix (a : string) (d : ascii) (r : string) :
  tagChar d = false -> tagsOk (a ++ String d r) = true -> tagsOk a = true.
Proof.
  intros Hd. induction a as [|c x IH]; [reflexivity|].
  change (String c x ++ String d r) with (String c (x ++ String d r)).
  cbn [tagsOk]. intros [H1 H2]%andb_true_iff. rewrite (IH H2), andb_true_r.
  destruct (Ascii.eqb c "<"); [|reflexivity]. cbn [negb orb] in *.
  apply existsb_exists in H1 as (o & Ho & Hs). apply existsb_exists.
  exists o. split; [exact Ho|].
  destruct (knownTags_shape o Ho) as (t & -> & Ht).
  cbn [startsWith] in *. apply andb_true_iff in Hs as [Hs1 Hs2].
  rewrite Hs1. cbn [andb]. exact (startsWith_cut t x d r Ht Hd Hs2).
Qed.

(** The part of a text in front of a position where a delimiter stands. *)
Lemma tagsOk_take (k : nat) (s : string) (d : ascii) (r : string) :
  tagsOk s = true -> dropStr k s = String d r -> tagChar d = false ->
  tagsOk (takeStr k s) = true.
Proof.
  intros Hs Hd Ht. rewrite <- (take_drop k s), Hd in Hs.
  exact (tagsOk_prefix _ d r Ht Hs).
Qed.

Lemma no_bracket_tagsOk (s : string) :
  allChars (notChar "<") s = true -> tagsOk s = true.
Proof.
  induction s as [|c r IH]; [reflexivity|]. cbn [allChars tagsOk].
  intros [Hc Hr]%andb_true_iff. unfold notChar in Hc. now rewrite Hc, IH.
Qed.

Lemma escapeHtml_no_bracket (s : string) :
  allChars (notChar "<") (escapeHtml s) = true.
Proof.
  induction s as [|c r IH]; [reflexivity|]. cbn [escapeHtml].
  rewrite allChars_append, IH, andb_true_r. unfold escapeChar.
  destruct (Ascii.eqb c "&"); [reflexivity|].
  destruct (Ascii.eqb c "<") eqn:E; [reflexivity|].
  destruct (Ascii.eqb c ">"); [reflexivity|].
  destruct (nat_of_ascii c =? 160)%nat; [reflexivity|].
  cbn [chr allChars]. unfold notChar. now rewrite E.
Qed.

Section Replace.

Context {M : Type}.
Variable matchAt : option ascii -> string -> option (M * nat).
Variable f : nat -> M -> string.

(** A match starts at a delimiter, a character that no opening contains,
    and what replaces it opens known elements only. *)
Hypothesis match_start :
  forall prev c r m len, matchAt prev (String c r) = Some (m, len) ->
                         tagChar c = false.
Hypothesis match_replaced :
  forall prev s m len i, matchAt prev s = Some (m, len) -> tagsOk s = true ->
                         tagsOk (f i m) = true.

Lemma scan_skips (s : string) :
  forall prev k, exists prev',
    scan matchAt prev k s = scan matchAt prev' 0 (dropStr k s).
Proof.
  induction s as [|c r IH]; intros prev k; [exists prev; now destruct k|].
  destruct k as [|k]; [now exists prev|]. cbn [scan dropStr]. apply IH.
Qed.

Lemma scan_keeps_opening (t : string) :
  allChars tagChar t = true ->
  forall r prev i,
    startsWith t r = true ->
    startsWith t (assemble f i (scan matchAt prev 0 r)) = true.
Proof.
  induction t as [|a t IH]; intros Ht r prev i H; [reflexivity|].
  cbn [allChars] in Ht. apply andb_true_iff in Ht as [Ha Ht].
  destruct r as [|b r]; [discriminate|]. cbn [startsWith] in H.
  apply andb_true_iff in H as [H1 H2]. apply Ascii.eqb_eq in H1. subst b.
  cbn [scan]. destruct (matchAt prev (String a r)) as [[m len]|] eqn:Em.
  - apply match_start in Em. congruence.
  - cbn [assemble startsWith]. rewrite Ascii.eqb_refl. cbn [andb]. now apply IH.
Qed.

Lemma scan_tagsOk (n : nat) :
  forall s prev i,
    String.length s <= n -> tagsOk s = true ->
    tagsOk (assemble f i (scan matchAt prev 0 s)) = true.
Proof.
  induction n as [|n IH]; intros [|c r] prev i Hn Hs; try reflexivity;
    cbn [String.length] in Hn; [lia|].
  cbn [scan]. destruct (matchAt prev (String c r)) as [[m len]|] eqn:Em.
  - cbn [assemble]. apply tagsOk_append; [exact (match_replaced _ _ _ _ i Em Hs)|].
    destruct (scan_skips r (Some c) (len - 1)) as [prev' ->].
    apply IH.
    + pose proof (length_dropStr (len - 1) r). lia.
    + apply tagsOk_dropStr. cbn [tagsOk] in Hs. now apply andb_true_iff in Hs.
  - cbn [assemble tagsOk]. cbn [tagsOk] in Hs. apply andb_true_iff in Hs as [H1 H2].
    rewrite (IH r (Some c) i ltac:(lia) H2), andb_true_r.
    destruct (Ascii.eqb c "<") eqn:Ec; [|reflexivity]. cbn [negb orb] in *.
    apply existsb_exists in H1 as (o & Ho & Hst). apply existsb_exists.
    exists o. split; [exact Ho|].
    destruct (knownTags_shape o Ho) as (t & -> & Ht).
    cbn [startsWith] in *. apply andb_true_iff in Hst as [Hs1 Hs2].
    rewrite Hs1. cbn [andb]. now apply scan_keeps_opening.
Qed.

Lemma replaceAll_tagsOk (s : string) :
  tagsOk s = true -> tagsOk (replaceAll matchAt f s) = true.
Proof. intros H. unfold replaceAll. now apply (scan_tagsOk (String.length s)). Qed.

End Replace.

Lemma lazyPlus_stops (ok : ascii -> bool) (stop : string -> bool) (s : string) (k : nat) :
  lazyPlus ok stop s = Some k -> 1 <= k /\ stop (dropStr k s) = true.
Proof.
  revert k. induction s as [|c r IH]; intros k H; [discriminate|].
  cbn [lazyPlus] in H. destruct (ok c); [|discriminate].
  destruct (stop r) eqn:Es.
  - replace k with 1 by congruence. split; [lia|]. exact Es.
  - destruct (lazyPlus ok stop r) as [j|]; [|discriminate].
    replace k with (S j) by congruence. split; [lia|].
    cbn [dropStr]. now apply IH.
Qed.

Lemma startsWith_head (a : ascii) (o s : string) :
  startsWith (String a o) s = true -> exists r, s = String a r.
Proof.
  destruct s as [|b r]; [discriminate|]. cbn [startsWith].
  intros [H _]%andb_true_iff. apply Ascii.eqb_eq in H. subst b. now exists r.
Qed.

Lemma restoreInlineCode_tagsOk (codes : list string) (idx : string) :
  tagsOk (restoreInlineCode codes idx) = true.
Proof.
  unfold restoreInlineCode.
  apply (tagsOk_append "<code>"); [reflexivity|].
  apply tagsOk_append; [|reflexivity].
  apply no_bracket_tagsOk, escapeHtml_no_bracket.
Qed.

Lemma placeholder_start (kind : string) (c : ascii) (r : string) m len :
  matchPlaceholder kind (String c r) = Some (m, len) -> tagChar c = false.
Proof.
  unfold matchPlaceholder. destruct (startsWith _ _) eqn:E; [|discriminate].
  intros _. apply startsWith_head in E as [r' E]. now replace c with NUL by congruence.
Qed.

Lemma bold_start prev (c : ascii) (r : string) m len :
  matchBold prev (String c r) = Some (m, len) -> tagChar c = false.
Proof.
  unfold matchBold. destruct (startsWith _ _) eqn:E; [|discriminate].
  intros _. apply startsWith_head in E as [r' E]. now replace c with "*"%char by congruence.
Qed.

Lemma bold_replaced prev (s : string) m len :
  matchBold prev s = Some (m, len) -> tagsOk s = true ->
  tagsOk ("<strong>" ++ m ++ "</strong>") = true.
Proof.
  unfold matchBold. destruct (startsWith _ _); [|discriminate].
  destruct (lazyPlus _ _ _) as [k|] eqn:El; [|discriminate].
  intros E Hs. replace m with (takeStr k (dropStr 2 s)) by congruence.
  apply lazyPlus_stops in El as [_ Hstop].
  apply startsWith_head in Hstop as [r' Hr].
  apply (tagsOk_append "<strong>"); [reflexivity|].
  apply tagsOk_append; [|reflexivity].
  apply (tagsOk_take k _ "*" r'); [now apply tagsOk_dropStr | exact Hr | reflexivity].
Qed.

Lemma italic_start prev (c : ascii) (r : string) m len :
  matchItalic prev (String c r) = Some (m, len) -> tagChar c = false.
Proof.
  unfold matchItalic. destruct (negb _ && startsWith _ _) eqn:E; [|discriminate].
  intros _. apply andb_true_iff in E as [_ E].
  apply startsWith_head in E as [r' E]. now replace c with "*"%char by congruence.
Qed.

Lemma italic_replaced prev (s : string) m len :
  matchItalic prev s = Some (m, len) -> tagsOk s = true ->
  tagsOk ("<em>" ++ m ++ "</em>") = true.
Proof.
  unfold matchItalic. destruct (negb _ && startsWith _ _); [|discriminate].
  destruct (lazyPlus _ _ _) as [k|] eqn:El; [|discriminate].
  intros E Hs. replace m with (takeStr k (dropStr 1 s)) by congruence.
  apply lazyPlus_stops in El as [_ Hstop].
  apply andb_true_iff in Hstop as [Hstop _].
  apply startsWith_head in Hstop as [r' Hr].
  apply (tagsOk_append "<em>"); [reflexivity|].
  apply tagsOk_append; [|reflexivity].
  apply (tagsOk_take k _ "*" r'); [now apply tagsOk_dropStr | exact Hr | reflexivity].
Qed.

Lemma link_start prev (c : ascii) (r : string) m len :
  matchLink prev (String c r) = Some (m, len) -> tagChar c = false.
Proof.
  unfold matchLink. destruct (startsWith _ _) eqn:E; [|discriminate].
  intros _. apply startsWith_head in E as [r' E]. now replace c with "["%char by congruence.
Qed.

Lemma link_replaced prev (s : string) m len :
  matchLink prev s = Some (m, len) -> tagsOk s = true ->
  tagsOk ("<a href=" ++ quoted (snd m) ++ " target=" ++ quoted "_blank"
            ++ " rel=" ++ quoted "noopener" ++ ">" ++ fst m ++ "</a>") = true.
Proof.
  unfold matchLink. destruct (startsWith "[" s); [|discriminate].
  set (r := dropStr 1 s). set (k := spanLen _ r).
  destruct ((1 <=? k)%nat && startsWith "](" (dropStr k r)) eqn:E1; [|discriminate].
  set (r2 := dropStr (k + 2) r). set (j := spanLen _ r2).
  destruct ((1 <=? j)%nat && startsWith ")" (dropStr j r2)) eqn:E2; [|discriminate].
  intros E Hs. replace m with (takeStr k r, takeStr j r2) by congruence.
  cbn [fst snd].
  apply andb_true_iff in E1 as [_ E1]. apply startsWith_head in E1 as [x1 E1].
  apply andb_true_iff in E2 as [_ E2]. apply startsWith_head in E2 as [x2 E2].
  assert (Hr : tagsOk r = true) by now apply tagsOk_dropStr.
  assert (Hr2 : tagsOk r2 = true) by now apply tagsOk_dropStr.
  assert (H1 : tagsOk (takeStr k r) = true)
    by (apply (tagsOk_take k r "]" x1); [exact Hr | exact E1 | reflexivity]).
  assert (H2 : tagsOk (takeStr j r2) = true)
    by (apply (tagsOk_take j r2 ")" x2); [exact Hr2 | exact E2 | reflexivity]).
  apply (tagsOk_append "<a href="); [reflexivity|].
  apply tagsOk_append.
  { unfold quoted. apply (tagsOk_append (chr DQ)); [reflexivity|].
    apply tagsOk_append; [exact H2 | reflexivity]. }
  apply (tagsOk_append " target="); [reflexivity|].
  apply tagsOk_append; [reflexivity|].
  apply (tagsOk_append " rel="); [reflexivity|].
  apply tagsOk_append; [reflexivity|].
  apply (tagsOk_append ">"); [reflexivity|].
  apply tagsOk_append; [exact H1 | reflexivity].
Qed.

Lemma br_start prev (c : ascii) (r : string) m len :
  matchEscapedBr prev (String c r) = Some (m, len) -> tagChar c = false.
Proof.
  unfold matchEscapedBr. destruct (startsWith _ _) eqn:E; [|discriminate].
  intros _. apply startsWith_head in E as [r' E]. now replace c with "&"%char by congruence.
Qed.

(** Whatever the text and the stored code spans are, every [<] that
    [inlineFormat] writes starts a known opening. *)
Lemma inlineFormat_tagsOk (text : string) (codes : list string) :
  tagsOk (inlineFormat text codes) = true.
Proof.
  unfold inlineFormat.
  apply replaceAll_tagsOk; [exact br_start | reflexivity |].
  apply replaceAll_tagsOk; [exact link_start | intros; eapply link_replaced; eauto |].
  apply replaceAll_tagsOk; [exact italic_start | intros; eapply italic_replaced; eauto |].
  apply replaceAll_tagsOk; [exact bold_start | intros; eapply bold_replaced; eauto |].
  apply replaceAll_tagsOk;
    [intros prev c r m len; apply placeholder_start
    | intros; apply restoreInlineCode_tagsOk |].
  apply no_bracket_tagsOk, escapeHtml_no_bracket.
Qed.

Lemma buildList_tagsOk (lines codes : list string) (fuel : nat) :
  (forall i html e, buildListHTML fuel lines i codes = Some (html, e) ->
                    tagsOk html = true)
  /\ (forall b h i h' e, tagsOk h = true ->
                         buildListLoop fuel lines codes b h i = Some (h', e) ->
                         tagsOk h' = true).
Proof.
  induction fuel as [|f [IHb IHl]]; [split; intros; discriminate|]. split.
  - intros i html e. cbn [buildListHTML].
    destruct (nth_error lines i) as [first|]; [|intros [= <- _]; reflexivity].
    destruct (buildListLoop f lines codes _ _ i) as [[h j]|] eqn:El; [|discriminate].
    intros E. replace html with (h ++ "</" ++ (if isOrderedLine first then "ol" else "ul") ++ ">")
      by congruence.
    apply IHl in El; [|now destruct (isOrderedLine first)].
    apply tagsOk_append; [exact El | now destruct (isOrderedLine first)].
  - intros b h i h' e Hh. cbn [buildListLoop].
    destruct (nth_error lines i) as [line|]; [|intros E; now replace h' with h by congruence].
    destruct (getIndent line <? b)%nat; [intros E; now replace h' with h by congruence|].
    assert (Hli : tagsOk (h ++ "<li>" ++ inlineFormat (stripMarkers line) codes) = true).
    { apply tagsOk_append; [exact Hh|].
      apply (tagsOk_append "<li>"); [reflexivity | apply inlineFormat_tagsOk]. }
    destruct (getIndent line =? b)%nat.
    + destruct (match nth_error lines (i + 1) with Some _ => _ | None => _ end).
      * destruct (buildListHTML f lines (i + 1) codes) as [[nested j]|] eqn:En;
          [|discriminate].
        apply IHl. apply tagsOk_append; [exact Hli|].
        apply tagsOk_append; [exact (IHb _ _ _ En) | reflexivity].
      * apply IHl. now apply tagsOk_append.
    + destruct (buildListHTML f lines i codes) as [[nested j]|] eqn:En; [|discriminate].
      apply IHl. apply tagsOk_append; [exact Hh | exact (IHb _ _ _ En)].
Qed.

Lemma parseList_tagsOk (lines codes : list string) (i : nat) (html : string) :
  parseList lines i codes = Some html -> tagsOk html = true.
Proof.
  unfold parseList. destruct (buildListHTML _ _ 0 codes) as [[h e]|] eqn:E; [|discriminate].
  intros Eh. replace html with h by congruence.
  exact (proj1 (buildList_tagsOk _ _ _) _ _ _ E).
Qed.

Lemma word_tagsOk (s : string) : allChars isWord s = true -> tagsOk s = true.
Proof.
  intros H. apply no_bracket_tagsOk. revert H.
  induction s as [|c r IH]; [reflexivity|]. cbn [allChars].
  intros [Hc Hr]%andb_true_iff. rewrite (IH Hr), andb_true_r.
  unfold notChar. destruct (Ascii.eqb c "<") eqn:E; [|reflexivity].
  apply Ascii.eqb_eq in E. now subst c.
Qed.

Lemma quoted_word_tagsOk (s : string) :
  allChars (notChar "<") s = true -> tagsOk (quoted s) = true.
Proof.
  intros H. unfold quoted. apply (tagsOk_append (chr DQ)); [reflexivity|].
  apply tagsOk_append; [now apply no_bracket_tagsOk | reflexivity].
Qed.

Lemma word_no_bracket (s : string) :
  allChars isWord s = true -> allChars (notChar "<") s = true.
Proof.
  induction s as [|c r IH]; [reflexivity|]. cbn [allChars].
  intros [Hc Hr]%andb_true_iff. rewrite (IH Hr), andb_true_r.
  unfold notChar. destruct (Ascii.eqb c "<") eqn:E; [|reflexivity].
  apply Ascii.eqb_eq in E. now subst c.
Qed.

Lemma codeBlockHtml_tagsOk (cb : CodeBlock) :
  allChars isWord (language cb) = true -> tagsOk (codeBlockHtml cb) = true.
Proof.
  intros Hl. unfold codeBlockHtml.
  apply (tagsOk_append "<div class="); [reflexivity|].
  apply tagsOk_append; [reflexivity|].
  apply (tagsOk_append "><div class="); [reflexivity|].
  apply tagsOk_append; [reflexivity|].
  apply (tagsOk_append "><span class="); [reflexivity|].
  apply tagsOk_append; [reflexivity|].
  apply (tagsOk_append ">"); [reflexivity|].
  apply tagsOk_append; [now apply word_tagsOk|].
  apply (tagsOk_append "</span><button class="); [reflexivity|].
  apply tagsOk_append; [reflexivity|].
  apply (tagsOk_append ">Copy code</button></div><pre><code class="); [reflexivity|].
  apply tagsOk_append.
  { apply quoted_word_tagsOk. rewrite allChars_append.
    now rewrite (word_no_bracket _ Hl). }
  apply (tagsOk_append ">"); [reflexivity|].
  apply tagsOk_append; [|reflexivity].
  apply no_bracket_tagsOk, escapeHtml_no_bracket.
Qed.

Lemma Forall_snoc {A : Type} (P : A -> Prop) (l : list A) (x : A) :
  List.Forall P l -> P x -> List.Forall P (l ++ [x])%list.
Proof.
  intros Hl Hx. apply List.Forall_app. split; [exact Hl|].
  constructor; [exact Hx | constructor].
Qed.

Lemma blockLoop_tagsOk (cbs : list CodeBlock) (codes lines : list string) :
  List.Forall (fun cb => allChars isWord (language cb) = true) cbs ->
  forall fuel i blocks out,
    List.Forall (fun b => tagsOk b = true) blocks ->
    blockLoop fuel cbs codes lines i blocks = Returned out ->
    List.Forall (fun b => tagsOk b = true) out.
Proof.
  intros Hcb. induction fuel as [|f IH]; intros i blocks out Hb; [discriminate|].
  cbn [blockLoop].
  destruct (nth_error lines i) as [line|];
    [|intros E; now replace out with blocks by congruence].
  destruct (matchCodeLine line) as [digits|].
  { destruct (nth_error cbs (parseInt digits)) as [cb|] eqn:Ecb; [|discriminate].
    apply IH. apply Forall_snoc; [exact Hb|].
    apply codeBlockHtml_tagsOk.
    apply nth_error_In in Ecb.
    exact (proj1 (List.Forall_forall _ _) Hcb cb Ecb). }
  destruct (matchHeading line) as [[lvl text]|].
  { apply IH. apply Forall_snoc; [exact Hb|].
    assert (Ht : headingTag lvl = "h2" \/ headingTag lvl = "h3" \/ headingTag lvl = "h4").
    { unfold headingTag. destruct (lvl =? 1)%nat; [auto|].
      destruct (lvl <=? 3)%nat; auto. }
    assert (Hi := inlineFormat_tagsOk text codes).
    destruct Ht as [-> | [-> | ->]].
    - apply (tagsOk_append "<h2>"); [reflexivity|]. now apply tagsOk_append.
    - apply (tagsOk_append "<h3>"); [reflexivity|]. now apply tagsOk_append.
    - apply (tagsOk_append "<h4>"); [reflexivity|]. now apply tagsOk_append. }
  destruct (isRule line).
  { apply IH. now apply Forall_snoc. }
  destruct (isQuoteLine line).
  { apply IH. apply Forall_snoc; [exact Hb|].
    apply (tagsOk_append "<blockquote>"); [reflexivity|].
    apply tagsOk_append; [apply inlineFormat_tagsOk | reflexivity]. }
  destruct (isListLine line).
  { destruct (parseList lines i codes) as [html|] eqn:Ep; [|discriminate].
    apply IH. apply Forall_snoc; [exact Hb|]. exact (parseList_tagsOk _ _ _ _ Ep). }
  destruct (isBlank line); [now apply IH|].
  destruct (runLength _ _) as [|n]; [discriminate|].
  apply IH. apply Forall_snoc; [exact Hb|].
  apply (tagsOk_append "<p>"); [reflexivity|].
  apply tagsOk_append; [apply inlineFormat_tagsOk | reflexivity].
Qed.

Lemma join_tagsOk (blocks : list string) :
  List.Forall (fun b => tagsOk b = true) blocks -> tagsOk (join nl blocks) = true.
Proof.
  induction blocks as [|b [|b' r] IH]; intros H; [reflexivity | |].
  - cbn [join]. exact (List.Forall_inv H).
  - change (join nl (b :: b' :: r)) with (b ++ nl ++ join nl (b' :: r)).
    apply tagsOk_append; [exact (List.Forall_inv H)|].
    apply (tagsOk_append nl); [reflexivity|].
    apply IH. exact (List.Forall_inv_tail H).
Qed.

Lemma fence_languages (s : string) :
  forall prev k,
    List.Forall (fun m : string * string => allChars isWord (fst m) = true)
                (hits (scan matchFence prev k s)).
Proof.
  induction s as [|c r IH]; intros prev k; [constructor|].
  cbn [scan]. destruct k as [|k]; [|apply IH].
  destruct (matchFence prev (String c r)) as [[m len]|] eqn:Em.
  - cbn [hits]. constructor; [|apply IH].
    revert Em. unfold matchFence. destruct (startsWith _ _); [|discriminate].
    destruct (dropStr (spanLen isWord _) _) as [|c' body]; [discriminate|].
    destruct (isLF c'); [|discriminate].
    destruct (indexOf _ body) as [j|]; [|discriminate].
    intros E. replace m with (takeStr (spanLen isWord (dropStr 3 (String c r)))
                                      (dropStr 3 (String c r)), takeStr j body)
      by congruence.
    exact (proj1 (takeStr_span _ _)).
  - cbn [hits]. apply IH.
Qed.

Lemma tagsOk_at (s : string) :
  tagsOk s = true ->
  forall k r, dropStr k s = String "<" r ->
              exists o, In o knownTags /\ startsWith o (dropStr k s) = true.
Proof.
  induction s as [|c x IH]; intros H k r E; [now destruct k|].
  cbn [tagsOk] in H. apply andb_true_iff in H as [H1 H2].
  destruct k as [|k]; [|exact (IH H2 k r E)].
  cbn [dropStr] in *. replace c with "<"%char in * by congruence.
  cbn [Ascii.eqb Bool.eqb negb orb] in H1.
  apply existsb_exists in H1 as (o & Ho & Hs). now exists o.
Qed.

(** X23.  Whatever the message text is, when [renderMarkdown] returns, every
    [<] of the markup it returns starts one of the openings that the
    renderer itself writes ([<p>], [<h2>], [<ul>], [<li>], [<code>],
    [<strong>], [<a href=], [<br>], ..., the list [knownTags]): the text
    is escaped before any pattern is applied, a pattern starts and ends at
    characters that no opening contains, and the language of a code block
    consists of word characters.  So no text of a message opens an element
    of its own, a [script] or [img] element for instance, in the viewer. *)
Theorem rendering_opens_known_elements (raw html : string) :
  renderMarkdown raw = Returned html ->
  forall k r, dropStr k html = String "<" r ->
              exists o, In o knownTags /\ startsWith o (dropStr k html) = true.
Proof.
  unfold renderMarkdown.
  destruct (blockLoop _ _ _ _ 0 []) as [blocks| | |] eqn:E; try discriminate.
  intros Eh. replace html with (join nl blocks) by congruence.
  apply tagsOk_at, join_tagsOk.
  refine (blockLoop_tagsOk _ _ _ _ _ _ _ _ (List.Forall_nil _) E).
  apply List.Forall_forall. intros cb Hin.
  apply List.in_map_iff in Hin as (m & <- & Hm).
  pose proof (proj1 (List.Forall_forall _ _) (fence_languages raw None 0) m Hm) as Hw.
  unfold toCodeBlock. cbn [language].
  destruct (String.eqb (fst m) ""); [reflexivity | exact Hw].
Qed.

Lemma rendering_opens_known_elements_witness :
  let raw := "<img src=x onerror=alert(1)> **bold** and `<b>`" in
  let html := "<p>&lt;img src=x onerror=alert(1)&gt; <strong>bold</strong> and "
                ++ "<code>&lt;b&gt;</code></p>" in
  renderMarkdown raw = Returned html
  /\ forall k r, dropStr k html = String "<" r ->
                 exists o, In o knownTags /\ startsWith o (dropStr k html) = true.
Proof.
  intros raw html.
  split; [vm_compute; reflexivity|].
  apply (rendering_opens_known_elements raw html). vm_compute; reflexivity.
Defined.

(** ** One inline element in a line of text *)

Lemma inlineFormat_steps (text : string) (codes : list string) :
  inlineFormat text codes
  = formatEscaped (replaceAll matchInlinePlaceholder
                     (fun _ idx => restoreInlineCode codes idx) (escapeHtml text)).
Proof. reflexivity. Qed.

Lemma soft_chars (c : ascii) :
  soft c = true ->
  notChar "&" c = true /\ notChar "*" c = true /\ notChar "[" c = true
  /\ notChar NUL c = true /\ notTerminator c = true.
Proof.
  unfold soft, notChar, notTerminator, isLineTerminator. cbn [existsb].
  intros H%negb_true_iff.
  repeat (apply orb_false_iff in H as [? H]).
  repeat split; try now apply negb_true_iff.
  apply negb_true_iff. apply orb_false_iff. now split.
Qed.

Lemma soft_weaken (x : ascii) (s : string) :
  In x ["&"; "*"; "["; NUL]%char ->
  allChars soft s = true -> allChars (notChar x) s = true.
Proof.
  intros Hx. apply allChars_weaken. intros c Hc.
  destruct (soft_chars c Hc) as (?&?&?&?&?).
  cbn [In] in Hx. intuition (subst; assumption).
Qed.

Lemma inert_soft (s : string) : allChars inert s = true -> allChars soft s = true.
Proof.
  apply allChars_weaken. intros c Hc.
  destruct (inert_chars c Hc) as (H1&_&_&H4&H5&_&H7&H8&H9&_).
  unfold soft, notChar in *. cbn [existsb].
  apply negb_true_iff in H1, H4, H5, H7, H8, H9.
  now rewrite H1, H4, H5, H7, H8, H9.
Qed.

Lemma allChars_three (p : ascii -> bool) (a m b : string) :
  allChars p a = true -> allChars p m = true -> allChars p b = true ->
  allChars p (a ++ m ++ b) = true.
Proof. intros Ha Hm Hb. now rewrite !allChars_append, Ha, Hm, Hb. Qed.

Lemma lits_app {M : Type} (a b : string) :
  @lits M (a ++ b) = (lits a ++ lits b)%list.
Proof. induction a as [|c r IH]; [reflexivity|]. cbn [String.append lits app]. now rewrite IH. Qed.

Lemma scan_skip_prefix {M : Type}
      (matchAt : option ascii -> string -> option (M * nat)) (x s : string) :
  forall prev, exists prev',
    scan matchAt prev (String.length x) (x ++ s) = scan matchAt prev' 0 s.
Proof.
  induction x as [|c r IH]; intros prev; [exists prev; now destruct s|].
  cbn [String.length String.append scan]. apply IH.
Qed.

Section OneHit.

Context {M : Type}.
Variable matchAt : option ascii -> string -> option (M * nat).
Variable p : ascii -> bool.
Variable q : option ascii -> Prop.

Hypothesis passes_by :
  forall prev c r, p c = true -> matchAt prev (String c r) = None.
Hypothesis behind : forall c, p c = true -> q (Some c).

(** A text with one match, between two stretches that the search passes
    by. *)
Lemma scan_one_hit (pre mid post : string) (m : M) :
  allChars p pre = true -> allChars p post = true -> mid <> "" ->
  (forall prev, q prev -> matchAt prev (mid ++ post) = Some (m, String.length mid)) ->
  forall prev, q prev ->
    scan matchAt prev 0 (pre ++ mid ++ post) = (lits pre ++ Hit m :: lits post)%list.
Proof.
  intros Hpre Hpost Hmid Hm. induction pre as [|c r IH]; intros prev Hq.
  - destruct mid as [|c r]; [contradiction|].
    specialize (Hm prev Hq). cbn [String.append] in *. cbn [scan lits app].
    rewrite Hm. cbn [String.length Nat.sub]. rewrite Nat.sub_0_r.
    destruct (scan_skip_prefix matchAt r post (Some c)) as [prev' ->].
    now rewrite (scan_untouched matchAt p passes_by post prev' Hpost).
  - cbn [allChars] in Hpre. apply andb_true_iff in Hpre as [Hc Hr].
    cbn [String.append scan lits app]. rewrite (passes_by prev c _ Hc).
    now rewrite (IH Hr (Some c) (behind c Hc)).
Qed.

Lemma replaceAll_one_hit (f : nat -> M -> string) (pre mid post : string) (m : M) :
  q None ->
  allChars p pre = true -> allChars p post = true -> mid <> "" ->
  (forall prev, q prev -> matchAt prev (mid ++ post) = Some (m, String.length mid)) ->
  replaceAll matchAt f (pre ++ mid ++ post) = pre ++ f 0 m ++ post.
Proof.
  intros Hq Hpre Hpost Hmid Hm. unfold replaceAll.
  rewrite (scan_one_hit pre mid post m Hpre Hpost Hmid Hm None Hq).
  rewrite assemble_app. cbn [assemble]. now rewrite assemble_lits.
Qed.

End OneHit.

Lemma lazyPlus_exact (ok p : ascii -> bool) (stop : string -> bool)
      (t rest : string) :
  t <> "" -> allChars ok t = true -> allChars p t = true ->
  (forall c r, p c = true -> stop (String c r) = false) ->
  stop rest = true ->
  lazyPlus ok stop (t ++ rest) = Some (String.length t).
Proof.
  intros Hne Hok Hp Hstop Hrest. induction t as [|c r IH]; [contradiction|].
  cbn [allChars] in Hok, Hp.
  apply andb_true_iff in Hok as [Hc Hok]. apply andb_true_iff in Hp as [_ Hp].
  cbn [String.append lazyPlus String.length]. rewrite Hc.
  destruct r as [|c' r'].
  - cbn [String.append]. now rewrite Hrest.
  - cbn [allChars] in Hp. pose proof Hp as Hp'. apply andb_true_iff in Hp' as [Hc' _].
    change (String c' r' ++ rest) with (String c' (r' ++ rest)).
    rewrite (Hstop c' _ Hc').
    change (String c' (r' ++ rest)) with (String c' r' ++ rest).
    now rewrite (IH ltac:(discriminate) Hok Hp).
Qed.

Lemma soft_not_terminator (s : string) :
  allChars soft s = true -> allChars (fun c => negb (isLineTerminator c)) s = true.
Proof.
  apply allChars_weaken. intros c Hc. exact (proj2 (proj2 (proj2 (proj2 (soft_chars c Hc))))).
Qed.

Lemma head_not_star (post : string) :
  allChars (notChar "*") post = true -> startsWith "*" post = false.
Proof.
  destruct post as [|c r]; [reflexivity|]. cbn [allChars startsWith].
  intros [H _]%andb_true_iff. unfold notChar in H.
  rewrite (Ascii.eqb_sym "*" c). now destruct (Ascii.eqb c "*").
Qed.

Lemma star_stops (c : ascii) (r o : string) :
  notChar "*" c = true -> startsWith (String "*" o) (String c r) = false.
Proof.
  intros Hc. unfold notChar in Hc. cbn [startsWith].
  rewrite (Ascii.eqb_sym "*" c). now destruct (Ascii.eqb c "*").
Qed.

Lemma matchBold_exact (prev : option ascii) (t post : string) :
  t <> "" -> allChars soft t = true ->
  matchBold prev (("**" ++ t ++ "**") ++ post)
  = Some (t, String.length ("**" ++ t ++ "**")).
Proof.
  intros Hne Ht.
  pose proof (lazyPlus_exact (fun c => negb (isLineTerminator c)) (notChar "*")
                (startsWith "**") t ("**" ++ post) Hne
                (soft_not_terminator t Ht)
                (soft_weaken "*" t ltac:(cbn [In]; auto) Ht)
                (fun c r Hc => star_stops c r "*" Hc) eq_refl) as Hl.
  unfold matchBold.
  replace (("**" ++ t ++ "**") ++ post) with ("**" ++ t ++ "**" ++ post)
    by now norm_append.
  change (startsWith "**" ("**" ++ t ++ "**" ++ post)) with true.
  change (dropStr 2 ("**" ++ t ++ "**" ++ post)) with (t ++ "**" ++ post).
  cbv beta iota zeta. rewrite Hl, takeStr_app.
  cbn [String.length String.append]. rewrite length_append.
  cbn [String.length]. f_equal; f_equal; lia.
Qed.

Lemma matchItalic_exact (prev : option ascii) (t post : string) :
  match prev with Some c => isStar c = false | None => True end ->
  t <> "" -> allChars soft t = true -> allChars (notChar "*") post = true ->
  matchItalic prev (("*" ++ t ++ "*") ++ post)
  = Some (t, String.length ("*" ++ t ++ "*")).
Proof.
  intros Hprev Hne Ht Hpost.
  assert (Hstar : allChars (notChar "*") t = true)
    by exact (soft_weaken "*" t ltac:(cbn [In]; auto) Ht).
  assert (Hend : (startsWith "*" ("*" ++ post)
                  && negb (startsWith "*" (dropStr 1 ("*" ++ post)))) = true).
  { change (dropStr 1 ("*" ++ post)) with post.
    rewrite (head_not_star post Hpost). reflexivity. }
  pose proof (lazyPlus_exact (fun c => negb (isStar c)) (notChar "*")
                (fun t' => startsWith "*" t' && negb (startsWith "*" (dropStr 1 t')))
                t ("*" ++ post) Hne Hstar Hstar
                (fun c r Hc => eq_trans (f_equal (fun b => b && _) (star_stops c r "" Hc))
                                        eq_refl) Hend) as Hl.
  unfold matchItalic.
  assert (Hb : negb (match prev with Some c => isStar c | None => false end) = true)
    by (destruct prev as [c|]; [now rewrite Hprev | reflexivity]).
  rewrite Hb.
  replace (("*" ++ t ++ "*") ++ post) with ("*" ++ t ++ "*" ++ post)
    by now norm_append.
  change (startsWith "*" ("*" ++ t ++ "*" ++ post)) with true.
  change (dropStr 1 ("*" ++ t ++ "*" ++ post)) with (t ++ "*" ++ post).
  cbv beta iota zeta. cbn [andb]. rewrite Hl, takeStr_app.
  cbn [String.length String.append]. rewrite length_append.
  cbn [String.length]. f_equal; f_equal; lia.
Qed.

Lemma dropStr_length (a x : string) : dropStr (String.length a) (a ++ x) = x.
Proof.
  pose proof (dropStr_app a x 0) as H. now rewrite Nat.add_0_r in H.
Qed.

Lemma matchLink_exact (prev : option ascii) (t u post : string) :
  t <> "" -> allChars (notChar "]") t = true ->
  u <> "" -> allChars (notChar ")") u = true ->
  matchLink prev (("[" ++ t ++ "](" ++ u ++ ")") ++ post)
  = Some ((t, u), String.length ("[" ++ t ++ "](" ++ u ++ ")")).
Proof.
  intros Ht0 Ht Hu0 Hu.
  destruct (spanLen_stops (fun c => negb (Ascii.eqb c "]")) t "]"
              ("(" ++ u ++ ")" ++ post) Ht eq_refl) as [Hk Htk].
  destruct (spanLen_stops (fun c => negb (Ascii.eqb c ")")) u ")" post Hu eq_refl)
    as [Hj Huj].
  pose proof (dropStr_length t ("](" ++ u ++ ")" ++ post)) as Hd1.
  pose proof (dropStr_app t ("](" ++ u ++ ")" ++ post) 2) as Hd2.
  change (dropStr 2 ("](" ++ u ++ ")" ++ post)) with (u ++ ")" ++ post) in Hd2.
  pose proof (dropStr_length u (")" ++ post)) as Hd3.
  assert (H1 : (1 <=? String.length t)%nat = true)
    by (destruct t; [contradiction | reflexivity]).
  assert (H2 : (1 <=? String.length u)%nat = true)
    by (destruct u; [contradiction | reflexivity]).
  unfold matchLink.
  replace (("[" ++ t ++ "](" ++ u ++ ")") ++ post)
    with ("[" ++ t ++ "](" ++ u ++ ")" ++ post) by now norm_append.
  change (startsWith "[" ("[" ++ t ++ "](" ++ u ++ ")" ++ post)) with true.
  change (dropStr 1 ("[" ++ t ++ "](" ++ u ++ ")" ++ post))
    with (t ++ "](" ++ u ++ ")" ++ post).
  cbv beta iota zeta.
  change (t ++ "](" ++ u ++ ")" ++ post) with (t ++ String "]" ("(" ++ u ++ ")" ++ post)).
  rewrite Hk, Htk.
  change (t ++ String "]" ("(" ++ u ++ ")" ++ post)) with (t ++ "](" ++ u ++ ")" ++ post).
  rewrite Hd1, Hd2, H1.
  change (startsWith "](" ("](" ++ u ++ ")" ++ post)) with true. cbn [andb].
  change (u ++ ")" ++ post) with (u ++ String ")" post).
  rewrite Hj, Huj.
  change (u ++ String ")" post) with (u ++ ")" ++ post).
  rewrite Hd3, H2.
  change (startsWith ")" (")" ++ post)) with true. cbn [andb].
  f_equal. f_equal.
  cbn [String.length String.append]. rewrite !length_append. cbn [String.length].
  rewrite !length_append. cbn [String.length]. lia.
Qed.

Lemma formatEscaped_plain (s : string) :
  allChars soft s = true -> formatEscaped s = s.
Proof.
  intros H. unfold formatEscaped.
  rewrite (replaceAll_untouched matchBold _ (notChar "*") bold_trigger)
    by (apply soft_weaken; [cbn [In]; auto | exact H]).
  rewrite (replaceAll_untouched matchItalic _ (notChar "*") italic_trigger)
    by (apply soft_weaken; [cbn [In]; auto | exact H]).
  rewrite (replaceAll_untouched matchLink _ (notChar "[") link_trigger)
    by (apply soft_weaken; [cbn [In]; auto | exact H]).
  apply (replaceAll_untouched matchEscapedBr _ (notChar "&") escapedBr_trigger).
  apply soft_weaken; [cbn [In]; auto | exact H].
Qed.

Lemma formatEscaped_bold (pre t post : string) :
  allChars soft pre = true -> t <> "" -> allChars soft t = true ->
  allChars soft post = true ->
  formatEscaped (pre ++ ("**" ++ t ++ "**") ++ post)
  = pre ++ ("<strong>" ++ t ++ "</strong>") ++ post.
Proof.
  intros Hpre Hne Ht Hpost. unfold formatEscaped.
  rewrite (replaceAll_one_hit matchBold (notChar "*") (fun _ => True) bold_trigger
             (fun _ _ => I) _ pre ("**" ++ t ++ "**") post t I
             (soft_weaken "*" pre ltac:(cbn [In]; auto) Hpre)
             (soft_weaken "*" post ltac:(cbn [In]; auto) Hpost)
             ltac:(discriminate)
             (fun prev _ => matchBold_exact prev t post Hne Ht)).
  assert (Hs : allChars soft (pre ++ ("<strong>" ++ t ++ "</strong>") ++ post) = true).
  { apply allChars_three; [exact Hpre | | exact Hpost].
    now apply (allChars_three soft "<strong>" t "</strong>"). }
  rewrite (replaceAll_untouched matchItalic _ (notChar "*") italic_trigger)
    by (apply soft_weaken; [cbn [In]; auto | exact Hs]).
  rewrite (replaceAll_untouched matchLink _ (notChar "[") link_trigger)
    by (apply soft_weaken; [cbn [In]; auto | exact Hs]).
  apply (replaceAll_untouched matchEscapedBr _ (notChar "&") escapedBr_trigger).
  apply soft_weaken; [cbn [In]; auto | exact Hs].
Qed.

Lemma bold_passes_single_stars {M : Type} (f : nat -> string -> string)
      (pre t post : string) :
  allChars soft pre = true -> t <> "" -> allChars soft t = true ->
  allChars soft post = true ->
  replaceAll matchBold f (pre ++ ("*" ++ t ++ "*") ++ post)
  = pre ++ ("*" ++ t ++ "*") ++ post.
Proof.
  intros Hpre Hne Ht Hpost. unfold replaceAll.
  pose proof (fun s => soft_weaken "*" s ltac:(cbn [In]; auto)) as Hw.
  assert (Hscan : scan matchBold None 0 (pre ++ ("*" ++ t ++ "*") ++ post)
                  = lits (pre ++ ("*" ++ t ++ "*") ++ post));
    [|rewrite Hscan; apply assemble_lits].
  destruct (scan_untouched_prefix matchBold (notChar "*") bold_trigger pre
              (("*" ++ t ++ "*") ++ post) None (Hw pre Hpre)) as [p1 ->].
  rewrite lits_app. f_equal.
  replace (("*" ++ t ++ "*") ++ post) with (String "*" (t ++ String "*" post))
    by now norm_append.
  assert (H1 : matchBold p1 (String "*" (t ++ String "*" post)) = None).
  { unfold matchBold. destruct t as [|c r]; [contradiction|].
    cbn [allChars] in Ht. apply andb_true_iff in Ht as [Hc _].
    destruct (soft_chars c Hc) as (_ & Hstar & _).
    change (startsWith "**" (String "*" (String c r ++ String "*" post)))
      with (startsWith "*" (String c (r ++ String "*" post))).
    now rewrite (star_stops c _ "" Hstar). }
  cbn [scan lits]. rewrite H1. f_equal.
  destruct (scan_untouched_prefix matchBold (notChar "*") bold_trigger t
              (String "*" post) (Some "*"%char) (Hw t Ht)) as [p2 ->].
  rewrite lits_app. f_equal.
  assert (H2 : matchBold p2 (String "*" post) = None).
  { unfold matchBold.
    change (startsWith "**" (String "*" post)) with (startsWith "*" post).
    now rewrite (head_not_star post (Hw post Hpost)). }
  cbn [scan lits]. rewrite H2. f_equal.
  apply (scan_untouched matchBold (notChar "*") bold_trigger). exact (Hw post Hpost).
Qed.

Lemma formatEscaped_italic (pre t post : string) :
  allChars soft pre = true -> t <> "" -> allChars soft t = true ->
  allChars soft post = true ->
  formatEscaped (pre ++ ("*" ++ t ++ "*") ++ post)
  = pre ++ ("<em>" ++ t ++ "</em>") ++ post.
Proof.
  intros Hpre Hne Ht Hpost. unfold formatEscaped.
  pose proof (fun s => soft_weaken "*" s ltac:(cbn [In]; auto)) as Hw.
  rewrite (bold_passes_single_stars (M := string) _ pre t post Hpre Hne Ht Hpost).
  rewrite (replaceAll_one_hit matchItalic (notChar "*")
             (fun prev => match prev with Some c => isStar c = false | None => True end)
             italic_trigger
             (fun c Hc => proj1 (negb_true_iff _) Hc)
             _ pre ("*" ++ t ++ "*") post t I (Hw pre Hpre) (Hw post Hpost)
             ltac:(discriminate)
             (fun prev Hq => matchItalic_exact prev t post Hq Hne Ht (Hw post Hpost))).
  assert (Hs : allChars soft (pre ++ ("<em>" ++ t ++ "</em>") ++ post) = true).
  { apply allChars_three; [exact Hpre | | exact Hpost].
    now apply (allChars_three soft "<em>" t "</em>"). }
  rewrite (replaceAll_untouched matchLink _ (notChar "[") link_trigger)
    by (apply soft_weaken; [cbn [In]; auto | exact Hs]).
  apply (replaceAll_untouched matchEscapedBr _ (notChar "&") escapedBr_trigger).
  apply soft_weaken; [cbn [In]; auto | exact Hs].
Qed.

Lemma formatEscaped_link (pre t u post : string) :
  allChars soft pre = true -> allChars soft post = true ->
  t <> "" -> allChars soft t = true -> allChars (notChar "]") t = true ->
  u <> "" -> allChars soft u = true -> allChars (notChar ")") u = true ->
  formatEscaped (pre ++ ("[" ++ t ++ "](" ++ u ++ ")") ++ post)
  = pre ++ ("<a href=" ++ quoted u ++ " target=" ++ quoted "_blank"
                ++ " rel=" ++ quoted "noopener" ++ ">" ++ t ++ "</a>") ++ post.
Proof.
  intros Hpre Hpost Ht0 Ht Htb Hu0 Hu Hub. unfold formatEscaped.
  assert (Hstar : allChars (notChar "*") (pre ++ ("[" ++ t ++ "](" ++ u ++ ")") ++ post)
                  = true).
  { apply allChars_three; try (apply soft_weaken; [cbn [In]; auto | assumption]).
    apply (allChars_three _ "[" t); [reflexivity | now apply soft_weaken; [cbn [In]; auto|] |].
    apply (allChars_three _ "](" u ")");
      [reflexivity | now apply soft_weaken; [cbn [In]; auto|] | reflexivity]. }
  rewrite (replaceAll_untouched matchBold _ (notChar "*") bold_trigger _ Hstar).
  rewrite (replaceAll_untouched matchItalic _ (notChar "*") italic_trigger _ Hstar).
  rewrite (replaceAll_one_hit matchLink (notChar "[") (fun _ => True) link_trigger
             (fun _ _ => I) _ pre ("[" ++ t ++ "](" ++ u ++ ")") post (t, u) I
             (soft_weaken "[" pre ltac:(cbn [In]; auto) Hpre)
             (soft_weaken "[" post ltac:(cbn [In]; auto) Hpost)
             ltac:(discriminate)
             (fun prev _ => matchLink_exact prev t u post Ht0 Htb Hu0 Hub)).
  cbn [fst snd].
  apply (replaceAll_untouched matchEscapedBr _ (notChar "&") escapedBr_trigger).
  pose proof (fun s => soft_weaken "&" s ltac:(cbn [In]; auto)) as Hw.
  apply allChars_three; [exact (Hw pre Hpre) | | exact (Hw post Hpost)].
  unfold quoted. rewrite !allChars_append, (Hw t Ht), (Hw u Hu). reflexivity.
Qed.

Lemma inlineFormat_escaped (line : string) (codes : list string) :
  escapeHtml line = line -> allChars (notChar NUL) line = true ->
  inlineFormat line codes = formatEscaped line.
Proof.
  intros He Hn. rewrite inlineFormat_steps, He.
  now rewrite (replaceAll_untouched matchInlinePlaceholder _ (notChar NUL)
                 placeholder_trigger _ Hn).
Qed.

Lemma letter_line (c : ascii) (r : string) :
  isLetter c = true -> endsParagraph (String c r) = false.
Proof.
  intros Hc.
  destruct (letter_classes c Hc) as (Hs & Hb & Hd & Hq & Hn & Hh).
  destruct (not_a_block_start c r Hs Hb Hd Hq Hn) as (H1 & H2 & H3 & H4 & H5).
  unfold endsParagraph. rewrite H1, H2, H3, H4, H5.
  unfold startsHeading. cbn [spanLen]. rewrite Hh. reflexivity.
Qed.

Lemma render_one_line (line : string) :
  allChars (notChar BT) line = true -> allChars (notChar LF) line = true ->
  endsParagraph line = false ->
  renderMarkdown line = Returned ("<p>" ++ inlineFormat line [] ++ "</p>").
Proof.
  intros Hb Hl He.
  rewrite (renderMarkdown_no_code _ Hb).
  rewrite (splitLines_one_line line)
    by (eapply allChars_weaken; [|exact Hl]; intros c Hc; exact Hc).
  assert (H : Forall (fun l => endsParagraph l = false) [line])
    by (constructor; [exact He | constructor]).
  rewrite (blockLoop_paragraph [] [] line [] H). reflexivity.
Qed.

Lemma extractChild_paragraph (attrs : list (string * string)) (kids : list Node)
      (result : string) :
  extractChild extractTextContent processListElement processListItem noCtx
               (ElementNode "p" attrs kids) result
  = result ++ nl ++ extractTextContent (ElementNode "p" attrs kids) noCtx ++ nl.
Proof. reflexivity. Qed.

Lemma clean_line (x : string) :
  x <> "" -> allChars (notChar LF) x = true ->
  cleanMarkdown x = x /\ cleanMarkdown (nl ++ x ++ nl) = x.
Proof.
  intros Hne Hl. destruct (one_line_clean x Hl) as (H1 & H2 & H3). split.
  - pose proof (cleanMarkdown_wrap "" x "" ltac:(cbn [In]; auto) ltac:(cbn [In]; auto)
                  Hne H1 H2 H3) as E.
    cbn [String.append] in E. now rewrite append_empty in E.
  - exact (cleanMarkdown_wrap nl x nl ltac:(cbn [In]; auto) ltac:(cbn [In]; auto)
             Hne H1 H2 H3).
Qed.

(** A paragraph whose children add up to one line of text. *)
Lemma extract_paragraph (tag : string) (dattrs pattrs : list (string * string))
      (kids : list Node) :
  let x := fold_left (fun result child =>
                        extractChild extractTextContent processListElement
                                     processListItem noCtx child result) kids "" in
  x <> "" -> allChars (notChar LF) x = true ->
  extractTextContent (ElementNode tag dattrs [ElementNode "p" pattrs kids]) noCtx = x.
Proof.
  intros x Hne Hl. destruct (clean_line x Hne Hl) as [H1 H2].
  rewrite extractTextContent_unfold. cbn [fold_left].
  rewrite extractChild_paragraph, extractTextContent_unfold. fold x.
  cbn [finish inline noCtx]. rewrite H1. cbn [String.append]. exact H2.
Qed.

Lemma extract_text_child (tag : string) (attrs : list (string * string)) (t : string) :
  t <> "" -> allChars (notChar LF) t = true ->
  extractTextContent (ElementNode tag attrs [TextNode t]) noCtx = t.
Proof.
  intros Hne Hl. rewrite extractTextContent_unfold. cbn [fold_left extractChild].
  cbn [finish inline noCtx String.append]. exact (proj1 (clean_line t Hne Hl)).
Qed.

Lemma plainLine_parts (a : string) :
  plainLine a = true ->
  a <> "" /\ allChars inert a = true
  /\ forall rest, endsParagraph (a ++ rest) = false.
Proof.
  destruct a as [|c r]; [discriminate|]. unfold plainLine.
  intros [Hc Hi]%andb_true_iff. split; [discriminate|]. split; [exact Hi|].
  intros rest. exact (letter_line c (r ++ rest) Hc).
Qed.

Lemma append_not_empty (a b : string) : a <> "" -> a ++ b <> "".
Proof. destruct a; [contradiction | discriminate]. Qed.

(** X24.  Bold and italic text survives the two directions.  For a
    paragraph that holds a plain text starting with a letter, one
    [strong], [b], [em] or [i] element around a non-empty inert text, and
    an inert text behind it: the extractor writes the text between two
    pairs of stars (bold) or two single stars (italic), and the renderer
    turns that line into one paragraph with the text in a [strong] or [em]
    element, the texts around it unchanged; [b] comes back as [strong] and
    [i] as [em]. *)
Theorem emphasis_round_trip (bold : bool) (tag : string)
        (attrs : list (string * string)) (a t b : string) :
  In tag (if bold then ["strong"; "b"] else ["em"; "i"]) ->
  plainLine a = true -> t <> "" -> allChars inert t = true ->
  allChars inert b = true ->
  let mark := if bold then "**" else "*" in
  let element := if bold then "strong" else "em" in
  let tree := ElementNode "div" []
                [ElementNode "p" []
                   [TextNode a; ElementNode tag attrs [TextNode t]; TextNode b]] in
  extractTextContent tree noCtx = a ++ mark ++ t ++ mark ++ b
  /\ renderMarkdown (a ++ mark ++ t ++ mark ++ b)
     = Returned ("<p>" ++ a ++ "<" ++ element ++ ">" ++ t ++ "</" ++ element ++ ">"
                       ++ b ++ "</p>").
Proof.
  intros Htag Ha Hne Ht Hb mark element tree.
  destruct (plainLine_parts a Ha) as (Ha0 & Hai & Hpar).
  pose proof (fun x s => inert_weaken x s) as Hw.
  assert (Hone : forall x, In x [BT; NUL; LF]%char ->
                           allChars (notChar x) (a ++ mark ++ t ++ mark ++ b) = true).
  { intros x Hx.
    assert (Hin : In x ["&"; "<"; ">"; "*"; "["; BT; NUL; LF; CR]%char)
      by (cbn [In] in *; intuition).
    rewrite !allChars_append, (Hw x a Hin Hai), (Hw x t Hin Ht), (Hw x b Hin Hb).
    cbn [In] in Hx. destruct Hx as [<-|[<-|[<-|[]]]]; now destruct bold. }
  assert (Hinner : extractTextContent (ElementNode tag attrs [TextNode t]) noCtx = t)
    by (apply extract_text_child; [exact Hne | apply Hw; [cbn [In]; auto 10 | exact Ht]]).
  assert (Hx : fold_left (fun result child =>
                            extractChild extractTextContent processListElement
                                         processListItem noCtx child result)
                         [TextNode a; ElementNode tag attrs [TextNode t]; TextNode b] ""
               = a ++ mark ++ t ++ mark ++ b).
  { cbn [fold_left].
    assert (Hc : extractChild extractTextContent processListElement processListItem
                   noCtx (ElementNode tag attrs [TextNode t]) ("" ++ a)
                 = ("" ++ a) ++ mark ++ t ++ mark).
    { rewrite <- Hinner at 2.
      destruct bold; cbn [In] in Htag; destruct Htag as [<-|[<-|[]]]; reflexivity. }
    change (extractChild extractTextContent processListElement processListItem
              noCtx (TextNode a) "") with ("" ++ a).
    rewrite Hc. cbn [extractChild]. destruct bold; now norm_append. }
  split.
  - pose proof (extract_paragraph "div" [] []
                  [TextNode a; ElementNode tag attrs [TextNode t]; TextNode b]) as Hp.
    cbv zeta in Hp. rewrite Hx in Hp. apply Hp.
    + now apply append_not_empty.
    + apply Hone. cbn [In]; auto.
  - rewrite render_one_line;
      [| apply Hone; cbn [In]; auto | apply Hone; cbn [In]; auto | apply Hpar].
    rewrite inlineFormat_escaped.
    + f_equal. f_equal.
      destruct bold; subst mark element.
      * replace (a ++ "**" ++ t ++ "**" ++ b) with (a ++ ("**" ++ t ++ "**") ++ b)
          by now norm_append.
        rewrite (formatEscaped_bold a t b (inert_soft a Hai) Hne (inert_soft t Ht)
                   (inert_soft b Hb)).
        now norm_append.
      * replace (a ++ "*" ++ t ++ "*" ++ b) with (a ++ ("*" ++ t ++ "*") ++ b)
          by now norm_append.
        rewrite (formatEscaped_italic a t b (inert_soft a Hai) Hne (inert_soft t Ht)
                   (inert_soft b Hb)).
        now norm_append.
    + rewrite !escapeHtml_append, (escapeHtml_inert a Hai), (escapeHtml_inert t Ht),
        (escapeHtml_inert b Hb). now destruct bold.
    + apply Hone. cbn [In]; auto.
Qed.

Lemma emphasis_round_trip_witness :
  let tree := ElementNode "div" []
                [ElementNode "p" []
                   [TextNode "This is "; ElementNode "b" [] [TextNode "really"];
                    TextNode " important."]] in
  (In "b" ["strong"; "b"] /\ plainLine "This is " = true
   /\ allChars inert "really" = true /\ allChars inert " important." = true)
  /\ extractTextContent tree noCtx = "This is **really** important."
  /\ renderMarkdown "This is **really** important."
     = Returned "<p>This is <strong>really</strong> important.</p>".
Proof.
  intros tree.
  split; [repeat split; cbn [In]; auto|].
  exact (emphasis_round_trip true "b" [] "This is " "really" " important."
           (or_intror (or_introl eq_refl)) eq_refl ltac:(discriminate) eq_refl eq_refl).
Defined.

(** X25.  A link survives the two directions, and its target is copied
    as it is.  For a paragraph that holds a plain text starting with a
    letter, one [a] element whose [href] is a non-empty inert text without
    a closing parenthesis that does not start with [javascript:], around a
    non-empty inert link text without a closing square bracket, and an
    inert text behind it: the extractor writes the link text in square
    brackets and the target in parentheses, and the renderer turns that
    line into one paragraph with an [a] element that carries the target
    as [href], unescaped between double quotes (a double quote in the
    target included), and the attributes [target] and [rel]. *)
Theorem link_round_trip (attrs : list (string * string)) (a t u b : string) :
  plainLine a = true -> allChars inert b = true ->
  t <> "" -> allChars inert t = true -> allChars (notChar "]") t = true ->
  getAttribute "href" attrs = Some u -> isNavigable u = true ->
  allChars inert u = true -> allChars (notChar ")") u = true ->
  let tree := ElementNode "div" []
                [ElementNode "p" []
                   [TextNode a; ElementNode "a" attrs [TextNode t]; TextNode b]] in
  extractTextContent tree noCtx = a ++ "[" ++ t ++ "](" ++ u ++ ")" ++ b
  /\ renderMarkdown (a ++ "[" ++ t ++ "](" ++ u ++ ")" ++ b)
     = Returned ("<p>" ++ a ++ "<a href=" ++ quoted u ++ " target=" ++ quoted "_blank"
                       ++ " rel=" ++ quoted "noopener" ++ ">" ++ t ++ "</a>"
                       ++ b ++ "</p>").
Proof.
  intros Ha Hb Hne Ht Htb Hhref Hnav Hu Hub tree.
  destruct (plainLine_parts a Ha) as (Ha0 & Hai & Hpar).
  assert (Hu0 : u <> "") by (intros ->; discriminate).
  pose proof (fun x s => inert_weaken x s) as Hw.
  assert (Hone : forall x, In x [BT; NUL; LF]%char ->
                   allChars (notChar x) (a ++ "[" ++ t ++ "](" ++ u ++ ")" ++ b) = true).
  { intros x Hx.
    assert (Hin : In x ["&"; "<"; ">"; "*"; "["; BT; NUL; LF; CR]%char)
      by (cbn [In] in *; intuition).
    rewrite !allChars_append, (Hw x a Hin Hai), (Hw x t Hin Ht), (Hw x b Hin Hb),
      (Hw x u Hin Hu).
    cbn [In] in Hx. destruct Hx as [<-|[<-|[<-|[]]]]; reflexivity. }
  assert (Hinner : extractTextContent (ElementNode "a" attrs [TextNode t]) noCtx = t)
    by (apply extract_text_child; [exact Hne | apply Hw; [cbn [In]; auto 10 | exact Ht]]).
  assert (Hx : fold_left (fun result child =>
                            extractChild extractTextContent processListElement
                                         processListItem noCtx child result)
                         [TextNode a; ElementNode "a" attrs [TextNode t]; TextNode b] ""
               = a ++ "[" ++ t ++ "](" ++ u ++ ")" ++ b).
  { cbn [fold_left]. rewrite extractChild_anchor. unfold linkTarget.
    rewrite Hhref, Hnav, Hinner. cbn [extractChild]. now norm_append. }
  split.
  - pose proof (extract_paragraph "div" [] []
                  [TextNode a; ElementNode "a" attrs [TextNode t]; TextNode b]) as Hp.
    cbv zeta in Hp. rewrite Hx in Hp. apply Hp.
    + now apply append_not_empty.
    + apply Hone. cbn [In]; auto.
  - rewrite render_one_line;
      [| apply Hone; cbn [In]; auto | apply Hone; cbn [In]; auto | apply Hpar].
    rewrite inlineFormat_escaped.
    + f_equal. f_equal.
      replace (a ++ "[" ++ t ++ "](" ++ u ++ ")" ++ b)
        with (a ++ ("[" ++ t ++ "](" ++ u ++ ")") ++ b) by now norm_append.
      rewrite (formatEscaped_link a t u b (inert_soft a Hai) (inert_soft b Hb)
                 Hne (inert_soft t Ht) Htb Hu0 (inert_soft u Hu) Hub).
      unfold quoted. now norm_append.
    + rewrite !escapeHtml_append, (escapeHtml_inert a Hai), (escapeHtml_inert t Ht),
        (escapeHtml_inert b Hb), (escapeHtml_inert u Hu). reflexivity.
    + apply Hone. cbn [In]; auto.
Qed.

Lemma link_round_trip_witness :
  let attrs := [("class", "ref"); ("href", "https://example.org/a?b=1")] in
  let tree := ElementNode "div" []
                [ElementNode "p" []
                   [TextNode "See "; ElementNode "a" attrs [TextNode "the docs"];
                    TextNode "."]] in
  (plainLine "See " = true /\ allChars inert "the docs" = true
   /\ getAttribute "href" attrs = Some "https://example.org/a?b=1"
   /\ isNavigable "https://example.org/a?b=1" = true)
  /\ extractTextContent tree noCtx = "See [the docs](https://example.org/a?b=1)."
  /\ renderMarkdown "See [the docs](https://example.org/a?b=1)."
     = Returned ("<p>See <a href=" ++ quoted "https://example.org/a?b=1"
                   ++ " target=" ++ quoted "_blank" ++ " rel=" ++ quoted "noopener"
                   ++ ">the docs</a>.</p>").
Proof.
  intros attrs tree.
  split; [repeat split|].
  exact (link_round_trip attrs "See " "the docs" "https://example.org/a?b=1" "."
           eq_refl eq_refl ltac:(discriminate) eq_refl eq_refl eq_refl eq_refl
           eq_refl eq_refl).
Defined.

Lemma matchInlineCode_exact (prev : option ascii) (c post : string) :
  c <> "" -> allChars (fun x => negb (Ascii.eqb x BT) && negb (isLF x)) c = true ->
  matchInlineCode prev (("`" ++ c ++ "`") ++ post)
  = Some (c, String.length ("`" ++ c ++ "`")).
Proof.
  intros Hne Hc.
  destruct (spanLen_stops _ c BT post Hc eq_refl) as [Hk Htk].
  pose proof (dropStr_length c ("`" ++ post)) as Hd.
  assert (H1 : (1 <=? String.length c)%nat = true)
    by (destruct c; [contradiction | reflexivity]).
  replace (("`" ++ c ++ "`") ++ post) with (String BT (c ++ String BT post))
    by (unfold BT; now norm_append).
  unfold matchInlineCode. rewrite Ascii.eqb_refl, Hk, Htk, H1.
  change (c ++ String BT post) with (c ++ "`" ++ post). rewrite Hd.
  change (startsWith "`" ("`" ++ post)) with true. cbn [andb].
  f_equal. f_equal. cbn [String.length String.append]. rewrite length_append.
  cbn [String.length]. lia.
Qed.

Lemma inert_no_LF (s : string) :
  allChars inert s = true -> allChars (fun x => negb (isLF x)) s = true.
Proof. exact (inert_weaken LF s ltac:(cbn [In]; auto 10)). Qed.

(** A line with one code span between two plain texts: the span is
    restored as a [code] element in front of the emphasis and link
    steps. *)
Lemma render_code_span (a c b : string) :
  plainLine a = true -> allChars inert b = true ->
  c <> "" -> allChars (fun x => negb (Ascii.eqb x BT) && negb (isLF x)) c = true ->
  renderMarkdown (a ++ ("`" ++ c ++ "`") ++ b)
  = Returned ("<p>" ++ formatEscaped (a ++ ("<code>" ++ escapeHtml c ++ "</code>") ++ b)
                    ++ "</p>").
Proof.
  intros Ha Hb Hne Hc.
  destruct (plainLine_parts a Ha) as (Ha0 & Hai & Hpar).
  pose proof (fun x s => inert_weaken x s) as Hw.
  assert (Hlf : allChars (fun x => negb (isLF x)) (a ++ ("`" ++ c ++ "`") ++ b) = true).
  { rewrite !allChars_append.
    rewrite (inert_no_LF a Hai), (inert_no_LF b Hb).
    assert (Hcl : allChars (fun x => negb (isLF x)) c = true)
      by (eapply allChars_weaken; [|exact Hc]; now intros x [_ Hx]%andb_true_iff).
    now rewrite Hcl. }
  unfold renderMarkdown.
  rewrite (scan_fence_one_line None _ Hlf), hits_lits, assemble_lits.
  rewrite (scan_one_hit matchInlineCode (notChar BT) (fun _ => True) inlineCode_trigger
             (fun _ _ => I) a ("`" ++ c ++ "`") b c
             (Hw BT a ltac:(cbn [In]; auto 10) Hai)
             (Hw BT b ltac:(cbn [In]; auto 10) Hb) ltac:(discriminate)
             (fun prev _ => matchInlineCode_exact prev c b Hne Hc) None I).
  rewrite hits_app, assemble_app. cbn [hits assemble]. rewrite hits_lits, assemble_lits.
  cbn [List.map].
  set (text := a ++ placeholder "IC_" 0 ++ b).
  assert (Hph : allChars (fun x => negb (isLF x)) (placeholder "IC_" 0) = true)
    by reflexivity.
  assert (Htext : allChars (fun x => negb (isLF x)) text = true).
  { unfold text. rewrite !allChars_append, Hph.
    now rewrite (inert_no_LF a Hai), (inert_no_LF b Hb). }
  rewrite (splitLines_one_line text Htext).
  assert (Hp : Forall (fun l => endsParagraph l = false) [text])
    by (constructor; [apply Hpar | constructor]).
  rewrite (blockLoop_paragraph [] [c] text [] Hp). cbn [join].
  f_equal. f_equal. f_equal.
  rewrite inlineFormat_steps. f_equal. unfold text.
  rewrite !escapeHtml_append, (escapeHtml_inert a Hai), (escapeHtml_inert b Hb).
  change (escapeHtml (placeholder "IC_" 0)) with (placeholder "IC_" 0).
  rewrite (replaceAll_one_hit matchInlinePlaceholder (notChar NUL) (fun _ => True)
             placeholder_trigger (fun _ _ => I)
             (fun _ idx => restoreInlineCode [c] idx) a (placeholder "IC_" 0) b "0" I
             (Hw NUL a ltac:(cbn [In]; auto 10) Hai)
             (Hw NUL b ltac:(cbn [In]; auto 10) Hb) ltac:(discriminate)
             (fun prev _ => eq_refl)).
  reflexivity.
Qed.

Lemma extractChild_code (attrs : list (string * string)) (kids : list Node)
      (ctx : Ctx) (result : string) :
  extractChild extractTextContent processListElement processListItem ctx
               (ElementNode "code" attrs kids) result
  = result ++ "`" ++ textContent (ElementNode "code" attrs kids) ++ "`".
Proof. reflexivity. Qed.

(** X26.  Inline code survives the two directions.  For a paragraph that
    holds a plain text starting with a letter, one [code] element around
    a non-empty inert text, and an inert text behind it: the extractor
    writes the code between two backticks, and the renderer turns that
    line into one paragraph with the code in a [code] element, the texts
    around it unchanged. *)
Theorem inline_code_round_trip (attrs : list (string * string)) (a c b : string) :
  plainLine a = true -> c <> "" -> allChars inert c = true ->
  allChars inert b = true ->
  let tree := ElementNode "div" []
                [ElementNode "p" []
                   [TextNode a; ElementNode "code" attrs [TextNode c]; TextNode b]] in
  extractTextContent tree noCtx = a ++ "`" ++ c ++ "`" ++ b
  /\ renderMarkdown (a ++ "`" ++ c ++ "`" ++ b)
     = Returned ("<p>" ++ a ++ "<code>" ++ c ++ "</code>" ++ b ++ "</p>").
Proof.
  intros Ha Hne Hc Hb tree.
  destruct (plainLine_parts a Ha) as (Ha0 & Hai & Hpar).
  pose proof (fun x s => inert_weaken x s) as Hw.
  split.
  - assert (Hx : fold_left (fun result child =>
                              extractChild extractTextContent processListElement
                                           processListItem noCtx child result)
                           [TextNode a; ElementNode "code" attrs [TextNode c]; TextNode b] ""
                 = a ++ "`" ++ c ++ "`" ++ b).
    { cbn [fold_left].
      change (extractChild extractTextContent processListElement processListItem
                noCtx (TextNode a) "") with ("" ++ a).
      rewrite extractChild_code. cbn [extractChild].
      change (textContent (ElementNode "code" attrs [TextNode c])) with (c ++ "").
      rewrite append_empty. now norm_append. }
    pose proof (extract_paragraph "div" [] []
                  [TextNode a; ElementNode "code" attrs [TextNode c]; TextNode b]) as Hp.
    cbv zeta in Hp. rewrite Hx in Hp.
    apply Hp; [now apply append_not_empty|].
    rewrite !allChars_append.
    now rewrite (Hw LF a ltac:(cbn [In]; auto 10) Hai),
      (Hw LF b ltac:(cbn [In]; auto 10) Hb), (Hw LF c ltac:(cbn [In]; auto 10) Hc).
  - replace (a ++ "`" ++ c ++ "`" ++ b) with (a ++ ("`" ++ c ++ "`") ++ b)
      by now norm_append.
    rewrite (render_code_span a c b Ha Hb Hne).
    + rewrite (escapeHtml_inert c Hc), formatEscaped_plain; [now norm_append|].
      apply allChars_three; [now apply inert_soft | | now apply inert_soft].
      apply (allChars_three soft "<code>" c "</code>");
        [reflexivity | now apply inert_soft | reflexivity].
    + eapply allChars_weaken; [|exact Hc]. intros x Hx.
      destruct (inert_chars x Hx) as (_&_&_&_&_&H6&_&H8&_).
      unfold notChar, isLF in *. now rewrite H6, H8.
Qed.

Lemma inline_code_round_trip_witness :
  let tree := ElementNode "div" []
                [ElementNode "p" []
                   [TextNode "Run "; ElementNode "code" [] [TextNode "npm install"];
                    TextNode " first."]] in
  (plainLine "Run " = true /\ allChars inert "npm install" = true
   /\ allChars inert " first." = true)
  /\ extractTextContent tree noCtx = "Run `npm install` first."
  /\ renderMarkdown "Run `npm install` first."
     = Returned "<p>Run <code>npm install</code> first.</p>".
Proof.
  intros tree. split; [repeat split|].
  exact (inline_code_round_trip [] "Run " "npm install" " first."
           eq_refl ltac:(discriminate) eq_refl eq_refl).
Defined.

(** X27.  A code span does not protect its text from the emphasis step:
    [inlineFormat] puts the spans back before it looks for stars.  For a
    plain text starting with a letter, a non-empty inert text between two
    pairs of stars inside backticks, and an inert text behind it, the
    renderer returns the [code] element with a [strong] element inside
    and without the stars. *)
Theorem code_span_is_still_formatted (a t b : string) :
  plainLine a = true -> t <> "" -> allChars inert t = true ->
  allChars inert b = true ->
  renderMarkdown (a ++ "`**" ++ t ++ "**`" ++ b)
  = Returned ("<p>" ++ a ++ "<code><strong>" ++ t ++ "</strong></code>" ++ b ++ "</p>").
Proof.
  intros Ha Hne Ht Hb.
  destruct (plainLine_parts a Ha) as (Ha0 & Hai & Hpar).
  replace (a ++ "`**" ++ t ++ "**`" ++ b) with (a ++ ("`" ++ ("**" ++ t ++ "**") ++ "`") ++ b)
    by now norm_append.
  rewrite (render_code_span a ("**" ++ t ++ "**") b Ha Hb ltac:(discriminate)).
  - rewrite !escapeHtml_append, (escapeHtml_inert t Ht).
    change (escapeHtml "**") with "**".
    replace (a ++ ("<code>" ++ ("**" ++ t ++ "**") ++ "</code>") ++ b)
      with ((a ++ "<code>") ++ ("**" ++ t ++ "**") ++ ("</code>" ++ b))
      by now norm_append.
    rewrite formatEscaped_bold; [now norm_append | | exact Hne | now apply inert_soft |].
    + rewrite allChars_append. now rewrite (inert_soft a Hai).
    + rewrite allChars_append. now rewrite (inert_soft b Hb).
  - apply (allChars_three _ "**" t "**"); [reflexivity | | reflexivity].
    eapply allChars_weaken; [|exact Ht]. intros x Hx.
    destruct (inert_chars x Hx) as (_&_&_&_&_&H6&_&H8&_).
    unfold notChar, isLF in *. now rewrite H6, H8.
Qed.

Lemma code_span_is_still_formatted_witness :
  (plainLine "Write " = true /\ allChars inert "kwargs" = true
   /\ allChars inert " here" = true)
  /\ renderMarkdown "Write `**kwargs**` here"
     = Returned "<p>Write <code><strong>kwargs</strong></code> here</p>".
Proof.
  split; [repeat split|].
  exact (code_span_is_still_formatted "Write " "kwargs" " here"
           eq_refl ltac:(discriminate) eq_refl eq_refl).
Defined.

(** ** Block quotes *)

Lemma quote_line_tests (l : string) :
  isQuoteLine ("> " ++ l) = true /\ matchCodeLine ("> " ++ l) = None
  /\ matchHeading ("> " ++ l) = None /\ isRule ("> " ++ l) = false.
Proof.
  repeat split.
  unfold isRule.
  assert (Ht : trim ("> " ++ l) = String ">" (trimEnd (String " " l))) by reflexivity.
  rewrite Ht. cbn [allChars]. change (Ascii.eqb "-" ">") with false.
  cbn [andb]. apply andb_false_r.
Qed.

Lemma blockLoop_quote (codeBlocks : list CodeBlock) (inlineCodes : list string)
      (ls : list string) :
  ls <> [] ->
  blockLoop (S (List.length ls)) codeBlocks inlineCodes
            (List.map (fun l => "> " ++ l) ls) 0 []
  = Returned ["<blockquote>" ++ inlineFormat (join "<br>" ls) inlineCodes
                             ++ "</blockquote>"].
Proof.
  intros Hne. destruct ls as [|first rest]; [contradiction|].
  destruct (quote_line_tests first) as (H1 & H2 & H3 & H4).
  assert (Hall : Forall (fun l => isQuoteLine l = true)
                        (List.map (fun l => "> " ++ l) (first :: rest))).
  { apply List.Forall_forall. intros l [x [<- _]]%List.in_map_iff.
    exact (proj1 (quote_line_tests x)). }
  assert (Hdrop : List.map (dropStr 2) (List.map (fun l => "> " ++ l) (first :: rest))
                  = first :: rest).
  { rewrite List.map_map.
    rewrite (List.map_ext (fun x => dropStr 2 ("> " ++ x)) (fun x => x)
               (fun x => eq_refl)).
    apply List.map_id. }
  set (qs := List.map (fun l => "> " ++ l) (first :: rest)) in *.
  assert (Hlen : List.length qs = S (List.length rest))
    by (unfold qs; now rewrite List.length_map).
  assert (H0 : nth_error qs 0 = Some ("> " ++ first)) by reflexivity.
  cbn [List.length blockLoop]. rewrite H0, H2, H3, H4, H1.
  change (skipn 0 qs) with qs.
  rewrite (runLength_all isQuoteLine qs Hall), List.firstn_all, Hdrop.
  rewrite Hlen. cbn [Nat.add blockLoop].
  rewrite (proj2 (nth_error_None qs _)) by lia.
  reflexivity.
Qed.

Lemma extractChild_blockquote (attrs : list (string * string)) (kids : list Node)
      (ctx : Ctx) (result : string) :
  extractChild extractTextContent processListElement processListItem ctx
               (ElementNode "blockquote" attrs kids) result
  = result ++ nl
      ++ join nl (List.map (fun l => "> " ++ l)
                    (splitLines (trim (extractTextContent
                                         (ElementNode "blockquote" attrs kids) noCtx))))
      ++ nl.
Proof. reflexivity. Qed.

(** X28.  Block quotes in the two directions.  A text whose lines all
    start with a [>] and a space, followed by inert text, is rendered as
    one [blockquote] element that holds the lines without that marker, a
    line break between two of them.  A [blockquote] element with one
    paragraph of plain text is extracted as the marker and the trimmed
    text, and that line is rendered as a [blockquote] element around the
    trimmed text. *)
Theorem quote_round_trip (ls : list string) (attrs : list (string * string))
        (t : string) :
  ls <> [] -> Forall (fun l => allChars inert l = true) ls ->
  plainLine t = true ->
  let tree := ElementNode "div" []
                [ElementNode "blockquote" attrs [ElementNode "p" [] [TextNode t]]] in
  renderMarkdown (join nl (List.map (fun l => "> " ++ l) ls))
  = Returned ("<blockquote>" ++ join "<br>" ls ++ "</blockquote>")
  /\ extractTextContent tree noCtx = "> " ++ trim t
  /\ renderMarkdown (extractTextContent tree noCtx)
     = Returned ("<blockquote>" ++ trim t ++ "</blockquote>").
Proof.
  intros Hne Hls Ht tree.
  assert (Hrender : forall xs, xs <> [] -> Forall (fun l => allChars inert l = true) xs ->
            renderMarkdown (join nl (List.map (fun l => "> " ++ l) xs))
            = Returned ("<blockquote>" ++ join "<br>" xs ++ "</blockquote>")).
  { intros xs Hx Hi.
    assert (Hq : forall x, In x [BT; LF]%char ->
                   Forall (fun l => allChars (notChar x) l = true)
                          (List.map (fun l => "> " ++ l) xs)).
    { intros x Hin. apply List.Forall_forall. intros l [y [<- Hy]]%List.in_map_iff.
      rewrite allChars_append.
      rewrite (inert_weaken x y ltac:(cbn [In] in *; intuition)
                 (proj1 (List.Forall_forall _ _) Hi y Hy)).
      cbn [In] in Hin. destruct Hin as [<-|[<-|[]]]; reflexivity. }
    rewrite renderMarkdown_no_code
      by (apply allChars_join; [reflexivity | apply Hq; cbn [In]; auto]).
    rewrite splitLines_join;
      [| destruct xs; [contradiction | discriminate] | apply Hq; cbn [In]; auto].
    rewrite List.length_map, (blockLoop_quote [] [] xs Hx).
    now rewrite (inlineFormat_inert_lines xs [] Hi). }
  destruct (plainLine_trim t Ht) as (c & r & Etrim & Hc & Hi).
  destruct (plainLine_parts t Ht) as (Ht0 & Hti & _).
  assert (Hextract : extractTextContent tree noCtx = "> " ++ trim t).
  { unfold tree. rewrite extractTextContent_unfold. cbn [fold_left].
    rewrite extractChild_blockquote.
    pose proof (extract_paragraph "blockquote" attrs [] [TextNode t]) as Hp.
    cbv zeta in Hp. cbn [fold_left extractChild String.append] in Hp.
    rewrite Hp; [| exact Ht0 | exact (inert_weaken LF t ltac:(cbn [In]; auto 10) Hti)].
    rewrite (splitLines_one_line (trim t))
      by exact (inert_weaken LF _ ltac:(cbn [In]; auto 10) Hi).
    cbn [List.map join finish inline noCtx].
    change ("" ++ nl ++ ("> " ++ trim t) ++ nl) with (nl ++ ("> " ++ trim t) ++ nl).
    apply clean_line; [discriminate|].
    rewrite allChars_append.
    now rewrite (inert_weaken LF _ ltac:(cbn [In]; auto 10) Hi). }
  split; [now apply Hrender|]. split; [exact Hextract|].
  rewrite Hextract.
  apply (Hrender [trim t]); [discriminate|]. constructor; [exact Hi | constructor].
Qed.

Lemma quote_round_trip_witness :
  let ls := ["To be, or not to be,"; "that is the question."] in
  let tree := ElementNode "div" []
                [ElementNode "blockquote" []
                   [ElementNode "p" [] [TextNode "Stay hungry. "]]] in
  (ls <> [] /\ Forall (fun l => allChars inert l = true) ls
   /\ plainLine "Stay hungry. " = true)
  /\ renderMarkdown ("> To be, or not to be," ++ nl ++ "> that is the question.")
     = Returned "<blockquote>To be, or not to be,<br>that is the question.</blockquote>"
  /\ extractTextContent tree noCtx = "> Stay hungry."
  /\ renderMarkdown (extractTextContent tree noCtx)
     = Returned "<blockquote>Stay hungry.</blockquote>".
Proof.
  intros ls tree.
  split; [split; [discriminate | split; [repeat constructor | reflexivity]]|].
  exact (quote_round_trip ls [] "Stay hungry. " ltac:(discriminate)
           ltac:(repeat constructor) eq_refl).
Defined.

(** ** Claude content script: the messages of a page *)

Section ClaudeMessages.

Variable getMessageRole : Node -> option Role.
Variable all : list Node.

Lemma collected_skip (n : nat) (ms : list Claude.Message) (el : Node) :
  nth_error all n = Some el ->
  (2 <= String.length (Claude.getMessageContent el) ->
   exists m, In m ms /\ Claude.content m = Claude.getMessageContent el) ->
  collected getMessageRole all n ms -> collected getMessageRole all (S n) ms.
Proof.
  intros Hel Hskip (Ha & Hb & Hc & Hd). repeat split; try assumption.
  - destruct (Ha m H) as [Hlt _]. lia.
  - exact (proj2 (Ha m H)).
  - intros i el' Hi Hel' Hlen.
    destruct (Nat.eq_dec i n) as [->|Hne].
    + replace el' with el in * by congruence. now apply Hskip.
    + apply (Hd i el'); [lia | assumption | assumption].
Qed.

Lemma collected_push (n : nat) (ms : list Claude.Message) (el : Node) (r : Role) :
  nth_error all n = Some el ->
  (forall r', getMessageRole el = Some r' -> r = r') ->
  (String.length (Claude.getMessageContent el) <? 2)%nat = false ->
  Claude.repeatsLast ms (Claude.getMessageContent el) = false ->
  collected getMessageRole all n ms ->
  collected getMessageRole all (S n)
            (ms ++ [Claude.mkMessage r (Claude.getMessageContent el) n])%list.
Proof.
  intros Hel Hrole Hlen Hrep (Ha & Hb & Hc & Hd).
  apply Nat.ltb_ge in Hlen.
  set (new := Claude.mkMessage r (Claude.getMessageContent el) n).
  repeat split.
  - apply in_app_or in H as [H|[<-|[]]]; [destruct (Ha m H) as [Hlt _]; lia|].
    cbn [Claude.index new]. lia.
  - apply in_app_or in H as [H|[<-|[]]]; [exact (proj2 (Ha m H))|].
    exists el. cbn [Claude.index Claude.content Claude.role new]. auto.
  - rewrite List.map_app. cbn [List.map Claude.index new].
    clear Hc Hd Hrep. induction ms as [|m ms IH]; [repeat constructor|].
    cbn [List.map app] in *. inversion Hb as [|? ? Hs Hf]; subst.
    constructor.
    + apply IH; [|exact Hs]. intros m' Hm'. apply Ha. now right.
    + apply List.Forall_app. split; [exact Hf|]. constructor; [|constructor].
      exact (proj1 (Ha m (or_introl eq_refl))).
  - intros i m1 m2 H1 H2.
    destruct (Nat.lt_ge_cases (S i) (List.length ms)) as [Hlt|Hge].
    + rewrite nth_error_app1 in H1, H2 by lia. exact (Hc i m1 m2 H1 H2).
    + destruct (Nat.eq_dec (S i) (List.length ms)) as [Heq|Hne].
      * rewrite nth_error_app1 in H1 by lia.
        rewrite nth_error_app2, Heq, Nat.sub_diag in H2 by lia.
        cbn [nth_error] in H2. replace m2 with new by congruence.
        unfold Claude.repeatsLast in Hrep.
        replace (List.length ms - 1) with i in Hrep by lia.
        rewrite H1, (proj2 (Nat.ltb_lt 0 (List.length ms))) in Hrep by lia.
        cbn [andb] in Hrep. now apply String.eqb_neq in Hrep.
      * assert (Hnone : nth_error (ms ++ [new]) (S i) = None).
        { apply nth_error_None. rewrite List.length_app. cbn [List.length]. lia. }
        congruence.
  - intros i el' Hi Hel' Hlen'.
    destruct (Nat.eq_dec i n) as [->|Hne].
    + replace el' with el in * by congruence. exists new.
      split; [apply in_or_app; right; now left | reflexivity].
    + destruct (Hd i el' ltac:(lia) Hel' Hlen') as (m & Hm & Hcm).
      exists m. split; [apply in_or_app; now left | exact Hcm].
Qed.

Lemma scrapeMessages_collected (els : list Node) :
  forall index lastRole messages,
    skipn index all = els -> collected getMessageRole all index messages ->
    collected getMessageRole all (List.length all)
              (Claude.scrapeMessages getMessageRole els index lastRole messages).
Proof.
  induction els as [|el rest IH]; intros index lastRole messages Hskip Hc.
  - cbn [Claude.scrapeMessages].
    assert (Hlen : List.length all <= index).
    { destruct (Nat.le_gt_cases (List.length all) index) as [H|H]; [exact H|].
      pose proof (List.length_skipn index all) as Hl. rewrite Hskip in Hl.
      cbn [List.length] in Hl. lia. }
    destruct Hc as (Ha & Hb & Hc & Hd). repeat split; try assumption.
    + destruct (Ha m H) as (_ & el & Hel & _).
      apply nth_error_Some. congruence.
    + exact (proj2 (Ha m H)).
    + intros i el Hi. apply Hd. lia.
  - assert (Hel : nth_error all index = Some el).
    { rewrite <- (Nat.add_0_r index), <- List.nth_error_skipn, Hskip. reflexivity. }
    assert (Hrest : skipn (S index) all = rest).
    { replace (S index) with (1 + index) by lia.
      rewrite <- List.skipn_skipn, Hskip. reflexivity. }
    cbn [Claude.scrapeMessages].
    destruct (String.length (Claude.getMessageContent el) <? 2)%nat eqn:Elen.
    { apply IH; [exact Hrest|]. apply (collected_skip index messages el Hel); [|exact Hc].
      apply Nat.ltb_lt in Elen. lia. }
    destruct (Claude.repeatsLast messages (Claude.getMessageContent el)) eqn:Erep.
    { apply IH; [exact Hrest|]. apply (collected_skip index messages el Hel); [|exact Hc].
      intros _. unfold Claude.repeatsLast in Erep.
      apply andb_true_iff in Erep as [_ Erep].
      destruct (nth_error messages (List.length messages - 1)) as [m|] eqn:Em;
        [|discriminate].
      exists m. split; [exact (nth_error_In _ _ Em) | now apply String.eqb_eq]. }
    apply IH; [exact Hrest|].
    apply (collected_push index messages el); try assumption.
    intros r' Hr'. now rewrite Hr'.
Qed.

End ClaudeMessages.

(** X29.  The messages that the Claude content script collects from the
    turn elements of a page ([getMessageRole] taken as given): every
    message stands for one element, carries its position as index and
    its content, which has at least two characters, and the role that
    [getMessageRole] determined if it determined one; the indices
    increase strictly; no two neighbouring messages have the same
    content, because a turn that repeats the content of the message kept
    last is dropped, whatever its role; and the content of every element
    with at least two characters is the content of some message. *)
Theorem claude_messages (getMessageRole : Node -> option Role)
        (messageEls : list Node) :
  let messages := Claude.scrapeMessages getMessageRole messageEls 0 None [] in
  (forall m, In m messages ->
     exists el, nth_error messageEls (Claude.index m) = Some el
                /\ Claude.content m = Claude.getMessageContent el
                /\ 2 <= String.length (Claude.content m)
                /\ forall r, getMessageRole el = Some r -> Claude.role m = r)
  /\ StronglySorted lt (List.map Claude.index messages)
  /\ (forall i m1 m2, nth_error messages i = Some m1 ->
                      nth_error messages (S i) = Some m2 ->
                      Claude.content m1 <> Claude.content m2)
  /\ (forall el, In el messageEls ->
                 2 <= String.length (Claude.getMessageContent el) ->
                 exists m, In m messages
                           /\ Claude.content m = Claude.getMessageContent el).
Proof.
  intros messages.
  assert (H0 : collected getMessageRole messageEls 0 []).
  { repeat split; try (intros; contradiction); try constructor.
    - intros i m1 m2 H. destruct i; discriminate.
    - intros i el Hi. lia. }
  destruct (scrapeMessages_collected getMessageRole messageEls messageEls 0 None []
              eq_refl H0) as (Ha & Hb & Hc & Hd).
  fold messages in Ha, Hb, Hc, Hd.
  split; [intros m Hm; exact (proj2 (Ha m Hm))|].
  split; [exact Hb|]. split; [exact Hc|].
  intros el Hin Hlen. apply In_nth_error in Hin as [i Hi].
  apply (Hd i el); [|exact Hi | exact Hlen].
  apply nth_error_Some. congruence.
Qed.

(** ** Heading lines that end in a carriage return *)

(** A line that looks like a heading to the paragraph loop, but does not
    match the heading pattern nor any other block: the loop stays on it. *)
Lemma stalling_line (line rest : string) :
  startsHeading line = true -> matchHeading line = None ->
  matchCodeLine line = None -> isRule line = false -> isQuoteLine line = false ->
  isListLine line = false -> isBlank line = false ->
  allChars (fun c => negb (Ascii.eqb c BT) && negb (isLF c)) line = true ->
  renderMarkdown line = Diverges
  /\ renderMarkdown (line ++ nl ++ rest) = Diverges.
Proof.
  intros Hs Hh Hc Hr Hq Hli Hb Hplain.
  assert (Hbt : allChars (notChar BT) line = true).
  { eapply allChars_weaken; [|exact Hplain]. intros c [Hc' _]%andb_true_iff.
    exact Hc'. }
  split.
  - rewrite (renderMarkdown_no_code _ Hbt).
    rewrite splitLines_one_line
      by (eapply allChars_weaken; [|exact Hplain];
          intros c [_ Hc']%andb_true_iff; exact Hc').
    now rewrite blockLoop_hangs.
  - unfold renderMarkdown.
    assert (Hbt' : allChars (notChar BT) (line ++ nl) = true)
      by (now rewrite allChars_append, Hbt).
    rewrite <- (append_assoc line nl rest).
    destruct (scan_untouched_prefix matchFence (notChar BT) fence_trigger
                _ rest None Hbt') as [p1 E1].
    rewrite E1, hits_app, assemble_app.
    match goal with
    | |- context [scan matchInlineCode None 0 (_ ++ ?t)] =>
        destruct (scan_untouched_prefix matchInlineCode (notChar BT)
                    inlineCode_trigger _ t None Hbt') as [p2 E2]
    end.
    rewrite E2, hits_app, assemble_app.
    rewrite append_assoc, (splitLines_plain_prefix _ _ Hplain).
    cbn [nl chr String.append splitLines]. change (Ascii.eqb LF LF) with true.
    cbn iota. rewrite append_empty, blockLoop_hangs by assumption. reflexivity.
Qed.

Lemma heading_line_with_return (n : nat) (text : string) :
  1 <= n <= 4 -> plainLine text = true ->
  let line := repeatStr "#" n ++ " " ++ text ++ chr CR in
  startsHeading line = true /\ matchHeading line = None
  /\ matchCodeLine line = None /\ isRule line = false /\ isQuoteLine line = false
  /\ isListLine line = false /\ isBlank line = false
  /\ allChars (fun c => negb (Ascii.eqb c BT) && negb (isLF c)) line = true.
Proof.
  intros Hn Ht line.
  destruct text as [|c r] eqn:Etext; [discriminate|].
  pose proof Ht as Ht'. unfold plainLine in Ht'.
  apply andb_true_iff in Ht' as [Hc Hi].
  destruct (letter_classes c Hc) as (Hsp & _).
  assert (Hline : line = repeatStr "#" n ++ String " " (String c (r ++ chr CR)))
    by reflexivity.
  destruct (spanLen_hashes n (String c (r ++ chr CR))) as [Hspan Hdrop].
  assert (Hrange : (1 <=? n)%nat && (n <=? 4)%nat = true)
    by (apply andb_true_iff; split; apply Nat.leb_le; lia).
  assert (Hstart : startsHeading line = true).
  { unfold startsHeading. now rewrite Hline, Hspan, Hdrop, Hrange. }
  assert (Hmatch : matchHeading line = None).
  { unfold matchHeading. rewrite Hline, Hspan, Hdrop, Hrange.
    cbn [spanLen]. change (isSpace " ") with true. cbn iota. rewrite Hsp.
    cbn [firstDown dropStr String.eqb negb andb allChars].
    rewrite allChars_append. cbn [chr allChars].
    change (notTerminator CR) with false. now rewrite !andb_false_r. }
  assert (Hblocks : isBlank line = false /\ isListLine line = false
                    /\ isQuoteLine line = false /\ isRule line = false
                    /\ matchCodeLine line = None).
  { rewrite Hline. destruct n as [|k]; [lia|]. cbn [repeatStr String.append].
    now apply not_a_block_start. }
  destruct Hblocks as (H1 & H2 & H3 & H4 & H5).
  repeat split; try assumption.
  unfold line. rewrite !allChars_append.
  assert (Hh : allChars (fun x => negb (Ascii.eqb x BT) && negb (isLF x))
                        (repeatStr "#" n) = true).
  { clear. induction n as [|k IH]; [reflexivity|].
    cbn [repeatStr String.append allChars]. now rewrite IH. }
  assert (Hx : allChars (fun x => negb (Ascii.eqb x BT) && negb (isLF x))
                        (String c r) = true).
  { eapply allChars_weaken; [|exact Hi]. intros x Hx.
    destruct (inert_chars x Hx) as (_&_&_&_&_&H6&_&H8&_).
    unfold notChar, isLF in *. now rewrite H6, H8. }
  now rewrite Hh, Hx.
Qed.

(** C3.  The heading branch maps one hash to [h2], two and three to [h3]
    and four to [h4] as long as the text of the line holds no line
    terminator.  A heading line of a text whose lines end in a carriage
    return and a line feed keeps the carriage return: the heading pattern
    refuses it, no other block takes the line, and the paragraph loop
    stops in front of a line of hashes and a space without consuming it,
    so [renderMarkdown] runs for ever where the claim has a heading. *)
Theorem heading_with_carriage_return_hangs (n : nat) (text rest : string) :
  1 <= n <= 4 -> plainLine text = true ->
  renderMarkdown (repeatStr "#" n ++ " " ++ text)
  = Returned ("<" ++ headingTag n ++ ">" ++ text ++ "</" ++ headingTag n ++ ">")
  /\ renderMarkdown (repeatStr "#" n ++ " " ++ text ++ chr CR) = Diverges
  /\ renderMarkdown ((repeatStr "#" n ++ " " ++ text ++ chr CR) ++ nl ++ rest)
     = Diverges.
Proof.
  intros Hn Ht.
  destruct (heading_line_with_return n text Hn Ht)
    as (Hs & Hh & Hc & Hr & Hq & Hl & Hb & Hplain).
  split; [|exact (stalling_line _ rest Hs Hh Hc Hr Hq Hl Hb Hplain)].
  destruct text as [|c r]; [discriminate|].
  pose proof Ht as Ht'. unfold plainLine in Ht'.
  apply andb_true_iff in Ht' as [Hletter Hi].
  apply render_heading_line; [exact Hn | | exact Hi].
  exact (proj1 (letter_classes c Hletter)).
Qed.

Lemma heading_with_carriage_return_hangs_witness :
  (1 <= 1 <= 4 /\ plainLine "Title" = true)
  /\ renderMarkdown "# Title" = Returned "<h2>Title</h2>"
  /\ renderMarkdown ("# Title" ++ chr CR) = Diverges
  /\ renderMarkdown ("# Title" ++ chr CR ++ nl ++ "Body" ++ chr CR ++ nl) = Diverges.
Proof.
  split; [split; [lia | reflexivity]|].
  destruct (heading_with_carriage_return_hangs 1 "Title" ("Body" ++ chr CR ++ nl))
    as (H1 & H2 & H3); [lia | reflexivity|].
  split; [exact H1|]. split; [exact H2 | exact H3].
Defined.
